(* ===== verification/_CoqProject ===== *)
-Q . S2P
Prelude.v
Spdk.v
Arb.v
Engine.v
EngineInv.v
EngineSpec.v
Variants.v
ZoneReport.v
Workers.v
Schedule.v
Registry.v
EngineProps.v
ZoneReportProps.v
RegistrySpec.v
AssocSpec.v
Program.v
RegistryProps.v
ProgramProps.v
Measurement.v
MeasurementProps.v
Verify.v
VerifySpec.v
VerifyRun.v
VerifyProps.v
Launch.v
Config.v
ConfigProps.v
Family.v
FamilyProps.v
Nvmf.v
NvmfSpec.v
NvmfProps.v
Reactor.v
ReactorProps.v
Rdma.v
RdmaSpec.v
RdmaProps.v
BdevTest.v
BdevTestProps.v
Hello.v
HelloSpec.v
HelloProps.v
ObjectStore.v
ObjectStoreProps.v
ZkLock.v
ZkLockProps.v
ZkTest.v
ZkTestProps.v
SimpleAppend.v
SimpleAppendProps.v
Http.v
HttpProps.v
NvmeTest.v
NvmeTestProps.v
Civet.v
CivetProps.v
RingBuffer.v
RingBufferProps.v
