(* ===== verification/Prelude.v ===== *)
(** * ZNS emulation bench: a verification development

    The repository holds programs that exercise NVMe devices, above all zoned
    namespaces, through SPDK: a family of benchmarks, an NVMe-oF target, a
    prototype object store and small programs on ZooKeeper, RDMA and HTTP.  This
    development translates the programs that have logic of their own into
    executable definitions and proves what makes them correct, or shows by a
    theorem where they are not.  Paths are below [src/examples/].

    ** How a program is modelled

    Code is a state and error monad ([M], this file): a run ends with a result
    ([Done]), with the process ([Exited]), in undefined behaviour of C++
    ([Undef]: a null or freed pointer, a division by zero, a read past an array),
    or without enough fuel ([Spin]).  [wp] is total correctness of a run,
    [twp] total correctness of a run whose loops take fuel: there is one result
    for all large enough fuels, so a theorem in [twp] is a theorem that the code
    terminates.  No fuel is chosen anywhere: it is always quantified.  C integers
    are [Z] with the conversions of the code written out ([u8], [u32], [u64],
    [i32]).  Heap objects live in maps whose keys are the pointers, so sharing and
    dangling pointers are visible.

    Most programs of the benchmark family, and [remote-hello-world.cc], copy
    [sizeof(opts.hostnqn)] bytes from a string literal that is shorter.  What lies behind a
    literal is not the language's but the linker's business: it is a parameter
    ([Prelude.Image], [memcpy_literal]), and the theorems about whole programs say both what
    happens in an image where the bytes can be read and that the set-up is undefined where
    they cannot.

    What is not under [src/] is a class of operations with a class of laws, which
    state documented behaviour: SPDK's driver ([Spdk.Spdk], [SpdkAdmin],
    [ZoneReport.SpdkZones] and their laws over a logical view of the device: what is
    in flight, which buffers are live, which tasks the pool holds), its environment
    ([Family.SpdkEnv]), the contents of DMA buffers ([Verify.DmaData]), the NVMe-oF
    library ([Nvmf.NvmfLib]), SPDK's threads ([Reactor.ThreadLib]), its block devices
    ([BdevTest.BdevLib]), the queue pairs of a single thread ([Hello.HelloLib],
    [NvmeTest.NvLib]), the clock and allocator of the store
    ([ObjectStore.ZstoreLib]), the ZooKeeper client ([ZkLock.ZkLib], [ZkTest.ZooKeeper]),
    the zoned devices of the append benchmark ([SimpleAppend.ZnsDevice]), Civetweb
    ([Civet.CivetLib]), the RDMA verbs ([Rdma.RdmaLib]), the kym library
    ([RingBuffer.Kym]), and the file system and version string that the HTTP servers use
    (parameters of [Http]).  What [measurement.cc] takes from a header that is
    not in the repository is a parameter, with [MeasurementProps.store_header] for what it
    promises.  Each class of laws has an instance on which the
    witnesses run the programs.

    ** The parts and their files

    - The benchmark family: [arbitration/*.cc] and [multipath/*.cc].  [Arb] has the
      data of [arbitration.cc] that all copies share; [Engine] its I/O engine, from
      [submit_single_io] to [work_fn], over a [variant] that says what a copy does
      differently (its command, time stamps, final report); [Variants] has one
      variant per copy; [ZoneReport] the report of zones with which
      [arbitration_write.cc] opens its queue pairs; [Registry] the controllers,
      namespaces, workers, their association, the feature commands, clean-up and
      [main] up to the launch; [Launch] the set-up of every copy; [Config] the command
      line.  [main] calls [Config.parse_args], then [Registry.main_with], which calls
      the registrations and the association, and launches [Engine.work_fn] on every
      core; [Workers] lets the calls of all workers interleave, the opening and
      releasing of queue pairs included, and [Schedule] shows that a worker alone is
      one such schedule.  [Program] is the whole of [arbitration.cc] with its
      statistics; [Family] the whole of every copy, function by function.
    - [Measurement]: [measurement.cc], the engine of the read benchmark in a program of its
      own; [MeasurementProps] shows that the two engines agree, so that the lemmas of
      [EngineSpec] apply, and [EngineSpec.ticking_spec], [init_each_spec] and [close_all]
      are the lemmas on loops that both workers share.
    - [Verify]: [multipath/verification.cc], the only copy whose engine is not a
      variant: a completed append is queued with its address and its pattern and
      is read back and compared later.  Its tasks hold a string and its contexts a queue
      that no constructor has ever run for: [Verify.TaskStrings] and [pending_reads] say
      which have been constructed, and as the program is, none.
    - [Nvmf] and [Reactor]: [nvmf.cc].  [Nvmf] is the state machine of the target:
      functions that SPDK calls later are queued events, and any queued event, the
      migration poller or a signal may come next.  [Reactor] is what runs the
      threads: rings of threads, round-robin placement, the polling loop.
    - [BdevTest]: [rw_test.cc] and [zns_bdev_test.cc], a test of a zoned device whose
      requests complete in any order.  [NvmeTest]: [zns_nvme_test.cc], the same test
      on an NVMe queue pair that is polled from inside its callbacks.
    - [Hello]: [hello-world.cc] and [remote-hello-world.cc], a sequence that goes from
      callback to callback on one queue pair.
    - [ObjectStore]: [zstore.cc].
    - [ZkLock]: [zookeeper/zklock.cc], [zkleader.cc] and [zkclient.cc], as the
      callbacks that the ZooKeeper client runs.
    - [Rdma]: [rdma/rdma_client.cc] and [rdma/rdma_server.cc], the exchange of
      buffers between the two sides as the code sets it up.
    - [RingBuffer]: [rdma/circular_buffer_server.cc] and [rdma/circular_buffer_client.cc],
      a buffer that is mapped twice in a row and writes that cross its end.
    - [ZkTest]: [zookeeper/zktest.cc], the command-line client.
    - [SimpleAppend]: [simple_append.cc].
    - [Civet]: [embedded_cpp.cpp], the handlers of the embedded web server.
    - [Http]: the servers of [boost/]: what a request is answered, the session as
      callbacks and as a coroutine, the listener.

    Specifications and their helper lemmas are in [EngineInv], [EngineSpec],
    [RegistrySpec], [AssocSpec], [VerifySpec], [VerifyRun], [NvmfSpec], [RdmaSpec] and
    [HelloSpec]; the
    theorems a reader of the programs relies on are in the files whose names end
    in [Props], each numbered C1, C2, ... in its comment.

    ** What the theorems show

    - The engine: [work_fn] terminates and leaves nothing in flight (C1), by the
      invariant of [EngineInv] that ties every outstanding command to one task, one
      live buffer and one unit of queue depth; the invariant and the bounds of every
      command hold under any interleaving of workers (C2), and [work_fn] refines the
      interleaved steps (C4).  Submission and completion branch by branch (C5, C6); the
      report of the read benchmark stays in its arrays as long as no submission is
      refused (C7).  The worker of the write benchmark ends, its zone report included
      (C8), so does the one of [measurement.cc], however early its rounds break off
      (C9), and a copy whose submission is written in another order is the engine all the
      same (C10).
    - The set-up: namespaces, association and priorities (C11 to C13); a set-up that
      fails does not return its error (C14); the pool of [arbitration_rdma.cc] may be too
      small for its workers (C20); what clean-up finds is whether a task was lost (C29).
    - The command line: what [parse_args] checks, and that it checks nothing of the queue
      depth, the I/O size and the time (C15); a configuration is read back (C16).
    - Whole programs: [arbitration.cc] from a blank machine to its clean-up, its
      workers in any interleaving (C3), and every copy from its command line (C17).
    - Write and verify: the comparison is exact (C18), but the program never gets that far:
      its first I/O is undefined (C19).  What it would do with constructed strings and
      queues is in lemmas: the worker drains and its books balance
      ([VerifyProps.verification_drains]), what each completion counts
      ([verification_verdict]), a refused submission gives its task and buffer back
      ([verification_keeps_pool]).
    - The target: safety (C21) and the possibility of an end from every reachable
      state (C22); placement (C23) and the turn of a reactor (C24).
    - The zone test passes on a device that works, in any order of completion (C25);
      the one on an NVMe driver polls a queue pair it has released (C26).  The append
      benchmark counts the mismatches of one block only, whenever the device serves its
      reads (C27).
    - Both hello-world programs print what they have read back, once per namespace,
      and release what they hold, but for the mappings of small controller buffers (C28).
    - RDMA: the server offers what was asked for and releases everything (C30); the client
      never gets that far, its source is not a terminated string (C31; with one it would
      read back what it has written, [RdmaProps.client_copies]).  The client of the ring
      buffer test writes inside the ring it is told of, across its end too (C32).
    - The store returns too much (C33).  The lock grants in order (C34), and a
      session event breaks it (C35).  What the command-line client has stored it prints
      (C36).
    - HTTP: answers stay below the document root (C37), callbacks and coroutine are
      one protocol (C38), every request is answered once and in order (C39).  The
      embedded web server prints the pages of its three registered handlers and nothing else,
      and may end after a request for its exit path (C40).

    ** What is not modelled

    Progress messages and [usage], the DPDK command line, thread affinity and
    [pthread] calls; [readMetadata] of the store, which copies a [std::string] as
    bytes and is never called; the measurement of time in the RDMA client; the times
    that [simple_append.cc] prints; the parsing, sockets and time limits of the HTTP servers, which
    are Boost's, and the web socket of the embedded server, which is not compiled.  Other
    examples of Boost and Seastar ([boost_poll.cc], [boost_parallel.cc], [tcp_httpd.cc])
    are straight lines of calls to libraries; so are [main.cc], [check_read.cc] and [spdk_append.cc], whose library is a
    header that is not in the repository.  [zns_nvme_test.cc] is modelled from its buffers
    on, since what fills its context is in such a header too.  [test_append_read.cc] is
    commented out; [zoned.c] is C.  The members of [zstore.h], and what [rdma_common] does,
    which are not in the repository, are those that the code uses. *)
From stdpp Require Export prelude gmap strings list sorting.
From Stdlib Require Export ZArith Lia Ascii.

#[global] Set Default Goal Selector "!".
#[global] Open Scope Z_scope.

(** ** Machine integers

    A C integer is a [Z] together with the conversion that the code applies
    to it.  Unsigned conversions reduce modulo a power of two; conversions to
    a signed type keep the low bits and reinterpret the sign bit, as every
    compiler the project supports does. *)

Definition u8 (z : Z) : Z := z mod 2 ^ 8.
Definition u16 (z : Z) : Z := z mod 2 ^ 16.
Definition u32 (z : Z) : Z := z mod 2 ^ 32.
Definition u64 (z : Z) : Z := z mod 2 ^ 64.
Definition i32 (z : Z) : Z := (z + 2 ^ 31) mod 2 ^ 32 - 2 ^ 31.

Section machine_integers.
Lemma u8_range z : 0 ≤ u8 z < 256.
Proof. unfold u8. apply Z.mod_pos_bound. lia. Qed.
Lemma u32_range z : 0 ≤ u32 z < 2 ^ 32.
Proof. unfold u32. apply Z.mod_pos_bound. lia. Qed.
Lemma u64_range z : 0 ≤ u64 z < 2 ^ 64.
Proof. unfold u64. apply Z.mod_pos_bound. lia. Qed.
Lemma i32_range z : - 2 ^ 31 ≤ i32 z < 2 ^ 31.
Proof. unfold i32. pose proof (Z.mod_pos_bound (z + 2 ^ 31) (2 ^ 32)). lia. Qed.

Lemma u8_small z : 0 ≤ z < 256 → u8 z = z.
Proof. intros. unfold u8. apply Z.mod_small. lia. Qed.
Lemma u32_small z : 0 ≤ z < 2 ^ 32 → u32 z = z.
Proof. intros. unfold u32. apply Z.mod_small. lia. Qed.
Lemma u64_small z : 0 ≤ z < 2 ^ 64 → u64 z = z.
Proof. intros. unfold u64. apply Z.mod_small. lia. Qed.
Lemma i32_small z : - 2 ^ 31 ≤ z < 2 ^ 31 → i32 z = z.
Proof. intros. unfold i32. rewrite Z.mod_small; lia. Qed.

(** A signed number passed as an unsigned one comes back. *)
Lemma i32_u32 z : - 2 ^ 31 ≤ z < 2 ^ 31 → i32 (u32 z) = z.
Proof. intros Hz. unfold i32, u32. rewrite Zplus_mod_idemp_l. by apply i32_small. Qed.

(** The increment of a counter that has not wrapped yet. *)
Lemma u64_add_l a b : u64 (u64 a + b) = u64 (a + b).
Proof. unfold u64. by rewrite Zplus_mod_idemp_l. Qed.

(** Or-ing a field into the bits above another is an addition. *)
Lemma lor_above n a b : 0 ≤ n → 0 ≤ a < 2 ^ n → Z.lor a (b * 2 ^ n) = a + b * 2 ^ n.
Proof.
  intros Hn Ha. rewrite <-Z.lxor_lor, Z.add_nocarry_lxor; [done|..];
    (apply Z.bits_inj'; intros i Hi; rewrite Z.land_spec, Z.bits_0;
    rewrite <-Z.shiftl_mul_pow2 by done; destruct (decide (i < n));
    [rewrite Z.shiftl_spec_low by done; apply andb_false_r|
     rewrite <-(Z.mod_small a (2 ^ n)) by done; by rewrite Z.mod_pow2_bits_high by lia]).
Qed.
End machine_integers.

Create HintDb machine.
#[export] Hint Resolve u8_range u32_range u64_range i32_range : machine.

(** [wrap] removes the conversions whose argument is provably in range. *)
Ltac wrap :=
  repeat first
    [ rewrite u8_small by lia | rewrite u32_small by lia
    | rewrite u64_small by lia | rewrite i32_small by lia ].

(** ** Decimal numbers

    [std::to_string] of an unsigned number below [10 ^ fuel], and how the
    digits are read back. *)
Section decimal.
Local Open Scope string_scope.
Local Open Scope Z_scope.

Definition digit (c : ascii) : option Z :=
  let n := Z.of_nat (nat_of_ascii c) - 48 in
  if decide (0 ≤ n ≤ 9) then Some n else None.
Fixpoint decimal (acc : Z) (s : string) : Z :=
  match s with
  | EmptyString => acc
  | String c s' => match digit c with Some d => decimal (10 * acc + d) s' | None => - 22 end
  end.

Fixpoint digits (fuel : nat) (n : Z) (acc : string) : string :=
  match fuel with
  | O => acc
  | S fuel' =>
      let acc' := String (ascii_of_nat (Z.to_nat (48 + n mod 10))) acc in
      if decide (n < 10) then acc' else digits fuel' (n / 10) acc'
  end.

Lemma digit_of n : 0 ≤ n < 10 → digit (ascii_of_nat (Z.to_nat (48 + n))) = Some n.
Proof.
  intros Hn. assert (n = 0 ∨ n = 1 ∨ n = 2 ∨ n = 3 ∨ n = 4 ∨ n = 5 ∨ n = 6 ∨ n = 7 ∨
    n = 8 ∨ n = 9) as Hc by lia.
  destruct_or! Hc; subst; vm_compute; reflexivity.
Qed.

Lemma decimal_digits fuel n acc : 0 ≤ n < 10 ^ Z.of_nat fuel →
  decimal 0 (digits fuel n acc) = decimal n acc.
Proof.
  revert n acc. induction fuel as [|fuel IH]; intros n acc Hn; [simpl; f_equal; lia|].
  pose proof (Z.mod_pos_bound n 10). cbn [digits]. case_decide.
  - simpl. rewrite digit_of by lia. f_equal. rewrite Z.mod_small by lia. lia.
  - rewrite IH.
    + simpl. rewrite digit_of by lia. f_equal. pose proof (Z.div_mod n 10). lia.
    + rewrite Nat2Z.inj_succ, Z.pow_succ_r in Hn by lia.
      split; [apply Z.div_pos; lia|apply Z.div_lt_upper_bound; lia].
Qed.
End decimal.

(** ** Tokens moving between sets

    [P] is the set of all tokens, [A] the free ones and [F] the ones in use;
    what is in neither is lost. *)
Section tokens.
Context {K : Type} `{Countable K}.
Implicit Types (P A F : gset K) (t : K).

Lemma tokens_take P A F t : t ∈ A →
  P ∖ ((A ∖ {[t]}) ∪ ({[t]} ∪ F)) = P ∖ (A ∪ F).
Proof.
  intros Ht. apply set_eq. intros x. destruct (decide (x = t)) as [->|]; set_solver.
Qed.

Lemma tokens_lose P A F t : t ∈ A → t ∈ P → t ∉ F →
  P ∖ ((A ∖ {[t]}) ∪ F) = {[t]} ∪ (P ∖ (A ∪ F)).
Proof.
  intros ???. apply set_eq. intros x. destruct (decide (x = t)) as [->|]; set_solver.
Qed.

Lemma tokens_return P A F t : t ∈ F →
  P ∖ (({[t]} ∪ A) ∪ (F ∖ {[t]})) = P ∖ (A ∪ F).
Proof.
  intros Ht. apply set_eq. intros x. destruct (decide (x = t)) as [->|]; set_solver.
Qed.

Lemma size_take A t : t ∈ A → size A = S (size (A ∖ {[t]})).
Proof.
  intros Ht. rewrite size_difference, size_singleton by set_solver.
  assert (size A ≠ 0%nat) by (intros Hz; apply size_empty_inv in Hz; set_solver). lia.
Qed.
End tokens.

Lemma list_filter_none {A} (P : A → Prop) `{!∀ x, Decision (P x)} (l : list A) :
  (∀ x, x ∈ l → ¬ P x) → filter P l = [].
Proof.
  induction l as [|x l IH]; intros Hl; [done|].
  rewrite filter_cons_False by (apply Hl; set_solver). apply IH. set_solver.
Qed.

(** ** Running code: results, state and errors

    A call of the program ends in one of four ways.  [Done] is a normal
    return; [Exited] is a call of [exit] (the process is gone, later calls do
    not run); [Undef] is undefined behaviour of C++ (a null or dangling
    pointer is used, a division by zero, ...); [Spin] means that the fuel of a
    loop did not suffice, so it is never a legal result of a theorem that
    claims termination. *)
Inductive outcome (S A : Type) : Type :=
  | Done (a : A) (s : S)
  | Exited (code : Z) (s : S)
  | Undef
  | Spin.
Arguments Done {S A} a s.
Arguments Exited {S A} code s.
Arguments Undef {S A}.
Arguments Spin {S A}.

Definition M (S A : Type) : Type := S → outcome S A.

#[export] Instance M_ret {S} : MRet (M S) := λ A a s, Done a s.
#[export] Instance M_bind {S} : MBind (M S) := λ A B k m s,
  match m s with
  | Done a s' => k a s'
  | Exited c s' => Exited c s'
  | Undef => Undef
  | Spin => Spin
  end.

Definition get {S} : M S S := λ s, Done s s.
Definition gets {S A} (f : S → A) : M S A := λ s, Done (f s) s.
Definition modify {S} (f : S → S) : M S () := λ s, Done () (f s).
Definition exit {S A} (code : Z) : M S A := λ s, Exited code s.
Definition undef {S A} : M S A := λ _, Undef.
Definition skip {S} : M S () := mret ().

(** [of_option o] dereferences a pointer: a null pointer is undefined. *)
Definition of_option {S A} (o : option A) : M S A :=
  match o with Some a => mret a | None => undef end.

(** The exit status of a failed [assert] or of an exception that nothing catches: the
    process is killed by SIGABRT. *)
Definition SIGABRT_status : Z := 134.

(** [while (c) body], run for at most [fuel] iterations. *)
Fixpoint while {S} (fuel : nat) (c : S → bool) (body : M S ()) : M S () :=
  match fuel with
  | O => λ s, if c s then Spin else Done () s
  | S fuel' => λ s, if c s then (body ;; while fuel' c body) s else Done () s
  end.

(** [while (poll ()) ;], with at most [fuel] calls. *)
Fixpoint poll_while {S} (fuel : nat) (poll : M S bool) : M S () :=
  match fuel with
  | O => λ _, Spin
  | S fuel' => again ← poll; if again : bool then poll_while fuel' poll else skip
  end.

(** The loop that visits every element of a queue in order. *)
Fixpoint foreach {S A} (l : list A) (f : A → M S ()) : M S () :=
  match l with
  | [] => skip
  | a :: l' => f a ;; foreach l' f
  end.

(** A loop [while (n-- > 0) body]. *)
Fixpoint repeat_m {S} (n : nat) (body : M S ()) : M S () :=
  match n with
  | O => skip
  | S n' => body ;; repeat_m n' body
  end.

(** ** String literals in memory

    How many bytes can be read from the start of a literal in the image of the program.
    The standard promises its characters and the terminator; what lies behind them is up
    to compiler and linker.  A [memcpy] of [n] bytes that leaves the image, or, on the
    [strict_image], the literal, is undefined. *)
Class Image := literal_bytes : string → Z.

Definition strict_image : Image := λ l, Z.of_nat (String.length l) + 1.

Definition memcpy_literal {S} `{!Image} (n : Z) (l : string) : M S () :=
  if decide (n ≤ literal_bytes l) then skip else undef.

(** ** Total correctness

    [wp m Q X s] says that running [m] from [s] terminates without undefined
    behaviour, that a normal return satisfies [Q] and that a call of [exit]
    satisfies [X].  It is a predicate transformer, so composed programs are
    verified by composing the lemmas of their parts. *)
Definition wp {S A} (m : M S A) (Q : A → S → Prop) (X : Z → S → Prop) (s : S)
    : Prop :=
  match m s with
  | Done a s' => Q a s'
  | Exited c s' => X c s'
  | Undef => False
  | Spin => False
  end.

Section wp.
Context {S : Type}.
Implicit Types (X : Z → S → Prop) (s : S).

Lemma wp_ret {A} (a : A) Q X s : Q a s → wp (mret a) Q X s.
Proof. done. Qed.

Lemma wp_bind {A B} (m : M S A) (k : A → M S B) Q X s :
  wp m (λ a, wp (k a) Q X) X s → wp (m ≫= k) Q X s.
Proof.
  unfold wp, mbind, M_bind. destruct (m s); simpl; done.
Qed.

Lemma wp_seq {A B} (m : M S A) (k : M S B) Q X s :
  wp m (λ _, wp k Q X) X s → wp (m ;; k) Q X s.
Proof. apply wp_bind. Qed.

Lemma wp_mono {A} (m : M S A) (Q Q' : A → S → Prop) X X' s :
  wp m Q X s → (∀ a s', Q a s' → Q' a s') → (∀ c s', X c s' → X' c s') →
  wp m Q' X' s.
Proof. unfold wp. destruct (m s); naive_solver. Qed.

Lemma wp_weaken {A} (m : M S A) (Q Q' : A → S → Prop) X s :
  wp m Q X s → (∀ a s', Q a s' → Q' a s') → wp m Q' X s.
Proof. intros H HQ. eapply wp_mono; [exact H|exact HQ|done]. Qed.

Lemma wp_get Q X s : Q s s → wp get Q X s.
Proof. done. Qed.
Lemma wp_gets {A} (f : S → A) Q X s : Q (f s) s → wp (gets f) Q X s.
Proof. done. Qed.
Lemma wp_modify f Q X s : Q tt (f s) → wp (modify f) Q X s.
Proof. done. Qed.
Lemma wp_skip Q X s : Q tt s → wp skip Q X s.
Proof. done. Qed.
Lemma wp_exit {A} c (Q : A → S → Prop) X s : X c s → wp (exit c) Q X s.
Proof. done. Qed.
Lemma wp_of_option {A} (o : option A) a Q X s :
  o = Some a → Q a s → wp (of_option o) Q X s.
Proof. by intros ->. Qed.

(** What [wp] says about a run whose result is known. *)
Lemma wp_done {A} (m : M S A) Q X s a s' : wp m Q X s → m s = Done a s' → Q a s'.
Proof. unfold wp. intros Hm E. by rewrite E in Hm. Qed.

(** A sequence returns when both parts do. *)
Lemma bind_done {A B} (m : M S A) (k : A → M S B) s b s' :
  (m ≫= k) s = Done b s' → ∃ a s1, m s = Done a s1 ∧ k a s1 = Done b s'.
Proof. unfold mbind, M_bind. intros H. destruct (m s) as [a s1|c s1| |]; [by exists a, s1|discriminate..]. Qed.

(** A loop over two lists is two loops, and over copies of one element a repetition. *)
Lemma foreach_app {A} (l1 l2 : list A) (f : A → M S ()) s :
  foreach (l1 ++ l2) f s = (foreach l1 f;; foreach l2 f) s.
Proof.
  revert s. induction l1 as [|x l IH]; intros s; simpl; [done|].
  unfold mbind, M_bind in *. destruct (f x s); [apply IH|done..].
Qed.

Lemma foreach_replicate {A} n (p : A) (f : A → M S ()) s :
  foreach (replicate n p) f s = repeat_m n (f p) s.
Proof.
  revert s. induction n as [|n IH]; intros s; simpl; [done|].
  unfold mbind, M_bind in *. destruct (f p s); [apply IH|done..].
Qed.

(** The loop over a queue keeps an invariant that may speak about the
    elements already visited. *)
Lemma wp_foreach {A} (f : A → M S ()) (I : list A → S → Prop) X (l : list A) s :
  (∀ pre a rest s', l = pre ++ a :: rest → I pre s' →
     wp (f a) (λ _ s'', I (pre ++ [a]) s'') X s') →
  I [] s → wp (foreach l f) (λ _ s', I l s') X s.
Proof.
  intros Hf H0.
  assert (∀ rest pre s', l = pre ++ rest → I pre s' →
    wp (foreach rest f) (λ _ s'', I l s'') X s') as Hgen.
  { induction rest as [|a rest IH]; intros pre s' Hl HI; simpl.
    - rewrite app_nil_r in Hl. subst. by apply wp_skip.
    - apply wp_seq. eapply wp_weaken; [by eapply Hf|].
      intros [] s'' HI'. apply IH with (pre := pre ++ [a]); [|done].
      by rewrite <-app_assoc. }
  by apply (Hgen l []).
Qed.

Lemma wp_foreach_inv {A} (f : A → M S ()) (I : S → Prop) X (l : list A) s :
  (∀ a s', a ∈ l → I s' → wp (f a) (λ _, I) X s') →
  I s → wp (foreach l f) (λ _, I) X s.
Proof.
  intros Hf HI. apply (wp_foreach f (λ _, I)); [|done].
  intros pre a rest s' -> ?. apply Hf; [|done]. set_solver.
Qed.

Lemma wp_repeat (body : M S ()) (I : nat → S → Prop) X n s :
  (∀ k s', (k < n)%nat → I k s' → wp body (λ _, I (Datatypes.S k)) X s') →
  I O s → wp (repeat_m n body) (λ _, I n) X s.
Proof.
  intros Hb H0.
  assert (∀ m k s', (k + m = n)%nat → I k s' →
    wp (repeat_m m body) (λ _, I n) X s') as Hgen.
  { induction m as [|m IH]; intros k s' Hk HI; simpl.
    - replace n with k by lia. by apply wp_skip.
    - apply wp_seq. eapply wp_weaken; [apply (Hb k); [lia|done]|].
      intros [] s'' HI'. apply (IH (Datatypes.S k)); [lia|done]. }
  by apply (Hgen n O).
Qed.

(** A loop whose measure decreases terminates, and [fuel] only has to
    exceed the measure. *)
Lemma wp_while c (body : M S ()) (I : S → Prop) (μ : S → nat) X fuel s :
  (∀ s', I s' → c s' = true →
     wp body (λ _ s'', I s'' ∧ (μ s'' < μ s')%nat) X s') →
  I s → (μ s < fuel)%nat →
  wp (while fuel c body) (λ _ s', I s' ∧ c s' = false) X s.
Proof.
  intros Hb. revert s. induction fuel as [|fuel IH]; intros s HI Hμ;
    (destruct (c s) eqn:Hc; [|by unfold wp; simpl; rewrite Hc]).
  - exfalso. lia.
  - unfold wp. simpl. rewrite Hc.
    change (wp (body ;; while fuel c body)
      (λ _ s', I s' ∧ c s' = false) X s).
    apply wp_seq. eapply wp_weaken; [by apply Hb|].
    intros [] s' [??]. apply IH; [done|lia].
Qed.
End wp.

(** ** Termination with enough fuel

    [twp f Q X s] says that [f], whose argument is the fuel of its loops, gives
    one and the same result for every large enough fuel, and that this result
    is as [wp] demands. *)
Definition twp {S A} (f : nat → M S A) (Q : A → S → Prop) (X : Z → S → Prop)
    (s : S) : Prop :=
  ∃ n r, (∀ m, (n ≤ m)%nat → f m s = r) ∧ wp (λ _, r) Q X s.

Section twp.
Context {S : Type}.
Implicit Types (X : Z → S → Prop) (s : S).

Lemma twp_wp {A} (m : M S A) Q X s : wp m Q X s → twp (λ _, m) Q X s.
Proof. intros Hm. by exists O, (m s). Qed.

Lemma twp_elim {A} (f : nat → M S A) Q X s :
  twp f Q X s → ∃ n, ∀ m, (n ≤ m)%nat → wp (f m) Q X s.
Proof.
  intros (n&r&Hr&Hw). exists n. intros m Hm. unfold wp in *. by rewrite Hr.
Qed.

Lemma twp_mono {A} (f : nat → M S A) (Q Q' : A → S → Prop) X X' s :
  twp f Q X s → (∀ a s', Q a s' → Q' a s') → (∀ c s', X c s' → X' c s') →
  twp f Q' X' s.
Proof.
  intros (n&r&Hr&Hw) ??. exists n, r. split; [done|]. by eapply wp_mono.
Qed.

Lemma twp_weaken {A} (f : nat → M S A) (Q Q' : A → S → Prop) X s :
  twp f Q X s → (∀ a s', Q a s' → Q' a s') → twp f Q' X s.
Proof. intros. by eapply twp_mono. Qed.

Lemma twp_bind {A B} (f : nat → M S A) (g : nat → A → M S B) Q X s :
  twp f (λ a, twp (λ m, g m a) Q X) X s → twp (λ m, f m ≫= g m) Q X s.
Proof.
  intros (n&r&Hr&Hw). unfold wp in Hw. destruct r as [a s'|c s'| |]; [|..|done|done].
  - destruct Hw as (n'&r&Hr'&Hw). exists (n `max` n')%nat, r. split; [|done].
    intros m Hm. unfold mbind, M_bind. rewrite Hr by lia. apply Hr'. lia.
  - exists n, (Exited c s'). split; [|done].
    intros m Hm. unfold mbind, M_bind. by rewrite Hr.
Qed.

Lemma twp_bind_wp {A B} (m0 : M S A) (g : nat → A → M S B) Q X s :
  wp m0 (λ a, twp (λ m, g m a) Q X) X s → twp (λ m, m0 ≫= g m) Q X s.
Proof. intros. by apply (twp_bind (λ _, m0)), twp_wp. Qed.

(** A function that spends one unit of its fuel. *)
Lemma twp_S {A} (f g : nat → M S A) Q X s :
  (∀ n, f (Datatypes.S n) = g n) → twp g Q X s → twp f Q X s.
Proof.
  intros Hf (n&r&Hr&Hw). exists (Datatypes.S n), r. split; [|done].
  intros [|m] Hm; [lia|]. rewrite Hf. apply Hr. lia.
Qed.

Lemma twp_while c (body : M S ()) (I : S → Prop) (μ : S → nat) X s :
  (∀ s', I s' → c s' = true →
     wp body (λ _ s'', I s'' ∧ (μ s'' < μ s')%nat) X s') →
  I s → twp (λ n, while n c body) (λ _ s', I s' ∧ c s' = false) X s.
Proof.
  intros Hb.
  remember (μ s) as k eqn:Hk. revert s Hk.
  induction (lt_wf k) as [k _ IH]; intros s -> HI.
  destruct (c s) eqn:Hc.
  - specialize (Hb s HI Hc). unfold wp in Hb.
    destruct (body s) as [[] s'|code s'| |] eqn:Hbody; [|..|done|done].
    + destruct Hb as [HI' Hlt]. destruct (IH _ Hlt s' eq_refl HI') as (n&r&Hr&Hw).
      exists (Datatypes.S n), r. split; [|done]. intros [|m] Hm; [lia|].
      simpl. rewrite Hc. unfold mbind, M_bind. rewrite Hbody. apply Hr. lia.
    + exists 1%nat, (Exited code s'). split; [|done]. intros [|m] Hm; [lia|].
      simpl. rewrite Hc. unfold mbind, M_bind. by rewrite Hbody.
  - exists O, (Done () s). split; [|done].
    intros [|m] _; simpl; by rewrite Hc.
Qed.

Lemma twp_poll_while (poll : M S bool) (I : S → Prop) (μ : S → nat) X s :
  (∀ s', I s' → wp poll (λ again s'', I s'' ∧ (again = true → (μ s'' < μ s')%nat)) X s') →
  I s → twp (λ n, poll_while n poll) (λ _ s', I s') X s.
Proof.
  intros Hp. remember (μ s) as k eqn:Hk. revert s Hk.
  induction (lt_wf k) as [k _ IH]; intros s -> HI.
  apply (twp_S _ (λ n, again ← poll; if again : bool then poll_while n poll else skip));
    [done|].
  apply twp_bind_wp. eapply wp_weaken; [by apply Hp|]. intros [] s' [HI' Hlt].
  - by eapply IH; [apply Hlt| |].
  - by apply twp_wp, wp_skip.
Qed.

Lemma twp_foreach {A} (f : nat → A → M S ()) (I : list A → S → Prop) X (l : list A) s :
  (∀ pre a rest s', l = pre ++ a :: rest → I pre s' →
     twp (λ n, f n a) (λ _ s'', I (pre ++ [a]) s'') X s') →
  I [] s → twp (λ n, foreach l (f n)) (λ _ s', I l s') X s.
Proof.
  intros Hf H0.
  assert (∀ rest pre s', l = pre ++ rest → I pre s' →
    twp (λ n, foreach rest (f n)) (λ _ s'', I l s'') X s') as Hgen.
  { induction rest as [|a rest IH]; intros pre s' Hl HI; simpl.
    - rewrite app_nil_r in Hl. subst. by apply twp_wp, wp_skip.
    - apply (twp_bind (λ n, f n a) (λ n _, foreach rest (f n))).
      eapply twp_weaken; [by eapply Hf|].
      intros [] s'' HI'. apply IH with (pre := pre ++ [a]); [|done].
      by rewrite <-app_assoc. }
  by apply (Hgen l []).
Qed.
End twp.

Create HintDb wp.
#[export] Hint Resolve wp_ret wp_skip wp_exit : wp.

(** [wp_step] applies the rule of the program's first instruction. *)
Ltac wp_step :=
  lazymatch goal with
  | |- wp (mret _) _ _ _ => apply wp_ret
  | |- wp skip _ _ _ => apply wp_skip
  | |- wp get _ _ _ => apply wp_get
  | |- wp (gets _) _ _ _ => apply wp_gets
  | |- wp (modify _) _ _ _ => apply wp_modify
  | |- wp (exit _) _ _ _ => apply wp_exit
  | |- wp (of_option _) _ _ _ => eapply wp_of_option; [eassumption|]
  | |- wp (_ ≫= _) _ _ _ => apply wp_bind
  end; simpl.
Ltac wp_steps := repeat wp_step.
