(* ===== verification/Spdk.v ===== *)
(** * The NVMe driver as the programs see it

    SPDK is not part of the repository.  This file states the part of its
    interface that the benchmark programs call, as a class of operations on an
    abstract environment [W] (the device, the driver, the huge-page memory and
    the clock), and the documented behaviour that the programs rely on, as a
    class of laws over a logical view of that environment.  The last section
    gives a small simulated device that satisfies every law; the witnesses of
    the other files run the programs on it. *)
From S2P Require Import Prelude.

(** ** Commands and completions *)

(** An I/O command as it reaches the device. *)
Inductive io_cmd :=
  | cmd_read (ns buf lba nlb : Z)
  | cmd_write (ns buf lba nlb : Z)
  | zone_append (ns buf zslba nlb : Z).

#[export] Instance io_cmd_eq_dec : EqDecision io_cmd.
Proof. solve_decision. Defined.

(** The first and the one-past-last logical block of a command. *)
Definition cmd_first (c : io_cmd) : Z :=
  match c with cmd_read _ _ l _ | cmd_write _ _ l _ | zone_append _ _ l _ => l end.
Definition cmd_blocks (c : io_cmd) : Z :=
  match c with cmd_read _ _ _ n | cmd_write _ _ _ n | zone_append _ _ _ n => n end.
Definition cmd_buf (c : io_cmd) : Z :=
  match c with cmd_read _ b _ _ | cmd_write _ b _ _ | zone_append _ b _ _ => b end.
Definition cmd_ns (c : io_cmd) : Z :=
  match c with cmd_read n _ _ _ | cmd_write n _ _ _ | zone_append n _ _ _ => n end.

(** A completion: dword 0 and whether [spdk_nvme_cpl_is_error] holds. *)
Record cpl := Cpl { cdw0 : Z; is_error : bool }.

(** ** Operations

    [T] is what the program passes to the driver with a command: the callback
    together with its argument.  A call of
    [spdk_nvme_qpair_process_completions] polls at most [poll_budget] times
    and hands every completion it finds to its callback. *)
Class Spdk (W T : Type) := {
  pool_create : Z → W → bool * W;
  pool_get : W → option Z * W;
  pool_put : Z → W → W;
  pool_count : W → Z;
  dma_zmalloc : Z → W → option Z * W;
  dma_free : Z → W → W;
  submit : Z → io_cmd → T → W → Z * W;
  poll_budget : Z → Z → W → nat;
  poll_next : Z → W → option (T * cpl) * W;
  alloc_io_qpair : Z → Z → W → option Z * W;
  free_io_qpair : Z → W → W;
  get_ticks : W → Z * W;
  clock_now : W → Z * W;
  rand_r : W → Z * W;
  malloc_ok : W → bool * W;
}.

(** The calls that a running program makes on its I/O side. *)
Inductive io_call `{!Spdk W T} : W → W → Prop :=
  | io_pool_get w : io_call w (pool_get w).2
  | io_pool_put t w : io_call w (pool_put t w)
  | io_zmalloc n w : io_call w (dma_zmalloc n w).2
  | io_free b w : io_call w (dma_free b w)
  | io_submit q k t w : io_call w (submit q k t w).2
  | io_poll q w : io_call w (poll_next q w).2
  | io_alloc c p w : io_call w (alloc_io_qpair c p w).2
  | io_release q w : io_call w (free_io_qpair q w)
  | io_ticks w : io_call w (get_ticks w).2
  | io_clock w : io_call w (clock_now w).2
  | io_rand w : io_call w (rand_r w).2.

(** ** The logical view

    The tasks in the pool, the DMA buffers handed out, the open queue pairs,
    and the commands that the device has accepted and not yet completed. *)
Record spdk_view (T : Type) `{Countable T} := View {
  avail : gset Z;
  held : gset Z;
  qpairs : gset Z;
  inflight : gmap T (Z * io_cmd);
}.
Arguments View {_ _ _} _ _ _ _.
Arguments avail {_ _ _} _.
Arguments held {_ _ _} _.
Arguments qpairs {_ _ _} _.
Arguments inflight {_ _ _} _.

Section view_updates.
Context {T : Type} `{Countable T}.
Definition with_avail (f : gset Z → gset Z) (v : spdk_view T) : spdk_view T :=
  View (f (avail v)) (held v) (qpairs v) (inflight v).
Definition with_held (f : gset Z → gset Z) (v : spdk_view T) : spdk_view T :=
  View (avail v) (f (held v)) (qpairs v) (inflight v).
Definition with_qpairs (f : gset Z → gset Z) (v : spdk_view T) : spdk_view T :=
  View (avail v) (held v) (f (qpairs v)) (inflight v).
Definition with_inflight (f : gmap T (Z * io_cmd) → gmap T (Z * io_cmd))
    (v : spdk_view T) : spdk_view T :=
  View (avail v) (held v) (qpairs v) (f (inflight v)).

(** The commands in flight on one queue pair, and how many they are. *)
Definition on_qpair (q : Z) (m : gmap T (Z * io_cmd)) : gmap T (Z * io_cmd) :=
  filter (λ p, p.2.1 = q) m.
Definition depth (q : Z) (m : gmap T (Z * io_cmd)) : nat := size (on_qpair q m).
End view_updates.

(** *** Counting the commands of a queue pair *)
Section depth.
Context {T : Type} `{Countable T}.
Implicit Types (m : gmap T (Z * io_cmd)).

Lemma depth_insert_eq q c t m :
  m !! t = None → depth q (<[t := (q, c)]> m) = S (depth q m).
Proof.
  intros Ht. unfold depth, on_qpair.
  rewrite map_filter_insert_True by done. apply map_size_insert_None.
  by apply map_lookup_filter_None_2; left.
Qed.

Lemma depth_insert_ne q q' c t m :
  m !! t = None → q ≠ q' → depth q' (<[t := (q, c)]> m) = depth q' m.
Proof.
  intros Ht Hq. unfold depth, on_qpair.
  by rewrite map_filter_insert_not' by (naive_solver congruence).
Qed.

Lemma depth_delete_eq q c t m :
  m !! t = Some (q, c) → depth q m = S (depth q (delete t m)).
Proof.
  intros Ht. rewrite <-(depth_insert_eq q c t (delete t m)) by apply lookup_delete_eq.
  by rewrite insert_delete_id.
Qed.

Lemma depth_delete_ne q q' c t m :
  m !! t = Some (q, c) → q ≠ q' → depth q' (delete t m) = depth q' m.
Proof.
  intros Ht Hq. rewrite <-(depth_insert_ne q q' c t (delete t m));
    [|apply lookup_delete_eq|done].
  by rewrite insert_delete_id.
Qed.

Lemma depth_le_size q m : (depth q m ≤ size m)%nat.
Proof. apply map_size_filter. Qed.

Lemma depth_mono q m m' : m' ⊆ m → (depth q m' ≤ depth q m)%nat.
Proof.
  intros Hm. unfold depth, on_qpair. rewrite <-!size_dom. apply subseteq_size.
  apply subseteq_dom, map_subseteq_spec. intros t x [? ?]%map_lookup_filter_Some.
  apply map_lookup_filter_Some. split; [by eapply lookup_weaken|done].
Qed.

Lemma depth_zero q m t c : depth q m = O → m !! t = Some (q, c) → False.
Proof. intros Hd Ht. by rewrite (depth_delete_eq _ _ _ _ Ht) in Hd. Qed.
End depth.

Class SpdkView (W T : Type) `{Countable T} := {
  view : W → spdk_view T;
  (** an upper bound on the polls of a queue pair that may still be needed
      until its outstanding commands have completed *)
  lag : Z → W → nat;
  (** the time stamp counter *)
  tsc : W → Z;
}.

(** ** Laws

    The behaviour that SPDK documents and the programs rely on.  [quiet]
    collects what holds of every call that touches neither the I/O queues nor
    the clock. *)
Definition quiet `{Countable T} `{!SpdkView W T} (w w' : W) : Prop :=
  (∀ q, lag q w' = lag q w) ∧ tsc w' = tsc w.

Class SpdkLaws (W T : Type) `{Countable T} `{!Spdk W T} `{!SpdkView W T} : Prop := {
  pool_create_true n w w' : pool_create n w = (true, w') → ∃ A,
    Z.of_nat (size A) = n ∧ view w' = with_avail (λ _, A) (view w) ∧ quiet w w';
  pool_create_false n w w' : pool_create n w = (false, w') →
    view w' = view w ∧ quiet w w';
  pool_get_some w t w' : pool_get w = (Some t, w') →
    t ∈ avail (view w) ∧
    view w' = with_avail (λ X, X ∖ {[t]}) (view w) ∧ quiet w w';
  pool_get_none w w' : pool_get w = (None, w') →
    avail (view w) = ∅ ∧ view w' = view w ∧ quiet w w';
  pool_put_law w t : t ∉ avail (view w) →
    view (pool_put t w) = with_avail (λ X, {[t]} ∪ X) (view w) ∧ quiet w (pool_put t w);
  pool_count_law w : pool_count w = Z.of_nat (size (avail (view w)));
  dma_zmalloc_some n w b w' : dma_zmalloc n w = (Some b, w') →
    (b ∉ held (view w)) ∧ view w' = with_held (λ X, {[b]} ∪ X) (view w) ∧ quiet w w';
  dma_zmalloc_none n w w' : dma_zmalloc n w = (None, w') →
    view w' = view w ∧ quiet w w';
  dma_free_law w b : b ∈ held (view w) →
    view (dma_free b w) = with_held (λ X, X ∖ {[b]}) (view w) ∧ quiet w (dma_free b w);
  submit_ok q c t w w' : submit q c t w = (0, w') → inflight (view w) !! t = None →
    view w' = with_inflight (insert t (q, c)) (view w) ∧ tsc w ≤ tsc w';
  submit_failed q c t w rc w' : submit q c t w = (rc, w') → rc ≠ 0 →
    view w' = view w ∧ quiet w w';
  poll_budget_pos q max w : (0 < poll_budget q max w)%nat;
  poll_some q w t r w' : poll_next q w = (Some (t, r), w') →
    (∃ c, inflight (view w) !! t = Some (q, c)) ∧
    view w' = with_inflight (delete t) (view w) ∧ tsc w ≤ tsc w';
  poll_none q w w' : poll_next q w = (None, w') →
    view w' = view w ∧ tsc w ≤ tsc w';
  poll_progress q w r w' : poll_next q w = (r, w') →
    depth q (inflight (view w)) ≠ 0%nat → (lag q w' < lag q w)%nat;
  poll_idle q w r w' : poll_next q w = (r, w') → (lag q w' ≤ lag q w)%nat;
  alloc_io_qpair_some c p w q w' : alloc_io_qpair c p w = (Some q, w') →
    (q ∉ qpairs (view w)) ∧ depth q (inflight (view w)) = 0%nat ∧
    view w' = with_qpairs (λ X, {[q]} ∪ X) (view w) ∧ tsc w ≤ tsc w';
  alloc_io_qpair_none c p w w' : alloc_io_qpair c p w = (None, w') →
    view w' = view w ∧ tsc w ≤ tsc w';
  free_io_qpair_law q w : depth q (inflight (view w)) = 0%nat →
    view (free_io_qpair q w) = with_qpairs (λ X, X ∖ {[q]}) (view w) ∧
    quiet w (free_io_qpair q w);
  get_ticks_law w t w' : get_ticks w = (t, w') →
    t = tsc w ∧ tsc w < tsc w' ∧ view w' = view w ∧ (∀ q, lag q w' = lag q w);
  clock_now_law w t w' : clock_now w = (t, w') → view w' = view w ∧ quiet w w';
  rand_r_law w r w' : rand_r w = (r, w') →
    0 ≤ r < 2 ^ 31 ∧ view w' = view w ∧ quiet w w';
  malloc_ok_law w b w' : malloc_ok w = (b, w') → view w' = view w ∧ quiet w w';
}.

(** ** The administrative side of the driver *)

(** A command of the admin queue, with what its callback needs. *)
Inductive admin_cmd :=
  | set_latency_tracking (enable : bool)
  | get_features (fid : Z)
  | get_log_page (lid : Z)
  | set_arbitration (cdw11 : Z).

Record transport_id := TransportId {
  trtype : string; adrfam : string; traddr : string; trsvcid : string; subnqn : string }.

(** The buckets of [spdk_nvme_intel_rw_latency_page]. *)
Record latency_page := LatencyPage {
  buckets_32us : list Z; buckets_1ms : list Z; buckets_32ms : list Z }.

(** [log_page c l w] is what the controller [c] has written for its log page [l];
    [detaching w] tells that [nvme_detach_async] has made a context to be polled, and
    [nvme_detach_poll] gives whether the answer is [-EAGAIN]. *)
Class SpdkAdmin (W : Type) := {
  ns_get_size : Z → Z;
  ns_get_extended_sector_size : Z → Z;
  ns_get_sector_size : Z → Z;
  get_first_active_ns : Z → W → Z;
  get_next_active_ns : Z → Z → W → Z;
  ctrlr_get_ns : Z → Z → W → option Z;
  feature_supported : Z → W → bool;
  log_page_supported : Z → Z → W → bool;
  log_page : Z → Z → W → latency_page;
  cap_ams : Z → W → Z;
  admin_submit : Z → admin_cmd → W → Z * W;
  admin_poll : Z → W → list (admin_cmd * cpl) * W;
  env_cores : W → list Z;
  current_core : Z;
  nvme_connect : transport_id → W → option Z * W;
  nvme_detach_async : Z → W → W;
  detaching : W → bool;
  nvme_detach_poll : W → bool * W;
  env_fini : W → W;
  get_ticks_hz : W → Z;
}.

(** The commands a controller has accepted and not yet answered, and a bound
    on the polls that they may still need. *)
Class SpdkAdminView (W : Type) := {
  admin_pending : Z → W → list admin_cmd;
  admin_lag : Z → W → nat;
  detach_lag : W → nat;
}.

Class SpdkAdminLaws (W T : Type) `{Countable T} `{!Spdk W T} `{!SpdkView W T}
    `{!SpdkAdmin W} `{!SpdkAdminView W} : Prop := {
  malloc_admin w b w' : malloc_ok w = (b, w') →
    ∀ c, admin_pending c w' = admin_pending c w;
  pool_create_admin n w b w' : pool_create n w = (b, w') →
    ∀ c, admin_pending c w' = admin_pending c w;
  io_call_admin w w' c : io_call (T := T) w w' → admin_pending c w = [] →
    admin_pending c w' = [];
  admin_submit_ok c k w w' : admin_submit c k w = (0, w') →
    admin_pending c w' = admin_pending c w ++ [k] ∧ view w' = view w;
  admin_submit_failed c k w rc w' : admin_submit c k w = (rc, w') → rc ≠ 0 →
    admin_pending c w' = admin_pending c w ∧ view w' = view w;
  admin_poll_law c w l w' : admin_poll c w = (l, w') →
    admin_pending c w ≡ₚ l.*1 ++ admin_pending c w' ∧ view w' = view w;
  admin_poll_progress c w l w' : admin_poll c w = (l, w') →
    admin_pending c w ≠ [] → (admin_lag c w' < admin_lag c w)%nat;
  admin_submit_other c k w rc w' c' : admin_submit c k w = (rc, w') → c' ≠ c →
    admin_pending c' w' = admin_pending c' w;
  admin_poll_other c w l w' c' : admin_poll c w = (l, w') → c' ≠ c →
    admin_pending c' w' = admin_pending c' w;
  admin_poll_lag c w l w' c' : admin_poll c w = (l, w') →
    (admin_lag c' w' ≤ admin_lag c' w)%nat;
  nvme_detach_law c w : view (nvme_detach_async c w) = view w ∧
    (∀ c', admin_pending c' (nvme_detach_async c w) = admin_pending c' w);
  nvme_detach_poll_law w b w' : nvme_detach_poll w = (b, w') → view w' = view w ∧
    (∀ c', admin_pending c' w' = admin_pending c' w) ∧
    (b = true → (detach_lag w' < detach_lag w)%nat);
  ns_geometry ns : 0 < ns_get_sector_size ns ≤ ns_get_extended_sector_size ns ∧
    0 ≤ ns_get_size ns < 2 ^ 64;
  next_active_ns_law c n w : get_next_active_ns c n w = 0 ∨
    n < get_next_active_ns c n w < 2 ^ 32;
  nvme_connect_law t w c w' : nvme_connect t w = (c, w') → view w' = view w ∧
    (∀ c', c = Some c' → admin_pending c' w' = []) ∧
    (∀ c', c ≠ Some c' → admin_pending c' w' = admin_pending c' w);
}.

(** ** A simulated device

    Commands complete in the order of their tokens once [s_wait] polls have
    passed; the script [s_rand] gives the random numbers (0 when it is
    exhausted), and on a [faulty] device [s_rc] gives the results of
    submissions.  An allocation of more than 1 GiB fails.  The admin queue answers every command at the next poll with
    dword 0 equal to 0; on a [faulty] device [a_rc] gives the results of admin
    submissions.  It is an implementation of
    the whole interface, so every theorem that assumes the laws applies to a
    program that runs.  [a_report] is the zone report that is outstanding, if any. *)
Record sim_admin := SimAdmin {
  a_pending : list (Z * admin_cmd);
  a_rc : list Z;
  a_cores : list Z;
  a_ns : list Z;
  a_report : option (Z * Z * option Z);
}.

Record sim (faulty : bool) (T : Type) `{Countable T} := Sim {
  s_view : spdk_view T;
  s_wait : nat;
  s_rc : list Z;
  s_rand : list Z;
  s_tsc : Z;
  s_adm : sim_admin;
}.
Arguments Sim {_ _ _ _} _ _ _ _ _ _.
Arguments s_adm {_ _ _ _} _.
Arguments s_view {_ _ _ _} _.
Arguments s_wait {_ _ _ _} _.
Arguments s_rc {_ _ _ _} _.
Arguments s_rand {_ _ _ _} _.
Arguments s_tsc {_ _ _ _} _.

Section sim.
Context {faulty : bool} {T : Type} `{Countable T}.
Implicit Types (w : sim faulty T) (v : spdk_view T).

Definition sim_upd (f : spdk_view T → spdk_view T) w : sim faulty T :=
  Sim (f (s_view w)) (s_wait w) (s_rc w) (s_rand w) (s_tsc w) (s_adm w).

Definition sim_pool_create (n : Z) w : bool * sim faulty T :=
  if decide (0 ≤ n)
  then (true, sim_upd (with_avail (λ _, list_to_set (seqZ 0 n))) w)
  else (false, w).

Definition sim_pool_get w : option Z * sim faulty T :=
  match elements (avail (s_view w)) with
  | [] => (None, w)
  | t :: _ => (Some t, sim_upd (with_avail (λ X, X ∖ {[t]})) w)
  end.

Definition sim_dma_zmalloc (n : Z) w : option Z * sim faulty T :=
  let b := fresh (held (s_view w)) in
  if decide (n ≤ 2 ^ 30) then (Some b, sim_upd (with_held (λ X, {[b]} ∪ X)) w)
  else (None, w).

Definition sim_submit (q : Z) (c : io_cmd) (t : T) w : Z * sim faulty T :=
  match (if faulty then s_rc w else []) with
  | [] => (0, sim_upd (with_inflight (insert t (q, c))) w)
  | rc :: rcs =>
      (rc, Sim (if decide (rc = 0) then with_inflight (insert t (q, c)) (s_view w)
                else s_view w) (s_wait w) rcs (s_rand w) (s_tsc w) (s_adm w))
  end.

Definition sim_poll (q : Z) w : option (T * cpl) * sim faulty T :=
  match s_wait w with
  | S n => (None, Sim (s_view w) n (s_rc w) (s_rand w) (s_tsc w) (s_adm w))
  | O =>
      match map_to_list (on_qpair q (inflight (s_view w))) with
      | [] => (None, w)
      | (t, (_, c)) :: _ =>
          (Some (t, Cpl (cmd_first c) false), sim_upd (with_inflight (delete t)) w)
      end
  end.

Definition sim_alloc_qpair (ctrlr prio : Z) w : option Z * sim faulty T :=
  let q := fresh (qpairs (s_view w) ∪
                  list_to_set ((λ p, p.2.1) <$> map_to_list (inflight (s_view w))) ∪
                  match a_report (s_adm w) with Some r => {[ r.1.1 ]} | None => ∅ end) in
  (Some q, sim_upd (with_qpairs (λ X, {[q]} ∪ X)) w).

#[export] Instance sim_spdk : Spdk (sim faulty T) T := {
  pool_create := sim_pool_create;
  pool_get := sim_pool_get;
  pool_put t := sim_upd (with_avail (λ X, {[t]} ∪ X));
  pool_count w := Z.of_nat (size (avail (s_view w)));
  dma_zmalloc := sim_dma_zmalloc;
  dma_free b := sim_upd (with_held (λ X, X ∖ {[b]}));
  submit := sim_submit;
  poll_budget q max w := 8%nat;
  poll_next := sim_poll;
  alloc_io_qpair := sim_alloc_qpair;
  free_io_qpair q := sim_upd (with_qpairs (λ X, X ∖ {[q]}));
  get_ticks w :=
    (s_tsc w, Sim (s_view w) (s_wait w) (s_rc w) (s_rand w) (s_tsc w + 1) (s_adm w));
  clock_now w := (s_tsc w, w);
  rand_r w :=
    match s_rand w with
    | [] => (0, w)
    | r :: rs => (Z.land r (Z.ones 31), Sim (s_view w) (s_wait w) (s_rc w) rs (s_tsc w) (s_adm w))
    end;
  malloc_ok w := (true, w);
}.

#[export] Instance sim_spdk_view : SpdkView (sim faulty T) T := {
  view := s_view;
  lag q w := (s_wait w + depth q (inflight (s_view w)))%nat;
  tsc := s_tsc;
}.

Definition sim_upd_adm (f : sim_admin → sim_admin) w : sim faulty T :=
  Sim (s_view w) (s_wait w) (s_rc w) (s_rand w) (s_tsc w) (f (s_adm w)).

Definition sim_admin_submit (c : Z) (k : admin_cmd) w : Z * sim faulty T :=
  match (if faulty then a_rc (s_adm w) else []) with
  | [] => (0, sim_upd_adm (λ a, SimAdmin (a_pending a ++ [(c, k)]) (a_rc a) (a_cores a) (a_ns a)
      (a_report a)) w)
  | rc :: rcs =>
      (rc, sim_upd_adm (λ a, SimAdmin
        (if decide (rc = 0) then a_pending a ++ [(c, k)] else a_pending a) rcs
        (a_cores a) (a_ns a) (a_report a)) w)
  end.

Definition sim_pending (c : Z) w : list admin_cmd :=
  (filter (λ p, p.1 = c) (a_pending (s_adm w))).*2.

Definition sim_admin_poll (c : Z) w : list (admin_cmd * cpl) * sim faulty T :=
  ((λ k, (k, Cpl 0 false)) <$> sim_pending c w,
   sim_upd_adm (λ a, SimAdmin (filter (λ p, p.1 ≠ c) (a_pending a)) (a_rc a)
     (a_cores a) (a_ns a) (a_report a)) w).

Definition sim_connect (t : transport_id) w : option Z * sim faulty T :=
  let c := fresh (list_to_set ((a_pending (s_adm w)).*1) : gset Z) in (Some c, w).

(** The active namespaces: 1 on a device that is not faulty. *)
Definition sim_ns w : list Z := if faulty then a_ns (s_adm w) else [1].

#[export] Instance sim_spdk_admin : SpdkAdmin (sim faulty T) := {
  ns_get_size _ := 2 ^ 20;
  ns_get_extended_sector_size _ := 512;
  ns_get_sector_size _ := 512;
  get_first_active_ns c w := default 0 (head (sim_ns w));
  get_next_active_ns c n w := default 0 (head (filter (λ m, n < m < 2 ^ 32) (sim_ns w)));
  ctrlr_get_ns c n w := Some n;
  feature_supported c w := true;
  log_page_supported c l w := true;
  log_page c l w := LatencyPage (replicate 32 0) (replicate 31 0) (replicate 31 0);
  cap_ams c w := 1;
  admin_submit := sim_admin_submit;
  admin_poll := sim_admin_poll;
  env_cores w := a_cores (s_adm w);
  current_core := 0;
  nvme_connect := sim_connect;
  nvme_detach_async c w := w;
  detaching w := true;
  nvme_detach_poll w := (false, w);
  env_fini w := w;
  get_ticks_hz w := 1;
}.

#[export] Instance sim_spdk_admin_view : SpdkAdminView (sim faulty T) := {
  admin_pending := sim_pending;
  admin_lag c w := length (sim_pending c w);
  detach_lag _ := O;
}.
End sim.

Section sim_laws.
Context {faulty : bool} {T : Type} `{Countable T}.

Lemma sim_poll_cases q (w : sim faulty T) r w' : sim_poll q w = (r, w') →
  (r = None ∧ s_view w' = s_view w ∧ s_tsc w' = s_tsc w ∧
    (s_wait w' < s_wait w ∨
     s_wait w' = s_wait w ∧ depth q (inflight (s_view w)) = 0)%nat) ∨
  (∃ t c x, r = Some (t, x) ∧ inflight (s_view w) !! t = Some (q, c) ∧
     w' = sim_upd (with_inflight (delete t)) w).
Proof.
  unfold sim_poll. destruct (s_wait w) as [|n] eqn:Hn; last first.
  { intros [= <- <-]. left. simpl. split_and!; [done..|left; lia]. }
  destruct (map_to_list _) as [|[t [q' c]] l] eqn:Hl.
  - intros [= <- <-]. left. split_and!; [done..|]. right. split; [done|].
    unfold depth. by rewrite <-length_map_to_list, Hl.
  - intros [= <- <-]. right. exists t, c. eexists. split_and!; [done| |done].
    assert ((t, (q', c)) ∈ map_to_list (on_qpair q (inflight (s_view w)))) as Hin
      by (rewrite Hl; set_solver).
    apply elem_of_map_to_list in Hin.
    by apply map_lookup_filter_Some in Hin as [? [= ->]].
Qed.

Lemma sim_fresh_qpair (v : spdk_view T) q :
  q ∉ (list_to_set ((λ p, p.2.1) <$> map_to_list (inflight v)) : gset Z) →
  depth q (inflight v) = 0%nat.
Proof.
  intros Hq. apply map_size_empty_iff, map_empty. intros t.
  apply map_lookup_filter_None. right. intros [q' c] Ht ?; simplify_eq/=.
  apply Hq, elem_of_list_to_set, list_elem_of_fmap.
  exists (t, (q, c)). split; [done|]. by apply elem_of_map_to_list.
Qed.

#[export] Instance sim_laws : SpdkLaws (sim faulty T) T.
Proof.
  split; simpl; unfold quiet; simpl.
  - intros n w w'. unfold sim_pool_create. case_decide; [|done].
    intros [= <-]. eexists. split; [|done].
    rewrite size_list_to_set by apply NoDup_seqZ. rewrite length_seqZ. lia.
  - intros n w w'. unfold sim_pool_create. case_decide; by intros [= <-].
  - intros w t w'. unfold sim_pool_get.
    destruct (elements _) as [|t' l] eqn:He; intros [= <- <-].
    split_and!; try done. apply elem_of_elements. rewrite He. set_solver.
  - intros w w'. unfold sim_pool_get.
    destruct (elements _) as [|t' l] eqn:He; intros [= <-].
    split_and!; try done. apply leibniz_equiv. by apply elements_empty_iff.
  - done.
  - done.
  - intros n w b w'. unfold sim_dma_zmalloc. case_decide; [|done].
    intros [= <- <-]. split_and!; try done. apply is_fresh.
  - intros n w w'. unfold sim_dma_zmalloc. case_decide; [done|]. by intros [= <-].
  - done.
  - intros q c t w w'. unfold sim_submit.
    destruct (if faulty then s_rc w else []); intros [= <-]; [done|]. intros _. subst. simpl.
    by rewrite decide_True.
  - intros q c t w rc w'. unfold sim_submit.
    destruct (if faulty then s_rc w else []); intros [= <- <-]; [done|]. intros ?.
    by rewrite decide_False.
  - lia.
  - intros q w t r w' [?|(?&?&?&[= <- <-]&?&->)]%sim_poll_cases; [naive_solver|].
    simpl. split_and!; [naive_solver|done|lia].
  - intros q w w' [(?&?&?&?)|(?&?&?&?&?)]%sim_poll_cases; [|done].
    split; [done|lia].
  - intros q w r w' [(?&Hv&?&?)|(t&c&x&?&Ht&->)]%sim_poll_cases ?.
    + rewrite Hv. lia.
    + simpl. rewrite (depth_delete_eq _ _ _ _ Ht). lia.
  - intros q w r w' [(?&Hv&?&?)|(t&c&x&?&Ht&->)]%sim_poll_cases.
    + rewrite Hv. lia.
    + simpl. rewrite (depth_delete_eq _ _ _ _ Ht). lia.
  - intros c p w q w' [= <- <-].
    match goal with |- context [fresh ?X] =>
      pose proof (is_fresh X) as Hf; revert Hf; generalize (fresh X) end.
    intros q Hq. split_and!; [set_solver|apply sim_fresh_qpair; set_solver|done|simpl; lia].
  - done.
  - done.
  - intros w t w' [= <- <-]. split_and!; simpl; try done. lia.
  - by intros w t w' [= <- <-].
  - intros w r w'. destruct (s_rand w) as [|x l]; intros [= <- <-]; [done|].
    split_and!; [| |done..]; rewrite Z.land_ones by lia;
      apply Z.mod_pos_bound; lia.
  - by intros w b w' [= <- <-].
Qed.

Lemma sim_pending_upd c (w : sim faulty T) f :
  sim_pending c (sim_upd_adm f w) = (filter (λ p, p.1 = c) (a_pending (f (s_adm w)))).*2.
Proof. done. Qed.

Lemma filter_pending_same (l : list (Z * admin_cmd)) c :
  filter (λ p, p.1 = c) (filter (λ p, p.1 ≠ c) l) = [].
Proof.
  rewrite list_filter_filter. apply list_filter_none. intros p _ [??]. done.
Qed.

Lemma sim_io_adm (w w' : sim faulty T) : io_call (T := T) w w' → s_adm w' = s_adm w.
Proof.
  destruct 1; simpl; try done; unfold sim_pool_get, sim_dma_zmalloc, sim_submit, sim_poll;
    repeat case_match; done.
Qed.

#[export] Instance sim_admin_laws : SpdkAdminLaws (sim faulty T) T.
Proof.
  split; simpl.
  - by intros w b w' [= <- <-].
  - intros n w b w'. unfold sim_pool_create. by case_decide; intros [= <- <-].
  - intros w w' c Hw. assert (s_adm w' = s_adm w) as He; [|unfold sim_pending; by rewrite He].
    by apply sim_io_adm.
  - intros c k w w'. unfold sim_admin_submit.
    destruct (if faulty then a_rc (s_adm w) else []); intros [= <-]; [|intros; subst]; simpl;
      (split; [|done]); rewrite sim_pending_upd; simpl;
      rewrite ?decide_True by done; by rewrite filter_app, fmap_app, filter_cons_True.
  - intros c k w rc w'. unfold sim_admin_submit.
    destruct (if faulty then a_rc (s_adm w) else []); intros [= <- <-] ?; [done|].
    rewrite sim_pending_upd. simpl. by rewrite decide_False.
  - intros c w l w' [= <- <-]. split; [|done].
    rewrite sim_pending_upd. simpl. rewrite filter_pending_same. simpl.
    rewrite app_nil_r, <-list_fmap_compose. by rewrite list_fmap_id.
  - intros c w l w' [= <- <-] Hne.
    rewrite sim_pending_upd. simpl. rewrite filter_pending_same. simpl.
    destruct (sim_pending c w); simpl in *; [done|lia].
  - intros c k w rc w' c'. unfold sim_admin_submit.
    assert (∀ l, filter (λ p, p.1 = c') (l ++ [(c, k)]) = filter (λ p, p.1 = c') l ∨ c' = c) as Hf.
    { intros l. destruct (decide (c' = c)); [by right|left].
      rewrite filter_app, filter_cons_False by (simpl; congruence).
      rewrite filter_nil. by rewrite app_nil_r. }
    destruct (if faulty then a_rc (s_adm w) else []) as [|r rcs]; intros [= <- <-] Hc;
      rewrite sim_pending_upd; simpl; [|case_decide; [|done]];
      by destruct (Hf (a_pending (s_adm w))) as [->|].
  - intros c w l w' c' [= <- <-] Hc. rewrite sim_pending_upd. simpl.
    rewrite list_filter_filter. unfold sim_pending. f_equal.
    apply list_filter_iff. naive_solver.
  - intros c w l w' c' [= <- <-]. rewrite sim_pending_upd. simpl. unfold sim_pending.
    rewrite !length_fmap, list_filter_filter. apply sublist_length.
    induction (a_pending (s_adm w)) as [|x l IH]; [done|].
    rewrite !filter_cons. repeat case_decide; try naive_solver; by constructor.
  - done.
  - by intros w b w' [= <- <-].
  - done.
  - intros c n w. destruct (filter _ (sim_ns w)) as [|m l] eqn:Hl; simpl; [by left|].
    right. assert (m ∈ filter (λ m, n < m < 2 ^ 32) (sim_ns w)) as Hm
      by (rewrite Hl; set_solver).
    by apply list_elem_of_filter in Hm as [? _].
  - intros t w c w' [= <- <-]. split; [done|]. split; [|done]. intros c' [= <-].
    match goal with |- context [fresh ?X] =>
      pose proof (is_fresh X) as Hf; revert Hf; generalize (fresh X) end.
    intros c Hc. unfold sim_pending. rewrite list_filter_none; [done|].
    intros p Hp Hpc. apply Hc, elem_of_list_to_set.
    apply list_elem_of_fmap. by exists p.
Qed.
End sim_laws.
