(* ===== verification/Arb.v ===== *)
(** * Data of the benchmark engine

    The structures and globals of [arbitration/arbitration.cc] (lines 21-135),
    which the other programs under [arbitration/] and [multipath/] copy.  The
    fields that a copy adds to [ns_worker_ctx] (time stamps, a write pointer, a
    counter) are the parameter [X].  The heap is explicit: a pointer is a key
    of the map that holds the structures of its type, so two queues that hold
    the same pointer share the structure, and using a pointer that is not a
    key (null, or freed) is undefined behaviour.  The fields [name] of the
    source are only printed and are not kept. *)
From S2P Require Import Prelude Spdk.

Record ns_entry := NsEntry {
  e_ctrlr : Z;
  e_ns : Z;
  io_size_blocks : Z;
  size_in_ios : Z;
}.

Record ns_worker_ctx (X : Type) := NsWorkerCtx {
  entry : Z;
  io_completed : Z;
  current_queue_depth : Z;
  offset_in_ios : Z;
  is_draining : bool;
  qpair : option Z;
  extra : X;
}.
Arguments NsWorkerCtx {X} _ _ _ _ _ _ _.
Arguments entry {X} _.
Arguments io_completed {X} _.
Arguments current_queue_depth {X} _.
Arguments offset_in_ios {X} _.
Arguments is_draining {X} _.
Arguments qpair {X} _.
Arguments extra {X} _.

Record arb_task := ArbTask { ns_ctx : Z; buf : Z }.

Record worker_thread := WorkerThread {
  w_ns_ctx : list Z;
  lcore : Z;
  qprio : Z;
}.

Record ctrlr_entry := CtrlrEntry { c_ctrlr : Z }.

Record arb_context := ArbContext {
  shm_id : Z;
  outstanding_commands : Z;
  num_namespaces : Z;
  num_workers : Z;
  rw_percentage : Z;
  is_random : Z;
  queue_depth : Z;
  time_in_sec : Z;
  io_count : Z;
  latency_tracking_enable : Z;
  arbitration_mechanism : Z;
  arbitration_config : Z;
  io_size_bytes : Z;
  max_completions : Z;
  tsc_rate : Z;
  core_mask : string;
  workload_type : string;
}.

Record feature := Feature { result : Z; valid : bool }.

(** The initialiser of [g_arbitration] (members that it does not name are
    zero). *)
Definition SPDK_NVME_CC_AMS_RR : Z := 0.
Definition SPDK_NVME_CC_AMS_WRR : Z := 1.
Definition SPDK_NVME_CC_AMS_VS : Z := 7.
Definition SPDK_NVME_CAP_AMS_WRR : Z := 1.

Definition g_arbitration_init : arb_context := {|
  shm_id := -1; outstanding_commands := 0; num_namespaces := 0;
  num_workers := 0; rw_percentage := 50; is_random := 0; queue_depth := 64;
  time_in_sec := 60; io_count := 100000; latency_tracking_enable := 0;
  arbitration_mechanism := SPDK_NVME_CC_AMS_RR; arbitration_config := 0;
  io_size_bytes := 4096; max_completions := 0; tsc_rate := 0;
  core_mask := "0x3"; workload_type := "randrw" |}.

(** ** The state of a running program *)
Record prog (W X : Type) := Prog {
  env : W;
  tasks : gmap Z arb_task;
  ctxs : gmap Z (ns_worker_ctx X);
  entries : gmap Z ns_entry;
  workers : gmap Z worker_thread;
  ctrlrs : gmap Z ctrlr_entry;
  g_controllers : list Z;
  g_namespaces : list Z;
  g_workers : list Z;
  arb_feature : feature;
  g_arbitration : arb_context;
  next_ptr : Z;
}.
Arguments Prog {W X} _ _ _ _ _ _ _ _ _ _ _ _.
Arguments env {W X} _.
Arguments tasks {W X} _.
Arguments ctxs {W X} _.
Arguments entries {W X} _.
Arguments workers {W X} _.
Arguments ctrlrs {W X} _.
Arguments g_controllers {W X} _.
Arguments g_namespaces {W X} _.
Arguments g_workers {W X} _.
Arguments arb_feature {W X} _.
Arguments g_arbitration {W X} _.
Arguments next_ptr {W X} _.

Section updates.
Context {W X : Type}.
Implicit Types s : prog W X.

Definition set_env w s : prog W X :=
  Prog w (tasks s) (ctxs s) (entries s) (workers s) (ctrlrs s)
    (g_controllers s) (g_namespaces s) (g_workers s) (arb_feature s)
    (g_arbitration s) (next_ptr s).
Definition set_tasks f s : prog W X :=
  Prog (env s) (f (tasks s)) (ctxs s) (entries s) (workers s) (ctrlrs s)
    (g_controllers s) (g_namespaces s) (g_workers s) (arb_feature s)
    (g_arbitration s) (next_ptr s).
Definition set_ctxs f s : prog W X :=
  Prog (env s) (tasks s) (f (ctxs s)) (entries s) (workers s) (ctrlrs s)
    (g_controllers s) (g_namespaces s) (g_workers s) (arb_feature s)
    (g_arbitration s) (next_ptr s).
Definition set_entries f s : prog W X :=
  Prog (env s) (tasks s) (ctxs s) (f (entries s)) (workers s) (ctrlrs s)
    (g_controllers s) (g_namespaces s) (g_workers s) (arb_feature s)
    (g_arbitration s) (next_ptr s).
Definition set_workers f s : prog W X :=
  Prog (env s) (tasks s) (ctxs s) (entries s) (f (workers s)) (ctrlrs s)
    (g_controllers s) (g_namespaces s) (g_workers s) (arb_feature s)
    (g_arbitration s) (next_ptr s).
Definition set_ctrlrs f s : prog W X :=
  Prog (env s) (tasks s) (ctxs s) (entries s) (workers s) (f (ctrlrs s))
    (g_controllers s) (g_namespaces s) (g_workers s) (arb_feature s)
    (g_arbitration s) (next_ptr s).
Definition set_g_controllers f s : prog W X :=
  Prog (env s) (tasks s) (ctxs s) (entries s) (workers s) (ctrlrs s)
    (f (g_controllers s)) (g_namespaces s) (g_workers s) (arb_feature s)
    (g_arbitration s) (next_ptr s).
Definition set_g_namespaces f s : prog W X :=
  Prog (env s) (tasks s) (ctxs s) (entries s) (workers s) (ctrlrs s)
    (g_controllers s) (f (g_namespaces s)) (g_workers s) (arb_feature s)
    (g_arbitration s) (next_ptr s).
Definition set_g_workers f s : prog W X :=
  Prog (env s) (tasks s) (ctxs s) (entries s) (workers s) (ctrlrs s)
    (g_controllers s) (g_namespaces s) (f (g_workers s)) (arb_feature s)
    (g_arbitration s) (next_ptr s).
Definition set_features f s : prog W X :=
  Prog (env s) (tasks s) (ctxs s) (entries s) (workers s) (ctrlrs s)
    (g_controllers s) (g_namespaces s) (g_workers s) (f (arb_feature s))
    (g_arbitration s) (next_ptr s).
Definition set_g_arbitration f s : prog W X :=
  Prog (env s) (tasks s) (ctxs s) (entries s) (workers s) (ctrlrs s)
    (g_controllers s) (g_namespaces s) (g_workers s) (arb_feature s)
    (f (g_arbitration s)) (next_ptr s).
Definition set_next_ptr f s : prog W X :=
  Prog (env s) (tasks s) (ctxs s) (entries s) (workers s) (ctrlrs s)
    (g_controllers s) (g_namespaces s) (g_workers s) (arb_feature s)
    (g_arbitration s) (f (next_ptr s)).

(** A call into the environment, with and without a result. *)
Definition call {A} (f : W → A * W) : M (prog W X) A := λ s,
  let '(a, w) := f (env s) in Done a (set_env w s).
Definition effect (f : W → W) : M (prog W X) () := modify (λ s, set_env (f (env s)) s).

(** [malloc] of one of the program's structures: a fresh pointer, or null
    when the C library has no memory left. *)
Definition malloc `{!Spdk W T} : M (prog W X) (option Z) :=
  ok ← call malloc_ok;
  if ok : bool then
    p ← gets next_ptr;
    modify (set_next_ptr (Z.add 1));;
    mret (Some p)
  else mret None.

(** Reading a structure through a pointer, and updating it in place. *)
Definition ctx_at (p : Z) : M (prog W X) (ns_worker_ctx X) :=
  s ← get; of_option (ctxs s !! p).
Definition entry_at (p : Z) : M (prog W X) ns_entry :=
  s ← get; of_option (entries s !! p).
Definition task_at (p : Z) : M (prog W X) arb_task :=
  s ← get; of_option (tasks s !! p).
Definition worker_at (p : Z) : M (prog W X) worker_thread :=
  s ← get; of_option (workers s !! p).
Definition ctx_upd (p : Z) (f : ns_worker_ctx X → ns_worker_ctx X)
    : M (prog W X) () :=
  c ← ctx_at p; modify (set_ctxs <[p := f c]>).
End updates.

Lemma ctx_upd_some {W X} p f (s : prog W X) c : ctxs s !! p = Some c →
  ctx_upd p f s = Done tt (set_ctxs <[p := f c]> s).
Proof. intros Hc. unfold ctx_upd, ctx_at, mbind, M_bind. simpl. by rewrite Hc. Qed.

Lemma ctx_upd_none {W X} p f (s : prog W X) : ctxs s !! p = None → ctx_upd p f s = Undef.
Proof. intros Hc. unfold ctx_upd, ctx_at, mbind, M_bind. simpl. by rewrite Hc. Qed.

(** Updates of one member of [ns_worker_ctx]. *)
Section ctx_updates.
Context {X : Type}.
Implicit Types c : ns_worker_ctx X.
Definition set_io_completed z c :=
  NsWorkerCtx (entry c) z (current_queue_depth c) (offset_in_ios c)
    (is_draining c) (qpair c) (extra c).
Definition set_depth z c :=
  NsWorkerCtx (entry c) (io_completed c) z (offset_in_ios c)
    (is_draining c) (qpair c) (extra c).
Definition set_offset z c :=
  NsWorkerCtx (entry c) (io_completed c) (current_queue_depth c) z
    (is_draining c) (qpair c) (extra c).
Definition set_draining b c :=
  NsWorkerCtx (entry c) (io_completed c) (current_queue_depth c)
    (offset_in_ios c) b (qpair c) (extra c).
Definition set_qpair q c :=
  NsWorkerCtx (entry c) (io_completed c) (current_queue_depth c)
    (offset_in_ios c) (is_draining c) q (extra c).
Definition set_extra (x : X) c :=
  NsWorkerCtx (entry c) (io_completed c) (current_queue_depth c)
    (offset_in_ios c) (is_draining c) (qpair c) x.
End ctx_updates.
