(* ===== verification/Engine.v ===== *)
(** * The I/O engine of the benchmark programs

    The functions of [arbitration/arbitration.cc] from [submit_single_io] to
    [work_fn] (lines 278-530).  Every other program under [arbitration/] and
    [multipath/] has the same engine with another command, time stamps or a
    counter; these differences are a [variant], one per source file. *)
From S2P Require Import Prelude Spdk Arb.

(** What a program of the family does differently in [submit_single_io] and
    [task_complete]: a time stamp taken before the submission, the command,
    an update after it, a time stamp taken on completion; and in
    [init_ns_worker_ctx] and [work_fn] the initialisation and the final report
    of the added fields ([None]: the report reads outside of its arrays).  [v_fill]
    tells whether the buffer is written before it is tested against null. *)
Record variant (X : Type) := Variant {
  v_setup : X → X;
  v_before : option (Z → X → X);
  v_cmd : ns_worker_ctx X → ns_entry → Z → Z → io_cmd;
  v_after : X → X;
  v_complete : option (Z → X → X);
  v_report : X → option X;
  v_fill : bool;
}.
Arguments Variant {X} _ _ _ _ _ _ _.
Arguments v_setup {X} _ _.
Arguments v_report {X} _ _.
Arguments v_before {X} _.
Arguments v_cmd {X} _ _ _ _ _.
Arguments v_after {X} _ _.
Arguments v_fill {X} _.
Arguments v_complete {X} _.

Section engine.
Context {W X : Type} `{!Spdk W Z}.
Context (v : variant X).
Implicit Types (s : prog W X) (c : ns_worker_ctx X).

Definition stamp (p : Z) (f : option (Z → X → X)) : M (prog W X) () :=
  match f with
  | None => skip
  | Some f => now ← call clock_now; ctx_upd p (λ c, set_extra (f now (extra c)) c)
  end.

(** The part of [submit_single_io] that chooses where the I/O goes. *)
Definition next_offset (p : Z) : M (prog W X) Z :=
  c ← ctx_at p;
  e ← entry_at (entry c);
  s ← get;
  if decide (is_random (g_arbitration s) ≠ 0) then
    r ← call rand_r;
    if decide (size_in_ios e = 0) then undef else mret (u64 r mod size_in_ios e)
  else
    let next := u64 (offset_in_ios c + 1) in
    ctx_upd p (set_offset (if decide (next = size_in_ios e) then 0 else next));;
    mret (offset_in_ios c).

(** The submission itself, and what its result does to the queue depth. *)
Definition send (p t b off : Z) : M (prog W X) () :=
  c ← ctx_at p;
  e ← entry_at (entry c);
  q ← of_option (qpair c);
  rc ← call (submit q (v_cmd v c e b off) t);
  ctx_upd p (λ c, set_extra (v_after v (extra c)) c);;
  if decide (rc ≠ 0) then skip
  else ctx_upd p (λ c, set_depth (u64 (current_queue_depth c + 1)) c).

Definition submit_single_io (p : Z) : M (prog W X) () :=
  task ← call pool_get;
  match task with
  | None => exit 1
  | Some t =>
      s ← get;
      b ← call (dma_zmalloc (io_size_bytes (g_arbitration s)));
      match b with
      | None => if v_fill v then undef else effect (pool_put t);; exit 1
      | Some b =>
          modify (set_tasks <[t := ArbTask p b]>);;
          off ← next_offset p;
          stamp p (v_before v);;
          send p t b off
      end
  end.

Definition task_complete (t : Z) : M (prog W X) () :=
  task ← task_at t;
  let p := ns_ctx task in
  ctx_upd p (λ c, set_depth (u64 (current_queue_depth c - 1)) c);;
  ctx_upd p (λ c, set_io_completed (u64 (io_completed c + 1)) c);;
  stamp p (v_complete v);;
  effect (dma_free (buf task));;
  effect (pool_put t);;
  c ← ctx_at p;
  if is_draining c then skip else submit_single_io p.

Definition io_complete (t : Z) (completion : cpl) : M (prog W X) () :=
  task_complete t.

(** [spdk_nvme_qpair_process_completions] with the callback [io_complete]. *)
Fixpoint deliver (n : nat) (q : Z) : M (prog W X) () :=
  match n with
  | O => skip
  | S n' =>
      r ← call (poll_next q);
      match r with
      | None => skip
      | Some (t, completion) => io_complete t completion;; deliver n' q
      end
  end.

Definition process_completions (q max : Z) : M (prog W X) () :=
  s ← get; deliver (poll_budget q max (env s)) q.

Definition check_io (p : Z) : M (prog W X) () :=
  c ← ctx_at p;
  q ← of_option (qpair c);
  s ← get;
  process_completions q (max_completions (g_arbitration s)).

(** [while (queue_depth-- > 0)]: not at all when the argument is negative. *)
Definition submit_io (p : Z) (n : Z) : M (prog W X) () :=
  repeat_m (Z.to_nat n) (submit_single_io p).

Definition busy (p : Z) (s : prog W X) : bool :=
  match ctxs s !! p with
  | Some c => bool_decide (0 < current_queue_depth c)
  | None => false
  end.

Definition drain_io (fuel : nat) (p : Z) : M (prog W X) () :=
  ctx_upd p (set_draining true);;
  while fuel (busy p) (check_io p).

Definition init_ns_worker_ctx (p prio : Z) : M (prog W X) Z :=
  c ← ctx_at p;
  e ← entry_at (entry c);
  q ← call (alloc_io_qpair (e_ctrlr e) prio);
  ctx_upd p (set_qpair q);;
  match q with
  | None => mret 1
  | Some _ => ctx_upd p (λ c, set_extra (v_setup v (extra c)) c);; mret 0
  end.

Definition cleanup_ns_worker_ctx (p : Z) : M (prog W X) () :=
  c ← ctx_at p;
  q ← of_option (qpair c);
  effect (free_io_qpair q).

(** The statistics that some programs compute when a context is done. *)
Definition report (p : Z) : M (prog W X) () :=
  c ← ctx_at p;
  x ← of_option (v_report v (extra c));
  ctx_upd p (set_extra x).

Fixpoint init_all (ps : list Z) (prio : Z) : M (prog W X) bool :=
  match ps with
  | [] => mret true
  | p :: ps' =>
      rc ← init_ns_worker_ctx p prio;
      if decide (rc ≠ 0) then mret false else init_all ps' prio
  end.

Fixpoint poll_until (fuel : nat) (tsc_end : Z) (ps : list Z) : M (prog W X) () :=
  match fuel with
  | O => λ _, Spin
  | S fuel' =>
      foreach ps check_io;;
      now ← call get_ticks;
      if decide (now > tsc_end) then skip else poll_until fuel' tsc_end ps
  end.

(** What [work_fn] does once its queue pairs exist. *)
Definition measure (fuel : nat) (ps : list Z) : M (prog W X) Z :=
  now ← call get_ticks;
  s ← get;
  let g := g_arbitration s in
  let tsc_end := u64 (now + u64 (time_in_sec g * tsc_rate g)) in
  foreach ps (λ p, submit_io p (queue_depth g));;
  poll_until fuel tsc_end ps;;
  foreach ps (λ p, drain_io fuel p;; cleanup_ns_worker_ctx p;; report p);;
  mret 0.

Definition work_fn (fuel : nat) (worker : Z) : M (prog W X) Z :=
  wt ← worker_at worker;
  ok ← init_all (w_ns_ctx wt) (qprio wt);
  if negb ok then mret 1 else measure fuel (w_ns_ctx wt).
End engine.
