(* ===== verification/EngineInv.v ===== *)
(** * The invariant of the I/O engine

    What the engine's data structures promise between two calls, and the proof
    that every operation of [Engine] keeps it: each command the device holds
    belongs to exactly one task with a live buffer, the queue depth of a
    context is the number of its outstanding commands, and no task is both
    free and in flight. *)
From S2P Require Import Prelude Spdk Arb Engine.

Section engine_inv.
Context {W X : Type} `{!Spdk W Z} `{!SpdkView W Z} `{!SpdkLaws W Z}.
(** The pool as it was created, and what a command may do to the namespace
    of an entry. *)
Context (pool : gset Z) (safe : ns_entry → io_cmd → Prop).
Implicit Types (s : prog W X) (c : ns_worker_ctx X).

Local Abbreviation flying s := (inflight (view (env s))).

(** A variant only builds commands on the task's buffer that [safe] allows. *)
Definition variant_ok (v : variant X) : Prop := ∀ c e b off,
  0 < io_size_blocks e → 0 ≤ off < size_in_ios e →
  safe e (v_cmd v c e b off) ∧ cmd_buf (v_cmd v c e b off) = b.

Definition wf_entry (e : ns_entry) : Prop :=
  0 < size_in_ios e < 2 ^ 64 ∧ 0 < io_size_blocks e.

Record inv s : Prop := {
  inv_cmd t q cmd : flying s !! t = Some (q, cmd) → ∃ tk c e,
    tasks s !! t = Some tk ∧ ctxs s !! ns_ctx tk = Some c ∧
    qpair c = Some q ∧ buf tk = cmd_buf cmd ∧ cmd_buf cmd ∈ held (view (env s)) ∧
    entries s !! entry c = Some e ∧ safe e cmd;
  inv_buf t1 t2 q1 q2 k1 k2 : flying s !! t1 = Some (q1, k1) →
    flying s !! t2 = Some (q2, k2) → cmd_buf k1 = cmd_buf k2 → t1 = t2;
  inv_disj t : t ∈ avail (view (env s)) → flying s !! t = None;
  inv_pool : avail (view (env s)) ∪ dom (flying s) ⊆ pool;
  inv_bound : Z.of_nat (size pool) < 2 ^ 64;
  inv_qpair p1 p2 c1 c2 q : ctxs s !! p1 = Some c1 → ctxs s !! p2 = Some c2 →
    qpair c1 = Some q → qpair c2 = Some q → p1 = p2;
  inv_depth p c q : ctxs s !! p = Some c → qpair c = Some q →
    current_queue_depth c = Z.of_nat (depth q (flying s));
  inv_entry p c : ctxs s !! p = Some c → ∃ e,
    entries s !! entry c = Some e ∧ wf_entry e ∧
    0 ≤ offset_in_ios c < size_in_ios e;
}.

Lemma depth_le_pool (m : gmap Z (Z * io_cmd)) q :
  dom m ⊆ pool → (depth q m ≤ size pool)%nat.
Proof.
  intros Hm. apply subseteq_size in Hm. rewrite size_dom in Hm.
  pose proof (depth_le_size q m). lia.
Qed.

(** Changes that no part of the invariant can see. *)
Lemma inv_quiet s w' : inv s → view w' = view (env s) → inv (set_env w' s).
Proof. intros [] Hv. by split; simpl; rewrite ?Hv. Qed.

(** A context is updated in a field other than its queue pair, entry, depth. *)
Lemma inv_ctx_upd s p c c' :
  inv s → ctxs s !! p = Some c →
  entry c' = entry c → qpair c' = qpair c →
  current_queue_depth c' = current_queue_depth c →
  (∀ e, entries s !! entry c = Some e → wf_entry e →
     0 ≤ offset_in_ios c < size_in_ios e → 0 ≤ offset_in_ios c' < size_in_ios e) →
  inv (set_ctxs <[p := c']> s).
Proof.
  intros Hi Hc He Hq Hd Ho. split; simpl.
  - intros t q cmd Ht. destruct (inv_cmd _ Hi _ _ _ Ht)
      as (tk&c0&e&?&Hc0&?&?&?&?&?).
    destruct (decide (p = ns_ctx tk)) as [->|].
    + simplify_eq. exists tk, c', e. by rewrite lookup_insert_eq, He, Hq.
    + exists tk, c0, e. by rewrite lookup_insert_ne.
  - apply (inv_buf _ Hi).
  - apply (inv_disj _ Hi).
  - apply (inv_pool _ Hi).
  - apply (inv_bound _ Hi).
  - intros p1 p2 c1 c2 q. rewrite !lookup_insert_Some.
    intros [[<- <-]|[??]] [[<- <-]|[??]] ??; try done;
      eapply (inv_qpair _ Hi); eauto; congruence.
  - intros p1 c1 q. rewrite lookup_insert_Some.
    intros [[<- <-]|[??]] ?; rewrite ?Hd; eapply (inv_depth _ Hi); eauto; congruence.
  - intros p1 c1 [[<- <-]|[? Hc1]]%lookup_insert_Some.
    + destruct (inv_entry _ Hi _ _ Hc) as (e&?&?&?). exists e.
      rewrite He. naive_solver.
    + exact (inv_entry _ Hi _ _ Hc1).
Qed.

(** Tasks leave the pool, buffers are handed out. *)
Lemma inv_take s w' :
  inv s → avail (view w') ⊆ avail (view (env s)) →
  held (view (env s)) ⊆ held (view w') → inflight (view w') = flying s →
  inv (set_env w' s).
Proof.
  intros Hi Ha Hh Hf. split; simpl; rewrite ?Hf.
  - intros t q cmd Ht. destruct (inv_cmd _ Hi _ _ _ Ht)
      as (tk&c0&e&?&?&?&?&?&?&?). exists tk, c0, e. split_and!; auto.
  - apply (inv_buf _ Hi).
  - intros t Ht. apply (inv_disj _ Hi). set_solver.
  - pose proof (inv_pool _ Hi). set_solver.
  - apply (inv_bound _ Hi).
  - apply (inv_qpair _ Hi).
  - apply (inv_depth _ Hi).
  - apply (inv_entry _ Hi).
Qed.

(** The memory of a task that is not in flight is written. *)
Lemma inv_task s t tk : inv s → flying s !! t = None → inv (set_tasks <[t := tk]> s).
Proof.
  intros Hi Hn. split; simpl; try apply Hi.
  intros t' q cmd Ht. destruct (inv_cmd _ Hi _ _ _ Ht)
    as (tk'&c0&e&?&?&?&?&?&?&?). exists tk', c0, e.
  rewrite lookup_insert_ne by (intros ->; congruence). done.
Qed.

(** The device accepts the command of task [t] of context [p]. *)
Lemma inv_fly s w' p c c' e q t cmd :
  inv s → ctxs s !! p = Some c → qpair c = Some q →
  entries s !! entry c = Some e → safe e cmd →
  tasks s !! t = Some (ArbTask p (cmd_buf cmd)) →
  t ∈ pool → t ∉ avail (view (env s)) → flying s !! t = None →
  cmd_buf cmd ∈ held (view (env s)) →
  (∀ t' q' cmd', flying s !! t' = Some (q', cmd') → cmd_buf cmd' ≠ cmd_buf cmd) →
  view w' = with_inflight (insert t (q, cmd)) (view (env s)) →
  entry c' = entry c → qpair c' = qpair c → offset_in_ios c' = offset_in_ios c →
  current_queue_depth c' = current_queue_depth c + 1 →
  inv (set_ctxs <[p := c']> (set_env w' s)).
Proof.
  intros Hi Hc Hq He Hsafe Htk Htp Hta Htf Hh Hb Hv He' Hq' Ho' Hd'.
  split; simpl; rewrite ?Hv; simpl.
  - intros t' q' cmd' [[<- [= <- <-]]|[? Ht]]%lookup_insert_Some.
    + exists (ArbTask p (cmd_buf cmd)), c', e. simpl; rewrite lookup_insert_eq, He'.
      split_and!; congruence.
    + destruct (inv_cmd _ Hi _ _ _ Ht) as (tk'&c0&e'&?&Hc0&?&?&?&?&?).
      destruct (decide (p = ns_ctx tk')) as [->|].
      * simplify_eq. exists tk', c', e. rewrite lookup_insert_eq, He'.
        split_and!; congruence.
      * exists tk', c0, e'. by rewrite lookup_insert_ne.
  - intros t1 t2 q1 q2 k1 k2.
    intros [[<- [= <- <-]]|[??]]%lookup_insert_Some
      [[<- [= <- <-]]|[??]]%lookup_insert_Some Hk; try done.
    + exfalso. by eapply Hb.
    + exfalso. by eapply Hb.
    + by eapply (inv_buf _ Hi).
  - intros t' Ht'. rewrite lookup_insert_ne by set_solver. by apply (inv_disj _ Hi).
  - rewrite dom_insert_L. pose proof (inv_pool _ Hi). set_solver.
  - apply (inv_bound _ Hi).
  - intros p1 p2 c1 c2 q0. rewrite !lookup_insert_Some.
    intros [[<- <-]|[??]] [[<- <-]|[??]] ??; try done;
      eapply (inv_qpair _ Hi); eauto; congruence.
  - intros p1 c1 q0 [[<- <-]|[? Hc1]]%lookup_insert_Some Hq0.
    + assert (q0 = q) as -> by congruence.
      rewrite Hd', (inv_depth _ Hi _ _ _ Hc Hq), depth_insert_eq by done. lia.
    + rewrite depth_insert_ne; [by apply (inv_depth _ Hi _ _ _ Hc1)|done|].
      intros <-. by pose proof (inv_qpair _ Hi _ _ _ _ _ Hc Hc1 Hq Hq0).
  - intros p1 c1 [[<- <-]|[? Hc1]]%lookup_insert_Some.
    + rewrite He', Ho'. by eapply (inv_entry _ Hi).
    + exact (inv_entry _ Hi _ _ Hc1).
Qed.

(** The device returns task [t]: it is neither free nor in flight now. *)
Lemma inv_land s w' p c c' q t cmd tk :
  inv s → flying s !! t = Some (q, cmd) → tasks s !! t = Some tk →
  ns_ctx tk = p → ctxs s !! p = Some c →
  view w' = with_inflight (delete t) (view (env s)) →
  entry c' = entry c → qpair c' = qpair c → offset_in_ios c' = offset_in_ios c →
  current_queue_depth c' = current_queue_depth c - 1 →
  inv (set_ctxs <[p := c']> (set_env w' s)).
Proof.
  intros Hi Ht Htk Hp Hc Hv He' Hq' Ho' Hd'.
  destruct (inv_cmd _ Hi _ _ _ Ht) as (tk0&c0&e&Htk0&Hc0&Hq&?&?&?&?).
  simplify_eq.
  split; simpl; rewrite ?Hv; simpl.
  - intros t' q' cmd' [? Ht']%lookup_delete_Some.
    destruct (inv_cmd _ Hi _ _ _ Ht') as (tk'&c1&e'&?&Hc1&?&?&?&?&?).
    destruct (decide (ns_ctx tk = ns_ctx tk')) as [Heq|].
    + rewrite <-Heq in *. simplify_eq. exists tk', c', e. rewrite <-Heq.
      rewrite lookup_insert_eq, He'. split_and!; congruence.
    + exists tk', c1, e'. by rewrite lookup_insert_ne.
  - intros t1 t2 q1 q2 k1 k2 [??]%lookup_delete_Some [??]%lookup_delete_Some ?.
    by eapply (inv_buf _ Hi).
  - intros t' Ht'. apply lookup_delete_None. right. by apply (inv_disj _ Hi).
  - rewrite dom_delete_L. pose proof (inv_pool _ Hi). set_solver.
  - apply (inv_bound _ Hi).
  - intros p1 p2 c1 c2 q0. rewrite !lookup_insert_Some.
    intros [[<- <-]|[??]] [[<- <-]|[??]] ??; try done;
      eapply (inv_qpair _ Hi); eauto; congruence.
  - intros p1 c1 q0 [[<- <-]|[? Hc1]]%lookup_insert_Some Hq0.
    + assert (q0 = q) as -> by congruence.
      rewrite Hd', (inv_depth _ Hi _ _ _ Hc Hq), (depth_delete_eq _ _ _ _ Ht). lia.
    + rewrite (depth_delete_ne q q0 cmd t); [by apply (inv_depth _ Hi _ _ _ Hc1)|done|].
      intros <-. by pose proof (inv_qpair _ Hi _ _ _ _ _ Hc Hc1 Hq Hq0).
  - intros p1 c1 [[<- <-]|[? Hc1]]%lookup_insert_Some.
    + rewrite He', Ho'. by eapply (inv_entry _ Hi).
    + exact (inv_entry _ Hi _ _ Hc1).
Qed.

(** The buffer and the task of a completed command are given back. *)
Lemma inv_give s w' b t :
  inv s → t ∈ pool → flying s !! t = None →
  (∀ t' q' cmd', flying s !! t' = Some (q', cmd') → cmd_buf cmd' ≠ b) →
  view w' = with_avail (λ A, {[t]} ∪ A) (with_held (λ B, B ∖ {[b]}) (view (env s))) →
  inv (set_env w' s).
Proof.
  intros Hi Htp Htf Hb Hv. split; simpl; rewrite ?Hv; simpl.
  - intros t' q cmd Ht. destruct (inv_cmd _ Hi _ _ _ Ht)
      as (tk&c0&e&?&?&?&?&?&?&?). exists tk, c0, e. split_and!; try done.
    specialize (Hb _ _ _ Ht). set_solver.
  - apply (inv_buf _ Hi).
  - intros t' [->%elem_of_singleton|?]%elem_of_union; [done|]. by apply (inv_disj _ Hi).
  - pose proof (inv_pool _ Hi). set_solver.
  - apply (inv_bound _ Hi).
  - apply (inv_qpair _ Hi).
  - apply (inv_depth _ Hi).
  - apply (inv_entry _ Hi).
Qed.

(** A context receives a queue pair that no other context uses. *)
Lemma inv_attach s w' p c q :
  inv s → ctxs s !! p = Some c → qpair c = None → current_queue_depth c = 0 →
  depth q (flying s) = O →
  (∀ p' c', ctxs s !! p' = Some c' → qpair c' ≠ Some q) →
  avail (view w') = avail (view (env s)) → held (view w') = held (view (env s)) →
  inflight (view w') = flying s →
  inv (set_ctxs <[p := set_qpair (Some q) c]> (set_env w' s)).
Proof.
  intros Hi Hc Hq Hd Hq0 Hfresh Ha Hh Hf. split; simpl; rewrite ?Hf, ?Ha, ?Hh.
  - intros t q' k Ht. destruct (inv_cmd _ Hi _ _ _ Ht)
      as (tk&c0&e&?&Hc0&?&?&?&?&?). exists tk, c0, e.
    rewrite lookup_insert_ne by congruence. done.
  - apply (inv_buf _ Hi).
  - apply (inv_disj _ Hi).
  - apply (inv_pool _ Hi).
  - apply (inv_bound _ Hi).
  - intros p1 p2 c1 c2 q'. rewrite !lookup_insert_Some.
    intros [[<- <-]|[? Hc1]] [[<- <-]|[? Hc2]] ??; simplify_eq/=; try done.
    + by destruct (Hfresh _ _ Hc2).
    + by destruct (Hfresh _ _ Hc1).
    + by eapply (inv_qpair _ Hi).
  - intros p1 c1 q'. rewrite lookup_insert_Some.
    intros [[<- <-]|[? Hc1]] ?; simplify_eq/=; [lia|]. by eapply (inv_depth _ Hi).
  - intros p1 c1 [[<- <-]|[? Hc1]]%lookup_insert_Some.
    + exact (inv_entry _ Hi _ _ Hc).
    + exact (inv_entry _ Hi _ _ Hc1).
Qed.

(** Nothing is outstanding yet and every context has its own queue pair, if
    any. *)
Lemma inv_initial s :
  inflight (view (env s)) = ∅ → avail (view (env s)) = pool →
  Z.of_nat (size pool) < 2 ^ 64 →
  (∀ p1 p2 c1 c2 q, ctxs s !! p1 = Some c1 → ctxs s !! p2 = Some c2 →
     qpair c1 = Some q → qpair c2 = Some q → p1 = p2) →
  (∀ p c, ctxs s !! p = Some c → current_queue_depth c = 0 ∧ ∃ e,
     entries s !! entry c = Some e ∧ wf_entry e ∧
     0 ≤ offset_in_ios c < size_in_ios e) →
  inv s.
Proof.
  intros Hf Ha Hb Hq Hc. split; rewrite ?Hf, ?Ha; try done.
  - set_solver.
  - intros p c q Hp _. by destruct (Hc _ _ Hp) as [-> _].
  - intros p c Hp. by destruct (Hc _ _ Hp) as [_ ?].
Qed.
End engine_inv.
