(* ===== verification/EngineSpec.v ===== *)
(** * Specifications of the engine's operations

    Each operation of [Engine] terminates without undefined behaviour, keeps
    the invariant of [EngineInv] and changes only what [frame] allows; the only
    way the process can end inside the engine is [exit(1)]. *)
From S2P Require Import Prelude Spdk Arb Engine EngineInv.

(** ** Rules for the accesses of [Arb] *)
Section access_rules.
Context {W X : Type}.
Implicit Types (s : prog W X) (E : Z → prog W X → Prop).

Lemma wp_call {A} (f : W → A * W) Q E s :
  (∀ a w', f (env s) = (a, w') → Q a (set_env w' s)) → wp (call f) Q E s.
Proof. intros HQ. unfold wp, call. destruct (f (env s)) as [a w']. by apply HQ. Qed.

Lemma wp_effect f Q E s : Q tt (set_env (f (env s)) s) → wp (effect f) Q E s.
Proof. done. Qed.

Lemma wp_ctx_at p c Q E s : ctxs s !! p = Some c → Q c s → wp (ctx_at p) Q E s.
Proof. intros Hc HQ. apply wp_bind, wp_get. by eapply wp_of_option. Qed.

Lemma wp_entry_at p e Q E s : entries s !! p = Some e → Q e s → wp (entry_at p) Q E s.
Proof. intros Hc HQ. apply wp_bind, wp_get. by eapply wp_of_option. Qed.

Lemma wp_task_at p t Q E s : tasks s !! p = Some t → Q t s → wp (task_at p) Q E s.
Proof. intros Hc HQ. apply wp_bind, wp_get. by eapply wp_of_option. Qed.

Lemma wp_worker_at p t Q E s :
  workers s !! p = Some t → Q t s → wp (worker_at p) Q E s.
Proof. intros Hc HQ. apply wp_bind, wp_get. by eapply wp_of_option. Qed.

Lemma wp_ctx_upd p c f Q E s :
  ctxs s !! p = Some c → Q tt (set_ctxs <[p := f c]> s) → wp (ctx_upd p f) Q E s.
Proof. intros Hc HQ. apply wp_bind. by eapply wp_ctx_at. Qed.

Lemma set_ctxs_insert2 p (a b : ns_worker_ctx X) s :
  set_ctxs <[p := a]> (set_ctxs <[p := b]> s) = set_ctxs <[p := a]> s.
Proof. unfold set_ctxs. simpl. by rewrite insert_insert_eq. Qed.

Lemma set_ctxs_id p (a : ns_worker_ctx X) s :
  ctxs s !! p = Some a → set_ctxs <[p := a]> s = s.
Proof. destruct s. unfold set_ctxs. simpl. intros. by rewrite insert_id. Qed.

Lemma set_env_id s : set_env (env s) s = s.
Proof. by destruct s. Qed.

Lemma set_env_ctxs w f s : set_env w (set_ctxs f s) = set_ctxs f (set_env w s).
Proof. done. Qed.

Lemma set_env2 w w' s : set_env w (set_env w' s) = set_env w s.
Proof. done. Qed.
End access_rules.

Ltac wp_access :=
  lazymatch goal with
  | |- wp (call _) _ _ _ => apply wp_call
  | |- wp (effect _) _ _ _ => apply wp_effect
  | |- wp (ctx_at _) _ _ _ => eapply wp_ctx_at
  | |- wp (entry_at _) _ _ _ => eapply wp_entry_at
  | |- wp (task_at _) _ _ _ => eapply wp_task_at
  | |- wp (worker_at _) _ _ _ => eapply wp_worker_at
  | |- wp (ctx_upd _ _) _ _ _ => eapply wp_ctx_upd
  end.

(** ** The frame of an operation *)
Section frame.
Context {W X : Type} `{!Spdk W Z} `{!SpdkView W Z}.
Implicit Types (s : prog W X) (c : ns_worker_ctx X).

Record ctx_frame c c' : Prop := {
  cf_entry : entry c' = entry c;
  cf_qpair : qpair c' = qpair c;
  cf_draining : is_draining c = true → is_draining c' = true;
}.

Record frame s s' : Prop := {
  fr_entries : entries s' = entries s;
  fr_workers : workers s' = workers s;
  fr_arb : g_arbitration s' = g_arbitration s;
  fr_qpairs : qpairs (view (env s')) = qpairs (view (env s));
  fr_tsc : tsc (env s) ≤ tsc (env s');
  fr_ctx p c : ctxs s !! p = Some c → ∃ c', ctxs s' !! p = Some c' ∧ ctx_frame c c';
}.

#[export] Instance ctx_frame_preorder : PreOrder ctx_frame.
Proof.
  split; [by split|].
  intros c1 c2 c3 [] []. split; [congruence|congruence|auto].
Qed.

#[export] Instance frame_preorder : PreOrder frame.
Proof.
  split.
  - intros s. split; try done. intros p c Hc. by exists c.
  - intros s1 s2 s3 [] []. split; try congruence; [lia|].
    intros p c Hp. destruct (fr_ctx0 _ _ Hp) as (c'&Hc'&?).
    destruct (fr_ctx1 _ _ Hc') as (c''&?&?). exists c''. split; [done|].
    by transitivity c'.
Qed.

Lemma frame_env s w' :
  qpairs (view w') = qpairs (view (env s)) → tsc (env s) ≤ tsc w' →
  frame s (set_env w' s).
Proof. intros. split; try done. intros p c Hc. by exists c. Qed.

Lemma frame_tasks s f : frame s (set_tasks f s).
Proof. split; try done. intros p c Hc. by exists c. Qed.

Lemma frame_ctx s p c c' :
  ctxs s !! p = Some c → ctx_frame c c' → frame s (set_ctxs <[p := c']> s).
Proof.
  intros Hc Hf. split; try done. intros p0 c0 Hc0. simpl.
  destruct (decide (p = p0)) as [->|].
  - rewrite lookup_insert_eq. simplify_eq. by exists c'.
  - rewrite lookup_insert_ne by done. by exists c0.
Qed.
End frame.

Create HintDb frame.
#[export] Hint Resolve frame_env frame_tasks frame_ctx : frame.

(** ** The fields that a variant adds *)
Section extra.
Context {W X : Type} `{!Spdk W Z}.

Definition stamped (now : Z) (f : option (Z → X → X)) (x : X) : X :=
  match f with Some f => f now x | None => x end.

Definition may_fail : Prop :=
  ∃ q c t (w w' : W) rc, submit q c t w = (rc, w') ∧ rc ≠ 0.

(** [xinv d x]: the added fields [x] agree with the queue depth [d]. *)
Record variant_extra (xinv : Z → X → Prop) (v : variant X) : Prop := {
  vx_setup x : xinv 0 x → xinv 0 (v_setup v x);
  vx_submit d x now : 0 ≤ d → xinv d x →
    xinv (d + 1) (v_after v (stamped now (v_before v) x));
  vx_fail d x now : may_fail → 0 ≤ d → xinv d x →
    xinv d (v_after v (stamped now (v_before v) x));
  vx_complete d x now : 0 ≤ d → xinv (d + 1) x →
    xinv d (stamped now (v_complete v) x);
  vx_report x : xinv 0 x → ∃ y, v_report v x = Some y ∧ xinv 0 y;
  vx_fill : v_fill v = true → ∀ n w w', dma_zmalloc n w ≠ ((None, w') : _ * W);
}.
End extra.

(** ** Operations *)
Section spec.
Context {W X : Type} `{!Spdk W Z} `{!SpdkView W Z} `{!SpdkLaws W Z}.
Context (pool : gset Z) (safe : ns_entry → io_cmd → Prop) (v : variant X).
Context (xinv : Z → X → Prop).
Context (Hv : variant_ok safe v) (Hx : variant_extra (W := W) xinv v).
Implicit Types (s : prog W X) (c : ns_worker_ctx X).

Local Abbreviation inv := (inv pool safe).
Local Abbreviation flying s := (inflight (view (env s))).

(** The tasks that are neither free nor in flight. *)
Definition lost s : gset Z := pool ∖ (avail (view (env s)) ∪ dom (flying s)).

Definition xok s : Prop := ∀ p c,
  ctxs s !! p = Some c → xinv (current_queue_depth c) (extra c).

Lemma xok_upd s w' p c' : xok s → xinv (current_queue_depth c') (extra c') →
  xok (set_ctxs <[p := c']> (set_env w' s)).
Proof.
  intros Hs Hc p' c. simpl.
  intros [[<- <-]|[??]]%lookup_insert_Some; [done|by eapply Hs].
Qed.

Lemma stamp_spec p f c E s : ctxs s !! p = Some c →
  wp (stamp p f) (λ _ s', ∃ w' now, view w' = view (env s) ∧ quiet (env s) w' ∧
    s' = set_ctxs <[p := set_extra (stamped now f (extra c)) c]> (set_env w' s)) E s.
Proof.
  intros Hc. unfold stamp. destruct f as [f|].
  - apply wp_bind, wp_call. intros now w' [? ?]%clock_now_law.
    eapply wp_ctx_upd; [exact Hc|]. by exists w', now.
  - apply wp_skip. exists (env s), 0. split_and!; [done|done|].
    rewrite set_env_id, set_ctxs_id; [done|]. by destruct c.
Qed.

Lemma next_offset_spec p c e E s :
  ctxs s !! p = Some c → entries s !! entry c = Some e → wf_entry e →
  0 ≤ offset_in_ios c < size_in_ios e →
  wp (next_offset p) (λ off s', ∃ w' o, view w' = view (env s) ∧ quiet (env s) w' ∧
    0 ≤ off < size_in_ios e ∧ 0 ≤ o < size_in_ios e ∧
    s' = set_ctxs <[p := set_offset o c]> (set_env w' s)) E s.
Proof.
  intros Hc He [??] ?. unfold next_offset.
  apply wp_bind; eapply wp_ctx_at; [exact Hc|].
  apply wp_bind; eapply wp_entry_at; [exact He|].
  apply wp_bind, wp_get. case_decide.
  - apply wp_bind, wp_call. intros r w' (?&?&?)%rand_r_law.
    rewrite decide_False by lia. apply wp_ret.
    exists w', (offset_in_ios c). pose proof (Z.mod_pos_bound (u64 r) (size_in_ios e)).
    split_and!; try done; try lia. rewrite set_ctxs_id; [done|]. by destruct c.
  - apply wp_bind. eapply wp_ctx_upd; [exact Hc|]. apply wp_ret.
    exists (env s), (if decide (u64 (offset_in_ios c + 1) = size_in_ios e) then 0
                     else u64 (offset_in_ios c + 1)).
    rewrite set_env_id. split_and!; try done; try lia;
      rewrite u64_small by lia; case_decide; lia.
Qed.

(** What a call of [submit_single_io] on context [p] may have done. *)
Record submitted p s s' : Prop := {
  sub_inv : inv s';
  sub_frame : frame s s';
  sub_cases c c' : ctxs s !! p = Some c → ctxs s' !! p = Some c' →
    io_completed c' = io_completed c ∧
    ((current_queue_depth c' = current_queue_depth c + 1 ∧ lost s' = lost s) ∨
     (current_queue_depth c' = current_queue_depth c ∧
      ∃ t, t ∈ avail (view (env s)) ∧ lost s' = {[t]} ∪ lost s));
  sub_avail : size (avail (view (env s))) = S (size (avail (view (env s'))));
  sub_x : xok s → xok s';
  sub_others p' : p' ≠ p → ctxs s' !! p' = ctxs s !! p';
  sub_flying c c' : ctxs s !! p = Some c → ctxs s' !! p = Some c' →
    (current_queue_depth c' = current_queue_depth c + 1 ∧ ∃ t q k,
       qpair c = Some q ∧ flying s !! t = None ∧ flying s' = <[t := (q, k)]> (flying s)) ∨
    (current_queue_depth c' = current_queue_depth c ∧ flying s' = flying s);
}.

(** The state in which [send] is called: task [t] has left the pool and holds
    the fresh buffer [b]. *)
Record armed p t b s s' : Prop := {
  arm_inv : inv s';
  arm_frame : frame s s';
  arm_task : tasks s' !! t = Some (ArbTask p b);
  arm_free : t ∈ avail (view (env s));
  arm_avail : avail (view (env s')) = avail (view (env s)) ∖ {[t]};
  arm_flying : flying s' = flying s;
  arm_held : b ∈ held (view (env s'));
  arm_fresh t' q' k : flying s' !! t' = Some (q', k) → cmd_buf k ≠ b;
  arm_ctx c c' : ctxs s !! p = Some c → ctxs s' !! p = Some c' →
    io_completed c' = io_completed c ∧ current_queue_depth c' = current_queue_depth c;
  arm_x : xok s →
    (∀ c, ctxs s' !! p = Some c →
       xinv (current_queue_depth c + 1) (v_after v (extra c)) ∧
       (may_fail (W := W) → xinv (current_queue_depth c) (v_after v (extra c)))) ∧
    (∀ p' c, p' ≠ p → ctxs s' !! p' = Some c → xinv (current_queue_depth c) (extra c));
  arm_others p' : p' ≠ p → ctxs s' !! p' = ctxs s !! p';
}.

Lemma send_spec p t b off c q e s s' E :
  armed p t b s s' → inv s →
  ctxs s' !! p = Some c → qpair c = Some q →
  entries s' !! entry c = Some e → wf_entry e → 0 ≤ off < size_in_ios e →
  wp (send v p t b off) (λ _ s'', submitted p s s'') E s'.
Proof.
  intros Ha Hi0 Hc Hq He Hwf Hoff. pose proof (arm_inv _ _ _ _ _ Ha) as Hi.
  pose proof (arm_free _ _ _ _ _ Ha) as Ht.
  pose proof (inv_disj _ _ _ Hi0 _ Ht) as Htf.
  pose proof (arm_flying _ _ _ _ _ Ha) as Hfl.
  pose proof (inv_pool _ _ _ Hi0) as Hpool.
  destruct (Hv c e b off) as [Hsafe Hb]; [apply Hwf|done|].
  unfold send. apply wp_bind; eapply wp_ctx_at; [done|].
  apply wp_bind; eapply wp_entry_at; [done|].
  apply wp_bind; eapply wp_of_option; [done|].
  apply wp_bind, wp_call. intros rc w' Hsub.
  apply wp_bind; eapply wp_ctx_upd; [done|].
  case_decide as Hrc.
  - assert (may_fail (W := W)) as Hfail by (repeat eexists; done).
    apply submit_failed in Hsub as [Hv' [_ Htsc]]; [|done]. apply wp_skip.
    assert (inv (set_ctxs <[p := set_extra (v_after v (extra c)) c]> (set_env w' s')))
      by (eapply inv_ctx_upd; [by apply inv_quiet|done..]).
    split; [done| | | | | |].
    + transitivity s'; [apply Ha|]. transitivity (set_env w' s').
      * apply frame_env; [by rewrite Hv'|lia].
      * by eapply frame_ctx.
    + intros c0 c0' Hc0 Hc0'. simpl in Hc0'. rewrite lookup_insert_eq in Hc0'.
      destruct (arm_ctx _ _ _ _ _ Ha _ _ Hc0 Hc). simplify_eq/=.
      split; [done|]. right. split; [done|]. exists t. split; [done|].
      unfold lost. simpl. rewrite Hv', (arm_avail _ _ _ _ _ Ha), Hfl.
      apply tokens_lose; [done| |by apply not_elem_of_dom]. clear -Hpool Ht. set_solver.
    + simpl. rewrite Hv', (arm_avail _ _ _ _ _ Ha). by apply size_take.
    + intros Hok. destruct (arm_x _ _ _ _ _ Ha Hok) as [Hxc Hxo].
      intros p' c'. simpl.
      intros [[<- <-]|[??]]%lookup_insert_Some; [by apply (proj2 (Hxc c Hc))|by eapply Hxo].
    + intros p' ?. simpl. rewrite lookup_insert_ne by done. by apply (arm_others _ _ _ _ _ Ha).
    + intros c0 c0' Hc0 Hc0'. simpl in Hc0'. rewrite lookup_insert_eq in Hc0'.
      destruct (arm_ctx _ _ _ _ _ Ha _ _ Hc0 Hc). simplify_eq/=. right. by rewrite Hv', Hfl.
  - assert (rc = 0) as -> by (destruct (decide (rc = 0)); naive_solver).
    apply submit_ok in Hsub as [Hv' Htsc]; [|by rewrite Hfl].
    eapply wp_ctx_upd; [by apply lookup_insert_eq|].
    rewrite set_ctxs_insert2.
    assert (u64 (current_queue_depth c + 1) = current_queue_depth c + 1) as Hd.
    { pose proof (inv_bound _ _ _ Hi0). rewrite (inv_depth _ _ _ Hi _ _ _ Hc Hq), Hfl.
      assert (S (depth q (flying s)) ≤ size pool)%nat; [|apply u64_small; lia].
      rewrite <-(depth_insert_eq q (v_cmd v c e b off) t) by done.
      apply depth_le_pool. rewrite dom_insert_L. clear -Hpool Ht. set_solver. }
    simpl. rewrite Hd.
    assert (∀ A, lost (set_ctxs A (set_env w' s')) = lost s) as Hlost.
    { intros A. unfold lost. simpl.
      rewrite Hv'. simpl. rewrite (arm_avail _ _ _ _ _ Ha), Hfl, dom_insert_L.
      by apply tokens_take. }
    split.
    + apply (inv_fly _ _ s' w' p c _ e q t (v_cmd v c e b off)); try done.
      * by rewrite Hb, (arm_task _ _ _ _ _ Ha).
      * clear -Hpool Ht. set_solver.
      * rewrite (arm_avail _ _ _ _ _ Ha). clear. set_solver.
      * by rewrite Hfl.
      * rewrite Hb. apply Ha.
      * rewrite Hb. apply Ha.
    + transitivity s'; [apply Ha|]. transitivity (set_env w' s').
      * apply frame_env; [by rewrite Hv'|lia].
      * by eapply frame_ctx.
    + intros c0 c0' Hc0 Hc0'. simpl in Hc0'. rewrite lookup_insert_eq in Hc0'.
      destruct (arm_ctx _ _ _ _ _ Ha _ _ Hc0 Hc). simplify_eq/=.
      split; [done|]. left. split; [lia|]. apply Hlost.
    + simpl. rewrite Hv'. simpl. rewrite (arm_avail _ _ _ _ _ Ha). by apply size_take.
    + intros Hok. destruct (arm_x _ _ _ _ _ Ha Hok) as [Hxc Hxo].
      intros p' c'. simpl.
      intros [[<- <-]|[??]]%lookup_insert_Some; [by apply (proj1 (Hxc c Hc))|by eapply Hxo].
    + intros p' ?. simpl. rewrite lookup_insert_ne by done. by apply (arm_others _ _ _ _ _ Ha).
    + intros c0 c0' Hc0 Hc0'. simpl in Hc0'. rewrite lookup_insert_eq in Hc0'.
      destruct (arm_ctx _ _ _ _ _ Ha _ _ Hc0 Hc).
      destruct (fr_ctx _ _ (arm_frame _ _ _ _ _ Ha) _ _ Hc0) as (c1&Hc1&[_ Hq1 _]).
      simplify_eq/=. left. split; [lia|]. exists t, q, (v_cmd v c e b off).
      rewrite Hv'. simpl. rewrite Hfl. by rewrite <-Hq1.
Qed.

Lemma submit_single_io_spec p c q s :
  inv s → ctxs s !! p = Some c → qpair c = Some q →
  wp (submit_single_io v p) (λ _ s', submitted p s s') (λ code _, code = 1) s.
Proof.
  intros Hi Hc Hq. destruct (inv_entry _ _ _ Hi _ _ Hc) as (e&He&Hwf&Hoff).
  unfold submit_single_io. apply wp_bind, wp_call.
  intros [t|] w1 Hget; [|by apply wp_exit].
  apply pool_get_some in Hget as (Ht&Hv1&Hq1).
  pose proof (inv_disj _ _ _ Hi _ Ht) as Htf.
  apply wp_bind, wp_get, wp_bind, wp_call. intros [b|] w2 Hz; last first.
  { destruct (v_fill v) eqn:Hfill; [by destruct (vx_fill _ _ Hx Hfill _ _ _ Hz)|].
    apply wp_bind, wp_effect. by apply wp_exit. }
  apply dma_zmalloc_some in Hz as (Hb&Hv2&Hq2). simpl in Hb, Hv2, Hq2.
  rewrite set_env2.
  apply wp_bind, wp_modify, wp_bind.
  eapply wp_weaken; [by eapply next_offset_spec|].
  intros off ? (w3&o&Hv3&Hq3&Hof&Ho&->). simpl in Hv3, Hq3.
  apply wp_bind. eapply wp_weaken; [eapply stamp_spec, lookup_insert_eq|].
  intros [] ? (w4&now&Hv4&Hq4&->). simpl in Hv4, Hq4.
  rewrite set_env_ctxs, set_env2, set_ctxs_insert2.
  assert (view w4 = with_held (λ B, {[b]} ∪ B)
    (with_avail (λ A, A ∖ {[t]}) (view (env s)))) as Hview
    by (rewrite Hv4, Hv3, Hv2, Hv1; done).
  assert (tsc w4 = tsc (env s)) as Htsc
    by (destruct Hq1, Hq2, Hq3, Hq4; congruence).
  eapply send_spec; [|exact Hi|apply lookup_insert_eq|exact Hq|exact He|done|done].
  split; simpl; rewrite ?Hview; simpl.
  - eapply inv_ctx_upd; [|exact Hc|done|done|done|by intros; simplify_eq/=].
    apply (inv_take _ _ (set_tasks <[t := ArbTask p b]> s));
      [by apply inv_task|simpl; rewrite Hview; simpl; set_solver..|].
    by rewrite Hview.
  - transitivity (set_tasks <[t := ArbTask p b]> s); [apply frame_tasks|].
    transitivity (set_env w4 (set_tasks <[t := ArbTask p b]> s)).
    + apply frame_env; simpl; [by rewrite Hview|lia].
    + eapply frame_ctx; [exact Hc|done].
  - apply lookup_insert_eq.
  - done.
  - done.
  - done.
  - set_solver.
  - intros t' q' k Hk Hkb. destruct (inv_cmd _ _ _ Hi _ _ _ Hk)
      as (?&?&?&?&?&?&?&Hh&?). apply Hb. by rewrite Hv1, <-Hkb.
  - intros c0 c0' Hc0. rewrite lookup_insert_eq. intros. by simplify_eq/=.
  - intros Hok. pose proof (inv_depth _ _ _ Hi _ _ _ Hc Hq). split.
    + rewrite lookup_insert_eq. intros c' [= <-]. simpl. split.
      * apply (vx_submit _ _ Hx); [lia|by apply (Hok p)].
      * intros. apply (vx_fail _ _ Hx); [done|lia|by apply (Hok p)].
    + intros p' c' ?. rewrite lookup_insert_ne by done. apply Hok.
  - intros p' ?. by rewrite lookup_insert_ne.
Qed.

(** What the delivery of one completion may have done; [w'] is the
    environment after the driver found it. *)
Record completed t w' s s' : Prop := {
  com_inv : inv s';
  com_frame : frame s s';
  com_lost : lost s ⊆ lost s';
  com_ctx tk c c' : tasks s !! t = Some tk → ctxs s !! ns_ctx tk = Some c →
    ctxs s' !! ns_ctx tk = Some c' →
    io_completed c' = u64 (io_completed c + 1) ∧
    (is_draining c = true → current_queue_depth c' = current_queue_depth c - 1);
  com_drain tk c : tasks s !! t = Some tk → ctxs s !! ns_ctx tk = Some c →
    is_draining c = true →
    flying s' = delete t (flying s) ∧ lost s' = lost s ∧ quiet w' (env s');
  com_refill tk c c' : tasks s !! t = Some tk → ctxs s !! ns_ctx tk = Some c →
    ctxs s' !! ns_ctx tk = Some c' → is_draining c = false →
    (current_queue_depth c' = current_queue_depth c ∧ lost s' = lost s ∧ ∃ t' q k,
       qpair c = Some q ∧ delete t (flying s) !! t' = None ∧
       flying s' = <[t' := (q, k)]> (delete t (flying s))) ∨
    (current_queue_depth c' = current_queue_depth c - 1 ∧
       flying s' = delete t (flying s) ∧ ∃ t', (t' ∉ lost s) ∧ lost s' = {[t']} ∪ lost s);
  com_x : xok s → xok s';
  com_others tk p' : tasks s !! t = Some tk → p' ≠ ns_ctx tk →
    ctxs s' !! p' = ctxs s !! p';
}.

Lemma frame_land s p c c' w' :
  ctxs s !! p = Some c → ctx_frame c c' →
  qpairs (view w') = qpairs (view (env s)) → tsc (env s) ≤ tsc w' →
  frame s (set_ctxs <[p := c']> (set_env w' s)).
Proof.
  intros. transitivity (set_env w' s); [by apply frame_env|by eapply frame_ctx].
Qed.

(** The buffer and the task go back to the environment. *)
Lemma give_back w b t : b ∈ held (view w) → t ∉ avail (view w) →
  view (pool_put t (dma_free b w)) =
    with_avail (λ A, {[t]} ∪ A) (with_held (λ B, B ∖ {[b]}) (view w)) ∧
  quiet w (pool_put t (dma_free b w)).
Proof.
  intros Hb Ht. destruct (dma_free_law w b Hb) as [Hv1 [Hq1 Ht1]].
  destruct (pool_put_law (dma_free b w) t) as [Hv2 [Hq2 Ht2]];
    [by rewrite Hv1|].
  rewrite Hv2, Hv1. split; [done|]. split; [|congruence].
  intros q. by rewrite Hq2, Hq1.
Qed.

Lemma inv_complete s w' q t k c c' p :
  inv s → flying s !! t = Some (q, k) →
  tasks s !! t = Some (ArbTask p (cmd_buf k)) → ctxs s !! p = Some c →
  view w' = with_avail (λ A, {[t]} ∪ A) (with_held (λ B, B ∖ {[cmd_buf k]})
    (with_inflight (delete t) (view (env s)))) →
  entry c' = entry c → qpair c' = qpair c → offset_in_ios c' = offset_in_ios c →
  current_queue_depth c' = current_queue_depth c - 1 →
  ∀ w2, view w2 = with_inflight (delete t) (view (env s)) →
  inv (set_ctxs <[p := c']> (set_env w' s)).
Proof.
  intros Hi Ht Htk Hc Hv' He Hq Ho Hd w2 Hv2.
  assert (t ∈ pool) as Hpool.
  { apply (inv_pool _ _ _ Hi), elem_of_union_r, elem_of_dom. by eexists. }
  rewrite <-(set_env2 w' w2), <-set_env_ctxs.
  apply (inv_give _ _ _ _ (cmd_buf k) t); [|done|simpl; rewrite Hv2..|].
  - eapply inv_land; [done|exact Ht|exact Htk|done|exact Hc|exact Hv2|done..].
  - apply lookup_delete_eq.
  - simpl. intros t' q' k' [? Hk]%lookup_delete_Some Heq.
    by pose proof (inv_buf _ _ _ Hi _ _ _ _ _ _ Ht Hk (eq_sym Heq)).
  - simpl. by rewrite Hv', Hv2.
Qed.

Lemma io_complete_spec q t r w' s :
  inv s → poll_next q (env s) = (Some (t, r), w') →
  wp (io_complete v t r) (λ _ s', completed t w' s s')
    (λ code _, code = 1 ∧ ∀ tk c, tasks s !! t = Some tk →
       ctxs s !! ns_ctx tk = Some c → is_draining c = false)
    (set_env w' s).
Proof.
  intros Hi Hpoll. apply poll_some in Hpoll as ((k&Ht)&Hv1&Htsc1).
  destruct (inv_cmd _ _ _ Hi _ _ _ Ht) as (tk&c&e&Htk&Hc&Hq&Hbuf&Hheld&He&Hsafe).
  destruct tk as [p b]. simpl in *. subst b.
  assert (current_queue_depth c = Z.of_nat (S (depth q (delete t (flying s))))) as Hd
    by (rewrite (inv_depth _ _ _ Hi _ _ _ Hc Hq), (depth_delete_eq _ _ _ _ Ht); done).
  assert (u64 (current_queue_depth c - 1) = current_queue_depth c - 1) as Hd1.
  { pose proof (inv_bound _ _ _ Hi).
    assert (depth q (flying s) ≤ size pool)%nat.
    { apply depth_le_pool. pose proof (inv_pool _ _ _ Hi). set_solver. }
    rewrite (depth_delete_eq _ _ _ _ Ht) in *. apply u64_small. lia. }
  unfold io_complete, task_complete.
  apply wp_bind. eapply wp_task_at; [exact Htk|]. simpl.
  apply wp_bind. eapply wp_ctx_upd; [exact Hc|].
  apply wp_bind. eapply wp_ctx_upd; [apply lookup_insert_eq|].
  rewrite set_ctxs_insert2. simpl. rewrite Hd1.
  apply wp_bind. eapply wp_weaken; [eapply stamp_spec, lookup_insert_eq|].
  intros [] ? (w2&now&Hv2&Hq2&->). simpl in Hv2, Hq2.
  rewrite set_env_ctxs, set_env2, set_ctxs_insert2.
  apply wp_bind, wp_effect, wp_bind, wp_effect. simpl.
  rewrite !set_env_ctxs, !set_env2.
  destruct (give_back w2 (cmd_buf k) t) as [Hv3 Hq3].
  { by rewrite Hv2, Hv1. }
  { rewrite Hv2, Hv1. intros Ha. by rewrite (inv_disj _ _ _ Hi _ Ha) in Ht. }
  rewrite Hv2, Hv1 in Hv3. set (w3 := pool_put t (dma_free (cmd_buf k) w2)) in *.
  set (c3 := set_extra _ _).
  assert (inv (set_ctxs <[p := c3]> (set_env w3 s))) as Hi3
    by (eapply inv_complete; try done; by rewrite Hv2).
  assert (tsc w3 = tsc w') as Htsc3 by (destruct Hq2, Hq3; congruence).
  assert (frame s (set_ctxs <[p := c3]> (set_env w3 s))) as Hf3
    by (eapply frame_land; [done|done|by rewrite Hv3|lia]).
  assert (lost (set_ctxs <[p := c3]> (set_env w3 s)) = lost s) as Hl3.
  { unfold lost. simpl. rewrite Hv3. simpl. rewrite dom_delete_L.
    apply tokens_return, elem_of_dom. by eexists. }
  assert (xok s → xok (set_ctxs <[p := c3]> (set_env w3 s))) as Hx3.
  { intros Hok. apply xok_upd; [done|]. simpl. apply (vx_complete _ _ Hx); [lia|].
    replace (_ - 1 + 1) with (current_queue_depth c) by lia. by apply (Hok p). }
  apply wp_bind. eapply wp_ctx_at; [apply lookup_insert_eq|]. simpl.
  destruct (is_draining c) eqn:Hdr.
  - apply wp_skip. split; [done|done|by rewrite Hl3| | | |done|];
      [| |intros; simplify_eq/=; congruence|intros; simplify_eq/=; by rewrite lookup_insert_ne].
    + intros. simplify_eq/=. rewrite lookup_insert_eq in *. simplify_eq/=. auto.
    + intros _ _ _ _ _. simpl. rewrite Hv3. split_and!; [done|done|].
      destruct Hq2 as [Hl2 ?], Hq3 as [Hl3' ?].
      split; [intros q0; by rewrite Hl3', Hl2|congruence].
  - eapply wp_mono; [eapply submit_single_io_spec;
      [exact Hi3|apply lookup_insert_eq|exact Hq]| |];
      [|intros code _ ->; split; [done|intros; by simplify_eq/=]].
    intros [] s' [Hi' Hf' Hc' _ Hx' Ho' Hfl']. split; [done|by etransitivity| | | | |by auto|];
      [| | | |intros; simplify_eq/=; rewrite Ho' by done; simpl; by rewrite lookup_insert_ne].
    + destruct (fr_ctx _ _ Hf' p c3) as (c4&Hc4&_); [apply lookup_insert_eq|].
      destruct (Hc' c3 c4) as [_ [[_ ->]|(_&t'&_&->)]];
        [apply lookup_insert_eq|done|by rewrite Hl3|]. rewrite Hl3. set_solver.
    + intros tk c0 c' ??. simplify_eq/=. intros Hc4.
      destruct (Hc' c3 c') as [-> [[-> _]|[-> _]]];
        [apply lookup_insert_eq|done|by (split; [done|simplify_eq/=; congruence])..].
    + intros. simplify_eq/=. congruence.
    + intros tk c0 c' ??. simplify_eq/=. intros Hc4 _.
      assert (flying (set_ctxs <[p := c3]> (set_env w3 s)) = delete t (flying s)) as Hfl3
        by (simpl; by rewrite Hv3).
      pose proof (Hc' c3 c' ltac:(apply lookup_insert_eq) Hc4) as [_ Hcase].
      pose proof (Hfl' c3 c' ltac:(apply lookup_insert_eq) Hc4) as Hfcase.
      rewrite Hl3 in Hcase. simpl in Hfl3, Hcase, Hfcase. rewrite Hfl3 in Hfcase.
      destruct Hcase as [[Hd' Hlo]|(Hd'&t'&Ht'&Hlo)], Hfcase as [[Hd2 Hfl2]|[Hd2 Hfl2]];
        try lia; [left|right].
      * split; [lia|]. split; [done|]. destruct Hfl2 as (t'&q'&k'&?&?&?). by exists t', q', k'.
      * split; [lia|]. split; [done|]. exists t'. split; [|done]. rewrite <-Hl3. unfold lost.
        simpl in Ht' |- *. set_solver.
Qed.

Definition evolves s s' : Prop :=
  inv s' ∧ frame s s' ∧ lost s ⊆ lost s' ∧ (xok s → xok s').

Lemma evolves_refl s : inv s → evolves s s.
Proof. by intros. Qed.

Lemma evolves_trans s1 s2 s3 : evolves s1 s2 → evolves s2 s3 → evolves s1 s3.
Proof.
  intros (?&?&?&?) (?&?&?&?). split_and!; [done|by etransitivity..|auto].
Qed.

Lemma evolves_env s w' :
  inv s → view w' = view (env s) → tsc (env s) ≤ tsc w' → evolves s (set_env w' s).
Proof.
  intros Hi Hw ?. split_and!; [by apply inv_quiet|by apply frame_env; [rewrite Hw|]| |done].
  unfold lost. simpl. by rewrite Hw.
Qed.

Lemma completed_evolves t w' s s' : completed t w' s s' → evolves s s'.
Proof. by intros []. Qed.

Lemma deliver_spec n q s : inv s →
  wp (deliver v n q) (λ _ s', evolves s s') (λ code _, code = 1) s.
Proof.
  revert s. induction n as [|n IH]; intros s Hi; simpl.
  { by apply wp_skip, evolves_refl. }
  apply wp_bind, wp_call. intros [[t r]|] w' Hp.
  - apply wp_bind. eapply wp_mono; [by eapply io_complete_spec| |by intros ?? []].
    intros [] s' Hs'. eapply wp_weaken; [apply IH, Hs'|].
    intros [] s'' ?. by eapply evolves_trans; [eapply completed_evolves|].
  - apply poll_none in Hp as [??]. by apply wp_skip, evolves_env.
Qed.

Lemma check_io_spec p c q s : inv s → ctxs s !! p = Some c → qpair c = Some q →
  wp (check_io v p) (λ _ s', evolves s s') (λ code _, code = 1) s.
Proof.
  intros Hi Hc Hq. unfold check_io, process_completions.
  apply wp_bind. eapply wp_ctx_at; [done|]. apply wp_bind. eapply wp_of_option; [done|].
  apply wp_bind, wp_get, wp_bind, wp_get. by apply deliver_spec.
Qed.

(** While a context drains, its completions submit nothing: the process does
    not exit, nothing is lost, and polling makes progress. *)
Lemma deliver_draining n p c q s :
  inv s → ctxs s !! p = Some c → qpair c = Some q → is_draining c = true →
  wp (deliver v n q) (λ _ s', evolves s s' ∧ lost s' = lost s ∧
      flying s' ⊆ flying s ∧
      (lag q (env s') ≤ lag q (env s))%nat ∧
      (n ≠ O → depth q (flying s) ≠ O → (lag q (env s') < lag q (env s))%nat))
    (λ _ _, False) s.
Proof.
  revert s c. induction n as [|n IH]; intros s c Hi Hc Hq Hdr; simpl.
  { apply wp_skip. split; [by apply evolves_refl|done]. }
  apply wp_bind, wp_call. intros r w' Hp.
  pose proof (poll_idle _ _ _ _ Hp) as Hle.
  pose proof (poll_progress _ _ _ _ Hp) as Hlt.
  destruct r as [[t r]|]; last first.
  { apply poll_none in Hp as [Hw ?]. apply wp_skip.
    split_and!; [by apply evolves_env| |simpl; by rewrite Hw|done|done].
    unfold lost. simpl. by rewrite Hw. }
  destruct (poll_some _ _ _ _ _ Hp) as ((k&Hk)&_&_).
  destruct (inv_cmd _ _ _ Hi _ _ _ Hk) as (tk&c0&e&Htk&Hc0&Hq0&_).
  assert (ns_ctx tk = p) as <- by (by eapply (inv_qpair _ _ _ Hi)).
  simplify_eq. apply wp_bind.
  eapply wp_mono; [by eapply io_complete_spec| |].
  - intros [] s' Hs'. destruct (com_drain _ _ _ _ Hs' _ _ Htk Hc Hdr)
      as (Hfl&Hlost&[Hlag _]).
    destruct (fr_ctx _ _ (com_frame _ _ _ _ Hs') _ _ Hc) as (c'&Hc'&[? Hqe ?]).
    eapply wp_weaken; [eapply (IH s' c'); [apply Hs'|done|by rewrite Hqe|auto]|].
    intros [] s'' (?&Hlost'&Hsub&Hle'&_). rewrite Hlag in Hle'. rewrite Hfl in Hsub.
    split_and!; [|congruence| |lia|intros; specialize (Hlt ltac:(done)); lia];
      [|by etransitivity; [exact Hsub|apply delete_subseteq]].
    by eapply evolves_trans; [eapply completed_evolves|].
  - intros ? _ [_ Hd]. specialize (Hd _ _ Htk Hc). congruence.
Qed.

Lemma evolves_ctx s s' p c q : evolves s s' → ctxs s !! p = Some c →
  qpair c = Some q → ∃ c', ctxs s' !! p = Some c' ∧ qpair c' = Some q ∧
    (is_draining c = true → is_draining c' = true).
Proof.
  intros (_&Hf&_) Hc Hq. destruct (fr_ctx _ _ Hf _ _ Hc) as (c'&?&[]).
  exists c'. split_and!; congruence || done.
Qed.

Lemma submit_io_spec p c q n s : inv s → ctxs s !! p = Some c → qpair c = Some q →
  wp (submit_io v p n) (λ _ s', evolves s s') (λ code _, code = 1) s.
Proof.
  intros Hi Hc Hq. apply (wp_repeat _ (λ _ s', evolves s s')); [|by apply evolves_refl].
  intros k s' _ Hs'. destruct (evolves_ctx _ _ _ _ _ Hs' Hc Hq) as (c'&Hc'&Hq'&_).
  eapply wp_weaken; [eapply submit_single_io_spec; [apply Hs'|done..]|].
  intros [] s'' [Hi'' Hf'' Hcs _ Hx'']. eapply evolves_trans; [done|].
  split_and!; [done..| |done].
  destruct (fr_ctx _ _ Hf'' _ _ Hc') as (c''&Hc''&_).
  destruct (Hcs _ _ Hc' Hc'') as [_ [[_ ->]|(_&t&_&->)]]; set_solver.
Qed.

(** [drain_io] terminates: every iteration polls a queue that has commands
    outstanding and nothing refills it. *)
Lemma drain_io_spec p c q s : inv s → ctxs s !! p = Some c → qpair c = Some q →
  twp (λ fuel, drain_io v fuel p) (λ _ s', evolves s s' ∧ lost s' = lost s ∧
      flying s' ⊆ flying s ∧ depth q (flying s') = O)
    (λ _ _, False) s.
Proof.
  intros Hi Hc Hq. unfold drain_io. apply twp_bind_wp.
  eapply wp_ctx_upd; [exact Hc|].
  set (s0 := set_ctxs _ s).
  assert (evolves s s0) as Hs0.
  { split_and!; [by eapply inv_ctx_upd|by eapply frame_ctx|done|].
    intros Hok. unfold s0. rewrite <-(set_env_id s). apply xok_upd; [done|exact (Hok p c Hc)]. }
  pose (I s' := evolves s s' ∧ lost s' = lost s ∧ flying s' ⊆ flying s ∧ ∃ c', ctxs s' !! p = Some c' ∧
    qpair c' = Some q ∧ is_draining c' = true).
  eapply twp_weaken;
    [apply (twp_while _ _ I (λ s', lag q (env s')))|].
  - intros s' (Hs'&Hl&Hsub&c'&Hc'&Hq'&Hdr) Hb. unfold busy in Hb. rewrite Hc' in Hb.
    apply bool_decide_eq_true in Hb.
    rewrite (inv_depth _ _ _ (proj1 Hs') _ _ _ Hc' Hq') in Hb.
    unfold check_io, process_completions.
    apply wp_bind. eapply wp_ctx_at; [done|].
    apply wp_bind. eapply wp_of_option; [done|].
    apply wp_bind, wp_get, wp_bind, wp_get.
    eapply wp_weaken; [eapply deliver_draining; [apply Hs'|done..]|].
    intros [] s'' (Hs''&Hl'&Hsub'&_&Hlt).
    destruct (evolves_ctx _ _ _ _ _ Hs'' Hc' Hq') as (c''&?&?&?).
    split; [|apply Hlt; [|lia]].
    + split_and!; [by eapply evolves_trans|congruence|by etransitivity|exists c''; auto].
    + pose proof (poll_budget_pos q (max_completions (g_arbitration s')) (env s')). lia.
  - split_and!; [done|done|done|]. exists (set_draining true c).
    split; [apply lookup_insert_eq|done].
  - intros [] s' ((Hs'&Hl&Hsub&c'&Hc'&Hq'&_)&Hb). split_and!; [done|done|done|].
    unfold busy in Hb. rewrite Hc' in Hb. apply bool_decide_eq_false in Hb.
    rewrite (inv_depth _ _ _ (proj1 Hs') _ _ _ Hc' Hq') in Hb. lia.
Qed.

(** A loop of rounds ends because the time stamp counter advances. *)
Lemma ticking_spec tsc_end (loop : nat → M (prog W X) ()) (round : M (prog W X) ()) s :
  (∀ n, loop (Datatypes.S n) = (round;; now ← call get_ticks;
    if decide (now > tsc_end) then skip else loop n)) →
  (∀ s', evolves s s' → wp round (λ _ s'', evolves s' s'') (λ code _, code = 1) s') →
  inv s → twp loop (λ _ s', evolves s s' ∧ tsc_end < tsc (env s')) (λ code _, code = 1) s.
Proof.
  intros Hloop Hround Hi. remember (Z.to_nat (tsc_end + 1 - tsc (env s))) as k eqn:Hk.
  revert s Hk Hi Hround. induction (lt_wf k) as [k _ IH]; intros s -> Hi Hround.
  eapply twp_S; [apply Hloop|].
  apply (twp_bind_wp round (λ n _, now ← call get_ticks;
    if decide (now > tsc_end) then skip else loop n)).
  eapply wp_weaken; [by apply Hround, evolves_refl|]. intros [] s1 Hs1.
  apply twp_bind_wp, wp_call. intros now w' (->&?&Hw&_)%get_ticks_law.
  pose proof (fr_tsc _ _ (proj1 (proj2 Hs1))).
  assert (evolves s (set_env w' s1)) as Hs2
    by (eapply evolves_trans; [done|apply evolves_env; [apply Hs1|done|lia]]).
  case_decide; [apply twp_wp, wp_skip; split; [done|simpl; lia]|].
  eapply twp_weaken; [eapply (IH _ _ _ eq_refl); [apply Hs2|]|].
  - intros s' Hs'. apply Hround. by eapply evolves_trans.
  - intros [] s' [? ?]. split; [by eapply evolves_trans|done].
Unshelve. simpl. lia.
Qed.

Lemma poll_until_spec tsc_end ps s :
  inv s → (∀ p, p ∈ ps → ∃ c q, ctxs s !! p = Some c ∧ qpair c = Some q) →
  twp (λ fuel, poll_until v fuel tsc_end ps)
    (λ _ s', evolves s s' ∧ tsc_end < tsc (env s')) (λ code _, code = 1) s.
Proof.
  intros Hi Hps. apply (ticking_spec _ _ (foreach ps (check_io v))); [done| |done].
  intros s1 Hs1. apply (wp_foreach_inv _ (evolves s1)); [|by apply evolves_refl, Hs1].
  intros p s' Hp Hs'. destruct (Hps p Hp) as (c&q&Hc&Hq).
  destruct (evolves_ctx _ _ _ _ _ (evolves_trans _ _ _ Hs1 Hs') Hc Hq) as (c'&?&?&_).
  eapply wp_weaken; [eapply check_io_spec; [apply Hs'|done..]|].
  intros [] s'' ?. by eapply evolves_trans.
Qed.

(** *** A worker from start to end *)

(** Every open queue pair of a context is known to the driver. *)
Definition opened s : Prop := ∀ p c q,
  ctxs s !! p = Some c → qpair c = Some q → q ∈ qpairs (view (env s)).

(** A context as [associate_workers_with_ns] leaves it. *)
Definition idle_ctx s p : Prop := ∃ c,
  ctxs s !! p = Some c ∧ qpair c = None ∧ current_queue_depth c = 0.
Definition live_ctx s p : Prop := ∃ c q, ctxs s !! p = Some c ∧ qpair c = Some q.
Definition started_ctx s p : Prop := ∃ c q,
  ctxs s !! p = Some c ∧ qpair c = Some q ∧ current_queue_depth c = 0.

(** What setting up queue pairs leaves alone. *)
Definition set_up s s' : Prop :=
  inv s' ∧ opened s' ∧ flying s' = flying s ∧ lost s' = lost s ∧
  entries s' = entries s ∧ workers s' = workers s ∧
  g_arbitration s' = g_arbitration s ∧ tsc (env s) ≤ tsc (env s') ∧
  (xok s → xok s') ∧ avail (view (env s')) = avail (view (env s)).

Lemma set_up_trans s1 s2 s3 : set_up s1 s2 → set_up s2 s3 → set_up s1 s3.
Proof.
  intros (?&?&?&?&?&?&?&?&?&?) (?&?&?&?&?&?&?&?&?&?). unfold set_up.
  split_and!; congruence || lia || auto.
Qed.

(** The invariant only looks at the tasks, the contexts, the entries and the view. *)
Lemma inv_same s s' : inv s → tasks s' = tasks s → ctxs s' = ctxs s →
  entries s' = entries s → view (env s') = view (env s) → inv s'.
Proof. intros [] Ht Hc He Hw. split; rewrite ?Ht, ?Hc, ?He, ?Hw; done. Qed.

(** A context gets its queue pair and its initial added fields. *)
Lemma set_up_attach p c q x s s' : inv s → opened s →
  ctxs s !! p = Some c → qpair c = None → current_queue_depth c = 0 →
  q ∉ qpairs (view (env s)) → depth q (flying s) = O →
  (xok s → xinv 0 x) →
  tasks s' = tasks s → entries s' = entries s → workers s' = workers s →
  g_arbitration s' = g_arbitration s → tsc (env s) ≤ tsc (env s') →
  view (env s') = with_qpairs (λ X, {[q]} ∪ X) (view (env s)) →
  ctxs s' = <[p := set_extra x (set_qpair (Some q) c)]> (ctxs s) →
  set_up s s' ∧ (∀ p', p' ≠ p → ctxs s' !! p' = ctxs s !! p') ∧ started_ctx s' p.
Proof.
  intros Hi Hop Hc Hq Hd Hqn Hq0 Hxx Htk He Hwk Hg Ht Hw Hcs.
  assert (inv (set_ctxs <[p := set_extra x (set_qpair (Some q) c)]> (set_env (env s') s)))
    as Hi'.
  { rewrite <-(set_ctxs_insert2 p _ (set_qpair (Some q) c)).
    eapply inv_ctx_upd; [|apply lookup_insert_eq|done..].
    eapply inv_attach; try done; try by rewrite Hw.
    intros p' c' Hc' Hq'. by destruct Hqn; eapply Hop. }
  split_and!; [split_and!|..]; try done; rewrite ?Hw; try done.
  - by eapply inv_same; [exact Hi'|..]; rewrite ?Hcs.
  - intros p1 c1 q1. rewrite Hcs, Hw. simpl.
    intros [[<- <-]|[??]]%lookup_insert_Some ?; simplify_eq/=; [set_solver|].
    apply elem_of_union_r. by eapply Hop.
  - unfold lost. by rewrite Hw.
  - intros Hok p' c'. rewrite Hcs.
    intros [[<- <-]|[??]]%lookup_insert_Some; [simpl; rewrite Hd; auto|by eapply Hok].
  - intros p' ?. rewrite Hcs. by rewrite lookup_insert_ne.
  - eexists _, q. rewrite Hcs. by split_and!; [apply lookup_insert_eq|..].
Qed.

(** No queue pair: nothing has changed. *)
Lemma set_up_refused p c s w' : inv s → opened s → ctxs s !! p = Some c → qpair c = None →
  view w' = view (env s) → tsc (env s) ≤ tsc w' →
  set_up s (set_ctxs <[p := set_qpair None c]> (set_env w' s)) ∧
  ctxs (set_ctxs <[p := set_qpair None c]> (set_env w' s)) = ctxs s.
Proof.
  intros Hi Hop Hc Hq Hw Ht.
  assert (<[p := set_qpair None c]> (ctxs s) = ctxs s) as Hid.
  { apply insert_id. rewrite Hc. by destruct c; simplify_eq/=. }
  split; [|exact Hid]. rewrite set_ctxs_id by (simpl; rewrite Hc; by destruct c; simplify_eq/=).
  split_and!; try done; simpl; rewrite ?Hw; try done.
  - by apply inv_quiet.
  - intros p1 c1 q1. simpl. rewrite Hw. apply Hop.
  - unfold lost. simpl. by rewrite Hw.
Qed.

Lemma init_ns_worker_ctx_spec p prio s : inv s → opened s → idle_ctx s p →
  wp (init_ns_worker_ctx v p prio) (λ rc s', set_up s s' ∧
      (∀ p', p' ≠ p → ctxs s' !! p' = ctxs s !! p') ∧
      (rc = 0 ∧ started_ctx s' p ∨ rc = 1 ∧ idle_ctx s' p)) (λ _ _, False) s.
Proof.
  intros Hi Hop (c&Hc&Hq&Hd).
  destruct (inv_entry _ _ _ Hi _ _ Hc) as (e&He&_).
  unfold init_ns_worker_ctx. apply wp_bind; eapply wp_ctx_at; [done|].
  apply wp_bind; eapply wp_entry_at; [done|].
  apply wp_bind, wp_call. intros [q|] w' Ha.
  - apply alloc_io_qpair_some in Ha as (Hqn&Hq0&Hw&?).
    apply wp_bind; eapply wp_ctx_upd; [done|].
    apply wp_bind; eapply wp_ctx_upd; [apply lookup_insert_eq|]. apply wp_ret.
    rewrite set_ctxs_insert2.
    destruct (set_up_attach p c q (v_setup v (extra c)) s
      (set_ctxs <[p := set_extra (v_setup v (extra c)) (set_qpair (Some q) c)]>
        (set_env w' s))) as (?&?&?); try done; [|by auto].
    intros Hok. apply (vx_setup _ _ Hx). rewrite <-Hd. by apply (Hok p).
  - apply alloc_io_qpair_none in Ha as [Hw ?].
    apply wp_bind; eapply wp_ctx_upd; [done|]. apply wp_ret.
    destruct (set_up_refused p c s w') as [? Hid]; [done..|]. rewrite Hid.
    split_and!; [done..|]. right. split; [done|]. exists c. by rewrite Hid.
Qed.

(** What a function that sets up the queue pair of a context promises. *)
Definition attached p s (rc : Z) s' : Prop := set_up s s' ∧
  (∀ p', p' ≠ p → ctxs s' !! p' = ctxs s !! p') ∧
  (rc = 0 ∧ started_ctx s' p ∨ rc ≠ 0 ∧ idle_ctx s' p).

Lemma init_each_spec (loop : list Z → M (prog W X) bool) (init : Z → M (prog W X) Z) ps s :
  loop [] = mret true →
  (∀ p ps', loop (p :: ps') = rc ← init p; if decide (rc ≠ 0) then mret false else loop ps') →
  (∀ p s', inv s' → opened s' → idle_ctx s' p → wp (init p) (attached p s') (λ _ _, False) s') →
  inv s → opened s → NoDup ps → (∀ p, p ∈ ps → idle_ctx s p) →
  wp (loop ps) (λ ok s', set_up s s' ∧
      (∀ p', p' ∉ ps → ctxs s' !! p' = ctxs s !! p') ∧
      (ok = true → ∀ p, p ∈ ps → live_ctx s' p)) (λ _ _, False) s.
Proof.
  intros Hnil Hcons Hinit. revert s. induction ps as [|p ps IH]; intros s Hi Hop Hnd Hidle.
  { rewrite Hnil. apply wp_ret. split; [done|]. split; [done|]. set_solver. }
  apply NoDup_cons in Hnd as [Hp Hnd]. rewrite Hcons.
  apply wp_bind. eapply wp_weaken; [apply Hinit; set_solver|].
  intros rc s1 (Hs1&Hfr&Hst). case_decide as Hz.
  { apply wp_ret. split_and!; [done| |done]. intros p' Hp'. apply Hfr. set_solver. }
  eapply wp_weaken; [apply IH; [apply Hs1|apply Hs1|done|]|].
  - intros p' Hp'. destruct (Hidle p') as (c&?&?); [set_solver|].
    exists c. rewrite Hfr by set_solver. done.
  - intros ok s2 (Hs2&Hfr2&Hlive). split_and!; [by eapply set_up_trans| |].
    + intros p' Hp'. rewrite Hfr2, Hfr by set_solver. done.
    + intros Hok p' [->|Hp']%elem_of_cons; [|by apply Hlive].
      destruct Hst as [[_ (c&q&?&?&_)]|[? _]]; [|done]. exists c, q.
      by rewrite Hfr2.
Qed.

Lemma init_all_spec ps prio s : inv s → opened s → NoDup ps →
  (∀ p, p ∈ ps → idle_ctx s p) →
  wp (init_all v ps prio) (λ ok s', set_up s s' ∧
      (∀ p', p' ∉ ps → ctxs s' !! p' = ctxs s !! p') ∧
      (ok = true → ∀ p, p ∈ ps → live_ctx s' p)) (λ _ _, False) s.
Proof.
  apply (init_each_spec (λ ps, init_all v ps prio) (λ p, init_ns_worker_ctx v p prio));
    [done|done|]. intros p s' Hi Hop Hid.
  eapply wp_weaken; [by apply init_ns_worker_ctx_spec|].
  intros rc s'' (?&?&Hrc). split_and!; [done|done|]. naive_solver lia.
Qed.

Lemma evolves_live s s' p : evolves s s' → live_ctx s p → live_ctx s' p.
Proof.
  intros He (c&q&Hc&Hq). destruct (evolves_ctx _ _ _ _ _ He Hc Hq) as (c'&?&?&_).
  by exists c', q.
Qed.

(** Nothing is outstanding on the queue pair of a context. *)
Definition drained s p : Prop := ∃ c q, ctxs s !! p = Some c ∧
  qpair c = Some q ∧ depth q (flying s) = O ∧ current_queue_depth c = 0.

Lemma drained_at s p c q : inv s → ctxs s !! p = Some c → qpair c = Some q →
  depth q (flying s) = O → drained s p.
Proof.
  intros Hi Hc Hq Hd. exists c, q. split_and!; try done.
  rewrite (inv_depth _ _ _ Hi _ _ _ Hc Hq). lia.
Qed.

Lemma evolves_drained s s' p :
  evolves s s' → flying s' ⊆ flying s → drained s p → drained s' p.
Proof.
  intros He Hsub (c&q&Hc&Hq&Hd&_).
  destruct (evolves_ctx _ _ _ _ _ He Hc Hq) as (c'&Hc'&Hq'&_).
  eapply drained_at; [apply He|done|done|].
  pose proof (depth_mono q _ _ Hsub). lia.
Qed.

(** Same contexts, same queue pairs. *)
Definition same_qpairs s s' : Prop := ∀ p c,
  ctxs s !! p = Some c → ∃ c', ctxs s' !! p = Some c' ∧ qpair c' = qpair c.

Lemma same_qpairs_live s s' p : same_qpairs s s' → live_ctx s p → live_ctx s' p.
Proof.
  intros Hs (c&q&Hc&Hq). destruct (Hs _ _ Hc) as (c'&?&?). exists c', q.
  split; congruence.
Qed.

Lemma same_qpairs_drained s s' p : same_qpairs s s' → inv s' → flying s' = flying s →
  drained s p → drained s' p.
Proof.
  intros Hs Hi Hf (c&q&Hc&Hq&Hd&_). destruct (Hs _ _ Hc) as (c'&?&?).
  apply (drained_at s' p c' q); [done|done|congruence|by rewrite Hf].
Qed.

(** A function that may follow [drain_io] on a context: it releases the queue pair and
    changes nothing else that the invariant sees. *)
Definition closes (m : Z → M (prog W X) ()) : Prop := ∀ p c q s,
  inv s → xok s → ctxs s !! p = Some c → qpair c = Some q → depth q (flying s) = O →
  wp (m p) (λ _ s', inv s' ∧ xok s' ∧ lost s' = lost s ∧ flying s' = flying s ∧
    same_qpairs s s' ∧ g_arbitration s' = g_arbitration s) (λ _ _, False) s.

(** The report of a context: its added fields change, as the variant says. *)
Lemma report_spec p c q s y : inv s → xok s → ctxs s !! p = Some c → qpair c = Some q →
  depth q (flying s) = O → xinv 0 y →
  let s' := set_ctxs <[p := set_extra y c]> s in
  inv s' ∧ xok s' ∧ same_qpairs s s'.
Proof.
  intros Hi Hok Hc Hq Hd Hxy. simpl. split_and!.
  - by eapply inv_ctx_upd.
  - rewrite <-(set_env_id s). apply xok_upd; [done|]. simpl.
    by rewrite (inv_depth _ _ _ Hi _ _ _ Hc Hq), Hd.
  - intros p' c' Hc'. simpl. destruct (decide (p = p')) as [->|].
    + rewrite lookup_insert_eq. simplify_eq. by eexists.
    + rewrite lookup_insert_ne by done. by exists c'.
Qed.

Lemma idle_extra s p c q : inv s → xok s → ctxs s !! p = Some c → qpair c = Some q →
  depth q (flying s) = O → xinv 0 (extra c).
Proof.
  intros Hi Hok Hc Hq Hd. pose proof (Hok _ _ Hc) as Hxc.
  by rewrite (inv_depth _ _ _ Hi _ _ _ Hc Hq), Hd in Hxc.
Qed.

Lemma close_spec : closes (λ p, cleanup_ns_worker_ctx p;; report v p).
Proof.
  intros p c q s Hi Hok Hc Hq Hd. unfold cleanup_ns_worker_ctx, report.
  apply wp_seq, wp_bind; eapply wp_ctx_at; [done|].
  apply wp_bind; eapply wp_of_option; [done|]. apply wp_effect.
  destruct (free_io_qpair_law q (env s) Hd) as [Hw _].
  set (s1 := set_env (free_io_qpair q (env s)) s).
  assert (inv s1) as Hi' by (apply inv_take; rewrite ?Hw; done).
  apply wp_bind; eapply wp_ctx_at; [done|].
  destruct (vx_report _ _ Hx _ (idle_extra _ _ _ _ Hi Hok Hc Hq Hd)) as (y&Hy&Hxy).
  apply wp_bind; eapply wp_of_option; [done|]. eapply wp_ctx_upd; [done|].
  destruct (report_spec p c q s1 y) as (?&?&?); try done; [simpl; by rewrite Hw|].
  split_and!; try done.
  - unfold lost. simpl. by rewrite Hw.
  - simpl. by rewrite Hw.
Qed.

Lemma drain_and_close m p s : closes m → inv s → xok s → live_ctx s p →
  twp (λ fuel, drain_io v fuel p;; m p) (λ _ s',
      inv s' ∧ xok s' ∧ lost s' = lost s ∧ drained s' p ∧
      (∀ p', live_ctx s p' → live_ctx s' p') ∧
      (∀ p', drained s p' → drained s' p') ∧ g_arbitration s' = g_arbitration s)
    (λ _ _, False) s.
Proof.
  intros Hm Hi Hok (c&q&Hc&Hq).
  apply (twp_bind (λ fuel, drain_io v fuel p) (λ _ _, _)).
  eapply twp_weaken; [by eapply drain_io_spec|].
  intros [] s' (Hs'&Hl&Hsub&Hd). apply twp_wp.
  destruct (evolves_ctx _ _ _ _ _ Hs' Hc Hq) as (c'&Hc'&Hq'&_).
  eapply wp_weaken; [eapply Hm; [apply Hs'|by apply Hs'|done..]|].
  intros [] s'' (Hi''&Hx''&Hl''&Hf''&Hq''&Hg''). split_and!; [done|done|congruence| | | |].
  - eapply same_qpairs_drained; [done..|]. by eapply drained_at; [apply Hs'|..].
  - intros p' Hp'. eapply same_qpairs_live; [done|]. by eapply evolves_live.
  - intros p' Hp'. eapply same_qpairs_drained; [done..|]. by eapply evolves_drained.
  - rewrite Hg''. apply (proj1 (proj2 Hs')).
Qed.

(** The last loop of [work_fn]. *)
Lemma close_all (dr : nat → Z → M (prog W X) ()) m ps s : closes m →
  (∀ s', g_arbitration s' = g_arbitration s → ∀ n p, dr n p s' = drain_io v n p s') →
  inv s → xok s → (∀ p, p ∈ ps → live_ctx s p) →
  twp (λ fuel, foreach ps (λ p, dr fuel p;; m p)) (λ _ s', inv s' ∧ xok s' ∧
      lost s' = lost s ∧ ∀ p, p ∈ ps → drained s' p) (λ _ _, False) s.
Proof.
  intros Hm Hdr Hi Hok Hlive.
  eapply twp_weaken; [apply (twp_foreach _ (λ pre s', inv s' ∧ xok s' ∧ lost s' = lost s ∧
    g_arbitration s' = g_arbitration s ∧
    (∀ p, p ∈ ps → live_ctx s' p) ∧ (∀ p, p ∈ pre → drained s' p)))|..].
  - intros pre p rest s' Hps (Hi'&Hx'&Hl'&Hg'&Hlv&Hd).
    assert (twp (λ fuel, drain_io v fuel p;; m p) (λ _ s'', _) (λ _ _, False) s') as Hone
      by (apply drain_and_close; [done..|apply Hlv; rewrite Hps; set_solver]).
    destruct Hone as (n&r&Hr&Hw). exists n, r. split.
    + intros k Hk. rewrite <-(Hr k Hk). unfold mbind, M_bind. by rewrite Hdr.
    + eapply wp_weaken; [exact Hw|]. intros [] s'' (?&?&?&?&?&?&?).
      split_and!; [done|done|congruence|congruence|auto|]. set_solver.
  - split_and!; try done. set_solver.
  - intros [] s' (?&?&?&_&_&?). by split_and!.
Qed.

(** *** [work_fn] after its queue pairs exist *)
Lemma measure_spec ps s : inv s → xok s → (∀ p, p ∈ ps → live_ctx s p) →
  twp (λ fuel, measure v fuel ps) (λ rc s', rc = 0 ∧ inv s' ∧ xok s' ∧ lost s ⊆ lost s' ∧
      ∀ p, p ∈ ps → drained s' p) (λ code _, code = 1) s.
Proof.
  intros Hi Hok Hlive. unfold measure.
  apply twp_bind_wp, wp_call. intros now w2 (_&?&Hw2&_)%get_ticks_law.
  assert (evolves s (set_env w2 s)) as Hs2 by (apply evolves_env; [done|done|lia]).
  apply twp_bind_wp, wp_get, twp_bind_wp.
  eapply wp_weaken; [apply (wp_foreach_inv _ (evolves s)); [|done]|].
  { intros p s' Hp Hs'. destruct (evolves_live _ _ _ Hs' (Hlive _ Hp)) as (c&q&?&?).
    eapply wp_weaken; [eapply submit_io_spec; [apply Hs'|done..]|].
    intros [] s'' ?. by eapply evolves_trans. }
  intros [] s3 Hs3. eapply (twp_bind (λ fuel, poll_until v fuel _ _)).
  eapply twp_weaken; [apply poll_until_spec; [apply Hs3|]|].
  { intros p Hp. by eapply evolves_live; [|apply Hlive]. }
  intros [] s4 [Hs4 _]. assert (evolves s s4) as Hs14 by (by eapply evolves_trans).
  apply (twp_bind (λ fuel, foreach _ _) (λ _ _, mret 0)).
  eapply twp_mono; [apply (close_all (drain_io v)); [apply close_spec|done|apply Hs14|by apply Hs14|]|..].
  - intros p Hp. by eapply evolves_live; [|apply Hlive].
  - intros [] s5 (Hi5&Hx5&Hl5&Hdr5). apply twp_wp, wp_ret.
    split_and!; [done|done|done| |done]. rewrite Hl5. apply Hs14.
  - done.
Qed.

Lemma work_fn_spec w wt s :
  inv s → xok s → opened s → workers s !! w = Some wt → NoDup (w_ns_ctx wt) →
  (∀ p, p ∈ w_ns_ctx wt → idle_ctx s p) →
  twp (λ fuel, work_fn v fuel w) (λ rc s', inv s' ∧ xok s' ∧ lost s ⊆ lost s' ∧
      (rc = 0 ∧ (∀ p, p ∈ w_ns_ctx wt → drained s' p) ∨
       rc = 1 ∧ flying s' = flying s ∧ lost s' = lost s)) (λ code _, code = 1) s.
Proof.
  intros Hi Hok Hop Hwt Hnd Hidle. unfold work_fn.
  apply twp_bind_wp. eapply wp_worker_at; [done|].
  apply twp_bind_wp. eapply wp_mono; [by eapply init_all_spec| |done].
  intros ok s1 (Hs1&_&Hlive). destruct Hs1 as (Hi1&_&Hfl1&Hl1&_&_&_&_&Hx1&_).
  destruct ok; simpl; last first.
  { apply twp_wp, wp_ret. split_and!; [done|by apply Hx1|by rewrite Hl1|by right]. }
  eapply twp_weaken; [apply measure_spec; auto|].
  intros rc s2 (->&?&?&Hl2&?). split_and!; [done|done|by rewrite <-Hl1|by left].
Qed.

(** The first I/Os of a worker take one task of the pool each. *)
Lemma submit_io_takes p n s : inv s → live_ctx s p → 0 ≤ n →
  wp (submit_io v p n) (λ _ s', evolves s s' ∧
      Z.of_nat (size (avail (view (env s)))) = Z.of_nat (size (avail (view (env s')))) + n)
    (λ code _, code = 1) s.
Proof.
  intros Hi Hl Hn. eapply wp_weaken; [apply (wp_repeat _ (λ k s', evolves s s' ∧
    size (avail (view (env s))) = (size (avail (view (env s'))) + k)%nat))|].
  - intros k s' _ [Hs' Hk]. destruct (evolves_live _ _ _ Hs' Hl) as (c'&q&Hc'&Hq').
    eapply wp_weaken; [eapply submit_single_io_spec; [apply Hs'|done..]|].
    intros [] s'' [Hi'' Hf'' Hcs Hav Hx'']. split; [|lia]. eapply evolves_trans; [done|].
    split_and!; [done..| |done].
    destruct (fr_ctx _ _ Hf'' _ _ Hc') as (c''&Hc''&_).
    destruct (Hcs _ _ Hc' Hc'') as [_ [[_ ->]|(_&t&_&->)]]; set_solver.
  - split; [by apply evolves_refl|lia].
  - intros [] s' [? ?]. split; [done|lia].
Qed.

(** A worker whose contexts need more tasks than the pool has does not get past its first
    I/Os. *)
Lemma work_fn_short w wt s fuel :
  inv s → opened s → workers s !! w = Some wt → NoDup (w_ns_ctx wt) →
  (∀ p, p ∈ w_ns_ctx wt → idle_ctx s p) →
  Z.of_nat (size (avail (view (env s)))) <
    Z.of_nat (length (w_ns_ctx wt)) * queue_depth (g_arbitration s) →
  wp (work_fn v fuel w) (λ rc _, rc = 1) (λ code _, code = 1) s.
Proof.
  intros Hi Hop Hwt Hnd Hidle Hlt. unfold work_fn, measure.
  apply wp_bind. eapply wp_worker_at; [done|].
  apply wp_bind. eapply wp_mono; [by eapply init_all_spec| |done].
  intros ok s1 (Hs1&_&Hlive). destruct Hs1 as (Hi1&_&Hfl1&_&_&_&Hg1&_&_&Hav1).
  destruct ok; simpl; [|by apply wp_ret].
  apply wp_bind, wp_call. intros now w2 (_&?&Hw2&_)%get_ticks_law.
  assert (evolves s1 (set_env w2 s1)) as Hs2 by (apply evolves_env; [done|done|lia]).
  apply wp_bind, wp_get, wp_bind. simpl. rewrite Hg1.
  set (d := queue_depth (g_arbitration s)) in *.
  assert (0 < d) by lia.
  eapply wp_weaken; [apply (wp_foreach _ (λ pre s', evolves s1 s' ∧
    Z.of_nat (size (avail (view (env s)))) =
      Z.of_nat (size (avail (view (env s')))) + Z.of_nat (length pre) * d))|].
  - intros pre p rest s' Hps [Hs' Hk].
    eapply wp_weaken; [apply submit_io_takes; [apply Hs'| |lia]|].
    + eapply evolves_live; [done|]. apply Hlive; [done|]. rewrite Hps. set_solver.
    + intros [] s'' [? ?]. split; [by eapply evolves_trans|]. rewrite length_app. simpl. lia.
  - split; [done|]. simpl. rewrite Hw2, Hav1. lia.
  - intros [] s' [_ Hk]. exfalso. lia.
Qed.
End spec.
