(* ===== verification/Variants.v ===== *)
(** * The programs of the family

    One variant of [Engine] per source file under [arbitration/] and
    [multipath/], with the properties of its command and of the fields it
    adds.  [arbitration.cc] and [arbitration_rdma.cc] read at the chosen offset,
    [arbitration_read.cc] and [arbitration_rdma_read.cc] also record time stamps, the append
    programs write to the start of a fixed zone, [arbitration_write.cc] writes
    relative to a zone's write pointer, and the multipath readers walk one
    block at a time. *)
From S2P Require Import Prelude Spdk Arb Engine EngineInv EngineSpec.

(** ** Commands *)

Definition zone_dist : Z := 0x80000.

Definition read_cmd {X} (c : ns_worker_ctx X) (e : ns_entry) (b off : Z) : io_cmd :=
  cmd_read (e_ns e) b (u64 (off * io_size_blocks e)) (io_size_blocks e).
Definition append_cmd {X} (current_zone : Z) (c : ns_worker_ctx X) (e : ns_entry)
    (b off : Z) : io_cmd :=
  zone_append (e_ns e) b (u64 (zone_dist * current_zone)) (io_size_blocks e).
(** The added field of [arbitration_write.cc] is [wp]. *)
Definition write_cmd (c : ns_worker_ctx Z) (e : ns_entry) (b off : Z) : io_cmd :=
  cmd_write (e_ns e) b (u64 (extra c + off * io_size_blocks e)) (io_size_blocks e).
Definition count_read_cmd (current_zone : Z) (c : ns_worker_ctx Z) (e : ns_entry)
    (b off : Z) : io_cmd :=
  cmd_read (e_ns e) b (u64 (zone_dist * current_zone + extra c)) (io_size_blocks e).

(** ** Time stamps *)

Record stamps := Stamps { stime : Z; etime : Z; stimes : list Z; etimes : list Z }.
Definition no_stamps : stamps := Stamps 0 0 [] [].

Definition push_stime (now : Z) (x : stamps) : stamps :=
  Stamps now (etime x) (stimes x ++ [now]) (etimes x).
Definition push_etime (now : Z) (x : stamps) : stamps :=
  Stamps (stime x) now (stimes x) (etimes x ++ [now]).

(** The loop of [work_fn] that fills [deltas1], with nanosecond time stamps:
    index [i] runs over [stimes] and reads both vectors. *)
Fixpoint deltas1 (ss es : list Z) : option (list Z) :=
  match ss, es with
  | [], _ => Some []
  | s :: ss', e :: es' => cons (u64 (Z.quot (e - s) 1000)) <$> deltas1 ss' es'
  | _ :: _, [] => None
  end.

Definition report_stamps (x : stamps) : option stamps :=
  _ ← deltas1 (stimes x) (etimes x);
  Some (Stamps (stime x) (etime x) [] []).

(** ** The variants *)
Definition v_arbitration : variant () :=
  Variant (λ x, x) None read_cmd (λ x, x) None Some false.
Definition v_arbitration_rdma : variant () :=
  Variant (λ x, x) None read_cmd (λ x, x) None Some false.
Definition v_arbitration_read : variant stamps :=
  Variant (λ x, x) (Some push_stime) read_cmd (λ x, x) (Some push_etime) report_stamps false.
Definition v_arbitration_rdma_read : variant stamps :=
  Variant (λ x, x) (Some push_stime) read_cmd (λ x, x) (Some push_etime) report_stamps false.
Definition v_arbitration_append : variant stamps :=
  Variant (λ x, x) (Some push_stime) (append_cmd 17) (λ x, x) (Some push_etime)
    report_stamps false.
Definition v_arbitration_rdma_append : variant stamps :=
  Variant (λ x, x) (Some push_stime) (append_cmd 27) (λ x, x) (Some push_etime)
    report_stamps false.
Definition v_arbitration_write : variant Z :=
  Variant (λ x, x) None write_cmd (λ x, x) None Some false.
Definition v_three_target_writes : variant Z :=
  Variant (λ _, 0) None (append_cmd 23) (λ n, u64 (n + 1)) None Some false.
Definition v_three_target_reads : variant Z :=
  Variant (λ _, 0) None (count_read_cmd 0) (λ n, u64 (n + 1)) None Some false.
Definition v_two_targets_read : variant Z :=
  Variant (λ _, 0) None (count_read_cmd 0) (λ n, u64 (n + 1)) None Some false.
Definition v_mp_one_drive_read : variant Z :=
  Variant (λ _, 0) None (count_read_cmd 0) (λ n, u64 (n + 1)) None Some false.
Definition v_mp_one_drive_append : variant Z :=
  Variant (λ _, 0) None (append_cmd 0) (λ n, u64 (n + 1)) None Some true.

Section programs.
Context {W : Type} `{!Spdk W Z}.

Definition submit_single_io_rdma (p : Z) : M (prog W ()) () :=
  submit_single_io v_arbitration_rdma p.
Definition submit_single_io_read (p : Z) : M (prog W stamps) () :=
  submit_single_io v_arbitration_read p.
Definition submit_single_io_rdma_read (p : Z) : M (prog W stamps) () :=
  submit_single_io v_arbitration_rdma_read p.
Definition submit_single_io_append (p : Z) : M (prog W stamps) () :=
  submit_single_io v_arbitration_append p.
Definition submit_single_io_rdma_append (p : Z) : M (prog W stamps) () :=
  submit_single_io v_arbitration_rdma_append p.
Definition submit_single_io_write (p : Z) : M (prog W Z) () :=
  submit_single_io v_arbitration_write p.
Definition submit_single_io_three_writes (p : Z) : M (prog W Z) () :=
  submit_single_io v_three_target_writes p.
Definition submit_single_io_three_reads (p : Z) : M (prog W Z) () :=
  submit_single_io v_three_target_reads p.
Definition submit_single_io_two_reads (p : Z) : M (prog W Z) () :=
  submit_single_io v_two_targets_read p.
Definition submit_single_io_one_read (p : Z) : M (prog W Z) () :=
  submit_single_io v_mp_one_drive_read p.

(** [mp_one_drive_append.cc]: the buffer is filled, and the counter
    incremented, before the buffer is tested against null. *)
Definition submit_single_io_one_append (p : Z) : M (prog W Z) () :=
  let v := Variant (λ _, 0) None (append_cmd 0) (λ n, n) None Some true in
  task ← call pool_get;
  match task with
  | None => exit 1
  | Some t =>
      s ← get;
      b ← call (dma_zmalloc (io_size_bytes (g_arbitration s)));
      match b with
      | None => undef
      | Some b =>
          modify (set_tasks <[t := ArbTask p b]>);;
          ctx_upd p (λ c, set_extra (u64 (extra c + 1)) c);;
          off ← next_offset p;
          send v p t b off
      end
  end.

(** [task_complete], [init_ns_worker_ctx] and [work_fn] of each copy. *)
Definition task_complete_rdma (t : Z) : M (prog W ()) () := task_complete v_arbitration_rdma t.
Definition task_complete_read (t : Z) : M (prog W stamps) () := task_complete v_arbitration_read t.
Definition task_complete_rdma_read (t : Z) : M (prog W stamps) () := task_complete v_arbitration_rdma_read t.
Definition task_complete_append (t : Z) : M (prog W stamps) () := task_complete v_arbitration_append t.
Definition task_complete_rdma_append (t : Z) : M (prog W stamps) () := task_complete v_arbitration_rdma_append t.
Definition task_complete_three_reads (t : Z) : M (prog W Z) () := task_complete v_three_target_reads t.
Definition task_complete_three_writes (t : Z) : M (prog W Z) () := task_complete v_three_target_writes t.
Definition task_complete_two_reads (t : Z) : M (prog W Z) () := task_complete v_two_targets_read t.
Definition task_complete_one_append (t : Z) : M (prog W Z) () := task_complete v_mp_one_drive_append t.
Definition task_complete_write (t : Z) : M (prog W Z) () := task_complete v_arbitration_write t.
Definition task_complete_one_read (t : Z) : M (prog W Z) () := task_complete v_mp_one_drive_read t.

Definition init_ns_worker_ctx_rdma (p prio : Z) : M (prog W ()) Z :=
  init_ns_worker_ctx v_arbitration_rdma p prio.
Definition init_ns_worker_ctx_read (p prio : Z) : M (prog W stamps) Z :=
  init_ns_worker_ctx v_arbitration_read p prio.
Definition init_ns_worker_ctx_rdma_read (p prio : Z) : M (prog W stamps) Z :=
  init_ns_worker_ctx v_arbitration_rdma_read p prio.
Definition init_ns_worker_ctx_append (p prio : Z) : M (prog W stamps) Z :=
  init_ns_worker_ctx v_arbitration_append p prio.
Definition init_ns_worker_ctx_rdma_append (p prio : Z) : M (prog W stamps) Z :=
  init_ns_worker_ctx v_arbitration_rdma_append p prio.
Definition init_ns_worker_ctx_three_reads (p prio : Z) : M (prog W Z) Z :=
  init_ns_worker_ctx v_three_target_reads p prio.
Definition init_ns_worker_ctx_three_writes (p prio : Z) : M (prog W Z) Z :=
  init_ns_worker_ctx v_three_target_writes p prio.
Definition init_ns_worker_ctx_two_reads (p prio : Z) : M (prog W Z) Z :=
  init_ns_worker_ctx v_two_targets_read p prio.
Definition init_ns_worker_ctx_one_append (p prio : Z) : M (prog W Z) Z :=
  init_ns_worker_ctx v_mp_one_drive_append p prio.
Definition init_ns_worker_ctx_one_read (p prio : Z) : M (prog W Z) Z :=
  init_ns_worker_ctx v_mp_one_drive_read p prio.

Definition work_fn_rdma (fuel : nat) (w : Z) : M (prog W ()) Z :=
  work_fn v_arbitration_rdma fuel w.
Definition work_fn_read (fuel : nat) (w : Z) : M (prog W stamps) Z :=
  work_fn v_arbitration_read fuel w.
Definition work_fn_rdma_read (fuel : nat) (w : Z) : M (prog W stamps) Z :=
  work_fn v_arbitration_rdma_read fuel w.
Definition work_fn_append (fuel : nat) (w : Z) : M (prog W stamps) Z :=
  work_fn v_arbitration_append fuel w.
Definition work_fn_rdma_append (fuel : nat) (w : Z) : M (prog W stamps) Z :=
  work_fn v_arbitration_rdma_append fuel w.
Definition work_fn_three_reads (fuel : nat) (w : Z) : M (prog W Z) Z :=
  work_fn v_three_target_reads fuel w.
Definition work_fn_three_writes (fuel : nat) (w : Z) : M (prog W Z) Z :=
  work_fn v_three_target_writes fuel w.
Definition work_fn_two_reads (fuel : nat) (w : Z) : M (prog W Z) Z :=
  work_fn v_two_targets_read fuel w.
Definition work_fn_one_append (fuel : nat) (w : Z) : M (prog W Z) Z :=
  work_fn v_mp_one_drive_append fuel w.
Definition work_fn_one_read (fuel : nat) (w : Z) : M (prog W Z) Z :=
  work_fn v_mp_one_drive_read fuel w.
End programs.

(** ** What the commands touch *)

(** Inside the blocks that the entry divides into I/Os. *)
Definition in_namespace (e : ns_entry) (k : io_cmd) : Prop :=
  cmd_ns k = e_ns e ∧ cmd_blocks k = io_size_blocks e ∧
  0 ≤ cmd_first k ∧ cmd_first k + cmd_blocks k ≤ size_in_ios e * io_size_blocks e.

(** An append to the start of the zone [z]. *)
Definition append_to_zone (z : Z) (e : ns_entry) (k : io_cmd) : Prop :=
  ∃ b, k = zone_append (e_ns e) b (zone_dist * z) (io_size_blocks e).

(** On the entry's namespace, one I/O long. *)
Definition one_io (e : ns_entry) (k : io_cmd) : Prop :=
  cmd_ns k = e_ns e ∧ cmd_blocks k = io_size_blocks e.

Lemma read_in_range off blocks size :
  0 < blocks → 0 ≤ off < size →
  0 ≤ u64 (off * blocks) ∧ u64 (off * blocks) + blocks ≤ size * blocks.
Proof.
  intros Hb Ho. pose proof (u64_range (off * blocks)).
  assert (u64 (off * blocks) ≤ off * blocks) by (apply Z.mod_le; nia).
  split; [lia|]. nia.
Qed.

Section variant_facts.
Context {X : Type}.

Lemma read_cmd_ok (s b a r : _) :
  variant_ok in_namespace (Variant (X := X) s b read_cmd a r Some false).
Proof.
  intros c e buf off Hb Ho. pose proof (read_in_range _ _ _ Hb Ho).
  split; [|done]. unfold in_namespace. simpl. split_and!; done || lia.
Qed.
End variant_facts.

Lemma v_arbitration_ok : variant_ok in_namespace v_arbitration.
Proof. apply read_cmd_ok. Qed.

Lemma v_read_ok : variant_ok in_namespace v_arbitration_read.
Proof.
  intros c e buf off Hb Ho. pose proof (read_in_range _ _ _ Hb Ho).
  split; [|done]. unfold in_namespace. simpl. split_and!; done || lia.
Qed.

Lemma v_append_ok : variant_ok (append_to_zone 17) v_arbitration_append.
Proof. intros c e buf off Hb Ho. split; [by eexists|done]. Qed.

Lemma v_three_reads_ok : variant_ok one_io v_three_target_reads.
Proof. by intros c e buf off Hb Ho. Qed.

Lemma v_three_writes_ok : variant_ok (append_to_zone 23) v_three_target_writes.
Proof. intros c e buf off Hb Ho. split; [by eexists|done]. Qed.

(** Programs that add nothing that the queue depth constrains. *)
Lemma trivial_extra {W X} `{!Spdk W Z} (v : variant X) :
  (∀ x, v_report v x = Some x) → v_fill v = false →
  variant_extra (W := W) (λ _ _, True) v.
Proof.
  intros Hr Hf. split; try done; [|by rewrite Hf]. intros x _. exists x. by rewrite Hr.
Qed.

(** *** Time stamps

    There are as many completion stamps as submission stamps, up to the
    commands that are outstanding. *)
Definition stamps_inv (d : Z) (x : stamps) : Prop :=
  Z.of_nat (length (stimes x)) = Z.of_nat (length (etimes x)) + d.

Lemma deltas1_some ss es : (length ss ≤ length es)%nat →
  ∃ l, deltas1 ss es = Some l ∧ length l = length ss.
Proof.
  revert es. induction ss as [|s ss IH]; intros [|e es] Hl; simpl in *; try lia;
    [by eexists|by eexists|].
  destruct (IH es) as (l&->&Hlen); [lia|]. eexists. split; [done|]. simpl. lia.
Qed.

Lemma deltas1_none ss es : (length es < length ss)%nat → deltas1 ss es = None.
Proof.
  revert es. induction ss as [|s ss IH]; intros [|e es] Hl; simpl in *; try lia; [done|].
  by rewrite IH by lia.
Qed.

Lemma stamps_extra {W} `{!Spdk W Z} (v : variant stamps) :
  (∀ x, v_setup v x = x) → v_before v = Some push_stime → (∀ x, v_after v x = x) →
  v_complete v = Some push_etime → v_report v = report_stamps → v_fill v = false →
  ¬ may_fail (W := W) → variant_extra (W := W) stamps_inv v.
Proof.
  intros Hs Hb Ha Hc Hr Hfill Hnf. unfold stamps_inv. split.
  - intros x. by rewrite Hs.
  - intros d x now Hd Hx. rewrite Hb, Ha. simpl. rewrite length_app. simpl. lia.
  - intros d x now Hf. done.
  - intros d x now Hd Hx. rewrite Hc. simpl. rewrite length_app. simpl. lia.
  - intros x Hx. rewrite Hr. unfold report_stamps.
    destruct (deltas1_some (stimes x) (etimes x)) as (l&->&_); [lia|].
    eexists. split; [done|]. done.
  - by rewrite Hfill.
Qed.

(** A device of the non-faulty simulation accepts every command. *)
Lemma sim_never_fails T `{Countable T} :
  ¬ ∃ q c t (w w' : sim false T) rc, submit q c t w = (rc, w') ∧ rc ≠ 0.
Proof. intros (q&c&t&w&w'&rc&Hs&Hrc). simpl in Hs. unfold sim_submit in Hs. naive_solver. Qed.
