(* ===== verification/ZoneReport.v ===== *)
(** * The write benchmark and its zone report

    [arbitration/arbitration_write.cc] (lines 409-480, 515-605).  Its engine is the one
    of [arbitration.cc] with a write command relative to the write pointer of zone 6
    ([Variants.v_arbitration_write]); its queue pairs are set up differently: the worker
    asks the device for a report of its zones on the new queue pair, polls until the
    report is there, and keeps the write pointer. *)
From S2P Require Import Prelude Spdk Arb Engine EngineInv EngineSpec Variants.

(** A descriptor of [spdk_nvme_zns_zone_report]. *)
Record zone_desc := ZoneDesc { z_zs : Z; z_zslba : Z; z_wp : Z }.

Definition current_zone : nat := 6.
Definition nr_zones : Z := 3690.
(** The sizes of a descriptor and of the header of the report. *)
Definition report_bytes : Z := u32 (64 * nr_zones + 64).

(** [report] is [calloc]ed: descriptors that the device does not fill are 0. *)
Definition current_zone_wp (descs : list zone_desc) : Z :=
  z_wp (nth current_zone descs (ZoneDesc 0 0 0)).

(** ** The zone commands of the driver

    [report_poll q] is [spdk_nvme_qpair_process_completions] on a queue pair on which
    nothing but a report can be outstanding: it tells whether the callback has run.
    [report_descs b] is the report in the buffer [b]. *)
Class SpdkZones (W : Type) := {
  report_zones : Z → Z → option Z → Z → W → Z * W;
  report_poll : Z → W → bool * W;
  report_descs : Z → W → list zone_desc;
}.

(** The report that is outstanding (namespace and buffer), a bound on the polls it may
    still need, and the zones of a namespace. *)
Class SpdkZonesView (W : Type) := {
  report_pending : Z → W → option (Z * option Z);
  report_lag : Z → W → nat;
  zones : Z → W → list zone_desc;
}.

Class SpdkZonesLaws (W T : Type) `{Countable T} `{!Spdk W T} `{!SpdkView W T}
    `{!SpdkZones W} `{!SpdkZonesView W} : Prop := {
  alloc_io_qpair_report c p w q w' : alloc_io_qpair c p w = (Some q, w') →
    report_pending q w' = None;
  calloc_report w b w' q : malloc_ok w = (b, w') → report_pending q w' = report_pending q w;
  report_zones_ok ns q b n w w' : report_zones ns q b n w = (0, w') →
    report_pending q w' = Some (ns, b) ∧ view w' = view w ∧ tsc w ≤ tsc w';
  report_zones_failed ns q b n w rc w' : report_zones ns q b n w = (rc, w') → rc ≠ 0 →
    report_pending q w' = report_pending q w ∧ view w' = view w ∧ tsc w ≤ tsc w';
  report_poll_idle q w d w' : report_poll q w = (d, w') → report_pending q w = None →
    d = false ∧ report_pending q w' = None;
  report_poll_law q ns b w d w' : report_poll q w = (d, w') →
    report_pending q w = Some (ns, b) → view w' = view w ∧ tsc w ≤ tsc w' ∧
    if d then ∀ p, b = Some p → report_descs p w' = take (Z.to_nat nr_zones) (zones ns w')
    else report_pending q w' = Some (ns, b) ∧ (report_lag q w' < report_lag q w)%nat;
}.

Section write.
Context {W : Type} `{!Spdk W Z} `{!SpdkZones W}.

(** [while (!done)]. *)
Fixpoint await_report (fuel : nat) (q : Z) : M (prog W Z) () :=
  match fuel with
  | O => λ _, Spin
  | S fuel' => done ← call (report_poll q); if done : bool then skip else await_report fuel' q
  end.

(** The result of [spdk_nvme_zns_report_zones] is dropped, the report is never freed, and
    the local [wp] that the state of the zone decides is only printed. *)
Definition init_ns_worker_ctx_write (fuel : nat) (p prio : Z) : M (prog W Z) Z :=
  c ← ctx_at p;
  e ← entry_at (entry c);
  q ← call (alloc_io_qpair (e_ctrlr e) prio);
  ctx_upd p (set_qpair q);;
  match q with
  | None => mret 1
  | Some q =>
      report ← malloc;
      _ ← call (report_zones (e_ns e) q report report_bytes);
      await_report fuel q;;
      b ← of_option report;
      s ← get;
      ctx_upd p (set_extra (current_zone_wp (report_descs b (env s))));;
      mret 0
  end.

Fixpoint init_all_write (fuel : nat) (ps : list Z) (prio : Z) : M (prog W Z) bool :=
  match ps with
  | [] => mret true
  | p :: ps' =>
      rc ← init_ns_worker_ctx_write fuel p prio;
      if decide (rc ≠ 0) then mret false else init_all_write fuel ps' prio
  end.

Definition work_fn_write (fuel : nat) (worker : Z) : M (prog W Z) Z :=
  wt ← worker_at worker;
  ok ← init_all_write fuel (w_ns_ctx wt) (qprio wt);
  if negb ok then mret 1 else measure v_arbitration_write fuel (w_ns_ctx wt).
End write.

(** ** Specifications *)

(** A write of one I/O at some offset from some write pointer. *)
Definition write_from_wp (e : ns_entry) (k : io_cmd) : Prop := ∃ wp off b,
  0 ≤ off < size_in_ios e ∧
  k = cmd_write (e_ns e) b (u64 (wp + off * io_size_blocks e)) (io_size_blocks e).

Lemma v_write_ok : variant_ok write_from_wp v_arbitration_write.
Proof. intros c e b off _ Ho. split; [|done]. by exists (extra c), off, b. Qed.

Section spec.
Context {W : Type} `{!Spdk W Z} `{!SpdkView W Z} `{!SpdkLaws W Z}.
Context `{!SpdkZones W} `{!SpdkZonesView W} `{!SpdkZonesLaws W Z}.
Context (pool : gset Z).
Implicit Types (s : prog W Z).

Local Abbreviation inv := (inv pool write_from_wp).
Local Abbreviation any := (λ (_ : Z) (_ : Z), True).
Local Abbreviation set_up := (set_up pool write_from_wp any).

Lemma v_write_extra : variant_extra (W := W) any v_arbitration_write.
Proof. by apply trivial_extra. Qed.

(** The driver takes every report, and [calloc] succeeds. *)
Definition reports : Prop := ∀ ns q b n (w w' : W) rc, report_zones ns q b n w = (rc, w') → rc = 0.
Definition callocs : Prop := ∀ (w w' : W) b, malloc_ok w = (b, w') → b = true.

Lemma await_report_spec q ns b s : report_pending q (env s) = Some (ns, Some b) →
  twp (λ fuel, await_report fuel q) (λ _ s', ∃ w', s' = set_env w' s ∧
    view w' = view (env s) ∧ tsc (env s) ≤ tsc w' ∧
    report_descs b w' = take (Z.to_nat nr_zones) (zones ns w')) (λ _ _, False) s.
Proof.
  remember (report_lag q (env s)) as n eqn:Hn. revert s Hn.
  induction (lt_wf n) as [n _ IH]. intros s -> Hp.
  destruct (report_poll q (env s)) as [d w'] eqn:Hd.
  destruct (report_poll_law _ _ _ _ _ _ Hd Hp) as (Hv&Ht&Hcase). destruct d.
  - exists 1%nat, (Done () (set_env w' s)). split.
    + intros [|m] Hm; [lia|]. simpl. unfold mbind, M_bind, call. by rewrite Hd.
    + exists w'. split_and!; [done..|]. by apply Hcase.
  - destruct Hcase as [Hp' Hlt]. destruct (IH _ Hlt (set_env w' s) eq_refl Hp')
      as (k&r&Hr&Hw). exists (S k), r. split.
    + intros [|m] Hm; [lia|]. simpl. unfold mbind, M_bind, call. rewrite Hd.
      apply Hr. lia.
    + eapply wp_weaken; [exact Hw|]. intros [] s' (w''&->&?&?&?). exists w''. simpl in *.
      split_and!; [done|congruence|lia|done].
Qed.

(** What [init_ns_worker_ctx] stores: the write pointer of zone 6 as the device reports it. *)
Definition knows_wp (s0 s : prog W Z) (p : Z) : Prop := ∃ c e,
  ctxs s !! p = Some c ∧ entries s0 !! entry c = Some e ∧
  extra c = current_zone_wp (zones (e_ns e) (env s)).

Lemma current_zone_wp_take l : current_zone_wp (take (Z.to_nat nr_zones) l) = current_zone_wp l.
Proof.
  unfold current_zone_wp. f_equal. rewrite !nth_lookup. f_equal.
  apply lookup_take_lt. unfold current_zone, nr_zones. lia.
Qed.

Lemma init_write_spec p prio s : reports → callocs → inv s → opened s → idle_ctx s p →
  twp (λ fuel, init_ns_worker_ctx_write fuel p prio) (λ rc s', set_up s s' ∧
      (∀ p', p' ≠ p → ctxs s' !! p' = ctxs s !! p') ∧
      (rc = 0 ∧ started_ctx s' p ∧ knows_wp s s' p ∨ rc = 1 ∧ idle_ctx s' p))
    (λ _ _, False) s.
Proof.
  intros Hrep Hcal Hi Hop (c&Hc&Hq&Hd).
  destruct (inv_entry _ _ _ Hi _ _ Hc) as (e&He&_). unfold init_ns_worker_ctx_write.
  apply twp_bind_wp; eapply wp_ctx_at; [done|].
  apply twp_bind_wp; eapply wp_entry_at; [done|].
  apply twp_bind_wp, wp_call. intros [q|] w1 Ha; last first.
  { apply alloc_io_qpair_none in Ha as [Hw ?].
    apply twp_bind_wp; eapply wp_ctx_upd; [done|]. apply twp_wp, wp_ret.
    destruct (set_up_refused pool write_from_wp any p c s w1) as [? Hid]; [done..|].
    rewrite Hid. split_and!; [done..|]. right. split; [done|]. exists c. by rewrite Hid. }
  pose proof (alloc_io_qpair_report _ _ _ _ _ Ha) as Hn.
  apply alloc_io_qpair_some in Ha as (Hqn&Hq0&Hw&?).
  apply twp_bind_wp; eapply wp_ctx_upd; [done|].
  apply twp_bind_wp. unfold malloc. apply wp_bind, wp_call. intros ok w2 Hm.
  pose proof (Hcal _ _ _ Hm) as ->. pose proof (calloc_report _ _ _ q Hm) as Hn2.
  apply malloc_ok_law in Hm as [Hw2 [_ Ht2]]. simpl in Hw2, Ht2.
  apply wp_bind, wp_gets, wp_bind, wp_modify, wp_ret.
  apply twp_bind_wp, wp_call. intros rc w3 Hr. pose proof (Hrep _ _ _ _ _ _ _ Hr) as ->.
  apply report_zones_ok in Hr as (Hpend&Hw3&Ht3).
  apply (twp_bind (λ fuel, await_report fuel q) (λ _ _, _)).
  eapply twp_weaken; [by eapply await_report_spec|].
  intros [] s4 (w4&->&Hw4&Ht4&Hdescs). apply twp_wp. simpl in Hw4, Ht4.
  apply wp_bind; eapply wp_of_option; [done|].
  apply wp_bind, wp_get, wp_bind. eapply wp_ctx_upd; [simpl; apply lookup_insert_eq|].
  apply wp_ret. simpl in Hdescs, Hw3, Ht3 |- *. rewrite Hdescs, current_zone_wp_take.
  match goal with |- EngineSpec.set_up _ _ _ _ ?s1 ∧ _ =>
    destruct (set_up_attach pool write_from_wp _ any v_write_ok v_write_extra p c q
      (current_zone_wp (zones (e_ns e) w4)) s s1) as (?&?&?) end; try done; simpl.
  - lia.
  - congruence.
  - by rewrite insert_insert_eq.
  - split_and!; [done..|]. left. split_and!; [done..|]. eexists _, e. simpl.
    split_and!; [apply lookup_insert_eq|done|done].
Qed.

Lemma init_all_write_spec ps prio s : reports → callocs → inv s → opened s → NoDup ps →
  (∀ p, p ∈ ps → idle_ctx s p) →
  twp (λ fuel, init_all_write fuel ps prio) (λ ok s', set_up s s' ∧
      (∀ p', p' ∉ ps → ctxs s' !! p' = ctxs s !! p') ∧
      (ok = true → ∀ p, p ∈ ps → live_ctx s' p)) (λ _ _, False) s.
Proof.
  intros Hrep Hcal. revert s. induction ps as [|p ps IH]; intros s Hi Hop Hnd Hidle; simpl.
  { apply twp_wp, wp_ret. split; [done|]. split; [done|]. set_solver. }
  apply NoDup_cons in Hnd as [Hp Hnd]. apply twp_bind.
  eapply twp_weaken; [apply init_write_spec; set_solver|].
  intros rc s1 (Hs1&Hfr&Hrc). case_decide as Hz.
  { apply twp_wp, wp_ret. split_and!; [done| |done]. intros p' Hp'. apply Hfr. set_solver. }
  eapply twp_weaken; [apply IH; [apply Hs1|apply Hs1|done|]|].
  - intros p' Hp'. destruct (Hidle p') as (c&?&?); [set_solver|].
    exists c. rewrite Hfr by set_solver. done.
  - intros ok s2 (Hs2&Hfr2&Hlive). split_and!; [by eapply set_up_trans| |].
    + intros p' Hp'. rewrite Hfr2, Hfr by set_solver. done.
    + intros Hok p' [->|Hp']%elem_of_cons; [|by apply Hlive].
      destruct Hrc as [(_&(c&q&?&?&_)&_)|[-> _]]; [|done]. exists c, q.
      by rewrite Hfr2.
Qed.

Lemma work_fn_write_spec w wt s : reports → callocs → inv s → opened s →
  workers s !! w = Some wt → NoDup (w_ns_ctx wt) → (∀ p, p ∈ w_ns_ctx wt → idle_ctx s p) →
  twp (λ fuel, work_fn_write fuel w) (λ rc s', inv s' ∧ lost pool s ⊆ lost pool s' ∧
      (rc = 0 ∧ (∀ p, p ∈ w_ns_ctx wt → drained s' p) ∨ rc = 1)) (λ code _, code = 1) s.
Proof.
  intros Hrep Hcal Hi Hop Hwt Hnd Hidle. unfold work_fn_write.
  apply twp_bind_wp. eapply wp_worker_at; [done|]. apply twp_bind.
  eapply twp_mono; [by eapply init_all_write_spec| |done].
  intros ok s1 (Hs1&_&Hlive). destruct Hs1 as (Hi1&_&_&Hl1&_).
  destruct ok; simpl; last first.
  { apply twp_wp, wp_ret. split_and!; [done|by rewrite Hl1|by right]. }
  eapply twp_weaken; [apply (measure_spec pool _ _ _ v_write_ok v_write_extra); auto; done|].
  intros rc s2 (->&?&_&Hl2&?). split_and!; [done|by rewrite <-Hl1|by left].
Qed.

(** A report that the driver refuses never comes: the callback never runs. *)
Lemma await_hangs fuel q s : report_pending q (env s) = None → await_report fuel q s = Spin.
Proof.
  revert s. induction fuel as [|fuel IH]; intros s Hn; [done|]. simpl.
  unfold mbind, M_bind, call. destruct (report_poll q (env s)) as [d w'] eqn:Hd.
  destruct (report_poll_idle _ _ _ _ Hd Hn) as [-> Hn']. by apply IH.
Qed.
End spec.

(** ** The simulated device

    It has eight zones and answers a report at the first poll; on a faulty device [a_rc]
    gives the results of the requests. *)
Section sim.
Context {faulty : bool}.
Implicit Types (w : sim faulty Z).

Definition sim_zones : list zone_desc :=
  (λ i, ZoneDesc 1 (zone_dist * i) (zone_dist * i + 16 * i)) <$> seqZ 0 8.

Definition sim_set_report (r : option (Z * Z * option Z)) (a : sim_admin) : sim_admin :=
  SimAdmin (a_pending a) (a_rc a) (a_cores a) (a_ns a) r.

Definition sim_report_zones (ns q : Z) (b : option Z) (n : Z) w : Z * sim faulty Z :=
  match (if faulty then a_rc (s_adm w) else []) with
  | [] => (0, sim_upd_adm (sim_set_report (Some (q, ns, b))) w)
  | rc :: rcs =>
      (rc, sim_upd_adm (λ a, SimAdmin (a_pending a) rcs (a_cores a) (a_ns a)
        (if decide (rc = 0) then Some (q, ns, b) else a_report a)) w)
  end.

Definition sim_report_pending (q : Z) w : option (Z * option Z) :=
  match a_report (s_adm w) with
  | Some (q', ns, b) => if decide (q' = q) then Some (ns, b) else None
  | None => None
  end.

Definition sim_report_poll (q : Z) w : bool * sim faulty Z :=
  match sim_report_pending q w with
  | Some _ => (true, sim_upd_adm (sim_set_report None) w)
  | None => (false, w)
  end.

#[export] Instance sim_spdk_zones : SpdkZones (sim faulty Z) := {
  report_zones := sim_report_zones;
  report_poll := sim_report_poll;
  report_descs b w := sim_zones;
}.
#[export] Instance sim_spdk_zones_view : SpdkZonesView (sim faulty Z) := {
  report_pending := sim_report_pending;
  report_lag q w := O;
  zones ns w := sim_zones;
}.

#[export] Instance sim_zones_laws : SpdkZonesLaws (sim faulty Z) Z.
Proof.
  split; simpl.
  - intros c p w q w' [= <- <-]. unfold sim_report_pending. simpl.
    match goal with |- context [fresh ?Y] =>
      pose proof (is_fresh Y) as Hf; revert Hf; generalize (fresh Y) end.
    intros q Hq. destruct (a_report (s_adm w)) as [[[q' ns] b]|]; [|done].
    apply decide_False. intros ->. set_solver.
  - by intros w b w' q [= <- <-].
  - intros ns q b n w w'. unfold sim_report_zones, sim_report_pending.
    destruct (if faulty then a_rc (s_adm w) else []) as [|rc rcs];
      [intros [= <-]|intros [= -> <-]]; simpl; by rewrite ?decide_True.
  - intros ns q b n w rc w'. unfold sim_report_zones, sim_report_pending.
    destruct (if faulty then a_rc (s_adm w) else []) as [|rc' rcs]; intros [= <- <-]; [done|].
    intros ?. simpl. by rewrite decide_False.
  - intros q w d w'. unfold sim_report_poll. intros Hp Hn. rewrite Hn in Hp.
    by injection Hp as <- <-.
  - intros q ns b w d w'. unfold sim_report_poll. intros Hp Hs. rewrite Hs in Hp.
    injection Hp as <- <-. by split_and!.
Qed.
End sim.
