(* ===== verification/Workers.v ===== *)
(** * Workers that run side by side

    [main] launches [work_fn] on every core.  The workers share the task pool,
    the device and the globals; each owns the contexts of its queue.  Here the
    calls of all workers interleave: a step of the system is one call that
    [work_fn] makes, by any worker: the creation of a queue pair, one call of
    [submit_single_io], one poll of a queue pair with the callback it triggers, a
    look at the clock, the start of [drain_io], and the release of a queue pair
    that is drained.  A worker may be releasing its queue pairs while another one
    still creates its own. *)
From S2P Require Import Prelude Spdk Arb Engine EngineInv EngineSpec.

(** Where a worker is in [work_fn]. *)
Inductive phase :=
  | Starting (todo : list Z)
  | Submitting (tsc_end : Z) (todo : list Z)
  | Polling (tsc_end : Z)
  | DrainNext (todo : list Z)
  | Drain (p : Z) (todo : list Z)
  | Returned (rc : Z).

Record worker_state := WorkerState { own : list Z; prio : Z; ph : phase }.

Section workers.
Context {W X : Type} `{!Spdk W Z}.
Context (v : variant X).
Implicit Types (s : prog W X) (ws : list worker_state).

(** The workers as [main] launches them. *)
Definition launched s : list worker_state :=
  omap (λ w, wt ← workers s !! w;
    Some (WorkerState (w_ns_ctx wt) (qprio wt) (Starting (w_ns_ctx wt)))) (g_workers s).

(** The first submissions of a worker, in order. *)
Definition submissions s (o : list Z) : list Z :=
  o ≫= replicate (Z.to_nat (queue_depth (g_arbitration s))).

(** The contexts that a worker polls in its current phase. *)
Definition polled (o : list Z) (f : phase) : list Z :=
  match f with
  | Polling _ => o
  | Drain p _ => [p]
  | _ => []
  end.

Definition deadline s (now : Z) : Z :=
  u64 (now + u64 (time_in_sec (g_arbitration s) * tsc_rate (g_arbitration s))).

Inductive step : prog W X * list worker_state → prog W X * list worker_state → Prop :=
  | step_init i o pr p todo s s' ws :
      ws !! i = Some (WorkerState o pr (Starting (p :: todo))) →
      init_ns_worker_ctx v p pr s = Done 0 s' →
      step (s, ws) (s', <[i := WorkerState o pr (Starting todo)]> ws)
  | step_init_failed i o pr p todo rc s s' ws :
      ws !! i = Some (WorkerState o pr (Starting (p :: todo))) →
      init_ns_worker_ctx v p pr s = Done rc s' → rc ≠ 0 →
      step (s, ws) (s', <[i := WorkerState o pr (Returned 1)]> ws)
  | step_start i o pr now w' s ws :
      ws !! i = Some (WorkerState o pr (Starting [])) →
      get_ticks (env s) = (now, w') →
      step (s, ws) (set_env w' s,
        <[i := WorkerState o pr (Submitting (deadline s now) (submissions s o))]> ws)
  | step_submit i o pr e p todo s s' ws :
      ws !! i = Some (WorkerState o pr (Submitting e (p :: todo))) →
      submit_single_io v p s = Done tt s' →
      step (s, ws) (s', <[i := WorkerState o pr (Submitting e todo)]> ws)
  | step_poll_start i o pr e s ws :
      ws !! i = Some (WorkerState o pr (Submitting e [])) →
      step (s, ws) (s, <[i := WorkerState o pr (Polling e)]> ws)
  | step_complete i o pr f p c q t r w' s s' ws :
      ws !! i = Some (WorkerState o pr f) → p ∈ polled o f →
      ctxs s !! p = Some c → qpair c = Some q →
      poll_next q (env s) = (Some (t, r), w') →
      io_complete v t r (set_env w' s) = Done tt s' →
      step (s, ws) (s', ws)
  | step_idle i o pr f p c q w' s ws :
      ws !! i = Some (WorkerState o pr f) → p ∈ polled o f →
      ctxs s !! p = Some c → qpair c = Some q →
      poll_next q (env s) = (None, w') →
      step (s, ws) (set_env w' s, ws)
  | step_clock i o pr e now w' s ws :
      ws !! i = Some (WorkerState o pr (Polling e)) →
      get_ticks (env s) = (now, w') →
      step (s, ws) (set_env w' s,
        <[i := WorkerState o pr (if decide (now > e) then DrainNext o else Polling e)]> ws)
  | step_drain i o pr p c todo s ws :
      ws !! i = Some (WorkerState o pr (DrainNext (p :: todo))) →
      ctxs s !! p = Some c →
      step (s, ws) (set_ctxs <[p := set_draining true c]> s,
                    <[i := WorkerState o pr (Drain p todo)]> ws)
  | step_drained i o pr p c todo s s' ws :
      ws !! i = Some (WorkerState o pr (Drain p todo)) →
      ctxs s !! p = Some c → ¬ 0 < current_queue_depth c →
      (cleanup_ns_worker_ctx p;; report v p) s = Done tt s' →
      step (s, ws) (s', <[i := WorkerState o pr (DrainNext todo)]> ws)
  | step_return i o pr s ws :
      ws !! i = Some (WorkerState o pr (DrainNext [])) →
      step (s, ws) (s, <[i := WorkerState o pr (Returned 0)]> ws).

(** The next call of a worker ends the process: the one that submits, or the one that
    delivers a completion. *)
Inductive exit_step : prog W X * list worker_state → Prop :=
  | exit_submit i o pr e p todo s s' ws :
      ws !! i = Some (WorkerState o pr (Submitting e (p :: todo))) →
      submit_single_io v p s = Exited 1 s' →
      exit_step (s, ws)
  | exit_complete i o pr f p c q t r w' s s' ws :
      ws !! i = Some (WorkerState o pr f) → p ∈ polled o f →
      ctxs s !! p = Some c → qpair c = Some q →
      poll_next q (env s) = (Some (t, r), w') →
      io_complete v t r (set_env w' s) = Exited 1 s' →
      exit_step (s, ws).

(** A worker by itself, in the shared state [s], can make its next call. *)
Definition can_move s (w : worker_state) : Prop :=
  (∃ x, step (s, [w]) x) ∨ exit_step (s, [w]).
End workers.

(** ** Contexts that are closed

    A released queue pair may be handed out again while the context that had it
    still names it.  What holds of the engine holds of the state without the
    contexts that are closed; the calls of a worker are the same with and without
    them. *)
Section without.
Context {W X : Type} `{!Spdk W Z}.
Implicit Types (s : prog W X) (D : gset Z).

Definition without D s : prog W X := set_ctxs (filter (λ kc, kc.1 ∉ D)) s.

Lemma without_lookup D s p : p ∉ D → ctxs (without D s) !! p = ctxs s !! p.
Proof.
  intros Hp. simpl. destruct (ctxs s !! p) as [c|] eqn:E.
  - by apply map_lookup_filter_Some.
  - apply map_lookup_filter_None. by left.
Qed.

Lemma without_Some D s p c : ctxs (without D s) !! p = Some c →
  (p ∉ D) ∧ ctxs s !! p = Some c.
Proof. simpl. intros [??]%map_lookup_filter_Some. done. Qed.

Lemma without_upd D s p c : p ∉ D →
  without D (set_ctxs <[p := c]> s) = set_ctxs <[p := c]> (without D s).
Proof.
  intros Hp. unfold without, set_ctxs. simpl. f_equal.
  by rewrite map_filter_insert_True.
Qed.

Lemma without_more D D' s : without D' (without D s) = without (D ∪ D') s.
Proof.
  unfold without, set_ctxs. simpl. f_equal. rewrite map_filter_filter.
  apply map_filter_ext. set_solver.
Qed.

Lemma without_none s : without ∅ s = s.
Proof.
  destruct s. unfold without, set_ctxs. simpl. f_equal. apply map_filter_id. set_solver.
Qed.

Definition lift {A} (f : prog W X → prog W X) (r : outcome (prog W X) A)
    : outcome (prog W X) A :=
  match r with
  | Done a s => Done a (f s)
  | Exited c s => Exited c (f s)
  | Undef => Undef
  | Spin => Spin
  end.

Context (D : gset Z).
Definition framed {A} (m : M (prog W X) A) : Prop := ∀ s,
  m (without D s) = lift (without D) (m s).

Lemma framed_ret {A} (a : A) : framed (mret a).
Proof. done. Qed.
Lemma framed_exit {A} c : framed (A := A) (exit c).
Proof. done. Qed.
Lemma framed_undef {A} : framed (A := A) undef.
Proof. done. Qed.
Lemma framed_option {A} (o : option A) : framed (of_option o).
Proof. by destruct o. Qed.
Lemma framed_bind {A B} (m : M (prog W X) A) (k : A → M (prog W X) B) :
  framed m → (∀ a, framed (k a)) → framed (m ≫= k).
Proof.
  intros Hm Hk s. unfold mbind, M_bind. rewrite Hm.
  destruct (m s) as [a s1| | |]; simpl; [apply Hk|done..].
Qed.
Lemma framed_get {A} (k : prog W X → M (prog W X) A) :
  (∀ s, framed (k s)) → (∀ s, k (without D s) = k s) → framed (s ← get; k s).
Proof.
  intros Hk He s. change (k (without D s) (without D s) = lift (without D) (k s s)).
  rewrite He. apply Hk.
Qed.
Lemma framed_modify f : (∀ s, f (without D s) = without D (f s)) → framed (modify f).
Proof. intros Hf s. unfold modify. simpl. by rewrite Hf. Qed.
Lemma framed_call {A} (f : W → A * W) : framed (call f).
Proof. intros s. unfold call. simpl. by destruct (f (env s)). Qed.
Lemma framed_effect (f : W → W) : framed (effect f).
Proof. by apply framed_modify. Qed.
Lemma framed_ctx_at p : p ∉ D → framed (ctx_at p).
Proof.
  intros Hp s. unfold ctx_at, mbind, M_bind. simpl.
  change (filter (λ kc, kc.1 ∉ D) (ctxs s)) with (ctxs (without D s)).
  rewrite without_lookup by done. by destruct (ctxs s !! p).
Qed.
Lemma framed_ctx_upd p f : p ∉ D → framed (ctx_upd p f).
Proof.
  intros Hp. apply framed_bind; [by apply framed_ctx_at|]. intros c.
  apply framed_modify. intros s. by rewrite without_upd.
Qed.
Lemma framed_entry_at p : framed (entry_at p).
Proof. apply framed_get; [intros; apply framed_option|done]. Qed.
End without.

Create HintDb framed.
#[export] Hint Resolve framed_ret framed_exit framed_undef framed_option framed_call
  framed_effect framed_ctx_at framed_ctx_upd framed_entry_at : framed.

Ltac framed_step :=
  match goal with
  | |- framed _ (get ≫= _) => apply framed_get; [intros ?|done]
  | |- framed _ (_ ≫= _) => apply framed_bind; [|intros ?]
  | |- framed _ (modify _) => by apply framed_modify
  | |- framed _ (if decide ?P then _ else _) => destruct (decide P)
  | |- framed _ (match ?x with _ => _ end) => destruct x
  | |- framed _ _ => solve [eauto with framed]
  end.
Ltac framed := repeat framed_step.

Section framed_engine.
Context {W X : Type} `{!Spdk W Z} (v : variant X) (D : gset Z).
Implicit Types (s : prog W X).

Lemma framed_stamp p f : p ∉ D → framed D (stamp (W := W) (X := X) p f).
Proof. intros Hp. unfold stamp. framed. Qed.

Lemma framed_submit p : p ∉ D → framed D (submit_single_io (W := W) v p).
Proof.
  intros Hp. pose proof (framed_stamp p (v_before v) Hp).
  unfold submit_single_io, next_offset, send. framed.
Qed.

Lemma framed_init p pr : p ∉ D → framed D (init_ns_worker_ctx (W := W) v p pr).
Proof. intros Hp. unfold init_ns_worker_ctx. framed. Qed.

Lemma framed_close p : p ∉ D → framed D (cleanup_ns_worker_ctx (W := W) p;; report v p).
Proof. intros Hp. unfold cleanup_ns_worker_ctx, report. framed. Qed.

Lemma framed_complete t r s tk : tasks s !! t = Some tk → ns_ctx tk ∉ D →
  io_complete v t r (without D s) = lift (without D) (io_complete v t r s).
Proof.
  intros Ht Hp. unfold io_complete, task_complete, task_at.
  assert (framed D (ctx_upd (W := W) (X := X) (ns_ctx tk)
      (λ c, set_depth (u64 (current_queue_depth c - 1)) c);;
    ctx_upd (ns_ctx tk) (λ c, set_io_completed (u64 (io_completed c + 1)) c);;
    stamp (ns_ctx tk) (v_complete v);;
    effect (dma_free (buf tk));;
    effect (pool_put t);;
    c ← ctx_at (ns_ctx tk);
    if is_draining c then skip else submit_single_io v (ns_ctx tk))) as Hf.
  { pose proof (framed_stamp (ns_ctx tk) (v_complete v) Hp).
    pose proof (framed_submit (ns_ctx tk) Hp). framed. }
  specialize (Hf s). unfold mbind, M_bind in *. simpl. rewrite Ht. exact Hf.
Qed.
End framed_engine.

(** ** The invariant of the system *)
Section workers_spec.
Context {W X : Type} `{!Spdk W Z} `{!SpdkView W Z} `{!SpdkLaws W Z}.
Context (pool : gset Z) (safe : ns_entry → io_cmd → Prop) (v : variant X).
Context (xinv : Z → X → Prop).
Context (Hv : variant_ok safe v) (Hx : variant_extra (W := W) xinv v).
Implicit Types (s : prog W X) (ws : list worker_state) (D : gset Z).

Local Abbreviation inv := (inv pool safe).
Local Abbreviation xok := (xok xinv).

(** Nothing is outstanding on a context. *)
Definition rest s p : Prop :=
  ∃ c, ctxs s !! p = Some c ∧ current_queue_depth c = 0.

(** The contexts of a worker in the state [s] without the closed contexts [D]. *)
Definition phase_ok s D (o : list Z) (f : phase) : Prop :=
  match f with
  | Starting todo => ∃ pre, o = pre ++ todo ∧
      (∀ p, p ∈ pre → started_ctx s p) ∧ ∀ p, p ∈ todo → idle_ctx s p
  | Submitting _ todo => todo ⊆ o ∧ ∀ p, p ∈ o → live_ctx s p
  | Polling _ => ∀ p, p ∈ o → live_ctx s p
  | DrainNext todo => ∃ pre, o = pre ++ todo ∧
      (∀ p, p ∈ pre → p ∈ D) ∧ ∀ p, p ∈ todo → live_ctx s p
  | Drain p todo => ∃ pre, o = pre ++ p :: todo ∧
      (∀ p, p ∈ pre → p ∈ D) ∧ ∀ p', p' ∈ p :: todo → live_ctx s p'
  | Returned rc => rc = 0 ∧ (∀ p, p ∈ o → p ∈ D) ∨ rc = 1 ∧ ∀ p, p ∈ o → rest s p
  end.

Record sys_inv D s ws : Prop := {
  sys_engine : inv (without D s);
  sys_x : xok (without D s);
  sys_opened : opened (without D s);
  sys_phase i o pr f : ws !! i = Some (WorkerState o pr f) →
    NoDup o ∧ phase_ok (without D s) D o f;
  sys_disj i j o1 o2 pr1 pr2 f1 f2 p : ws !! i = Some (WorkerState o1 pr1 f1) →
    ws !! j = Some (WorkerState o2 pr2 f2) → p ∈ o1 → p ∈ o2 → i = j;
  sys_owned p : live_ctx (without D s) p →
    ∃ i o pr f, ws !! i = Some (WorkerState o pr f) ∧ p ∈ o;
}.

(** A phase survives changes of the contexts of other workers. *)
Lemma phase_other t t' D D' o f : D ⊆ D' →
  (∀ p, p ∈ o → ctxs t' !! p = ctxs t !! p) → phase_ok t D o f → phase_ok t' D' o f.
Proof.
  intros HD Ho. assert (∀ p, p ∈ o → live_ctx t p → live_ctx t' p) as Hl
    by (intros p Hp (c&q&?&?); exists c, q; by rewrite Ho).
  assert (∀ p, p ∈ o → rest t p → rest t' p) as Hr
    by (intros p Hp (c&?&?); exists c; by rewrite Ho).
  assert (∀ p, p ∈ o → idle_ctx t p → idle_ctx t' p) as Hi
    by (intros p Hp (c&?&?); exists c; by rewrite Ho).
  assert (∀ p, p ∈ o → started_ctx t p → started_ctx t' p) as Hst
    by (intros p Hp (c&q&?&?); exists c, q; by rewrite Ho).
  destruct f as [todo|e todo|e|todo|p todo|rc]; simpl.
  - intros (pre&->&Hpre&Htodo). exists pre. split_and!; [done| |].
    + intros p Hp. apply Hst; set_solver.
    + intros p Hp. apply Hi; set_solver.
  - intros [? ?]. split; auto.
  - auto.
  - intros (pre&->&?&?). exists pre. split_and!; [done|set_solver|].
    intros p Hp. apply Hl; set_solver.
  - intros (pre&->&?&?). exists pre. split_and!; [done|set_solver|].
    intros p' Hp. apply Hl; [set_solver|auto].
  - intros [[-> ?]|[-> ?]]; [left|right]; (split; [done|]); auto.
Qed.

(** Worker [i] changes some of its own contexts and moves to another phase. *)
Lemma sys_update D D' s s' ws i o pr f f' :
  sys_inv D s ws → ws !! i = Some (WorkerState o pr f) → D ⊆ D' →
  inv (without D' s') → xok (without D' s') → opened (without D' s') →
  (∀ p, p ∉ o → ctxs (without D' s') !! p = ctxs (without D s) !! p) →
  phase_ok (without D' s') D' o f' →
  sys_inv D' s' (<[i := WorkerState o pr f']> ws).
Proof.
  intros Hs Hi HD Hi' Hx' Ho' Hfr Hok.
  assert (∀ j o1 pr1 f1, <[i := WorkerState o pr f']> ws !! j = Some (WorkerState o1 pr1 f1) →
    ∃ f0, ws !! j = Some (WorkerState o1 pr1 f0) ∧ (j = i ∧ o1 = o ∧ f1 = f' ∨ j ≠ i ∧ f1 = f0))
    as Hlook.
  { intros j o1 pr1 f1 [(<-&[= -> -> ->]&_)|[??]]%list_lookup_insert_Some; eauto 6. }
  split; [done..| | |].
  - intros j o1 pr1 f1 Hj. destruct (Hlook _ _ _ _ Hj) as (f0&Hj0&[(->&->&->)|[Hne ->]]).
    { split; [|done]. by apply (sys_phase _ _ _ Hs _ _ _ _ Hi). }
    destruct (sys_phase _ _ _ Hs _ _ _ _ Hj0) as [? Hp]. split; [done|].
    eapply phase_other; [done| |exact Hp]. intros p Hp1. apply Hfr. intros Hp2.
    by pose proof (sys_disj _ _ _ Hs _ _ _ _ _ _ _ _ _ Hj0 Hi Hp1 Hp2).
  - intros j k o1 o2 pr1 pr2 f1 f2 p0 Hj Hk.
    destruct (Hlook _ _ _ _ Hj) as (?&?&_), (Hlook _ _ _ _ Hk) as (?&?&_).
    by eapply (sys_disj _ _ _ Hs).
  - intros p0 Hp0. assert (i < length ws)%nat as Hlt by (by eapply lookup_lt_Some).
    destruct (decide (p0 ∈ o)) as [Hin|Hin].
    + exists i, o, pr, f'. split; [|done]. by apply list_lookup_insert_eq.
    + destruct (sys_owned _ _ _ Hs p0) as (j&o1&pr1&f1&Hj&Hin1).
      { destruct Hp0 as (c&q&Hc&Hq). exists c, q. by rewrite <-Hfr. }
      destruct (decide (j = i)) as [->|]; [by simplify_eq|].
      exists j, o1, pr1, f1. by rewrite list_lookup_insert_ne.
Qed.

Lemma sys_stay D D' s s' ws i o pr f :
  sys_inv D s ws → ws !! i = Some (WorkerState o pr f) → D ⊆ D' →
  inv (without D' s') → xok (without D' s') → opened (without D' s') →
  (∀ p, p ∉ o → ctxs (without D' s') !! p = ctxs (without D s) !! p) →
  phase_ok (without D' s') D' o f → sys_inv D' s' ws.
Proof.
  intros. rewrite <-(list_insert_id ws i (WorkerState o pr f)) by done. by eapply sys_update.
Qed.

(** *** The steps *)
Lemma framed_wp {A} D (m : M (prog W X) A) Q E s a s' : framed D m →
  wp m Q E (without D s) → m s = Done a s' → Q a (without D s').
Proof. intros Hf Hw Hm. unfold wp in Hw. by rewrite Hf, Hm in Hw. Qed.

Lemma frame_live s s' p : frame s s' → live_ctx s p → live_ctx s' p.
Proof.
  intros Hf (c&q&Hc&Hq). destruct (fr_ctx _ _ Hf _ _ Hc) as (c'&?&[]).
  exists c', q. split; congruence.
Qed.

Lemma opened_frame p s s' : frame s s' → is_Some (ctxs s !! p) →
  (∀ p', p' ≠ p → ctxs s' !! p' = ctxs s !! p') → opened s → opened s'.
Proof.
  intros Hf [c Hc] Ho Hop p' c' q Hc' Hq. rewrite (fr_qpairs _ _ Hf).
  destruct (decide (p' = p)) as [->|].
  - destruct (fr_ctx _ _ Hf _ _ Hc) as (c0&?&[]). simplify_eq.
    apply (Hop p c); congruence.
  - rewrite Ho in Hc' by done. by eapply Hop.
Qed.

(** A change of one context that its owner has open. *)
Lemma step_own D s s' ws i o pr f f' p : sys_inv D s ws →
  ws !! i = Some (WorkerState o pr f) → p ∈ o →
  inv (without D s') → xok (without D s') → frame (without D s) (without D s') →
  live_ctx (without D s) p →
  (∀ p', p' ≠ p → ctxs (without D s') !! p' = ctxs (without D s) !! p') →
  phase_ok (without D s') D o f' → sys_inv D s' (<[i := WorkerState o pr f']> ws).
Proof.
  intros Hs Hi Hp Hi' Hx' Hf (c&q&Hc&Hq) Ho Hok. eapply sys_update; try done.
  - eapply opened_frame; [done|by eexists|done|apply Hs].
  - intros p' Hp'. apply Ho. congruence.
Qed.

Lemma step_env D s w' ws i o pr f f' : sys_inv D s ws →
  ws !! i = Some (WorkerState o pr f) → view w' = view (env s) →
  phase_ok (without D s) D o f' →
  sys_inv D (set_env w' s) (<[i := WorkerState o pr f']> ws).
Proof.
  intros Hs Hi Hw Hok. eapply sys_update; try done.
  - by apply (inv_quiet _ _ (without D s)); [apply Hs|].
  - apply (sys_x _ _ _ Hs).
  - intros p c q. simpl. rewrite Hw. apply (sys_opened _ _ _ Hs).
Qed.

Lemma init_step D s s' ws i o pr p todo rc : sys_inv D s ws →
  ws !! i = Some (WorkerState o pr (Starting (p :: todo))) →
  init_ns_worker_ctx v p pr s = Done rc s' →
  sys_inv D s' (<[i := WorkerState o pr (if decide (rc = 0) then Starting todo
                                         else Returned 1)]> ws).
Proof.
  intros Hs Hi Hm. destruct (sys_phase _ _ _ Hs _ _ _ _ Hi) as [Hnd (pre&->&Hpre&Htodo)].
  assert (idle_ctx (without D s) p) as Hidle by (apply Htodo; set_solver).
  assert (p ∉ D) as HpD by (by destruct Hidle as (c&[? _]%without_Some&_)).
  pose proof (framed_wp D _ _ _ _ _ _ (framed_init v D p pr HpD)
    (init_ns_worker_ctx_spec pool safe v xinv Hv Hx p pr _ (sys_engine _ _ _ Hs)
      (sys_opened _ _ _ Hs) Hidle) Hm) as (Hs'&Ho&Hrc).
  destruct Hs' as (Hi'&Hop'&_&_&_&_&_&_&Hx'&_).
  assert (∀ p', p' ≠ p → started_ctx (without D s) p' → started_ctx (without D s') p') as Hl
    by (intros p' ? (c&q&?&?); exists c, q; by rewrite Ho).
  assert (∀ p', p' ≠ p → rest (without D s) p' → rest (without D s') p') as Hr
    by (intros p' ? (c&?&?); exists c; by rewrite Ho).
  assert (∀ p', p' ≠ p → idle_ctx (without D s) p' → idle_ctx (without D s') p') as Hd
    by (intros p' ? (c&?&?); exists c; by rewrite Ho).
  apply NoDup_app in Hnd as (_&Hpt&[Hp0 _]%NoDup_cons).
  eapply sys_update; [done|done|done|done|apply Hx', Hs|done| |].
  { intros p' Hp'. apply Ho. set_solver. }
  assert (∀ p', p' ∈ pre → p' ≠ p) as Hne by (intros p' Hp' ->; eapply Hpt; set_solver).
  destruct Hrc as [[-> Hst]|[-> Hid]]; simpl.
  - exists (pre ++ [p]). rewrite <-app_assoc. split_and!; [done| |].
    + intros p' [Hp'| ->%list_elem_of_singleton]%elem_of_app; [|done]. apply Hl; auto.
    + intros p' Hp'. apply Hd; [by intros ->|]. apply Htodo. set_solver.
  - right. split; [done|]. intros p' Hp'. destruct (decide (p' = p)) as [->|Hn].
    { by destruct Hid as (c&?&_&?); exists c. }
    apply Hr; [done|]. apply elem_of_app in Hp' as [Hp'|Hp'].
    + destruct (Hpre p' Hp') as (c&q&?&_&?). by exists c.
    + destruct (Htodo p' Hp') as (c&?&_&?). by exists c.
Qed.

Lemma submit_step D s s' ws i o pr e p todo : sys_inv D s ws →
  ws !! i = Some (WorkerState o pr (Submitting e (p :: todo))) →
  submit_single_io v p s = Done tt s' →
  sys_inv D s' (<[i := WorkerState o pr (Submitting e todo)]> ws).
Proof.
  intros Hs Hi Hm. destruct (sys_phase _ _ _ Hs _ _ _ _ Hi) as [_ [Hsub Hlive]].
  assert (p ∈ o) as Hpo by set_solver. pose proof (Hlive p Hpo) as Hl.
  destruct (Hl) as (c&q&Hc&Hq). pose proof (without_Some _ _ _ _ Hc) as [HpD _].
  pose proof (framed_wp D _ _ _ _ _ _ (framed_submit v D p HpD)
    (submit_single_io_spec pool safe v xinv Hv Hx p c q _ (sys_engine _ _ _ Hs) Hc Hq) Hm)
    as [Hi' Hf _ _ Hx' Ho].
  eapply step_own; [done|done|exact Hpo|done|apply Hx', Hs|done|done|done|].
  split; [set_solver|]. intros p' Hp'. eapply frame_live; [done|auto].
Qed.

Lemma complete_step D s s' ws i o pr f p c q t r w' : sys_inv D s ws →
  ws !! i = Some (WorkerState o pr f) → p ∈ polled o f →
  ctxs s !! p = Some c → qpair c = Some q →
  poll_next q (env s) = (Some (t, r), w') →
  io_complete v t r (set_env w' s) = Done tt s' → sys_inv D s' ws.
Proof.
  intros Hs Hi Hp Hc Hq Hpoll Hm. destruct (sys_phase _ _ _ Hs _ _ _ _ Hi) as [_ Hok].
  assert (p ∈ o ∧ live_ctx (without D s) p) as [Hpo Hl].
  { destruct f as [| |e| |p0 todo|]; simpl in *; try set_solver.
    apply list_elem_of_singleton in Hp as ->. destruct Hok as (pre&->&_&?). set_solver. }
  assert (ctxs (without D s) !! p = Some c) as Hc'.
  { destruct Hl as (c0&_&Hc0&_). pose proof (without_Some _ _ _ _ Hc0) as [? ?]. congruence. }
  pose proof (sys_engine _ _ _ Hs) as Hinv.
  destruct (poll_some _ _ _ _ _ Hpoll) as ((k&Hk)&_&_).
  destruct (inv_cmd _ _ _ Hinv _ _ _ Hk) as (tk&c0&e&Htk&Hc0&Hq0&_).
  assert (ns_ctx tk = p) as Htp by (by eapply (inv_qpair _ _ _ Hinv)).
  assert (p ∉ D) as HpD by apply (without_Some _ _ _ _ Hc').
  pose proof (io_complete_spec pool safe v xinv Hv Hx q t r w' (without D s) Hinv Hpoll) as Hw.
  change (set_env w' (without D s)) with (without D (set_env w' s)) in Hw. unfold wp in Hw.
  rewrite (framed_complete v D t r (set_env w' s) tk) in Hw; [|exact Htk|congruence].
  rewrite Hm in Hw. simpl in Hw.
  assert (∀ p', p' ≠ p → ctxs (without D s') !! p' = ctxs (without D s) !! p') as Ho
    by (intros p' Hn; apply (com_others _ _ _ _ _ _ _ Hw tk); congruence).
  pose proof (com_frame _ _ _ _ _ _ _ Hw) as Hf.
  eapply sys_stay; [exact Hs|done|done|apply Hw|apply Hw, Hs| |intros p' Hp'; apply Ho; congruence|].
  { eapply (opened_frame p); [exact Hf|by eexists|done|apply Hs]. }
  destruct f as [| |e1| |p0 todo|]; simpl in *; try set_solver.
  - intros p' Hp'. eapply frame_live; [done|auto].
  - destruct Hok as (pre&?&?&Hlv). exists pre. split_and!; [done|done|].
    intros p' Hp'. eapply frame_live; [done|auto].
Qed.

(** An idle context is closed: what the rest of the engine sees does not change. *)
Lemma inv_forget s p c q : inv s → ctxs s !! p = Some c → qpair c = Some q →
  depth q (inflight (view (env s))) = O → inv (without {[p]} s).
Proof.
  intros Hi Hc Hq Hd. pose proof (without_Some {[p]} s) as Hw.
  split; simpl; try apply Hi.
  - intros t q' k Hk. destruct (inv_cmd _ _ _ Hi _ _ _ Hk) as (tk&c'&e&Htk&Hc'&Hq'&?).
    exists tk, c', e. split; [done|]. split; [|done].
    rewrite <-Hc'. apply (without_lookup {[p]} s).
    intros Heq%elem_of_singleton. rewrite Heq in Hc'. simplify_eq. by eapply depth_zero.
  - intros p1 p2 c1 c2 q' [_ H1]%Hw [_ H2]%Hw. by eapply (inv_qpair _ _ _ Hi).
  - intros p1 c1 q' [_ H1]%Hw. by eapply (inv_depth _ _ _ Hi).
  - intros p1 c1 [_ H1]%Hw. by eapply (inv_entry _ _ _ Hi).
Qed.

Lemma close_run p c q s y : ctxs s !! p = Some c → qpair c = Some q →
  v_report v (extra c) = Some y →
  (cleanup_ns_worker_ctx p;; report v p) s =
    Done tt (set_ctxs <[p := set_extra y c]> (set_env (free_io_qpair q (env s)) s)).
Proof.
  intros Hc Hq Hy. unfold cleanup_ns_worker_ctx, report, ctx_upd, ctx_at, mbind, M_bind. simpl.
  rewrite Hc. simpl. rewrite Hq. simpl. rewrite Hc. simpl. rewrite Hy. simpl. by rewrite Hc.
Qed.

Lemma close_step D s s' ws i o pr p c todo : sys_inv D s ws →
  ws !! i = Some (WorkerState o pr (Drain p todo)) →
  ctxs s !! p = Some c → ¬ 0 < current_queue_depth c →
  (cleanup_ns_worker_ctx p;; report v p) s = Done tt s' →
  sys_inv (D ∪ {[p]}) s' (<[i := WorkerState o pr (DrainNext todo)]> ws).
Proof.
  intros Hs Hi Hc Hd Hm. destruct (sys_phase _ _ _ Hs _ _ _ _ Hi) as [Hnd (pre&->&Hpre&Hlive)].
  destruct (Hlive p) as (c0&q&Hc0&Hq); [set_solver|].
  pose proof (without_Some _ _ _ _ Hc0) as [HpD Hc1]. simplify_eq.
  pose proof (sys_engine _ _ _ Hs) as Hinv.
  assert (depth q (inflight (view (env s))) = O) as Hd0.
  { pose proof (inv_depth _ _ _ Hinv _ _ _ Hc0 Hq). simpl in *. lia. }
  pose proof (sys_x _ _ _ Hs _ _ Hc0) as Hxc.
  assert (current_queue_depth c = 0) as Hz.
  { pose proof (inv_depth _ _ _ Hinv _ _ _ Hc0 Hq). simpl in *. lia. }
  rewrite Hz in Hxc.
  destruct (vx_report _ _ Hx _ Hxc) as (y&Hy&_).
  rewrite (close_run _ _ _ _ _ Hc Hq Hy) in Hm. injection Hm as <-.
  set (s' := set_ctxs _ _).
  assert (without (D ∪ {[p]}) s' =
    set_env (free_io_qpair q (env s)) (without {[p]} (without D s))) as Hs'.
  { rewrite without_more. unfold s', without, set_ctxs, set_env. simpl. f_equal.
    apply map_filter_insert_not'; set_solver. }
  destruct (free_io_qpair_law q (env s) Hd0) as [Hw _].
  pose proof (without_Some {[p]} (without D s)) as Hwo.
  eapply sys_update; [done|done|set_solver| | | | |]; rewrite Hs'.
  - apply inv_take; simpl; rewrite ?Hw; try done. by eapply inv_forget.
  - intros p' c' [_ Hp']%Hwo. by apply (sys_x _ _ _ Hs p').
  - intros p' c' q' [Hn Hp']%Hwo Hq'. simpl. rewrite Hw. simpl.
    apply elem_of_difference. split; [by apply (sys_opened _ _ _ Hs p' c')|].
    intros ->%elem_of_singleton. apply Hn, elem_of_singleton.
    by eapply (inv_qpair _ _ _ Hinv).
  - intros p' Hp'. apply (without_lookup {[p]} (without D s)). set_solver.
  - exists (pre ++ [p]). rewrite <-app_assoc. split_and!; [done|set_solver|].
    intros p' Hp'. destruct (Hlive p') as (c'&q'&?&?); [by right|]. exists c', q'.
    split; [|done]. etrans; [apply (without_lookup {[p]} (without D s))|done].
    apply NoDup_app in Hnd as (_&_&[? _]%NoDup_cons). set_solver.
Qed.

Lemma step_preserves D s ws s' ws' : step v (s, ws) (s', ws') → sys_inv D s ws →
  ∃ D', D ⊆ D' ∧ sys_inv D' s' ws'.
Proof.
  intros Hstep Hs. inversion Hstep; subst;
    match goal with H : _ !! _ = Some (WorkerState _ _ _) |- _ => rename H into Hi end.
  - exists D. split; [done|]. by eapply (init_step D s s' ws i o pr p todo 0).
  - exists D. split; [done|].
    pose proof (init_step D s s' ws i o pr p todo rc Hs Hi ltac:(done)) as H1.
    by rewrite decide_False in H1.
  - destruct (get_ticks_law _ _ _ ltac:(eassumption)) as (_&_&Hw&_).
    destruct (sys_phase _ _ _ Hs _ _ _ _ Hi) as [_ (pre&->&Hpre&_)].
    exists D. split; [done|]. eapply step_env; [done..|]. rewrite app_nil_r. split.
    + unfold submissions. intros p (p'&Hp&?)%list_elem_of_bind.
      by apply elem_of_replicate in Hp as [-> _].
    + intros p Hp. destruct (Hpre p Hp) as (c&q&?&?&_). by exists c, q.
  - exists D. split; [done|]. by eapply submit_step.
  - destruct (sys_phase _ _ _ Hs _ _ _ _ Hi) as [_ [_ ?]].
    exists D. split; [done|]. rewrite <-(set_env_id s'). by eapply step_env.
  - exists D. split; [done|]. by eapply complete_step.
  - destruct (poll_none _ _ _ ltac:(eassumption)) as [Hw _].
    exists D. split; [done|]. rewrite <-(list_insert_id ws' i _ Hi).
    eapply step_env; [done..|]. by apply (sys_phase _ _ _ Hs _ _ _ _ Hi).
  - destruct (get_ticks_law _ _ _ ltac:(eassumption)) as (_&_&Hw&_).
    destruct (sys_phase _ _ _ Hs _ _ _ _ Hi) as [_ Hok].
    exists D. split; [done|]. eapply step_env; [done..|]. case_decide; [|done].
    exists []. split_and!; [done|set_solver|exact Hok].
  - destruct (sys_phase _ _ _ Hs _ _ _ _ Hi) as [_ (pre&->&Hpre&Hlive)].
    destruct (Hlive p) as (c0&q&Hc0&Hq); [set_solver|].
    pose proof (without_Some _ _ _ _ Hc0) as [HpD Hc1]. simplify_eq.
    exists D. split; [done|].
    assert (without D (set_ctxs <[p := set_draining true c]> s) =
      set_ctxs <[p := set_draining true c]> (without D s)) as Hu by (by apply without_upd).
    assert (frame (without D s) (set_ctxs <[p := set_draining true c]> (without D s))) as Hf
      by (eapply frame_ctx; [exact Hc0|done]).
    eapply (step_own D s _ ws i _ _ _ _ p); [done|exact Hi|set_solver| | | |by exists c, q| |]; rewrite Hu.
    + eapply inv_ctx_upd; [apply Hs|exact Hc0|done..].
    + rewrite <-(set_env_id (without D s)). apply xok_upd; [apply Hs|].
      by apply (sys_x _ _ _ Hs p c).
    + done.
    + intros p' ?. simpl. by rewrite lookup_insert_ne.
    + exists pre. split_and!; [done|done|]. intros p' Hp'. eapply frame_live; [done|auto].
  - exists (D ∪ {[p]}). split; [set_solver|]. by eapply close_step.
  - destruct (sys_phase _ _ _ Hs _ _ _ _ Hi) as [_ (pre&->&Hpre&_)].
    exists D. split; [done|]. rewrite <-(set_env_id s'). eapply step_env; [done..|].
    left. split; [done|]. by rewrite app_nil_r.
Qed.

Lemma steps_preserve D x y : rtc (step v) x y → sys_inv D x.1 x.2 →
  ∃ D', D ⊆ D' ∧ sys_inv D' y.1 y.2.
Proof.
  intros Hst. revert D. induction Hst as [|[s ws] [s' ws'] z Hst _ IH]; intros D Hs; [by exists D|].
  destruct (step_preserves _ _ _ _ _ Hst Hs) as (D1&?&Hs1).
  destruct (IH _ Hs1) as (D2&?&?). exists D2. split; [set_solver|done].
Qed.

#[export] Instance returned_dec w : Decision (∃ rc, ph w = Returned rc).
Proof. destruct (ph w); [right; by intros [? ?]..|left; eauto]. Defined.

Definition finished ws : Prop := ∀ i w, ws !! i = Some w → ∃ rc, ph w = Returned rc.

(** When every worker has returned, nothing is outstanding and every task that no
    failed submission lost is back in the pool. *)
Lemma finished_empty D s ws : sys_inv D s ws → finished ws →
  inflight (view (env s)) = ∅ ∧ pool = avail (view (env s)) ∪ lost pool s.
Proof.
  clear Hv Hx v. intros Hs Hfin. assert (inflight (view (env s)) = ∅) as Hf.
  { apply map_empty. intros t. destruct (_ !! t) as [[q k]|] eqn:Ht; [|done].
    exfalso. destruct (inv_cmd _ _ _ (sys_engine _ _ _ Hs) _ _ _ Ht)
      as (tk&c&e&_&Hc&Hq&_).
    destruct (sys_owned _ _ _ Hs (ns_ctx tk)) as (i&o&pr&f&Hi&Hin); [by exists c, q|].
    destruct (Hfin _ _ Hi) as [rc Hph]. simpl in Hph. subst f.
    destruct (sys_phase _ _ _ Hs _ _ _ _ Hi) as (_&[[_ HD]|[_ Hr]]).
    - by apply (without_Some _ _ _ _ Hc), HD.
    - destruct (Hr _ Hin) as (c'&Hc'&Hd). simplify_eq.
      rewrite (inv_depth _ _ _ (sys_engine _ _ _ Hs) _ _ _ Hc Hq) in Hd.
      eapply (depth_zero q); [|exact Ht]. simpl in Hd. lia. }
  split; [done|]. unfold lost. rewrite Hf, dom_empty_L.
  pose proof (inv_pool _ _ _ (sys_engine _ _ _ Hs)) as Hp. simpl in Hp. rewrite Hf in Hp.
  apply set_eq. intros t. destruct (decide (t ∈ avail (view (env s)))); set_solver.
Qed.

(** *** Progress *)

Lemma lift_total {A} D (r : outcome (prog W X) A) Q (E : Z → prog W X → Prop) s m :
  m (without D s) = lift (without D) r → wp m Q E (without D s) →
  (∃ a s', r = Done a s') ∨ ∃ c s', r = Exited c s' ∧ E c (without D s').
Proof.
  intros Hm Hw. unfold wp in Hw. rewrite Hm in Hw.
  destruct r; simpl in Hw; [left; eauto|right; eauto|done..].
Qed.

Lemma drain_progress D s ws i o pr p todo : sys_inv D s ws →
  ws !! i = Some (WorkerState o pr (Drain p todo)) → can_move v s (WorkerState o pr (Drain p todo)).
Proof.
  intros Hs Hi. destruct (sys_phase _ _ _ Hs _ _ _ _ Hi) as [_ (pre&_&_&Hlive)].
  destruct (Hlive p) as (c&q&Hc&Hq); [by left|].
  pose proof (without_Some _ _ _ _ Hc) as [HpD Hc'].
  destruct (decide (0 < current_queue_depth c)) as [Hd|Hd].
  - destruct (poll_next q (env s)) as [[[t r]|] w'] eqn:Hpoll.
    + pose proof (io_complete_spec pool safe v xinv Hv Hx q t r w' (without D s)
        (sys_engine _ _ _ Hs) Hpoll) as Hw.
      destruct (poll_some _ _ _ _ _ Hpoll) as ((k&Hk)&_&_).
      destruct (inv_cmd _ _ _ (sys_engine _ _ _ Hs) _ _ _ Hk) as (tk&c0&e&Htk&Hc0&_).
      apply without_Some in Hc0 as [Hn _].
      destruct (lift_total D (io_complete v t r (set_env w' s)) _ _ (set_env w' s) _
        (framed_complete v D t r (set_env w' s) tk Htk Hn) Hw) as [([]&s'&Hm)|(c1&s'&Hm&[-> _])].
      * left. eexists. by eapply (step_complete v 0); [done|by left|done..].
      * right. by eapply (exit_complete v 0); [done|by left|done..].
    + left. eexists. by eapply (step_idle v 0); [done|by left|done..].
  - left. pose proof (sys_x _ _ _ Hs _ _ Hc) as Hxc.
    assert (current_queue_depth c = 0) as Hz.
    { pose proof (inv_depth _ _ _ (sys_engine _ _ _ Hs) _ _ _ Hc Hq). simpl in *. lia. }
    rewrite Hz in Hxc. destruct (vx_report _ _ Hx _ Hxc) as (y&Hy&_).
    eexists. eapply (step_drained v 0); [done|done|done|]. by apply (close_run p c q).
Qed.

(** No worker ever waits for another one: as long as it has not returned it can make its
    next call, whatever the others have done to the shared state. *)
Lemma progress D s ws i w : sys_inv D s ws → ws !! i = Some w →
  (∀ rc, ph w ≠ Returned rc) → can_move v s w.
Proof.
  intros Hs Hi Hnr. destruct w as [o pr f]. destruct (sys_phase _ _ _ Hs _ _ _ _ Hi) as [_ Hok].
  destruct f as [[|p todo]|e [|p todo]|e|[|p todo]|p todo|rc]; simpl in *.
  - left. destruct (get_ticks (env s)) as [now w'] eqn:Ht. eexists. by eapply (step_start v 0).
  - left. destruct Hok as (pre&_&_&Htodo). pose proof (Htodo p ltac:(by left)) as Hidle.
    destruct (Hidle) as (c&[HpD _]%without_Some&_).
    destruct (lift_total D (init_ns_worker_ctx v p pr s) _ _ s _ (framed_init v D p pr HpD s)
      (init_ns_worker_ctx_spec pool safe v xinv Hv Hx p pr _ (sys_engine _ _ _ Hs)
        (sys_opened _ _ _ Hs) Hidle)) as [(rc&s'&Hm)|(?&?&_&[])].
    destruct (decide (rc = 0)) as [->|]; eexists;
      [by eapply (step_init v 0)|by eapply (step_init_failed v 0)].
  - left. eexists. by eapply (step_poll_start v 0).
  - destruct Hok as [Hsub Hlive]. destruct (Hlive p) as (c&q&Hc&Hq); [set_solver|].
    pose proof (without_Some _ _ _ _ Hc) as [HpD _].
    destruct (lift_total D (submit_single_io v p s) _ _ s _ (framed_submit v D p HpD s)
      (submit_single_io_spec pool safe v xinv Hv Hx p c q _ (sys_engine _ _ _ Hs) Hc Hq))
      as [([]&s'&Hm)|(c1&s'&Hm&->)].
    + left. eexists. by eapply (step_submit v 0).
    + right. by eapply (exit_submit v 0).
  - left. destruct (get_ticks (env s)) as [now w'] eqn:Ht. eexists. by eapply (step_clock v 0).
  - left. eexists. by eapply (step_return v 0).
  - left. destruct Hok as (pre&_&_&Hlive). destruct (Hlive p) as (c&q&[_ Hc]%without_Some&_);
      [by left|]. eexists. by eapply (step_drain v 0).
  - by eapply drain_progress.
  - by destruct (Hnr rc).
Qed.

(** *** The launch *)

(** What [main] must have set up before it launches the workers: no context has a
    queue pair, and every context belongs to one worker. *)
Record launchable s : Prop := {
  la_engine : inv s;
  la_x : xok s;
  la_closed p c : ctxs s !! p = Some c → qpair c = None;
  la_workers w : w ∈ g_workers s → ∃ wt, workers s !! w = Some wt ∧
    NoDup (w_ns_ctx wt) ∧ ∀ p, p ∈ w_ns_ctx wt → idle_ctx s p;
  la_nodup : NoDup (g_workers s);
  la_disj w1 w2 wt1 wt2 p : workers s !! w1 = Some wt1 → workers s !! w2 = Some wt2 →
    p ∈ w_ns_ctx wt1 → p ∈ w_ns_ctx wt2 → w1 = w2;
}.

(** The [i]-th worker state is the one of the [i]-th worker of the queue. *)
Lemma launched_lookup s i o pr f : launchable s →
  launched s !! i = Some (WorkerState o pr f) → ∃ w wt, g_workers s !! i = Some w ∧
    workers s !! w = Some wt ∧ o = w_ns_ctx wt ∧ f = Starting o.
Proof.
  clear Hv Hx v. intros Hl. pose proof (la_workers _ Hl) as Hw. unfold launched. revert i.
  induction (g_workers s) as [|w l IH]; intros i Hi; [done|].
  destruct (Hw w) as (wt&Hwt&_); [by left|]. simpl in Hi. rewrite Hwt in Hi. simpl in Hi.
  destruct i as [|i]; simpl in *.
  - simplify_eq. by exists w, wt.
  - apply (IH ltac:(intros; apply Hw; by right)) in Hi. done.
Qed.

Lemma launched_length s : launchable s → length (launched s) = length (g_workers s).
Proof.
  clear Hv Hx v. intros Hl. pose proof (la_workers _ Hl) as Hw. unfold launched.
  induction (g_workers s) as [|w l IH]; [done|].
  destruct (Hw w) as (wt&Hwt&_); [by left|]. simpl. rewrite Hwt. simpl. f_equal.
  apply IH. intros; apply Hw; by right.
Qed.

Lemma steps_length x y : rtc (step v) x y → length y.2 = length x.2.
Proof.
  clear Hv Hx. induction 1 as [|x y z Hst _ IH]; [done|]. rewrite IH.
  inversion Hst; subst; simpl; by rewrite ?length_insert.
Qed.

Lemma launched_inv s : launchable s → sys_inv ∅ s (launched s).
Proof.
  clear Hv Hx v. intros Hl. split; rewrite ?without_none; try apply Hl.
  - intros p c q Hp Hq. by rewrite (la_closed _ Hl _ _ Hp) in Hq.
  - intros i o pr f Hi. destruct (launched_lookup _ _ _ _ _ Hl Hi) as (w&wt&Hw&Hwt&->&->).
    destruct (la_workers _ Hl w) as (wt'&Hwt'&Hnd&Hidle); [by eapply list_elem_of_lookup_2|].
    simplify_eq. split; [done|]. exists []. split_and!; [done|set_solver|done].
  - intros i j o1 o2 pr1 pr2 f1 f2 p Hi Hj Hp1 Hp2.
    destruct (launched_lookup _ _ _ _ _ Hl Hi) as (w1&wt1&Hw1&Hwt1&->&_).
    destruct (launched_lookup _ _ _ _ _ Hl Hj) as (w2&wt2&Hw2&Hwt2&->&_).
    pose proof (la_disj _ Hl _ _ _ _ _ Hwt1 Hwt2 Hp1 Hp2) as ->.
    by eapply NoDup_lookup; [apply Hl|..].
  - intros p (c&q&Hc&Hq). by rewrite (la_closed _ Hl _ _ Hc) in Hq.
Qed.
End workers_spec.
