(* ===== verification/Schedule.v ===== *)
(** * A worker alone is one schedule of the system

    [work_fn] as it is written (Engine) and as a sequence of calls (Workers) are two
    descriptions of one function.  Here the first refines the second: whatever a run of
    [work_fn] does, the steps of its worker do it in the same order, while the other
    workers stay where they are. *)
From S2P Require Import Prelude Spdk Arb Engine EngineInv EngineSpec Workers.

(** ** What the engine never touches

    The calls of the workers change the device, the tasks and the contexts; they use
    only the I/O side of the driver.  What a context keeps is a relation [R]: its entry,
    or, while its queue pair is open, also its queue pair. *)
Section keeps.
Context {W X : Type} `{!Spdk W Z} `{!SpdkView W Z} `{!SpdkLaws W Z}.
Context (R : ns_worker_ctx X → ns_worker_ctx X → Prop) `{!PreOrder R}.
Implicit Types (s : prog W X).

Definition globals s :=
  (entries s, workers s, ctrlrs s, g_controllers s, g_namespaces s, g_workers s,
   g_arbitration s).

Record keeps s s' : Prop := {
  ke_env : rtc (io_call (T := Z)) (env s) (env s');
  ke_globals : globals s' = globals s;
  ke_ctx p c : ctxs s !! p = Some c → ∃ c', ctxs s' !! p = Some c' ∧ R c c';
}.

#[global] Instance keeps_preorder : PreOrder keeps.
Proof.
  split.
  - intros s. split; [done|done|]. intros p c Hc. by exists c.
  - intros s1 s2 s3 [H1 G1 C1] [H2 G2 C2]. split; [by etrans|congruence|].
    intros p c Hc. destruct (C1 _ _ Hc) as (c1&Hc1&?), (C2 _ _ Hc1) as (c2&?&?).
    exists c2. split; [done|by etrans].
Qed.

Definition keeping {A} (m : M (prog W X) A) : Prop := ∀ s,
  match m s with Done _ s' | Exited _ s' => keeps s s' | _ => True end.

Lemma keeping_done {A} (m : M (prog W X) A) s a s' :
  keeping m → m s = Done a s' → keeps s s'.
Proof. intros Hk Hm. specialize (Hk s). by rewrite Hm in Hk. Qed.

Lemma keeping_ret {A} (a : A) : keeping (mret a).
Proof. intros s. by simpl. Qed.
Lemma keeping_exit {A} c : keeping (A := A) (exit c).
Proof. intros s. by simpl. Qed.
Lemma keeping_undef {A} : keeping (A := A) undef.
Proof. by intros s. Qed.
Lemma keeping_option {A} (o : option A) : keeping (of_option o).
Proof. destruct o; intros s; by simpl. Qed.
Lemma keeping_get : keeping get.
Proof. intros s. by simpl. Qed.
Lemma keeping_bind {A B} (m : M (prog W X) A) (k : A → M (prog W X) B) :
  keeping m → (∀ a, keeping (k a)) → keeping (m ≫= k).
Proof.
  intros Hm Hk s. unfold mbind, M_bind. specialize (Hm s).
  destruct (m s) as [a s1| | |]; [|done..]. specialize (Hk a s1).
  destruct (k a s1); try done; by etrans.
Qed.
Lemma keeping_call {A} (f : W → A * W) :
  (∀ w, io_call (T := Z) w (f w).2) → keeping (call f).
Proof.
  intros Hf s. unfold call. specialize (Hf (env s)). destruct (f (env s)) as [a w].
  split; [by apply rtc_once|done|intros ? c ?; by exists c].
Qed.
Lemma keeping_effect (f : W → W) : (∀ w, io_call (T := Z) w (f w)) → keeping (effect f).
Proof. intros Hf s. split; [by apply rtc_once|done|intros ? c ?; by exists c]. Qed.
Lemma keeping_tasks f : keeping (modify (set_tasks f)).
Proof. intros s. split; [done|done|intros ? c ?; by exists c]. Qed.
Lemma keeping_ctx_at p : keeping (ctx_at p).
Proof. apply keeping_bind; [apply keeping_get|intros; apply keeping_option]. Qed.
Lemma keeping_entry_at p : keeping (entry_at p).
Proof. apply keeping_bind; [apply keeping_get|intros; apply keeping_option]. Qed.
Lemma keeping_task_at p : keeping (task_at p).
Proof. apply keeping_bind; [apply keeping_get|intros; apply keeping_option]. Qed.
Lemma keeping_ctx_upd p f : (∀ c, R c (f c)) → keeping (ctx_upd p f).
Proof.
  intros Hf s. unfold ctx_upd, ctx_at, mbind, M_bind. simpl.
  destruct (ctxs s !! p) as [c|] eqn:Hc; simpl; [|done]. split; [done|done|].
  intros p' c' Hc'. simpl. destruct (decide (p' = p)) as [->|].
  - rewrite lookup_insert_eq. simplify_eq. eauto.
  - rewrite lookup_insert_ne by done. by exists c'.
Qed.
End keeps.

Definition same_entry {X} (c c' : ns_worker_ctx X) : Prop := entry c' = entry c.
Definition same_qpair {X} (c c' : ns_worker_ctx X) : Prop :=
  entry c' = entry c ∧ qpair c' = qpair c.

#[export] Instance same_entry_preorder {X} : PreOrder (@same_entry X).
Proof. split; [done|]. unfold same_entry. intros c1 c2 c3 ??. congruence. Qed.
#[export] Instance same_qpair_preorder {X} : PreOrder (@same_qpair X).
Proof. split; [done|]. intros c1 c2 c3 [??] [??]. split; congruence. Qed.

Create HintDb keeping.
#[export] Hint Resolve keeping_ret keeping_exit keeping_undef keeping_option keeping_get
  keeping_tasks keeping_ctx_at keeping_entry_at keeping_task_at : keeping.
#[export] Hint Extern 1 (keeping ?R (ctx_upd _ _)) => by apply (keeping_ctx_upd R) : keeping.
#[export] Hint Extern 1 (keeping ?R (call _)) =>
  apply (keeping_call R); intros; by constructor : keeping.
#[export] Hint Extern 1 (keeping ?R (effect _)) =>
  apply (keeping_effect R); intros; by constructor : keeping.

Ltac keeping_step :=
  match goal with
  | |- keeping ?R (_ ≫= _) => apply (keeping_bind R); [|intros ?]
  | |- keeping _ (if decide ?P then _ else _) => destruct (decide P)
  | |- keeping _ (match ?x with _ => _ end) => destruct x
  | |- keeping ?R skip => apply (keeping_ret R)
  | |- keeping _ _ => solve [eauto with keeping typeclass_instances]
  end.
Ltac keeping := repeat keeping_step.

Section keeping_engine.
Context {W X : Type} `{!Spdk W Z} `{!SpdkView W Z} `{!SpdkLaws W Z} (v : variant X).
Implicit Types (s : prog W X) (ws : list worker_state).

Lemma keeping_stamp p f : keeping same_qpair (stamp (W := W) (X := X) p f).
Proof. unfold stamp. keeping. Qed.
Hint Resolve keeping_stamp : keeping.

Lemma keeping_submit p : keeping same_qpair (submit_single_io (W := W) v p).
Proof. unfold submit_single_io, next_offset, send. keeping. Qed.
Hint Resolve keeping_submit : keeping.

Lemma keeping_complete t r : keeping same_qpair (io_complete (W := W) v t r).
Proof. unfold io_complete, task_complete. keeping. Qed.

Lemma keeping_init p pr : keeping same_entry (init_ns_worker_ctx (W := W) v p pr).
Proof. unfold init_ns_worker_ctx. keeping. Qed.

Lemma keeping_close p : keeping same_entry (cleanup_ns_worker_ctx (W := W) p;; report v p).
Proof. unfold cleanup_ns_worker_ctx, report. keeping. Qed.

Lemma keeps_env R `{!PreOrder R} s w' : io_call (T := Z) (env s) w' → keeps R s (set_env w' s).
Proof. intros Hf. split; [by apply rtc_once|done|intros ? c ?; by exists c]. Qed.

Lemma keeps_qpair s s' : keeps same_qpair s s' → keeps same_entry s s'.
Proof.
  intros [? ? Hc]. split; [done|done|]. intros p c Hp. destruct (Hc _ _ Hp) as (c'&?&?&_).
  by exists c'.
Qed.

Lemma step_keeps s ws s' ws' : step v (s, ws) (s', ws') → keeps same_entry s s'.
Proof.
  intros Hstep. inversion Hstep; subst.
  - by eapply (keeping_done same_entry); [apply keeping_init|].
  - by eapply (keeping_done same_entry); [apply keeping_init|].
  - apply (keeps_env same_entry). change w' with (now, w').2.
    match goal with H : get_ticks _ = _ |- _ => rewrite <-H end. constructor.
  - by eapply keeps_qpair, (keeping_done same_qpair); [apply keeping_submit|].
  - done.
  - etrans; [|by eapply keeps_qpair, (keeping_done same_qpair); [apply keeping_complete|]].
    apply (keeps_env same_entry). change w' with (Some (t, r), w').2.
    match goal with H : poll_next _ _ = _ |- _ => rewrite <-H end. constructor.
  - apply (keeps_env same_entry). change w' with ((None : option (Z * cpl)), w').2.
    match goal with H : poll_next _ _ = _ |- _ => rewrite <-H end. constructor.
  - apply (keeps_env same_entry). change w' with (now, w').2.
    match goal with H : get_ticks _ = _ |- _ => rewrite <-H end. constructor.
  - split; [done|done|]. intros p' c' Hc'. simpl.
    destruct (decide (p' = p)) as [->|]; [|rewrite lookup_insert_ne by done; by exists c'].
    rewrite lookup_insert_eq. simplify_eq. by eexists.
  - by eapply (keeping_done same_entry); [apply keeping_close|].
  - done.
Qed.

Lemma steps_keep x y : rtc (step v) x y → keeps same_entry x.1 y.1.
Proof.
  intros Hst. induction Hst as [|[s ws] [s' ws'] z Hst _ IH]; [done|].
  etrans; [by eapply step_keeps|exact IH].
Qed.
End keeping_engine.

(** ** The steps of one worker *)
Section schedule.
Context {W X : Type} `{!Spdk W Z} `{!SpdkView W Z} `{!SpdkLaws W Z} (v : variant X).
Context (ws0 : list worker_state) (i : nat) (o : list Z) (pr : Z).
Context (Hi : (i < length ws0)%nat).
Implicit Types (s : prog W X).

(** The system in which worker [i] is in phase [f]. *)
Definition on (f : phase) : list worker_state := <[i := WorkerState o pr f]> ws0.

Local Abbreviation run := (rtc (step v)).

Lemma on_at f : on f !! i = Some (WorkerState o pr f).
Proof. by apply list_lookup_insert_eq. Qed.

Lemma on_on f g : <[i := WorkerState o pr g]> (on f) = on g.
Proof. apply list_insert_insert_eq. Qed.

Lemma on_step f g s s' :
  step v (s, on f) (s', <[i := WorkerState o pr g]> (on f)) → step v (s, on f) (s', on g).
Proof. by rewrite on_on. Qed.

Lemma init_steps ps s ok s' : init_all v ps pr s = Done ok s' →
  run (s, on (Starting ps)) (s', on (if ok then Starting [] else Returned 1)).
Proof.
  revert s. induction ps as [|p ps IH]; intros s Hm; simpl in Hm.
  { injection Hm as <- <-. done. }
  apply bind_done in Hm as (rc&s1&Hinit&Hm). case_decide as Hrc.
  - injection Hm as <- <-. apply rtc_once.
    apply on_step. eapply step_init_failed; [apply on_at|done..].
  - assert (rc = 0) as -> by lia. eapply rtc_l; [|by apply IH].
    apply on_step.
    eapply step_init; [apply on_at|done].
Qed.

(** The nested loops of the first submissions are one walk over [submissions]. *)
Lemma foreach_submit ps n s : foreach ps (λ p, submit_io v p n) s =
  foreach (ps ≫= replicate (Z.to_nat n)) (submit_single_io v) s.
Proof.
  revert s. induction ps as [|p ps IH]; intros s; [done|].
  rewrite bind_cons, foreach_app. simpl. unfold mbind, M_bind in *.
  rewrite foreach_replicate. unfold submit_io at 1. destruct (repeat_m _ _ s); [apply IH|done..].
Qed.

Lemma submit_steps e l s s' : foreach l (submit_single_io v) s = Done tt s' →
  run (s, on (Submitting e l)) (s', on (Submitting e [])).
Proof.
  revert s. induction l as [|p l IH]; intros s Hm; simpl in Hm.
  { by injection Hm as <-. }
  apply bind_done in Hm as ([]&s1&H1&Hm). eapply rtc_l; [|by apply IH].
  apply on_step.
  eapply step_submit; [apply on_at|done].
Qed.

Lemma deliver_steps n f p c q s s' : p ∈ polled o f → ctxs s !! p = Some c →
  qpair c = Some q → deliver v n q s = Done tt s' → run (s, on f) (s', on f).
Proof.
  intros Hp. revert s c. induction n as [|n IH]; intros s c Hc Hq Hm; simpl in Hm.
  { by injection Hm as <-. }
  unfold mbind, M_bind, call in Hm. simpl in Hm.
  destruct (poll_next q (env s)) as [[[t r]|] w'] eqn:Hpoll; simpl in Hm.
  - destruct (io_complete v t r (set_env w' s)) as [[] s1| | |] eqn:Hio; try done.
    pose proof (keeping_done same_qpair _ _ _ _ (keeping_complete v t r) Hio) as Hk.
    destruct (ke_ctx _ _ _ Hk p c Hc) as (c1&Hc1&_&Hq1).
    eapply rtc_l; [|eapply (IH s1 c1); [done|congruence|exact Hm]].
    eapply step_complete; [apply on_at|done..].
  - injection Hm as <-. apply rtc_once. eapply step_idle; [apply on_at|done..].
Qed.

Lemma check_steps f p s s' : p ∈ polled o f → check_io v p s = Done tt s' →
  run (s, on f) (s', on f).
Proof.
  intros Hp (c&s1&Hc&Hm)%bind_done. unfold ctx_at, mbind, M_bind in Hc. simpl in Hc.
  destruct (ctxs s !! p) as [c'|] eqn:Hcp; [|done]. injection Hc as <- <-.
  apply bind_done in Hm as (q&s2&Hq&Hm). destruct (qpair c') as [q'|] eqn:Hq'; [|done].
  injection Hq as <- <-.
  eapply deliver_steps; [exact Hp|exact Hcp|exact Hq'|exact Hm].
Qed.

Lemma checks_steps f ps s s' : (∀ p, p ∈ ps → p ∈ polled o f) →
  foreach ps (check_io v) s = Done tt s' → run (s, on f) (s', on f).
Proof.
  intros Hps. revert s. induction ps as [|p ps IH]; intros s Hm; simpl in Hm.
  { by injection Hm as <-. }
  apply bind_done in Hm as ([]&s1&H1&Hm). etrans.
  - eapply check_steps; [|done]. apply Hps. by left.
  - apply IH; [|done]. intros. apply Hps. by right.
Qed.

Lemma poll_steps fuel e s s' : poll_until v fuel e o s = Done tt s' →
  run (s, on (Polling e)) (s', on (DrainNext o)).
Proof.
  revert s. induction fuel as [|fuel IH]; intros s Hm; [done|]. simpl in Hm.
  apply bind_done in Hm as ([]&s1&H1&Hm). etrans; [by eapply checks_steps|].
  unfold mbind, M_bind, call in Hm. simpl in Hm.
  destruct (get_ticks (env s1)) as [now w'] eqn:Ht. simpl in Hm.
  assert (step v (s1, on (Polling e)) (set_env w' s1,
    on (if decide (now > e) then DrainNext o else Polling e))) as Hstep.
  { apply on_step.
    eapply step_clock; [apply on_at|done]. }
  case_decide.
  - injection Hm as <-. by apply rtc_once.
  - by eapply rtc_l; [|apply IH].
Qed.

Lemma drain_loop_steps fuel p todo s s' :
  while fuel (busy p) (check_io v p) s = Done tt s' →
  run (s, on (Drain p todo)) (s', on (Drain p todo)) ∧ busy p s' = false.
Proof.
  revert s. induction fuel as [|fuel IH]; intros s Hm; simpl in Hm;
    destruct (busy p s) eqn:Hb; simplify_eq; [done..| |done].
  apply bind_done in Hm as ([]&s1&H1&Hm). destruct (IH _ Hm) as [Hr ?].
  split; [|done]. etrans; [|exact Hr]. eapply check_steps; [by left|done].
Qed.

Lemma drain_steps fuel p todo s s' :
  (drain_io v fuel p;; cleanup_ns_worker_ctx p;; report v p) s = Done tt s' →
  run (s, on (DrainNext (p :: todo))) (s', on (DrainNext todo)).
Proof.
  intros ([]&s1&(Hd&s0&Hset&Hloop)%bind_done&Hm)%bind_done.
  unfold ctx_upd, ctx_at, mbind, M_bind in Hset. simpl in Hset.
  destruct (ctxs s !! p) as [c|] eqn:Hc; [|done]. injection Hset as <- <-.
  destruct (drain_loop_steps _ _ todo _ _ Hloop) as [Hr Hb].
  eapply rtc_l; [|etrans; [exact Hr|apply rtc_once]].
  - apply on_step.
    eapply step_drain; [apply on_at|done].
  - apply on_step. unfold busy in Hb.
    destruct (ctxs s1 !! p) as [c1|] eqn:Hc1.
    + eapply step_drained; [apply on_at|done|by apply bool_decide_eq_false in Hb|done].
    + exfalso. apply bind_done in Hm as ([]&?&(?&?&Hn&_)%bind_done&_).
      unfold ctx_at, mbind, M_bind in Hn. simpl in Hn. by rewrite Hc1 in Hn.
Qed.

Lemma drains_steps fuel ps s s' :
  foreach ps (λ p, drain_io v fuel p;; cleanup_ns_worker_ctx p;; report v p) s = Done tt s' →
  run (s, on (DrainNext ps)) (s', on (DrainNext [])).
Proof.
  revert s. induction ps as [|p ps IH]; intros s Hm; simpl in Hm.
  { by injection Hm as <-. }
  apply bind_done in Hm as ([]&s1&H1&Hm).
  etrans; [by eapply drain_steps|by apply IH].
Qed.

(** Every run of [work_fn] is a schedule in which only its worker moves. *)
Lemma work_fn_steps fuel w wt rc s s' : workers s !! w = Some wt →
  w_ns_ctx wt = o → qprio wt = pr → work_fn v fuel w s = Done rc s' →
  run (s, on (Starting o)) (s', on (Returned rc)).
Proof.
  intros Hw Ho Hpr Hm. unfold work_fn, measure in Hm.
  apply bind_done in Hm as (wt'&s0&Hat&Hm). unfold worker_at, mbind, M_bind in Hat.
  simpl in Hat. rewrite Hw in Hat. injection Hat as <- <-. rewrite Ho, Hpr in Hm.
  apply bind_done in Hm as (ok&s1&Hinit&Hm). etrans; [by eapply init_steps|].
  destruct ok; simpl in Hm; [|by injection Hm as <- <-].
  unfold call, mbind at 1, M_bind at 1 in Hm.
  destruct (get_ticks (env s1)) as [now w'] eqn:Ht.
  apply bind_done in Hm as (s2&s2'&Hget&Hm). injection Hget as <- <-.
  apply bind_done in Hm as ([]&s3&Hsub&Hm). rewrite foreach_submit in Hsub.
  apply bind_done in Hm as ([]&s4&Hpoll&Hm).
  apply bind_done in Hm as ([]&s5&Hdr&Hm). injection Hm as <- <-.
  eapply rtc_l.
  { apply on_step. eapply step_start; [apply on_at|exact Ht]. }
  etrans; [by eapply submit_steps|].
  eapply rtc_l.
  { apply on_step. eapply step_poll_start, on_at. }
  etrans; [by eapply poll_steps|].
  etrans; [by eapply drains_steps|]. apply rtc_once.
  apply on_step. eapply step_return, on_at.
Qed.
End schedule.
