(* ===== verification/Registry.v ===== *)
(** * Controllers, namespaces, workers and their association

    The set-up and clean-up functions of [arbitration/arbitration.cc]: lines
    147-274 ([register_ns], [register_ctrlr] and the latency tracking
    feature), 412-443 ([cleanup]), 875-1176 (workers, connection, association,
    the arbitration feature) and the parts of [main] before and after the
    workers run (1178-1272). *)
From S2P Require Import Prelude Spdk Arb.

(** ** Feature words *)
Definition SPDK_NVME_FEAT_ARBITRATION : Z := 1.
Definition SPDK_NVME_ARBITRATION_BURST_UNLIMITED : Z := 7.
Definition USER_SPECIFIED_HIGH_PRIORITY_WEIGHT : Z := 32.
Definition USER_SPECIFIED_MEDIUM_PRIORITY_WEIGHT : Z := 16.
Definition USER_SPECIFIED_LOW_PRIORITY_WEIGHT : Z := 8.

(** [union spdk_nvme_feat_arbitration]: ab in bits 0-2, then the three weights
    in bytes 1 to 3. *)
Definition arbitration_raw (ab lpw mpw hpw : Z) : Z :=
  Z.lor (Z.land ab 7) (Z.lor (Z.shiftl (Z.land lpw 255) 8)
    (Z.lor (Z.shiftl (Z.land mpw 255) 16) (Z.shiftl (Z.land hpw 255) 24))).
Definition raw_ab (r : Z) : Z := Z.land r 7.
Definition raw_lpw (r : Z) : Z := Z.land (Z.shiftr r 8) 255.
Definition raw_mpw (r : Z) : Z := Z.land (Z.shiftr r 16) 255.
Definition raw_hpw (r : Z) : Z := Z.land (Z.shiftr r 24) 255.

Definition set_outstanding (z : Z) (g : arb_context) : arb_context :=
  ArbContext (shm_id g) z (num_namespaces g) (num_workers g) (rw_percentage g)
    (is_random g) (queue_depth g) (time_in_sec g) (io_count g)
    (latency_tracking_enable g) (arbitration_mechanism g) (arbitration_config g)
    (io_size_bytes g) (max_completions g) (tsc_rate g) (core_mask g) (workload_type g).
Definition set_num_namespaces (z : Z) (g : arb_context) : arb_context :=
  ArbContext (shm_id g) (outstanding_commands g) z (num_workers g) (rw_percentage g)
    (is_random g) (queue_depth g) (time_in_sec g) (io_count g)
    (latency_tracking_enable g) (arbitration_mechanism g) (arbitration_config g)
    (io_size_bytes g) (max_completions g) (tsc_rate g) (core_mask g) (workload_type g).
Definition set_num_workers (z : Z) (g : arb_context) : arb_context :=
  ArbContext (shm_id g) (outstanding_commands g) (num_namespaces g) z (rw_percentage g)
    (is_random g) (queue_depth g) (time_in_sec g) (io_count g)
    (latency_tracking_enable g) (arbitration_mechanism g) (arbitration_config g)
    (io_size_bytes g) (max_completions g) (tsc_rate g) (core_mask g) (workload_type g).
Definition set_tsc_rate (z : Z) (g : arb_context) : arb_context :=
  ArbContext (shm_id g) (outstanding_commands g) (num_namespaces g) (num_workers g)
    (rw_percentage g) (is_random g) (queue_depth g) (time_in_sec g) (io_count g)
    (latency_tracking_enable g) (arbitration_mechanism g) (arbitration_config g)
    (io_size_bytes g) (max_completions g) z (core_mask g) (workload_type g).

(** ** Queues *)

(** [TAILQ_NEXT]: the element after the first occurrence of [p]. *)
Fixpoint tailq_next (l : list Z) (p : Z) : option Z :=
  match l with
  | [] => None
  | x :: l' => if decide (x = p) then head l' else tailq_next l' p
  end.

Definition qprio_mask : Z := 3.

Section registry.
Context {W X : Type} `{!Spdk W Z} `{!SpdkAdmin W}.
Implicit Types (s : prog W X).

Definition g_upd (f : arb_context → arb_context) : M (prog W X) () :=
  modify (set_g_arbitration f).

(** ** Namespaces *)

Definition register_ns (ctrlr ns : Z) : M (prog W X) () :=
  s ← get;
  let io := io_size_bytes (g_arbitration s) in
  let size := ns_get_size ns in
  let ext := ns_get_extended_sector_size ns in
  if decide (size < io ∨ ext > io) then skip
  else if decide (ext = 0) then undef
  else if decide (io mod ext ≠ 0) then skip
  else
    p ← malloc;
    match p with
    | None => exit 1
    | Some p =>
        let sector := ns_get_sector_size ns in
        if decide (io = 0 ∨ sector = 0) then undef else
        modify (set_entries <[p := NsEntry ctrlr ns (u32 (io / sector)) (size / io)]>);;
        g_upd (λ g, set_num_namespaces (num_namespaces g + 1) g);;
        modify (set_g_namespaces (λ l, l ++ [p]))
    end.

(** ** Admin commands and their callbacks *)

Definition decrement_outstanding : M (prog W X) () :=
  g_upd (λ g, set_outstanding (outstanding_commands g - 1) g).
Definition increment_outstanding : M (prog W X) () :=
  g_upd (λ g, set_outstanding (outstanding_commands g + 1) g).

Definition enable_latency_tracking_complete (c : cpl) : M (prog W X) () :=
  decrement_outstanding.

Definition get_feature_completion (c : cpl) : M (prog W X) () :=
  (if is_error c then skip else modify (set_features (λ _, Feature (u32 (cdw0 c)) true)));;
  decrement_outstanding.

Definition set_feature_completion (c : cpl) : M (prog W X) () :=
  (if is_error c then modify (set_features (λ f, Feature (result f) false)) else skip);;
  decrement_outstanding.

Definition admin_callback (k : admin_cmd) (c : cpl) : M (prog W X) () :=
  match k with
  | set_latency_tracking _ => enable_latency_tracking_complete c
  | get_features _ => get_feature_completion c
  | get_log_page _ => enable_latency_tracking_complete c
  | set_arbitration _ => set_feature_completion c
  end.

Definition process_admin_completions (ctrlr : Z) : M (prog W X) () :=
  l ← call (admin_poll ctrlr);
  foreach l (λ kc, admin_callback kc.1 kc.2).

Definition outstanding (s : prog W X) : bool :=
  bool_decide (outstanding_commands (g_arbitration s) ≠ 0).

Definition set_latency_tracking_feature (fuel : nat) (ctrlr : Z) (enable : bool)
    : M (prog W X) () :=
  res ← call (admin_submit ctrlr (set_latency_tracking enable));
  if decide (res ≠ 0) then skip else
  increment_outstanding;;
  while fuel outstanding (process_admin_completions ctrlr).

Definition get_feature (ctrlr fid : Z) : M (prog W X) Z :=
  modify (set_features (λ f, Feature (result f) false));;
  call (admin_submit ctrlr (get_features fid)).

(** The result of [get_feature] is dropped. *)
Definition get_arb_feature (fuel : nat) (ctrlr : Z) : M (prog W X) () :=
  _ ← get_feature ctrlr SPDK_NVME_FEAT_ARBITRATION;
  increment_outstanding;;
  while fuel outstanding (process_admin_completions ctrlr).

Definition set_arb_feature (fuel : nat) (ctrlr : Z) : M (prog W X) Z :=
  g_upd (set_outstanding 0);;
  s ← get;
  let cdw11 := if valid (arb_feature s)
    then arbitration_raw SPDK_NVME_ARBITRATION_BURST_UNLIMITED
           USER_SPECIFIED_LOW_PRIORITY_WEIGHT USER_SPECIFIED_MEDIUM_PRIORITY_WEIGHT
           USER_SPECIFIED_HIGH_PRIORITY_WEIGHT
    else 0 in
  ret ← call (admin_submit ctrlr (set_arbitration cdw11));
  if decide (ret ≠ 0) then mret 1 else
  increment_outstanding;;
  while fuel outstanding (process_admin_completions ctrlr);;
  mret 0.

(** ** Controllers *)

Fixpoint register_all_ns (fuel : nat) (ctrlr nsid : Z) : M (prog W X) () :=
  if decide (nsid = 0) then skip else
  match fuel with
  | O => λ _, Spin
  | S fuel' =>
      s ← get;
      (match ctrlr_get_ns ctrlr nsid (env s) with
       | None => skip
       | Some ns => register_ns ctrlr ns
       end);;
      s ← get;
      register_all_ns fuel' ctrlr (get_next_active_ns ctrlr nsid (env s))
  end.

(** A null controller (a failed connection) is dereferenced. *)
Definition register_ctrlr (fuel : nat) (c : option Z) : M (prog W X) () :=
  entry ← malloc;
  ctrlr ← of_option c;
  match entry with
  | None => exit 1
  | Some p =>
      modify (set_ctrlrs <[p := CtrlrEntry ctrlr]>);;
      modify (set_g_controllers (λ l, l ++ [p]));;
      s ← get;
      (if decide (latency_tracking_enable (g_arbitration s) ≠ 0 ∧
                  feature_supported ctrlr (env s) = true)
       then set_latency_tracking_feature fuel ctrlr true else skip);;
      s ← get;
      register_all_ns fuel ctrlr (get_first_active_ns ctrlr (env s));;
      s ← get;
      if decide (arbitration_mechanism (g_arbitration s) = SPDK_NVME_CAP_AMS_WRR ∧
                 Z.land (cap_ams ctrlr (env s)) SPDK_NVME_CAP_AMS_WRR ≠ 0)
      then
        get_arb_feature fuel ctrlr;;
        (if decide (arbitration_config (g_arbitration s) ≠ 0)
         then _ ← set_arb_feature fuel ctrlr; get_arb_feature fuel ctrlr
         else skip)
      else skip
  end.

(** ** Workers *)

Fixpoint register_cores (cores : list Z) (prio : Z) : M (prog W X) Z :=
  match cores with
  | [] => mret 0
  | i :: cores' =>
      p ← malloc;
      match p with
      | None => mret (-1)
      | Some p =>
          modify (set_g_workers (λ l, l ++ [p]));;
          g_upd (λ g, set_num_workers (num_workers g + 1) g);;
          s ← get;
          let prio' := if decide (arbitration_mechanism (g_arbitration s) =
                                  SPDK_NVME_CAP_AMS_WRR) then prio + 1 else prio in
          modify (set_workers <[p := WorkerThread [] i (Z.land prio' qprio_mask)]>);;
          register_cores cores' prio'
      end
  end.

Definition register_workers : M (prog W X) Z :=
  s ← get; register_cores (env_cores (env s)) 0.

(** ** Association *)

(** [x0] is the all-zero value of the fields that the program adds. *)
Fixpoint associate_loop (x0 : X) (count : nat) (e w : option Z) : M (prog W X) Z :=
  match count, e with
  | O, _ => mret 0
  | S _, None => mret 0
  | S count', Some entry =>
      p ← malloc;
      match p with
      | None => mret 1
      | Some p =>
          modify (set_ctxs <[p := NsWorkerCtx entry 0 0 0 false None x0]>);;
          worker ← of_option w;
          wt ← worker_at worker;
          modify (set_workers <[worker :=
            WorkerThread (w_ns_ctx wt ++ [p]) (lcore wt) (qprio wt)]>);;
          s ← get;
          let w' := match tailq_next (g_workers s) worker with
                    | Some n => Some n | None => head (g_workers s) end in
          let e' := match tailq_next (g_namespaces s) entry with
                    | Some n => Some n | None => head (g_namespaces s) end in
          associate_loop x0 count' e' w'
      end
  end.

Definition associate_workers_with_ns (x0 : X) (count : nat) : M (prog W X) Z :=
  s ← get;
  associate_loop x0 count (head (g_namespaces s)) (head (g_workers s)).

(** ** Clean-up *)

(** [has_pool] tells whether [task_pool] has been created: counting the null
    pool is undefined.  The result says that the count is as expected. *)
Definition cleanup (has_pool : bool) (task_count : Z) : M (prog W X) bool :=
  s ← get;
  foreach (g_namespaces s) (λ p,
    modify (set_g_namespaces tail);; modify (set_entries (delete p)));;
  foreach (g_workers s) (λ p,
    modify (set_g_workers tail);;
    wt ← worker_at p;
    foreach (w_ns_ctx wt) (λ c, modify (set_ctxs (delete c)));;
    modify (set_workers (delete p)));;
  s ← get;
  if has_pool then mret (bool_decide (pool_count (env s) = task_count)) else undef.

Definition unregister_controllers (fuel : nat) : M (prog W X) () :=
  s ← get;
  foreach (g_controllers s) (λ p,
    modify (set_g_controllers tail);;
    s ← get;
    c ← of_option (ctrlrs s !! p);
    (if decide (latency_tracking_enable (g_arbitration s) ≠ 0 ∧
                feature_supported (c_ctrlr c) (env s) = true)
     then set_latency_tracking_feature fuel (c_ctrlr c) false else skip);;
    effect (nvme_detach_async (c_ctrlr c));;
    modify (set_ctrlrs (delete p)));;
  s ← get;
  if detaching (env s) then poll_while fuel (call nvme_detach_poll) else skip.

Definition zstore_cleanup (fuel : nat) (has_pool : bool) (task_count : Z)
    : M (prog W X) bool :=
  unregister_controllers fuel;;
  ok ← cleanup has_pool task_count;
  effect env_fini;;
  mret ok.

(** ** Connections *)
Definition g_hostnqn : string := "nqn.2024-04.io.zstore:cnode1".
Definition tcp_trid (ip port : string) : transport_id :=
  TransportId "TCP" "IPv4" ip port g_hostnqn.

(** [sizeof(opts.hostnqn)]: [SPDK_NVMF_NQN_MAX_LEN + 1].  The name is copied from the
    literal with [memcpy]. *)
Definition hostnqn_size : Z := 224.

Context `{!Image}.

Definition zns_dev_init (fuel : nat) (ip1 port1 ip2 port2 : string) : M (prog W X) () :=
  memcpy_literal hostnqn_size g_hostnqn;;
  c1 ← call (nvme_connect (tcp_trid ip1 port1));
  register_ctrlr fuel c1;;
  c2 ← call (nvme_connect (tcp_trid ip2 port2));
  register_ctrlr fuel c2.

(** [arbitration_rdma.cc] connects to one controller only. *)
Definition zns_dev_init_rdma (fuel : nat) (ip1 port1 : string) : M (prog W X) () :=
  memcpy_literal hostnqn_size g_hostnqn;;
  c1 ← call (nvme_connect (tcp_trid ip1 port1));
  register_ctrlr fuel c1.

Definition dev_init (fuel : nat) : M (prog W X) () :=
  zns_dev_init fuel "192.168.1.121" "4420" "192.168.1.121" "5520".
Definition dev_init_rdma (fuel : nat) : M (prog W X) () :=
  zns_dev_init_rdma fuel "192.168.100.9" "5520".

Definition register_controllers (init : M (prog W X) ()) : M (prog W X) Z :=
  init;;
  s ← get;
  mret (if decide (num_namespaces (g_arbitration s) = 0) then 1 else 0).

(** ** [main] up to the launch of the workers

    [inr tc]: the workers are launched with a pool of [tc] tasks; [inl rc]:
    [main] has cleaned up and returns [rc]. *)
Definition task_count (g : arb_context) : Z :=
  u32 (u32 (Z.max (num_namespaces g) (num_workers g)) * u32 (queue_depth g)).

Definition abandon (fuel : nat) (task_count : Z) : M (prog W X) (Z + Z) :=
  _ ← zstore_cleanup fuel false task_count; mret (inl 1).

Definition main_with (init : nat → M (prog W X) ()) (associate : M (prog W X) Z) (fuel : nat)
    : M (prog W X) (Z + Z) :=
  s ← get;
  g_upd (set_tsc_rate (get_ticks_hz (env s)));;
  rc ← register_workers;
  if decide (rc ≠ 0) then abandon fuel 0 else
  rc ← register_controllers (init fuel);
  if decide (rc ≠ 0) then abandon fuel 0 else
  rc ← associate;
  if decide (rc ≠ 0) then abandon fuel 0 else
  s ← get;
  let tc := task_count (g_arbitration s) in
  ok ← call (pool_create tc);
  if ok : bool then mret (inr tc) else abandon fuel tc.

Definition main_setup (init : nat → M (prog W X) ()) (fuel : nat) (x0 : X) (count : nat)
    : M (prog W X) (Z + Z) :=
  main_with init (associate_workers_with_ns x0 count) fuel.

(** [main] of [arbitration.cc] and of [arbitration_rdma.cc]: the association
    makes two contexts in both. *)
Definition main_setup_arbitration (fuel : nat) (x0 : X) : M (prog W X) (Z + Z) :=
  main_setup dev_init fuel x0 2.
Definition main_setup_rdma (fuel : nat) (x0 : X) : M (prog W X) (Z + Z) :=
  main_setup dev_init_rdma fuel x0 2.
End registry.
