(* ===== verification/EngineProps.v ===== *)
(** * Properties of the I/O engine

    The theorems about [Engine], [Variants] and [Workers] that a reader of the
    programs relies on, with concrete runs on the simulated device. *)
From S2P Require Import Prelude Spdk Arb Engine EngineInv EngineSpec Variants Workers.

(** ** A small configuration

    One namespace of four I/Os of eight blocks, one context that owns it, and
    one worker; two I/Os are kept outstanding and the time limit is 0. *)
Definition demo_entry : ns_entry := NsEntry 100 200 8 4.
Definition demo_arb : arb_context := {|
  shm_id := -1; outstanding_commands := 0; num_namespaces := 1;
  num_workers := 1; rw_percentage := 50; is_random := 0; queue_depth := 2;
  time_in_sec := 0; io_count := 100000; latency_tracking_enable := 0;
  arbitration_mechanism := 0; arbitration_config := 0; io_size_bytes := 4096;
  max_completions := 0; tsc_rate := 1; core_mask := "0x1"; workload_type := "rw" |}.

Definition demo_pool : gset Z := {[ 50; 51; 52 ]}.

Definition demo_sim (faulty : bool) (pool : gset Z) (rcs : list Z) : sim faulty Z :=
  Sim (View pool ∅ ∅ ∅) 1 rcs [] 0 (SimAdmin [] [] [0] [1] None).

Definition demo {X} faulty pool rcs (x : X) : prog (sim faulty Z) X :=
  Prog (demo_sim faulty pool rcs) ∅ {[ 2 := NsWorkerCtx 1 0 0 0 false None x ]}
    {[ 1 := demo_entry ]} {[ 3 := WorkerThread [2] 0 0 ]} ∅ [] [1] [3]
    (Feature 0 false) demo_arb 10.

(** The same after the queue pair has been created. *)
Definition demo_live {X} faulty pool rcs (x : X) : prog (sim faulty Z) X :=
  Prog (Sim (View pool ∅ {[ 7 ]} ∅) 1 rcs [] 0 (SimAdmin [] [] [0] [1] None)) ∅
    {[ 2 := NsWorkerCtx 1 0 0 0 false (Some 7) x ]}
    {[ 1 := demo_entry ]} {[ 3 := WorkerThread [2] 0 0 ]} ∅ [] [1] [3]
    (Feature 0 false) demo_arb 10.


Ltac singleton H := simpl in H; apply lookup_singleton_Some in H as [<- <-].

Lemma demo_inv {X} faulty rcs (x : X) safe : inv demo_pool safe (demo faulty demo_pool rcs x).
Proof.
  apply inv_initial; try done.
  - intros p1 p2 c1 c2 q H1 H2. singleton H1. by singleton H2.
  - intros p c H1. singleton H1. split; [done|]. exists demo_entry.
    split; [done|]. split; [done|]. done.
Qed.

Lemma demo_live_inv {X} faulty rcs (x : X) safe :
  inv demo_pool safe (demo_live faulty demo_pool rcs x).
Proof.
  apply inv_initial; try done.
  - intros p1 p2 c1 c2 q H1 H2. singleton H1. by singleton H2.
  - intros p c H1. singleton H1. split; [done|]. exists demo_entry.
    split; [done|]. split; [done|]. done.
Qed.

Lemma demo_opened {X} faulty rcs (x : X) : opened (demo faulty demo_pool rcs x).
Proof. intros p c q H1. by singleton H1. Qed.

Lemma demo_idle {X} faulty rcs (x : X) p :
  p ∈ [2] → idle_ctx (demo faulty demo_pool rcs x) p.
Proof. intros ->%list_elem_of_singleton. by eexists. Qed.

(** ** A worker's whole run *)

(** (C1) [work_fn] of [arbitration.cc] terminates on every device that behaves as
    NVMe promises: with enough fuel it never spins and never touches memory it does not
    own.  When it returns 0, no command of any of its contexts is still outstanding;
    when it returns 1 it has submitted nothing; the only other end is [exit(1)]. *)
Theorem work_fn_drains {W} `{!Spdk W Z} `{!SpdkView W Z} `{!SpdkLaws W Z}
    pool (s : prog W ()) w wt :
  inv pool in_namespace s → opened s → workers s !! w = Some wt →
  NoDup (w_ns_ctx wt) → (∀ p, p ∈ w_ns_ctx wt → idle_ctx s p) →
  ∃ n, ∀ fuel, (n ≤ fuel)%nat → wp (work_fn v_arbitration fuel w)
    (λ rc s', inv pool in_namespace s' ∧ lost pool s ⊆ lost pool s' ∧
       (rc = 0 ∧ (∀ p, p ∈ w_ns_ctx wt → drained s' p) ∨
        rc = 1 ∧ inflight (view (env s')) = inflight (view (env s)))) (λ code _, code = 1) s.
Proof.
  intros Hi Hop Hw Hnd Hidle. apply twp_elim.
  pose proof (trivial_extra (W := W) v_arbitration ltac:(done) eq_refl) as Hx.
  eapply twp_weaken; [eapply (work_fn_spec pool _ _ _ v_arbitration_ok Hx); eauto;
    by intros ? ?|].
  intros rc s' (?&_&?&?). naive_solver.
Qed.

Lemma work_fn_drains_witness : ∃ n, ∀ fuel, (n ≤ fuel)%nat →
  wp (work_fn v_arbitration fuel 3)
    (λ rc s', inv demo_pool in_namespace s' ∧
       lost demo_pool (demo false demo_pool [] ()) ⊆ lost demo_pool s' ∧
       (rc = 0 ∧ (∀ p, p ∈ [2] → drained s' p) ∨
        rc = 1 ∧ inflight (view (env s')) =
          inflight (view (env (demo false demo_pool [] ()))))) (λ code _, code = 1)
    (demo false demo_pool [] ()).
Proof.
  apply (work_fn_drains demo_pool (demo false demo_pool [] ()) 3 (WorkerThread [2] 0 0)).
  - apply demo_inv.
  - apply demo_opened.
  - reflexivity.
  - simpl. apply NoDup_singleton.
  - apply demo_idle.
Defined.

(** ** Workers side by side *)

(** (C2) However the calls of the workers that [main] of [arbitration.cc] launches interleave
    (some may still create their queue pairs while others release theirs), every command
    that the device holds belongs to one task that is not free, is on the buffer of that
    task, stays inside its namespace, and is counted in the queue depth of its context. *)
Theorem workers_safe {W} `{!Spdk W Z} `{!SpdkView W Z} `{!SpdkLaws W Z}
    pool (s s' : prog W ()) ws' t q k :
  launchable pool in_namespace (λ _ _, True) s →
  rtc (step v_arbitration) (s, launched s) (s', ws') →
  inflight (view (env s')) !! t = Some (q, k) → ∃ tk c e,
    tasks s' !! t = Some tk ∧ buf tk = cmd_buf k ∧ buf tk ∈ held (view (env s')) ∧
    (t ∉ avail (view (env s'))) ∧
    ctxs s' !! ns_ctx tk = Some c ∧ qpair c = Some q ∧
    current_queue_depth c = Z.of_nat (depth q (inflight (view (env s')))) ∧
    entries s' !! entry c = Some e ∧ in_namespace e k.
Proof.
  intros Hs Hsteps Hk. pose proof (trivial_extra (W := W) v_arbitration ltac:(done) eq_refl) as Hx.
  destruct (steps_preserve _ _ _ _ v_arbitration_ok Hx _ _ _ Hsteps (launched_inv _ _ _ _ Hs))
    as (D&_&Hs'). apply sys_engine in Hs'. simpl in Hs'.
  destruct (inv_cmd _ _ _ Hs' _ _ _ Hk) as (tk&c&e&?&Hc&?&Hb&?&?&?).
  exists tk, c, e. rewrite Hb. split_and!; try done.
  - intros Ha. pose proof (inv_disj _ _ _ Hs' _ Ha) as Hn. simpl in Hn. congruence.
  - by apply (without_Some _ _ _ _ Hc).
  - by eapply (inv_depth _ _ _ Hs').
Qed.

Lemma demo_launchable {X} faulty rcs (x : X) safe :
  launchable demo_pool safe (λ _ _, True) (demo faulty demo_pool rcs x).
Proof.
  split; try done.
  - apply demo_inv.
  - intros p c Hc. by singleton Hc.
  - intros w ->%list_elem_of_singleton. exists (WorkerThread [2] 0 0).
    split_and!; [done|apply NoDup_singleton|apply demo_idle].
  - apply NoDup_singleton.
  - intros w1 w2 wt1 wt2 p H1 H2. singleton H1. by singleton H2.
Qed.

(** The queue pair is created, the clock is read, one command is submitted. *)
Definition demo_opened1 : prog (sim false Z) () :=
  match init_ns_worker_ctx v_arbitration 2 0 (demo false demo_pool [] ()) with
  | Done _ s => s | _ => demo false demo_pool [] () end.
Definition demo_ticked : prog (sim false Z) () :=
  set_env (get_ticks (env demo_opened1)).2 demo_opened1.
Definition demo_busy : prog (sim false Z) () :=
  match submit_single_io v_arbitration 2 demo_ticked with
  | Done _ s => s | _ => demo_ticked end.

Lemma demo_busy_reached : rtc (step v_arbitration)
  (demo false demo_pool [] (), launched (demo false demo_pool [] ()))
  (demo_busy, [WorkerState [2] 0 (Submitting 0 [2])]).
Proof.
  eapply rtc_l.
  { apply (step_init v_arbitration 0 [2] 0 2 [] _ demo_opened1); vm_compute; reflexivity. }
  eapply rtc_l.
  { by apply (step_start v_arbitration 0 [2] 0 0 (get_ticks (env demo_opened1)).2). }
  apply rtc_once. apply (step_submit v_arbitration 0 [2] 0 0 2 [2] _ demo_busy
    [WorkerState [2] 0 (Submitting 0 [2; 2])]); vm_compute; reflexivity.
Qed.

Lemma workers_safe_witness : ∃ t q k tk c e,
  inflight (view (env demo_busy)) !! t = Some (q, k) ∧
  tasks demo_busy !! t = Some tk ∧ buf tk = cmd_buf k ∧
  buf tk ∈ held (view (env demo_busy)) ∧ (t ∉ avail (view (env demo_busy))) ∧
  ctxs demo_busy !! ns_ctx tk = Some c ∧ qpair c = Some q ∧
  current_queue_depth c = Z.of_nat (depth q (inflight (view (env demo_busy)))) ∧
  entries demo_busy !! entry c = Some e ∧ in_namespace e k.
Proof.
  exists 51, 0, (cmd_read 200 0 0 8).
  destruct (workers_safe demo_pool (demo false demo_pool [] ()) demo_busy
    [WorkerState [2] 0 (Submitting 0 [2])] 51 0 (cmd_read 200 0 0 8))
    as (tk&c&e&H1); [apply demo_launchable|apply demo_busy_reached|vm_compute; reflexivity|].
  exists tk, c, e. split; [vm_compute; reflexivity|exact H1].
Defined.

(** The state after the first submission on an open queue pair. *)
Definition demo_step1 : prog (sim false Z) () :=
  match submit_single_io v_arbitration 2 (demo_live false demo_pool [] ()) with
  | Done _ s => s | _ => demo_live false demo_pool [] () end.

Lemma demo_step1_inv : inv demo_pool in_namespace demo_step1.
Proof.
  pose proof (trivial_extra (W := sim false Z) v_arbitration ltac:(done) eq_refl) as Hx.
  pose proof (submit_single_io_spec demo_pool _ _ _ v_arbitration_ok Hx 2 _ 7
    (demo_live false demo_pool [] ()) (demo_live_inv _ _ _ _) eq_refl eq_refl) as H1.
  unfold wp, demo_step1 in *. destruct (submit_single_io _ _ _); try done.
  - apply H1.
  - apply demo_live_inv.
Qed.

(** ** Single operations *)

(** (C5) [submit_single_io] does one of three things: it ends the process with 1, it adds
    one command in flight and one to the queue depth, or (the driver refused the command)
    it leaves the depth alone and loses one task of the pool for good. *)
Theorem submit_single_io_cases {W} `{!Spdk W Z} `{!SpdkView W Z} `{!SpdkLaws W Z}
    pool (s : prog W ()) p c q :
  inv pool in_namespace s → ctxs s !! p = Some c → qpair c = Some q →
  wp (submit_single_io v_arbitration p) (λ _ s', inv pool in_namespace s' ∧ ∃ c',
       ctxs s' !! p = Some c' ∧ io_completed c' = io_completed c ∧
       ((current_queue_depth c' = current_queue_depth c + 1 ∧ lost pool s' = lost pool s) ∨
        (current_queue_depth c' = current_queue_depth c ∧ ∃ t,
           t ∈ avail (view (env s)) ∧ lost pool s' = {[t]} ∪ lost pool s)))
    (λ code _, code = 1) s.
Proof.
  intros Hi Hc Hq. pose proof (trivial_extra (W := W) v_arbitration ltac:(done) eq_refl) as Hx.
  eapply wp_weaken; [by eapply (submit_single_io_spec pool _ _ _ v_arbitration_ok Hx)|].
  intros [] s' [Hi' Hf Hcs _ _]. split; [done|].
  destruct (fr_ctx _ _ Hf _ _ Hc) as (c'&Hc'&_). exists c'. split; [done|]. auto.
Qed.

Lemma submit_single_io_cases_witness : ∃ s', submit_single_io v_arbitration 2
    (demo_live false demo_pool [] ()) = Done tt s' ∧ inv demo_pool in_namespace s'.
Proof.
  pose proof (submit_single_io_cases demo_pool (demo_live false demo_pool [] ()) 2
    (NsWorkerCtx 1 0 0 0 false (Some 7) ()) 7 (demo_live_inv _ _ _ _) eq_refl eq_refl) as H1.
  unfold wp in H1. revert H1.
  destruct (submit_single_io _ _ _) as [[] s'| | |] eqn:E; intros H1.
  - exists s'. split; [reflexivity|exact (proj1 H1)].
  - vm_compute in E. discriminate.
  - destruct H1.
  - destruct H1.
Defined.

(** The driver refuses the first command: [submit_single_io] returns normally, and the
    task and its buffer stay allocated although nothing is in flight. *)
Theorem failed_submission_leaks :
  match submit_single_io v_arbitration 2 (demo_live true demo_pool [-12] ()) with
  | Done _ s => size (inflight (view (env s))) = 0%nat ∧ pool_count (env s) = 2 ∧
      size (held (view (env s))) = 1%nat ∧
      current_queue_depth <$> ctxs s !! 2 = Some 0
  | _ => False
  end.
Proof. vm_compute. split_and!; reflexivity. Qed.

(** [drain_io] terminates on every device that makes progress: it submits nothing,
    never exits, loses no task, and ends with no command of the context outstanding. *)
Theorem drain_io_terminates {W} `{!Spdk W Z} `{!SpdkView W Z} `{!SpdkLaws W Z}
    pool (s : prog W ()) p c q :
  inv pool in_namespace s → ctxs s !! p = Some c → qpair c = Some q →
  ∃ n, ∀ fuel, (n ≤ fuel)%nat → wp (drain_io v_arbitration fuel p)
    (λ _ s', inv pool in_namespace s' ∧ drained s' p ∧ lost pool s' = lost pool s ∧
       inflight (view (env s')) ⊆ inflight (view (env s))) (λ _ _, False) s.
Proof.
  intros Hi Hc Hq. pose proof (trivial_extra (W := W) v_arbitration ltac:(done) eq_refl) as Hx.
  apply twp_elim. eapply twp_weaken;
    [by eapply (drain_io_spec pool _ _ _ v_arbitration_ok Hx)|].
  intros [] s' (Hs'&Hl&Hsub&Hd).
  destruct (evolves_ctx _ _ _ _ _ _ _ _ Hs' Hc Hq) as (c'&?&?&_).
  split_and!; [apply Hs'| |done|done]. by eapply drained_at; [apply Hs'|..].
Qed.

Lemma drain_io_terminates_witness : ∃ n, ∀ fuel, (n ≤ fuel)%nat →
  wp (drain_io v_arbitration fuel 2)
    (λ _ s', inv demo_pool in_namespace s' ∧ drained s' 2 ∧
       lost demo_pool s' = lost demo_pool demo_step1 ∧
       inflight (view (env s')) ⊆ inflight (view (env demo_step1)))
    (λ _ _, False) demo_step1.
Proof.
  apply (drain_io_terminates demo_pool demo_step1 2
    (NsWorkerCtx 1 0 1 1 false (Some 7) ()) 7 demo_step1_inv); vm_compute; reflexivity.
Defined.

(** (C6) A completion increments [io_completed] and takes its command out of flight.  While
    the context is not draining it is replaced by exactly one submission: one new command on
    the same queue pair, with the depth as before and no task lost, or, when the driver
    refuses it, none, with the depth one lower and its task lost.  While the context drains
    nothing is submitted, the depth drops and the task returns to the pool. *)
Theorem io_complete_refills {W} `{!Spdk W Z} `{!SpdkView W Z} `{!SpdkLaws W Z}
    pool (s : prog W ()) q t r w' tk c :
  inv pool in_namespace s → poll_next q (env s) = (Some (t, r), w') →
  tasks s !! t = Some tk → ctxs s !! ns_ctx tk = Some c →
  let left := delete t (inflight (view (env s))) in
  wp (io_complete v_arbitration t r) (λ _ s', inv pool in_namespace s' ∧ ∃ c',
       ctxs s' !! ns_ctx tk = Some c' ∧ io_completed c' = u64 (io_completed c + 1) ∧
       if is_draining c then
         current_queue_depth c' = current_queue_depth c - 1 ∧
         inflight (view (env s')) = left ∧ lost pool s' = lost pool s
       else
         (current_queue_depth c' = current_queue_depth c ∧ lost pool s' = lost pool s ∧
          ∃ t' q' k, qpair c = Some q' ∧ left !! t' = None ∧
            inflight (view (env s')) = <[t' := (q', k)]> left) ∨
         (current_queue_depth c' = current_queue_depth c - 1 ∧
          inflight (view (env s')) = left ∧
          ∃ t', (t' ∉ lost pool s) ∧ lost pool s' = {[t']} ∪ lost pool s))
    (λ code _, code = 1 ∧ is_draining c = false) (set_env w' s).
Proof.
  intros Hi Hp Htk Hc. pose proof (trivial_extra (W := W) v_arbitration ltac:(done) eq_refl) as Hx.
  eapply wp_mono; [by eapply (io_complete_spec pool _ _ _ v_arbitration_ok Hx)| |].
  - intros [] s' Hs'. split; [apply Hs'|].
    destruct (fr_ctx _ _ (com_frame _ _ _ _ _ _ _ Hs') _ _ Hc) as (c'&Hc'&_).
    destruct (com_ctx _ _ _ _ _ _ _ Hs' _ _ _ Htk Hc Hc') as [? Hd].
    exists c'. split_and!; [done..|]. destruct (is_draining c) eqn:Hdr.
    + destruct (com_drain _ _ _ _ _ _ _ Hs' _ _ Htk Hc Hdr) as (?&?&_).
      by split_and!; [apply Hd|..].
    + by apply (com_refill _ _ _ _ _ _ _ Hs' _ _ _ Htk Hc Hc').
  - intros code s' [-> Hd]. split; [done|]. by eapply Hd.
Qed.

Definition demo_polled : sim false Z := (poll_next 7 (env demo_step1)).2.
Definition demo_step2 : prog (sim false Z) () := set_env demo_polled demo_step1.

Lemma demo_step2_inv : inv demo_pool in_namespace demo_step2.
Proof. apply inv_quiet; [apply demo_step1_inv|vm_compute; reflexivity]. Qed.

Lemma io_complete_refills_witness : ∃ s', io_complete v_arbitration 51 (Cpl 0 false)
    (set_env (poll_next 7 (env demo_step2)).2 demo_step2) = Done tt s' ∧
    inv demo_pool in_namespace s'.
Proof.
  pose proof (io_complete_refills demo_pool demo_step2 7 51 (Cpl 0 false)
    (poll_next 7 (env demo_step2)).2 (ArbTask 2 0) (NsWorkerCtx 1 0 1 1 false (Some 7) ())
    demo_step2_inv) as H1.
  unfold wp in H1. revert H1.
  destruct (io_complete _ _ _ _) as [[] s'| | |] eqn:E; intros H1.
  - exists s'. split; [reflexivity|]. apply H1; vm_compute; reflexivity.
  - vm_compute in E. discriminate.
  - destruct H1; vm_compute; reflexivity.
  - destruct H1; vm_compute; reflexivity.
Defined.

(** ** Latency statistics *)



(** One refused submission is enough for the report of [arbitration_read.cc] to read
    past the end of [etimes]: the run is undefined, where the same run without the failure
    returns 0. *)
Theorem latency_report_out_of_bounds :
  work_fn_read 20 3 (demo true demo_pool [-12; 0] no_stamps) = Undef ∧
  match work_fn_read 20 3 (demo true demo_pool [0; 0] no_stamps) with
  | Done rc _ => rc = 0 | _ => False end.
Proof. split; vm_compute; reflexivity. Qed.

(** ** The submission that counts first *)
Section one_append.
Context {W : Type} `{!Spdk W Z}.
Implicit Types (s : prog W Z) (c : ns_worker_ctx Z).

(** Choosing the offset does not look at the counter. *)
Lemma next_offset_extra p x c s : ctxs s !! p = Some c →
  match next_offset p s with
  | Done off s' => ∃ w o, s' = set_ctxs <[p := set_offset o c]> (set_env w s) ∧
      next_offset p (set_ctxs <[p := set_extra x c]> s) =
        Done off (set_ctxs <[p := set_extra x (set_offset o c)]> (set_env w s))
  | Undef => next_offset p (set_ctxs <[p := set_extra x c]> s) = Undef
  | _ => False
  end.
Proof.
  intros Hc. unfold next_offset, call, ctx_at, entry_at, mbind, M_bind. simpl.
  rewrite lookup_insert_eq, Hc. simpl.
  destruct (entries s !! entry c) as [e|] eqn:He; simpl; [|done]. case_decide.
  - destruct (rand_r (env s)) as [r w] eqn:Hr. simpl. rewrite Hr. unfold undef.
    case_decide; [done|]. exists w, (offset_in_ios c).
    destruct c. unfold set_ctxs, set_env. simpl. split; [|done]. f_equal. by rewrite insert_id.
  - rewrite (ctx_upd_some _ _ _ _ Hc).
    erewrite (ctx_upd_some p) by (simpl; apply lookup_insert_eq).
    exists (env s). eexists. unfold set_ctxs, set_env. simpl.
    split; [reflexivity|]. by rewrite insert_insert_eq.
Qed.

(** Counting before the submission is counting after it. *)
Lemma send_counts p t b off c s : ctxs s !! p = Some c →
  send (Variant (λ _, 0) None (append_cmd 0) (λ n, n) None Some true) p t b off
    (set_ctxs <[p := set_extra (u64 (extra c + 1)) c]> s) =
  send v_mp_one_drive_append p t b off s.
Proof.
  intros Hc. unfold send, call, ctx_at, entry_at, mbind, M_bind. simpl.
  rewrite !lookup_insert_eq, Hc. simpl.
  destruct (entries s !! entry c) as [e|] eqn:He; simpl; [|done].
  destruct (qpair c) as [q|]; simpl; [|done].
  destruct (submit _ _ _ _) as [rc w]. simpl.
  erewrite (ctx_upd_some p) by (simpl; apply lookup_insert_eq).
  rewrite (ctx_upd_some p _ _ c) by done.
  unfold set_ctxs, set_env. simpl. by rewrite !insert_insert_eq.
Qed.

Lemma one_append_eq p s :
  submit_single_io_one_append p s = submit_single_io v_mp_one_drive_append p s.
Proof.
  unfold submit_single_io_one_append, submit_single_io, stamp, call, effect, modify, get, undef,
    mbind, M_bind. simpl.
  destruct (pool_get (env s)) as [[t|] w]; simpl; [|done].
  destruct (dma_zmalloc _ w) as [[b|] w2]; simpl; [|done].
  set (s1 := set_tasks _ _). destruct (ctxs s !! p) as [c|] eqn:Hc; last first.
  { rewrite ctx_upd_none by done. unfold next_offset, ctx_at, mbind, M_bind. simpl.
    by rewrite Hc. }
  rewrite (ctx_upd_some _ _ s1 c) by done.
  pose proof (next_offset_extra p (u64 (extra c + 1)) c s1 Hc) as Ho.
  destruct (next_offset p s1) as [off s2| | |]; [|done|by rewrite Ho|done].
  destruct Ho as (w3&o&->&->). simpl.
  rewrite <-(send_counts p t b off (set_offset o c)) by (simpl; apply lookup_insert_eq).
  unfold set_ctxs. simpl. by rewrite insert_insert_eq.
Qed.
End one_append.

(** (C10) [mp_one_drive_append.cc] counts the submission and writes the buffer before it tests
    it.  Apart from that order its [submit_single_io] is the engine's: on every state, the
    failure of each allocation included, it is the same function as the engine with the
    variant of this program. *)
Theorem one_append_equivalent {W} `{!Spdk W Z} (s : prog W Z) p :
  submit_single_io_one_append p s = submit_single_io v_mp_one_drive_append p s.
Proof. apply one_append_eq. Qed.

(** [mp_one_drive_append.cc] fills the buffer before it tests it: when the DMA
    allocation fails, the test that would exit with 1 is never reached. *)
Theorem append_fills_null_buffer {W} `{!Spdk W Z} `{!SpdkView W Z} `{!SpdkLaws W Z}
    (s : prog W Z) p t w w' :
  pool_get (env s) = (Some t, w) →
  dma_zmalloc (io_size_bytes (g_arbitration s)) w = (None, w') →
  submit_single_io_one_append p s = Undef ∧
  submit_single_io v_mp_one_drive_read p s = Exited 1 (set_env (pool_put t w') s).
Proof.
  intros Hg Hz. unfold submit_single_io_one_append, submit_single_io, call, effect, modify,
    get, exit, undef, mbind, M_bind, mret, M_ret; simpl. rewrite Hg. simpl. by rewrite Hz.
Qed.

Definition demo_huge : prog (sim false Z) Z :=
  set_g_arbitration (λ _, ArbContext (-1) 0 1 1 50 0 2 0 100000 0 0 0 (2 ^ 31) 0 1
    "0x1" "rw") (demo_live false demo_pool [] 0).

Lemma append_fills_null_buffer_witness :
  submit_single_io_one_append 2 demo_huge = Undef ∧
  submit_single_io v_mp_one_drive_read 2 demo_huge =
    Exited 1 (set_env (pool_put 51 (pool_get (env demo_huge)).2) demo_huge).
Proof.
  apply (append_fills_null_buffer demo_huge 2 51 (pool_get (env demo_huge)).2);
    vm_compute; reflexivity.
Defined.

(** ** Where the commands go *)

(** [arbitration_write.cc] adds the write pointer of its zone to an offset that runs
    over the whole namespace: as soon as the write pointer is not 0, the write at the last
    offset leaves the namespace, while the read of [arbitration.cc] at that offset does not. *)
Theorem write_leaves_namespace (c : ns_worker_ctx Z) (c' : ns_worker_ctx ()) e b :
  wf_entry e → 0 < extra c → extra c + size_in_ios e * io_size_blocks e < 2 ^ 64 →
  ¬ in_namespace e (v_cmd v_arbitration_write c e b (size_in_ios e - 1)) ∧
  in_namespace e (v_cmd v_arbitration c' e b (size_in_ios e - 1)).
Proof.
  intros [??] ??. split.
  - intros (_&_&_&Hend). simpl in Hend. rewrite u64_small in Hend; nia.
  - by apply v_arbitration_ok; [|lia].
Qed.

Lemma write_leaves_namespace_witness :
  ¬ in_namespace demo_entry (cmd_write 200 0 32 8) ∧
  in_namespace demo_entry (cmd_read 200 0 24 8).
Proof.
  apply (write_leaves_namespace (NsWorkerCtx 1 0 0 0 false None 8)
    (NsWorkerCtx 1 0 0 0 false None ()) demo_entry 0);
    [split; [split; reflexivity|reflexivity]|reflexivity|reflexivity].
Defined.
