(* ===== verification/ZoneReportProps.v ===== *)
(** * Properties of the write benchmark

    What the worker of [arbitration_write.cc] does on a device with zones. *)
From S2P Require Import Prelude Spdk Arb Engine EngineInv EngineSpec Variants ZoneReport.
From S2P Require Import EngineProps.

(** (C8) The worker of [arbitration_write.cc] ends on every device that answers the zone
    report: it returns 0 with nothing in flight on its queue pairs or 1 because a queue
    pair was refused, or the process exits with 1 because the pool is empty; every command
    on the way is a write of one I/O relative to a write pointer, on a live buffer, and
    the tasks that were lost are still lost. *)
Theorem write_worker_ends {W} `{!Spdk W Z} `{!SpdkView W Z} `{!SpdkLaws W Z}
    `{!SpdkZones W} `{!SpdkZonesView W} `{!SpdkZonesLaws W Z}
    (pool : gset Z) (s : prog W Z) w wt :
  reports (W := W) → callocs (W := W) → inv pool write_from_wp s → opened s →
  workers s !! w = Some wt → NoDup (w_ns_ctx wt) →
  (∀ p, p ∈ w_ns_ctx wt → idle_ctx s p) →
  ∃ n, ∀ fuel, (n ≤ fuel)%nat → wp (work_fn_write fuel w)
    (λ rc s', inv pool write_from_wp s' ∧ lost pool s ⊆ lost pool s' ∧
       (rc = 0 ∧ (∀ p, p ∈ w_ns_ctx wt → drained s' p) ∨ rc = 1))
    (λ code _, code = 1) s.
Proof. intros. apply twp_elim. by apply work_fn_write_spec. Qed.

(** Setting up a context of [arbitration_write.cc] ends, and the context then has its
    own queue pair, nothing outstanding, and the write pointer that the device reports for
    the seventh zone of the namespace at that moment; a refused queue pair changes
    nothing and returns 1. *)
Theorem init_keeps_wp {W} `{!Spdk W Z} `{!SpdkView W Z} `{!SpdkLaws W Z}
    `{!SpdkZones W} `{!SpdkZonesView W} `{!SpdkZonesLaws W Z}
    (pool : gset Z) (s : prog W Z) p prio :
  reports (W := W) → callocs (W := W) → inv pool write_from_wp s → opened s → idle_ctx s p →
  ∃ n, ∀ fuel, (n ≤ fuel)%nat → wp (init_ns_worker_ctx_write fuel p prio)
    (λ rc s', inv pool write_from_wp s' ∧ (∀ p', p' ≠ p → ctxs s' !! p' = ctxs s !! p') ∧
       (rc = 0 ∧ started_ctx s' p ∧ knows_wp s s' p ∨ rc = 1 ∧ idle_ctx s' p))
    (λ _ _, False) s.
Proof.
  intros. apply twp_elim. eapply twp_weaken; [by apply (init_write_spec pool)|].
  intros rc s' (Hs&?&?). split; [apply Hs|done].
Qed.

(** The result of the request for the report is dropped: when the driver refuses it,
    the callback never runs and the worker polls for ever, whatever the fuel. *)
Theorem refused_report_hangs {W} `{!Spdk W Z} `{!SpdkView W Z} `{!SpdkLaws W Z}
    `{!SpdkZones W} `{!SpdkZonesView W} `{!SpdkZonesLaws W Z} (s : prog W Z) p prio c e q
    (w1 w2 w3 : W) rc fuel :
  ctxs s !! p = Some c → entries s !! entry c = Some e →
  alloc_io_qpair (e_ctrlr e) prio (env s) = (Some q, w1) → malloc_ok w1 = (true, w2) →
  report_zones (e_ns e) q (Some (next_ptr s)) report_bytes w2 = (rc, w3) → rc ≠ 0 →
  init_ns_worker_ctx_write fuel p prio s = Spin.
Proof.
  intros Hc He Ha Hm Hz Hrc. unfold init_ns_worker_ctx_write, ctx_at, entry_at.
  unfold mbind, M_bind. simpl. rewrite Hc. simpl. rewrite He. simpl. unfold call at 1.
  rewrite Ha. pose proof (alloc_io_qpair_report _ _ _ _ _ Ha) as Hn.
  rewrite (ctx_upd_some _ _ _ c) by done.
  unfold malloc, mbind, M_bind, call at 1. simpl. rewrite Hm. simpl.
  unfold call at 1. simpl. rewrite Hz.
  destruct (report_zones_failed _ _ _ _ _ _ _ Hz Hrc) as [Hp _].
  rewrite await_hangs; [done|]. simpl. by rewrite Hp, (calloc_report _ _ _ q Hm).
Qed.

(** ** Witnesses on the simulated device *)

(** The device refuses the first request for a report. *)
Definition refusing : prog (sim true Z) Z :=
  set_env (sim_upd_adm (λ a, SimAdmin (a_pending a) [-12] (a_cores a) (a_ns a) None)
    (env (demo true demo_pool [] 0))) (demo true demo_pool [] 0).

Lemma refused_report_hangs_witness : init_ns_worker_ctx_write 50 2 0 refusing = Spin.
Proof.
  by eapply (refused_report_hangs refusing); vm_compute.
Defined.

Lemma sim_reports : reports (W := sim false Z).
Proof. intros ns q b n w w' rc. simpl. unfold sim_report_zones. by intros [= <- _]. Qed.
Lemma sim_callocs faulty : callocs (W := sim faulty Z).
Proof. by intros w w' b [= <- _]. Qed.

Lemma write_worker_ends_witness : ∃ n, ∀ fuel, (n ≤ fuel)%nat →
  wp (work_fn_write fuel 3)
    (λ rc s', rc = 0 ∧ (∀ p, p ∈ [2] → drained s' p) ∨ rc = 1) (λ code _, code = 1)
    (demo false demo_pool [] 0).
Proof.
  destruct (write_worker_ends demo_pool (demo false demo_pool [] 0) 3 (WorkerThread [2] 0 0)
    sim_reports (sim_callocs _) (demo_inv _ _ _ _) (demo_opened _ _ _) eq_refl
    (NoDup_singleton _) (demo_idle _ _ _)) as [n Hn].
  exists n. intros fuel Hf. eapply wp_weaken; [apply (Hn fuel Hf)|]. by intros rc s' (_&_&?).
Defined.

Lemma init_keeps_wp_witness : ∃ n, ∀ fuel, (n ≤ fuel)%nat →
  wp (init_ns_worker_ctx_write fuel 2 0)
    (λ rc s', rc = 0 ∧ knows_wp (demo false demo_pool [] 0) s' 2 ∨ rc = 1)
    (λ _ _, False) (demo false demo_pool [] 0).
Proof.
  destruct (init_keeps_wp demo_pool (demo false demo_pool [] 0) 2 0
    sim_reports (sim_callocs _) (demo_inv _ _ _ _) (demo_opened _ _ _)
    (demo_idle _ _ _ _ (list_elem_of_here _ _))) as [n Hn].
  exists n. intros fuel Hf. eapply wp_weaken; [apply (Hn fuel Hf)|].
  intros rc s' (_&_&[(?&_&?)|[? _]]); auto.
Defined.

(** Zone 6 of the simulated device has its write pointer 96 blocks into the zone. *)
Example demo_wp : match init_ns_worker_ctx_write 5 2 0 (demo false demo_pool [] 0) with
  | Done 0 s => extra <$> ctxs s !! 2 = Some (0x80000 * 6 + 96) | _ => False end.
Proof. vm_compute. reflexivity. Qed.
