(* ===== verification/RegistrySpec.v ===== *)
(** * Specifications of the set-up

    What the functions of [Registry] establish: the admin loops terminate when
    the controller answers, namespaces are registered with sizes that keep
    every I/O inside of them, and the association hands every worker contexts
    on which [Engine.work_fn] may start. *)
From S2P Require Import Prelude Spdk Arb Engine EngineInv EngineSpec Variants Registry.

(** ** Admin commands *)
Section admin.
Context {W X : Type} `{!Spdk W Z} `{!SpdkView W Z} `{!SpdkAdmin W} `{!SpdkAdminView W}.
Context `{!SpdkAdminLaws W Z}.
Implicit Types (s : prog W X).

(** Everything but the environment, the feature and the number of outstanding
    admin commands is as before, and so are the view of the I/O side and the admin
    queues of the controllers other than [c]. *)
Definition admin_only (c : Z) s s' : Prop := ∃ w f o,
  s' = set_g_arbitration (set_outstanding o) (set_features (λ _, f) (set_env w s)) ∧
  view w = view (env s) ∧ ∀ c', c' ≠ c → admin_pending c' w = admin_pending c' (env s).

Lemma admin_only_refl c s : admin_only c s s.
Proof.
  exists (env s), (arb_feature s), (outstanding_commands (g_arbitration s)).
  destruct s as [? ? ? ? ? ? ? ? ? ? g]. by destruct g.
Qed.

Lemma admin_only_trans c s1 s2 s3 :
  admin_only c s1 s2 → admin_only c s2 s3 → admin_only c s1 s3.
Proof.
  intros (w&f&o&->&Hw&Hp) (w'&f'&o'&->&Hw'&Hp'). exists w', f', o'. simpl in *.
  split_and!; [done|congruence|]. intros c' Hc. by rewrite Hp', Hp.
Qed.

(** The counter agrees with what the controller still has to answer. *)
Definition waiting (c : Z) s : Prop :=
  outstanding_commands (g_arbitration s) = Z.of_nat (length (admin_pending c (env s))).

Lemma admin_callback_spec k r E s :
  wp (admin_callback k r) (λ _ s', ∃ f,
    s' = set_g_arbitration (set_outstanding (outstanding_commands (g_arbitration s) - 1))
           (set_features (λ _, f) s)) E s.
Proof.
  destruct s as [? ? ? ? ? ? ? ? ? ft g ?].
  destruct k; simpl; unfold enable_latency_tracking_complete, get_feature_completion,
    set_feature_completion, decrement_outstanding, g_upd.
  - apply wp_modify. by exists ft.
  - apply wp_bind. destruct (is_error r); [apply wp_skip|apply wp_modify];
      apply wp_modify; by eexists.
  - apply wp_modify. by exists ft.
  - apply wp_bind. destruct (is_error r); [apply wp_modify|apply wp_skip];
      apply wp_modify; by eexists.
Qed.

Lemma admin_callbacks_spec c (l : list (admin_cmd * cpl)) E s :
  wp (foreach l (λ kc, admin_callback kc.1 kc.2)) (λ _ s', admin_only c s s' ∧
    env s' = env s ∧
    outstanding_commands (g_arbitration s') =
      outstanding_commands (g_arbitration s) - Z.of_nat (length l)) E s.
Proof.
  eapply wp_weaken; [apply (wp_foreach _ (λ pre s', admin_only c s s' ∧ env s' = env s ∧
    outstanding_commands (g_arbitration s') =
      outstanding_commands (g_arbitration s) - Z.of_nat (length pre)))|].
  - intros pre kc rest s' _ (Ha&He&Ho). eapply wp_weaken; [apply admin_callback_spec|].
    intros [] s'' (f&->). split_and!; [|done|].
    + eapply admin_only_trans; [done|]. exists (env s'), f. eexists. by rewrite set_env_id.
    + simpl. rewrite Ho, length_app. simpl. lia.
  - split_and!; [apply admin_only_refl|done|simpl; lia].
  - done.
Qed.

Lemma admin_process_spec c E s : waiting c s →
  wp (process_admin_completions c) (λ _ s', admin_only c s s' ∧ waiting c s' ∧
    (admin_pending c (env s) ≠ [] → (admin_lag c (env s') < admin_lag c (env s))%nat)) E s.
Proof.
  intros Hw. unfold process_admin_completions. apply wp_bind, wp_call. intros l w' Hp.
  destruct (admin_poll_law _ _ _ _ Hp) as [Hperm Hv].
  eapply wp_weaken; [apply (admin_callbacks_spec c)|]. intros [] s' (Ha&He&Ho). simpl in *.
  split_and!.
  - eapply admin_only_trans; [|done].
    exists w', (arb_feature s), (outstanding_commands (g_arbitration s)).
    split_and!; [|done|intros; by eapply admin_poll_other].
    destruct s as [? ? ? ? ? ? ? ? ? ? g]. by destruct g.
  - unfold waiting in *. apply Permutation_length in Hperm.
    rewrite length_app, length_fmap in Hperm. rewrite He, Ho. lia.
  - intros Hne. rewrite He. by eapply admin_poll_progress.
Qed.

(** The loop that waits for the outstanding commands ends. *)
Lemma admin_wait_spec c s : waiting c s →
  twp (λ fuel, while fuel outstanding (process_admin_completions c)) (λ _ s',
    admin_only c s s' ∧ outstanding_commands (g_arbitration s') = 0 ∧
    admin_pending c (env s') = []) (λ _ _, False) s.
Proof.
  intros Hw. eapply twp_weaken; [apply (twp_while _ _ (λ s', admin_only c s s' ∧ waiting c s')
    (λ s', admin_lag c (env s')))|].
  - intros s' [Ha Hw'] Ho. eapply wp_weaken; [by apply admin_process_spec|].
    intros [] s'' (?&?&Hlt). split; [split; [by eapply admin_only_trans|done]|].
    apply Hlt. unfold outstanding in Ho. apply bool_decide_eq_true in Ho.
    intros Hn. apply Ho. rewrite Hw', Hn. done.
  - split; [apply admin_only_refl|done].
  - intros [] s' [[Ha Hw'] Ho]. unfold outstanding in Ho. apply bool_decide_eq_false in Ho.
    assert (outstanding_commands (g_arbitration s') = 0) as Hz by lia.
    split_and!; [done|done|]. apply length_zero_iff_nil. unfold waiting in Hw'. lia.
Qed.

(** The controller takes every admin command. *)
Definition accepts : Prop := ∀ c k (w w' : W) rc, admin_submit c k w = (rc, w') → rc = 0.

(** Nothing is outstanding. *)
Definition quiescent c s : Prop :=
  outstanding_commands (g_arbitration s) = 0 ∧ admin_pending c (env s) = [].

Lemma admin_send_spec c k s : quiescent c s →
  ∀ w', admin_submit c k (env s) = (0, w') →
  twp (λ fuel, while fuel outstanding (process_admin_completions c))
    (λ _ s', admin_only c s s' ∧ quiescent c s') (λ _ _, False)
    (set_g_arbitration (λ g, set_outstanding (outstanding_commands g + 1) g)
      (set_env w' s)).
Proof.
  intros [Ho Hp] w' Hs. destruct (admin_submit_ok _ _ _ _ Hs) as [Hp' Hv].
  eapply twp_weaken; [apply admin_wait_spec|].
  - unfold waiting. simpl. rewrite Hp', Hp, Ho. done.
  - intros [] s' (Ha&Ho'&Hp''). split; [|done]. eapply admin_only_trans; [|exact Ha].
    exists w', (arb_feature s). eexists. split; [by destruct s|].
    split; [done|]. intros. by eapply admin_submit_other.
Qed.

Lemma admin_only_feature c f s : admin_only c s (set_features f s).
Proof.
  exists (env s), (f (arb_feature s)), (outstanding_commands (g_arbitration s)).
  destruct s as [? ? ? ? ? ? ? ? ? ? g]. by destruct g.
Qed.

Lemma get_arb_feature_spec c s : accepts → quiescent c s →
  twp (λ fuel, get_arb_feature fuel c) (λ _ s', admin_only c s s' ∧ quiescent c s')
    (λ _ _, False) s.
Proof.
  intros Hacc Hq. unfold get_arb_feature, get_feature. apply twp_bind_wp.
  apply wp_bind, wp_modify, wp_call. intros rc w' Hs.
  pose proof (Hacc _ _ _ _ _ Hs) as ->.
  apply twp_bind_wp, wp_modify. eapply twp_weaken;
    [by eapply (admin_send_spec c _ (set_features (λ f, Feature (result f) false) s))|].
  intros [] s' [Ha ?]. split; [|done].
  eapply admin_only_trans; [apply admin_only_feature|exact Ha].
Qed.

Lemma set_latency_tracking_spec c b s : accepts → quiescent c s →
  twp (λ fuel, set_latency_tracking_feature fuel c b)
    (λ _ s', admin_only c s s' ∧ quiescent c s') (λ _ _, False) s.
Proof.
  intros Hacc Hq. unfold set_latency_tracking_feature. apply twp_bind_wp, wp_call.
  intros rc w' Hs. pose proof (Hacc _ _ _ _ _ Hs) as ->. destruct (decide (0 ≠ 0)) as [Hne|_]; [done|].
  apply twp_bind_wp, wp_modify. by eapply admin_send_spec.
Qed.

Lemma set_arb_feature_spec c s : accepts → quiescent c s →
  twp (λ fuel, set_arb_feature fuel c)
    (λ rc s', rc = 0 ∧ admin_only c s s' ∧ quiescent c s') (λ _ _, False) s.
Proof.
  intros Hacc [Ho Hp]. unfold set_arb_feature. apply twp_bind_wp, wp_modify.
  set (s0 := set_g_arbitration _ s).
  assert (admin_only c s s0) as H0.
  { exists (env s), (arb_feature s), 0. split; [by destruct s|done]. }
  apply twp_bind_wp, wp_get, twp_bind_wp, wp_call. intros rc w' Hs.
  pose proof (Hacc _ _ _ _ _ Hs) as ->. destruct (decide (0 ≠ 0)) as [Hne|_]; [done|].
  apply twp_bind_wp, wp_modify.
  apply (twp_bind (λ fuel, while fuel outstanding (process_admin_completions c))
    (λ _ _, mret 0)).
  eapply twp_weaken; [by eapply (admin_send_spec c _ s0)|].
  intros [] s' [??]. apply twp_wp, wp_ret. split_and!; [done| |done]. eapply admin_only_trans; [exact H0|done].
Qed.
(** When nothing is pending but something counts as outstanding, the loop never ends. *)
Lemma admin_wait_hangs c fuel s :
  outstanding_commands (g_arbitration s) ≠ 0 → admin_pending c (env s) = [] →
  while fuel outstanding (process_admin_completions c) s = Spin.
Proof.
  revert s. induction fuel as [|fuel IH]; intros s Ho Hp; simpl;
    unfold outstanding at 1; rewrite bool_decide_true by done; [done|].
  unfold process_admin_completions, call, mbind, M_bind. simpl.
  destruct (admin_poll c (env s)) as [l w'] eqn:E.
  destruct (admin_poll_law _ _ _ _ E) as [Hl _]. rewrite Hp in Hl.
  apply Permutation_nil_l in Hl. symmetry in Hl. apply app_nil in Hl as [Hl Hw']. apply fmap_nil_inv in Hl as ->.
  simpl. by apply IH.
Qed.
End admin.

(** ** The registry during the set-up *)
Section setup.
Context {W X : Type} `{!Spdk W Z} `{!SpdkView W Z} `{!SpdkLaws W Z}.
Context `{!SpdkAdmin W} `{!SpdkAdminView W} `{!SpdkAdminLaws W Z}.
Implicit Types (s : prog W X).

(** The I/Os of an entry cover no more than its namespace. *)
Definition good_entry (e : ns_entry) : Prop :=
  wf_entry e ∧
  size_in_ios e * io_size_blocks e * ns_get_sector_size (e_ns e) ≤ ns_get_size (e_ns e).

Record registry (v0 : spdk_view Z) s : Prop := {
  re_view : view (env s) = v0;
  re_fresh p : next_ptr s ≤ p →
    entries s !! p = None ∧ ctxs s !! p = None ∧ workers s !! p = None;
  re_ctrlr_fresh p : next_ptr s ≤ p → ctrlrs s !! p = None;
  re_ctrlr p : p ∈ g_controllers s → ∃ c, ctrlrs s !! p = Some c ∧
    admin_pending (c_ctrlr c) (env s) = [];
  re_ctrlr_nodup : NoDup (g_controllers s);
  re_ns p : p ∈ g_namespaces s → ∃ e, entries s !! p = Some e ∧ good_entry e;
  re_ns_nodup : NoDup (g_namespaces s);
  re_wk p : p ∈ g_workers s → is_Some (workers s !! p);
  re_wk_nodup : NoDup (g_workers s);
  re_wk_all p wt : workers s !! p = Some wt → w_ns_ctx wt = [] ∧ p ∈ g_workers s;
  re_num_ns : num_namespaces (g_arbitration s) = Z.of_nat (length (g_namespaces s));
  re_num_wk : num_workers (g_arbitration s) = Z.of_nat (length (g_workers s));
  re_ctx : ctxs s = ∅;
  re_io : 0 ≤ io_size_bytes (g_arbitration s) < 2 ^ 32;
}.

Lemma registry_admin v0 c s s' : registry v0 s → admin_only c s s' →
  admin_pending c (env s') = [] → registry v0 s'.
Proof.
  intros [] (w&f&o&->&Hv&Hp) Hc. split; simpl; try done; [by rewrite Hv|].
  intros p Hin. destruct (re_ctrlr0 p Hin) as (e&?&?). exists e. split; [done|].
  destruct (decide (c_ctrlr e = c)) as [->|]; [done|]. by rewrite Hp.
Qed.

(** No call that keeps empty admin queues empty disturbs the registry. *)
Lemma registry_env v0 s w' : registry v0 s → view w' = view (env s) →
  (∀ c, admin_pending c (env s) = [] → admin_pending c w' = []) →
  registry v0 (set_env w' s).
Proof.
  intros [] Hv Hp. split; simpl; try done; [by rewrite Hv|].
  intros p Hin. destruct (re_ctrlr0 p Hin) as (e&?&?). exists e. auto.
Qed.

(** [malloc] gives a pointer that no structure uses. *)
Lemma malloc_spec v0 s E : registry v0 s →
  wp malloc (λ p s', registry v0 s' ∧ g_arbitration s' = g_arbitration s ∧
    g_namespaces s' = g_namespaces s ∧ g_workers s' = g_workers s ∧
    workers s' = workers s ∧ entries s' = entries s ∧ ctxs s' = ctxs s ∧
    (∀ c, admin_pending c (env s') = admin_pending c (env s)) ∧
    match p with
    | None => ∃ w w' : W, malloc_ok w = (false, w')
    | Some p => p = next_ptr s ∧ next_ptr s' = p + 1 ∧ ctrlrs s' !! p = None
    end) E s.
Proof.
  intros Hr. unfold malloc. apply wp_bind, wp_call. intros ok w' Hm.
  pose proof (malloc_admin _ _ _ Hm) as Hpd. destruct (malloc_ok_law _ _ _ Hm) as [Hv _].
  assert (registry v0 (set_env w' s)) as Hr'
    by (apply registry_env; [done|done|intros c Hc; by rewrite Hpd]).
  destruct ok.
  - apply wp_bind, wp_gets, wp_bind, wp_modify, wp_ret. split.
    { destruct Hr'. split; simpl in *; try done; intros p Hp;
        [apply re_fresh0|apply re_ctrlr_fresh0]; lia. }
    simpl. split_and!; try done; [lia|]. by apply (re_ctrlr_fresh _ _ Hr).
  - apply wp_ret. split_and!; eauto.
Qed.

Lemma register_entry v0 s p e :
  registry v0 s → (∀ p', p ≤ p' → entries s !! p' = None ∧ ctxs s !! p' = None ∧
    workers s !! p' = None) → next_ptr s = p + 1 → good_entry e →
  registry v0 (set_g_namespaces (λ l, l ++ [p])
    (set_g_arbitration (λ g, set_num_namespaces (num_namespaces g + 1) g)
      (set_entries <[p := e]> s))).
Proof.
  intros Hr Hp Hn He. destruct (Hp p ltac:(lia)) as (Hpe&_&_).
  assert (p ∉ g_namespaces s) as Hnew.
  { intros Hin. destruct (re_ns _ _ Hr _ Hin) as (?&?&_). congruence. }
  destruct Hr. split; simpl; try done.
  - intros p' Hp'. rewrite lookup_insert_ne by lia. apply re_fresh0. lia.
  - intros p' [Hin|Hin]%elem_of_app.
    + rewrite lookup_insert_ne by (intros ->; done). by apply re_ns0.
    + apply list_elem_of_singleton in Hin as ->. exists e.
      by rewrite lookup_insert_eq.
  - apply NoDup_app. split_and!; [done| |apply NoDup_singleton].
    intros x Hx ->%list_elem_of_singleton. done.
  - rewrite length_app. simpl. lia.
Qed.

Lemma entry_is_good c ns io :
  0 < io < 2 ^ 32 → io ≤ ns_get_size (W := W) ns →
  ns_get_extended_sector_size (W := W) ns ≤ io →
  good_entry (NsEntry c ns (u32 (io / ns_get_sector_size (W := W) ns))
    (ns_get_size (W := W) ns / io)).
Proof.
  intros Hio Hsz Hext. destruct (ns_geometry (W := W) (T := Z) ns) as [[? ?] ?].
  set (sec := ns_get_sector_size ns) in *. set (size := ns_get_size ns) in *.
  assert (1 ≤ io / sec) by (apply Z.div_le_lower_bound; lia).
  assert (io / sec ≤ io) by (apply Z.div_le_upper_bound; nia).
  assert (1 ≤ size / io) by (apply Z.div_le_lower_bound; lia).
  assert (size / io ≤ size) by (apply Z.div_le_upper_bound; nia).
  pose proof (Z.mul_div_le io sec ltac:(lia)). pose proof (Z.mul_div_le size io ltac:(lia)).
  unfold good_entry, wf_entry. simpl. rewrite u32_small by lia.
  split; [split; lia|]. fold sec size. nia.
Qed.

(** What [register_ns] does with a namespace: nothing when the I/O size does not
    fit, otherwise one more entry. *)
Definition ns_fits (io ns : Z) : Prop :=
  io ≤ ns_get_size (W := W) ns ∧ ns_get_extended_sector_size (W := W) ns ≤ io ∧
  io mod ns_get_extended_sector_size (W := W) ns = 0.

Lemma register_ns_spec v0 c ns s : registry v0 s →
  wp (register_ns c ns) (λ _ s', registry v0 s' ∧ g_workers s' = g_workers s ∧ workers s' = workers s ∧
    (∀ c, admin_pending c (env s') = admin_pending c (env s)) ∧
    (¬ ns_fits (io_size_bytes (g_arbitration s)) ns ∧ s' = s ∨
     ns_fits (io_size_bytes (g_arbitration s)) ns ∧ ∃ p e,
       g_namespaces s' = g_namespaces s ++ [p] ∧ entries s' !! p = Some e ∧
       e_ns e = ns ∧ e_ctrlr e = c ∧ good_entry e ∧
       g_arbitration s' = set_num_namespaces
         (num_namespaces (g_arbitration s) + 1) (g_arbitration s)))
    (λ code _, code = 1) s.
Proof.
  intros Hr. pose proof (re_io _ _ Hr) as Hio.
  destruct (ns_geometry (W := W) (T := Z) ns) as [[Hsec Hext] Hsz].
  unfold register_ns, ns_fits. apply wp_bind, wp_get.
  set (io := io_size_bytes (g_arbitration s)) in *. case_decide as Hbad.
  { apply wp_skip. split_and!; [done|done|done|done|left]. split; [lia|done]. }
  rewrite decide_False by lia. case_decide as Hmod.
  { apply wp_skip. split_and!; [done|done|done|done|left]. split; [lia|done]. }
  apply wp_bind. eapply wp_weaken; [by eapply malloc_spec|].
  intros [p|] s1 (Hr1&Hg1&Hn1&Hw1&Hwk1&He1&Hc1&Hpd&Hp); [|by apply wp_exit].
  destruct Hp as (->&Hp&_). rewrite decide_False by lia.
  apply wp_bind, wp_modify, wp_bind, wp_modify, wp_modify.
  assert (good_entry (NsEntry c ns (u32 (io / ns_get_sector_size (W := W) ns))
    (ns_get_size (W := W) ns / io))) as Hgood by (apply entry_is_good; lia).
  split_and!.
  - apply register_entry; try done. rewrite Hwk1, He1, Hc1. apply (re_fresh _ _ Hr).
  - done.
  - done.
  - done.
  - right. split; [lia|]. exists (next_ptr s). eexists. simpl.
    rewrite lookup_insert_eq, Hn1, Hg1. split_and!; done.
Qed.

(** [s'] has the same options and the same workers. *)
Definition same_setup s s' : Prop :=
  g_workers s' = g_workers s ∧ workers s' = workers s ∧
  latency_tracking_enable (g_arbitration s') = latency_tracking_enable (g_arbitration s) ∧
  arbitration_mechanism (g_arbitration s') = arbitration_mechanism (g_arbitration s) ∧
  queue_depth (g_arbitration s') = queue_depth (g_arbitration s) ∧
  io_size_bytes (g_arbitration s') = io_size_bytes (g_arbitration s).

Lemma same_setup_trans s1 s2 s3 : same_setup s1 s2 → same_setup s2 s3 → same_setup s1 s3.
Proof. intros (?&?&?&?&?&?) (?&?&?&?&?&?). split_and!; congruence. Qed.

Lemma same_setup_admin c s s' : admin_only c s s' → same_setup s s'.
Proof. by intros (w&f&o&->&_). Qed.


Definition grows v0 s s' : Prop :=
  registry v0 s' ∧ same_setup s s' ∧ g_namespaces s `prefix_of` g_namespaces s'.

(** Nothing is sent to a controller. *)
Definition no_admin s s' : Prop :=
  outstanding_commands (g_arbitration s') = outstanding_commands (g_arbitration s) ∧
  ∀ c, admin_pending c (env s') = admin_pending c (env s).

Lemma no_admin_quiescent c s s' : no_admin s s' → quiescent c s → quiescent c s'.
Proof. intros [Ho Hp] [??]. split; [congruence|]. by rewrite Hp. Qed.

Lemma grows_refl v0 s : registry v0 s → grows v0 s s.
Proof. done. Qed.

Lemma grows_trans v0 s1 s2 s3 : grows v0 s1 s2 → grows v0 s2 s3 → grows v0 s1 s3.
Proof.
  intros (?&?&?) (?&?&?). split_and!; [done|by eapply same_setup_trans|by etransitivity].
Qed.

Lemma grows_admin v0 c s s' : registry v0 s → admin_only c s s' → quiescent c s' →
  grows v0 s s'.
Proof.
  intros Hr Ha [_ Hq]. split_and!; [by eapply registry_admin|by eapply same_setup_admin|].
  by destruct Ha as (w&f&o&->&_).
Qed.

Lemma register_ns_grows v0 c ns s : registry v0 s →
  wp (register_ns c ns) (λ _ s', grows v0 s s' ∧ no_admin s s' ∧
      (ns_fits (io_size_bytes (g_arbitration s)) ns → g_namespaces s' ≠ []))
    (λ code _, code = 1) s.
Proof.
  intros Hr. eapply wp_weaken; [by apply register_ns_spec|].
  intros [] s' (Hr'&Hgw&Hwk&Hpd&[[Hnf ->]|(_&p&e&Hn&_&_&_&_&Hg)]); [done|].
  split; [|split; [by split; [rewrite Hg|]|rewrite Hn; by destruct (g_namespaces s)]]. split_and!; [done| |rewrite Hn; by eexists].
  split_and!; by rewrite ?Hg.
Qed.

(** Namespace [n] exists and takes I/Os of [io] bytes. *)
Definition usable_ns (io c n : Z) (w : W) : Prop :=
  n ≠ 0 ∧ ∃ ns, ctrlr_get_ns c n w = Some ns ∧ ns_fits io ns.

Lemma grows_nonempty v0 s s' : grows v0 s s' → g_namespaces s ≠ [] → g_namespaces s' ≠ [].
Proof. intros (_&_&[l ->]) ?. by destruct (g_namespaces s). Qed.

Lemma register_all_ns_spec v0 c n s : registry v0 s →
  twp (λ fuel, register_all_ns fuel c n) (λ _ s', grows v0 s s' ∧ no_admin s s' ∧
      (usable_ns (io_size_bytes (g_arbitration s)) c n (env s) → g_namespaces s' ≠ []))
    (λ code _, code = 1) s.
Proof.
  intros Hr. remember (Z.to_nat (2 ^ 32 - n)) as k eqn:Hk.
  revert n s Hk Hr. induction (lt_wf k) as [k _ IH]; intros n s Hk Hr.
  destruct (decide (n = 0)) as [->|Hn].
  { clear IH Hk. exists O, (Done () s). split.
    { intros [|m] _; reflexivity. }
    split_and!; [by apply grows_refl|done|by intros [??]]. }
  set (one := match ctrlr_get_ns c n (env s) with
         | None => skip | Some ns => register_ns c ns end : M (prog W X) ()).
  assert (wp one (λ _ s', grows v0 s s' ∧ no_admin s s' ∧
      (usable_ns (io_size_bytes (g_arbitration s)) c n (env s) → g_namespaces s' ≠ []))
    (λ code _, code = 1) s) as Hone.
  { unfold one, usable_ns. destruct (ctrlr_get_ns _ _ _) as [ns|] eqn:Hns.
    - eapply wp_weaken; [by apply register_ns_grows|]. intros [] s' (?&?&?).
      split_and!; try done. intros (_&ns'&?&?). simplify_eq. auto.
    - apply wp_skip. split_and!; [by apply grows_refl|done|]. by intros (_&?&?&_). }
  assert (∀ m s1, register_all_ns (Datatypes.S m) c n s = match one s with
    | Done _ s1 => register_all_ns m c (get_next_active_ns c n (env s1)) s1
    | Exited code s1 => Exited code s1 | Undef => Undef | Spin => Spin end) as Hunf.
  { intros m _. simpl. rewrite decide_False by done. reflexivity. }
  unfold wp in Hone. destruct (one s) as [[] s1|code s1| |] eqn:Ho; [|..|done|done].
  - destruct Hone as (Hg1&Ho1&Hu1). set (n' := get_next_active_ns c n (env s1)) in *.
    assert (twp (λ fuel, register_all_ns fuel c n') (λ _ s', grows v0 s1 s' ∧ no_admin s1 s')
      (λ code _, code = 1) s1) as (m&r&Hr'&Hw).
    { destruct (next_active_ns_law (W := W) (T := Z) c n (env s1)) as [Hz|Hlt].
      - exists O, (Done () s1). split; [|by split; [apply grows_refl, Hg1|]].
        intros [|m] _; subst n'; by rewrite Hz.
      - eapply twp_weaken; [eapply (IH (Z.to_nat (2 ^ 32 - n')));
        [subst n' k; lia|done|apply Hg1]|]. naive_solver. }
    exists (Datatypes.S m), r. split.
    + intros [|m'] Hm; [lia|]. rewrite (Hunf _ s). apply Hr'. lia.
    + eapply wp_weaken; [exact Hw|]. intros [] s' [? [Ho' Hp']].
      destruct Ho1 as [Ho1 Hp1]. split_and!; [by eapply grows_trans| |].
      * split; [congruence|]. intros c'. by rewrite Hp', Hp1.
      * intros Hu. by eapply grows_nonempty; [|apply Hu1].
  - exists 1%nat, (Exited code s1). split; [|done]. intros [|m'] Hm; [lia|].
    by rewrite (Hunf _ s).
Qed.

(** The entry of a controller whose admin queue is empty is added. *)
Lemma registry_ctrlrs v0 s p c : registry v0 s → next_ptr s = p + 1 → ctrlrs s !! p = None →
  admin_pending c (env s) = [] →
  registry v0 (set_g_controllers (λ l, l ++ [p]) (set_ctrlrs <[p := CtrlrEntry c]> s)).
Proof.
  intros Hr Hn Hp Hc. assert (p ∉ g_controllers s) as Hnew.
  { intros (e&?&_)%(re_ctrlr _ _ Hr). congruence. }
  destruct Hr. split; simpl; try done.
  - intros p' Hp'. rewrite lookup_insert_ne by lia. by apply re_ctrlr_fresh0.
  - intros p' [Hin| ->%list_elem_of_singleton]%elem_of_app.
    + rewrite lookup_insert_ne by (intros ->; done). by apply re_ctrlr0.
    + rewrite lookup_insert_eq. by exists (CtrlrEntry c).
  - apply NoDup_app. split_and!; [done| |apply NoDup_singleton].
    intros x Hx ->%list_elem_of_singleton. done.
Qed.

(** Every controller has a first namespace that takes I/Os of [io] bytes. *)
Definition has_namespace (io : Z) : Prop := ∀ c (w : W),
  usable_ns io c (get_first_active_ns c w) w.

Lemma grows_io v0 s s' : grows v0 s s' →
  io_size_bytes (g_arbitration s') = io_size_bytes (g_arbitration s).
Proof. by intros (_&(_&_&_&_&_&?)&_). Qed.

Lemma register_ctrlr_spec v0 c s : accepts (W := W) → registry v0 s → quiescent c s →
  twp (λ fuel, register_ctrlr fuel (Some c)) (λ _ s', grows v0 s s' ∧ quiescent c s' ∧
      (has_namespace (io_size_bytes (g_arbitration s)) → g_namespaces s' ≠ []))
    (λ code _, code = 1) s.
Proof.
  intros Hacc Hr Hq. unfold register_ctrlr. apply twp_bind_wp.
  eapply wp_weaken; [by eapply malloc_spec|].
  intros p s1 (Hr1&Hg1&Hn1&Hw1&Hwk1&He1&Hc1&Hpd&Hp).
  assert (grows v0 s s1) as Hs1.
  { split_and!; [done| |by rewrite Hn1]. by split_and!; rewrite ?Hg1. }
  assert (quiescent c s1) as Hq1 by (destruct Hq; split; [congruence|by rewrite Hpd]).
  apply twp_bind_wp, wp_ret. destruct p as [p|]; [|by apply twp_wp, wp_exit].
  apply twp_bind_wp, wp_modify, twp_bind_wp, wp_modify, twp_bind_wp, wp_get.
  set (s2 := set_g_controllers _ _).
  assert (grows v0 s1 s2) as Hs2.
  { destruct Hp as (->&Hp&Hp'), Hq1. split_and!; [by apply registry_ctrlrs|done|done]. }
  apply twp_bind. eapply (twp_mono _ (λ _ s', grows v0 s2 s' ∧ quiescent c s') _ (λ _ _, False));
    [|intros [] s3 [Hs3 Hq3]|done].
  { case_decide; [|by apply twp_wp, wp_skip].
    eapply twp_weaken; [by apply set_latency_tracking_spec|].
    intros [] s3 [Ha ?]. split; [|done]. by eapply grows_admin; [apply Hs2|..]. }
  apply twp_bind_wp, wp_get, twp_bind.
  eapply twp_weaken; [apply register_all_ns_spec, Hs3|]. intros [] s4 (Hs4&Hna&Hu).
  pose proof (no_admin_quiescent _ _ _ Hna Hq3) as Hq4.
  assert (grows v0 s s4) as Hs04
    by (eapply grows_trans; [|exact Hs4]; eapply grows_trans; [|exact Hs3];
        by eapply grows_trans).
  assert (has_namespace (io_size_bytes (g_arbitration s)) → g_namespaces s4 ≠ []) as Hne.
  { intros Hh. apply Hu. replace (io_size_bytes (g_arbitration s3)) with
      (io_size_bytes (g_arbitration s)); [apply Hh|].
    by rewrite (grows_io _ _ _ Hs3), (grows_io _ _ _ Hs2), (grows_io _ _ _ Hs1). }
  apply twp_bind_wp, wp_get. case_decide; [|by apply twp_wp, wp_skip].
  apply twp_bind. eapply twp_mono; [by apply get_arb_feature_spec| |done].
  intros [] s5 [Ha5 Hq5]. assert (grows v0 s s5) as Hs5
    by (eapply grows_trans; [exact Hs04|]; by eapply grows_admin; [apply Hs4|..]).
  assert (has_namespace (io_size_bytes (g_arbitration s)) → g_namespaces s5 ≠ []) as Hne5
    by (intros Hh; eapply grows_nonempty;
        [by eapply grows_admin; [apply Hs4|exact Ha5|]|by apply Hne]).
  case_decide; [|by apply twp_wp, wp_skip].
  apply twp_bind. eapply twp_mono; [by apply set_arb_feature_spec| |done].
  intros rc s6 (_&Ha6&Hq6). eapply twp_mono; [by apply get_arb_feature_spec| |done].
  intros [] s7 [Ha7 Hq7].
  assert (grows v0 s5 s7) as Hs7
    by (eapply grows_admin; [apply Hs5|by eapply admin_only_trans|done]).
  split_and!; [by eapply grows_trans|done|].
  intros Hh. eapply grows_nonempty; [exact Hs7|by apply Hne5].
Qed.

Definition connects : Prop := ∀ t (w w' : W) c, nvme_connect t w = (c, w') → is_Some c.

Lemma connect_spec v0 t s c w' : accepts (W := W) → connects → registry v0 s →
  outstanding_commands (g_arbitration s) = 0 → nvme_connect t (env s) = (c, w') →
  twp (λ fuel, register_ctrlr fuel c)
    (λ _ s', grows v0 s s' ∧ outstanding_commands (g_arbitration s') = 0 ∧
      (has_namespace (io_size_bytes (g_arbitration s)) → g_namespaces s' ≠ []))
    (λ code _, code = 1) (set_env w' s).
Proof.
  intros Hacc Hcon Hr Ho Hc.
  destruct (Hcon _ _ _ _ Hc) as [c' ->].
  destruct (nvme_connect_law _ _ _ _ Hc) as [Hv Hp].
  destruct Hp as [Hp Hoth]. assert (registry v0 (set_env w' s)) as Hr'.
  { apply registry_env; [done..|]. intros c Hc0.
    destruct (decide (c = c')) as [->|]; [by apply Hp|]. rewrite Hoth; congruence. }
  eapply twp_weaken; [apply (register_ctrlr_spec v0 c' _ Hacc Hr')|].
  - split; [done|]. by apply Hp.
  - intros [] s' [(Hr''&Hs'&Hpre) [[Ho' _] Hne]]. by split_and!.
Qed.

Lemma memcpy_literal_spec {A} `{!Image} (l : string) (k : nat → M (prog W X) A) Q E s :
  hostnqn_size ≤ literal_bytes l → twp k Q E s →
  twp (λ fuel, memcpy_literal hostnqn_size l;; k fuel) Q E s.
Proof.
  intros Hl Hk. apply twp_bind_wp. unfold memcpy_literal. rewrite decide_True by done.
  by apply wp_skip.
Qed.

Lemma zns_dev_init_spec `{!Image} v0 a b c d s : hostnqn_size ≤ literal_bytes g_hostnqn → accepts (W := W) → connects → registry v0 s →
  outstanding_commands (g_arbitration s) = 0 →
  twp (λ fuel, zns_dev_init fuel a b c d)
    (λ _ s', grows v0 s s' ∧ outstanding_commands (g_arbitration s') = 0 ∧
      (has_namespace (io_size_bytes (g_arbitration s)) → g_namespaces s' ≠ []))
    (λ code _, code = 1) s.
Proof.
  intros Hl Hacc Hcon Hr Ho. unfold zns_dev_init. apply memcpy_literal_spec; [done|].
  apply twp_bind_wp, wp_call.
  intros c1 w1 Hc1. apply twp_bind. eapply twp_weaken; [by eapply connect_spec|].
  intros [] s1 (Hs1&Ho1&_). apply twp_bind_wp, wp_call. intros c2 w2 Hc2.
  eapply twp_weaken; [eapply connect_spec; [done|done|apply Hs1|done|done]|].
  intros [] s2 (Hs2&Ho2&Hne). rewrite (grows_io _ _ _ Hs1) in Hne.
  split_and!; [by eapply grows_trans|done|done].
Qed.

(** What connecting the controllers of a program establishes. *)
Definition inits (init : nat → M (prog W X) ()) : Prop := ∀ v0 s,
  registry v0 s → outstanding_commands (g_arbitration s) = 0 →
  twp init (λ _ s', grows v0 s s' ∧ outstanding_commands (g_arbitration s') = 0 ∧
      (has_namespace (io_size_bytes (g_arbitration s)) → g_namespaces s' ≠ []))
    (λ code _, code = 1) s.

Lemma dev_init_inits `{!Image} : hostnqn_size ≤ literal_bytes g_hostnqn →
  accepts (W := W) → connects → inits dev_init.
Proof. intros ??? v0 s ??. by apply zns_dev_init_spec. Qed.

Lemma dev_init_rdma_inits `{!Image} : hostnqn_size ≤ literal_bytes g_hostnqn →
  accepts (W := W) → connects → inits dev_init_rdma.
Proof.
  intros ??? v0 s ??. apply memcpy_literal_spec; [done|]. apply twp_bind_wp, wp_call. intros c w Hc. by eapply connect_spec.
Qed.

(** Without the bytes behind the literal. *)
Lemma memcpy_literal_undef {A} `{!Image} l (k : M (prog W X) A) s :
  literal_bytes l < hostnqn_size → (memcpy_literal hostnqn_size l;; k) s = Undef.
Proof. intros Hl. unfold memcpy_literal. by rewrite decide_False by lia. Qed.

Lemma dev_init_undef `{!Image} fuel s : literal_bytes g_hostnqn < hostnqn_size →
  dev_init fuel s = Undef.
Proof. apply memcpy_literal_undef. Qed.

Lemma register_controllers_spec v0 init s : inits init → registry v0 s →
  outstanding_commands (g_arbitration s) = 0 →
  twp (λ fuel, register_controllers (init fuel)) (λ rc s', grows v0 s s' ∧
      outstanding_commands (g_arbitration s') = 0 ∧
      (rc = 0 ∧ g_namespaces s' ≠ [] ∨ rc = 1 ∧ g_namespaces s' = [] ∧
         ¬ has_namespace (io_size_bytes (g_arbitration s))))
    (λ code _, code = 1) s.
Proof.
  intros Hi Hr Ho. unfold register_controllers. apply twp_bind.
  eapply twp_weaken; [by apply (Hi v0)|].
  intros [] s' (Hs'&Ho'&Hne). apply twp_wp, wp_bind, wp_get, wp_ret.
  split; [done|]. split; [done|].
  destruct Hs' as [Hr' _]. pose proof (re_num_ns _ _ Hr') as Hn.
  destruct (g_namespaces s') as [|p l] eqn:Hl; simpl in Hn; rewrite Hn.
  - right. rewrite decide_True by done. split_and!; [done|done|]. intros Hh. by apply Hne.
  - left. by rewrite decide_False by lia.
Qed.

(** A namespace that fits is registered: the queue is not empty afterwards. *)
Lemma register_ns_nonempty v0 c ns s : registry v0 s →
  ns_fits (io_size_bytes (g_arbitration s)) ns →
  wp (register_ns c ns) (λ _ s', g_namespaces s' ≠ []) (λ code _, code = 1) s.
Proof.
  intros Hr Hfit. eapply wp_weaken; [by apply register_ns_spec|].
  intros [] s' (_&_&_&_&[[? _]|(_&p&e&Hn&_)]); [done|]. rewrite Hn. by destruct (g_namespaces s).
Qed.

(** ** Workers *)

(** The priority of the [i]-th core: the code counts up before it assigns. *)
Definition worker_prio (wrr : bool) (start i : Z) : Z :=
  if wrr then (start + i + 1) mod 4 else start mod 4.

Lemma qprio_mod z : Z.land z qprio_mask = z mod 4.
Proof. apply (Z.land_ones z 2). lia. Qed.

(** What [register_workers] appends, core by core. *)
Definition worker_rows (wrr : bool) (start : Z) (cores : list Z) : list worker_thread :=
  imap (λ i c, WorkerThread [] c (worker_prio wrr start (Z.of_nat i))) cores.

Lemma worker_rows_cons wrr start c cores : worker_rows wrr start (c :: cores) =
  WorkerThread [] c (worker_prio wrr start 0) ::
    worker_rows wrr (if wrr then start + 1 else start) cores.
Proof.
  unfold worker_rows. simpl. f_equal. apply imap_ext. intros i x _. simpl.
  f_equal. unfold worker_prio. destruct wrr; [f_equal; lia|done].
Qed.

Lemma register_worker v0 s p wt : registry v0 s →
  (∀ p', p ≤ p' → entries s !! p' = None ∧ ctxs s !! p' = None ∧
    workers s !! p' = None) → next_ptr s = p + 1 → w_ns_ctx wt = [] →
  registry v0 (set_workers <[p := wt]>
    (set_g_arbitration (λ g, set_num_workers (num_workers g + 1) g)
      (set_g_workers (λ l, l ++ [p]) s))).
Proof.
  intros Hr Hp Hn He. destruct (Hp p ltac:(lia)) as (_&_&Hpe).
  assert (p ∉ g_workers s) as Hnew.
  { intros Hin. destruct (re_wk _ _ Hr _ Hin) as [? ?]. congruence. }
  destruct Hr. split; simpl; try done.
  - intros p' Hp'. rewrite lookup_insert_ne by lia. apply re_fresh0. lia.
  - intros p' [Hin|Hin]%elem_of_app.
    + rewrite lookup_insert_ne by (intros ->; done). by apply re_wk0.
    + apply list_elem_of_singleton in Hin as ->. by rewrite lookup_insert_eq.
  - apply NoDup_app. split_and!; [done| |apply NoDup_singleton].
    intros x Hx ->%list_elem_of_singleton. done.
  - intros p' wt' [[<- <-]|[? Hl]]%lookup_insert_Some; [set_solver|].
    destruct (re_wk_all0 _ _ Hl). set_solver.
  - rewrite length_app. simpl. lia.
Qed.

Definition is_wrr s : bool :=
  bool_decide (arbitration_mechanism (g_arbitration s) = SPDK_NVME_CAP_AMS_WRR).

Lemma register_cores_spec v0 cores prio s : registry v0 s →
  wp (register_cores cores prio) (λ rc s', (rc = -1 ∧ ∃ w w' : W, malloc_ok w = (false, w')) ∨ rc = 0 ∧ registry v0 s' ∧
      g_namespaces s' = g_namespaces s ∧
      outstanding_commands (g_arbitration s') = outstanding_commands (g_arbitration s) ∧
      queue_depth (g_arbitration s') = queue_depth (g_arbitration s) ∧
      io_size_bytes (g_arbitration s') = io_size_bytes (g_arbitration s) ∧
      ∃ ps, g_workers s' = g_workers s ++ ps ∧
        Forall2 (λ p wt, workers s' !! p = Some wt) ps (worker_rows (is_wrr s) prio cores) ∧
        (∀ p wt, workers s !! p = Some wt → workers s' !! p = Some wt)) (λ _ _, False) s.
Proof.
  revert prio s. induction cores as [|i cores IH]; intros prio s Hr; simpl.
  { apply wp_ret. right. split_and!; try done. exists []. rewrite app_nil_r.
    split_and!; [done|constructor|done]. }
  apply wp_bind. eapply wp_weaken; [by eapply malloc_spec|].
  intros [p|] s1 (Hr1&Hg1&Hn1&Hw1&Hwk1&He1&Hc1&_&Hp); [|apply wp_ret; left; by split].
  destruct Hp as (->&Hp&_).
  apply wp_bind, wp_modify, wp_bind, wp_modify, wp_bind, wp_get, wp_bind, wp_modify.
  set (prio' := if decide _ then _ else _).
  set (s2 := set_workers _ _).
  assert (registry v0 s2) as Hr2.
  { apply register_worker; [done| |done|done].
    rewrite Hwk1, He1, Hc1. apply (re_fresh _ _ Hr). }
  assert (prio' = if is_wrr s then prio + 1 else prio) as Hprio.
  { unfold prio', is_wrr. simpl. rewrite Hg1.
    case_decide; [by rewrite bool_decide_eq_true_2|by rewrite bool_decide_eq_false_2]. }
  eapply wp_weaken; [by apply IH|]. intros rc s3 [?|(->&Hr3&Hn3&Ho3&Hq3&Hio3&ps&Hps&Hf&Hold)];
    [by left|right].
  split_and!; try done; [simpl in Hn3; congruence|simpl in Ho3; by rewrite Ho3, Hg1|
    simpl in Hq3; by rewrite Hq3, Hg1|simpl in Hio3; by rewrite Hio3, Hg1|].
  exists (next_ptr s :: ps). split_and!.
  - rewrite Hps. simpl. by rewrite Hw1, <-app_assoc.
  - rewrite worker_rows_cons. constructor.
    + apply Hold. unfold s2. simpl. rewrite lookup_insert_eq. f_equal. f_equal.
      rewrite qprio_mod, Hprio. unfold worker_prio. destruct (is_wrr s); f_equal; lia.
    + rewrite Hprio in Hf. unfold is_wrr in *. simpl in Hf. by rewrite Hg1 in Hf.
  - intros p wt Hpw. apply Hold. unfold s2. simpl.
    rewrite lookup_insert_ne; [by rewrite Hwk1|].
    intros <-. destruct (re_fresh _ _ Hr (next_ptr s) ltac:(lia)) as (_&_&?). congruence.
Qed.
End setup.

(** ** Giving up before the pool exists *)
Lemma abandon_never {W X} `{!Spdk W Z} `{!SpdkAdmin W} fuel tc (s : prog W X) r s' :
  abandon fuel tc s ≠ Done r s'.
Proof.
  intros (?&s1&(_&s2&_&(ok&s3&Hc&_)%bind_done)%bind_done&_)%bind_done.
  apply bind_done in Hc as (?&?&_&(?&?&_&(?&?&_&(?&?&_&H)%bind_done)%bind_done)%bind_done).
  discriminate H.
Qed.

(** ** Cleaning up *)
Lemma cleanup_spec {W X} `{!Spdk W Z} `{!SpdkAdmin W} tc (s : prog W X) E :
  NoDup (g_workers s) → (∀ p, p ∈ g_workers s → is_Some (workers s !! p)) →
  wp (cleanup true tc) (λ ok s', g_namespaces s' = [] ∧ g_workers s' = [] ∧
      env s' = env s ∧ g_controllers s' = g_controllers s ∧
      ok = bool_decide (pool_count (env s) = tc)) E s.
Proof.
  intros Hnd Hw. unfold cleanup. apply wp_bind, wp_get, wp_bind.
  eapply wp_weaken; [apply (wp_foreach _ (λ pre s', g_namespaces s = pre ++ g_namespaces s' ∧
    g_workers s' = g_workers s ∧ workers s' = workers s ∧ env s' = env s ∧
    g_controllers s' = g_controllers s))|].
  - intros pre p rest s' Hl (Hn&?&?&?&?). apply wp_bind, wp_modify, wp_modify. simpl.
    split_and!; [|done..]. rewrite Hl in Hn. apply app_inv_head in Hn. rewrite <-Hn.
    by rewrite <-app_assoc.
  - done.
  - intros [] s1 (Hn&Hg&Hws&He&Hgc). rewrite <-(app_nil_r (g_namespaces s)) in Hn at 1.
    apply app_inv_head in Hn. apply wp_bind.
    eapply wp_weaken; [apply (wp_foreach _ (λ pre s', g_workers s = pre ++ g_workers s' ∧
      g_namespaces s' = [] ∧ env s' = env s ∧ g_controllers s' = g_controllers s ∧
      (∀ p, p ∉ pre → workers s' !! p = workers s !! p)))|].
    + intros pre p rest s' Hl (Hg'&Hn'&He'&Hgc'&Hw').
      apply wp_bind, wp_modify, wp_bind.
      rewrite Hl in Hnd. apply NoDup_app in Hnd as (_&Hpre&_).
      destruct (Hw p) as [wt Hwt]; [rewrite Hl; set_solver|].
      eapply wp_worker_at.
      { simpl. rewrite Hw'; [done|]. intros Hp. apply (Hpre _ Hp); set_solver. }
      apply wp_bind. set (s0 := set_g_workers tail s').
      eapply wp_weaken; [apply (wp_foreach_inv _ (λ s'', ∃ f, s'' = set_ctxs f s0))|].
      * intros c s'' _ [f ->]. apply wp_modify. by exists (λ m, delete c (f m)).
      * exists id. by destruct s'.
      * intros [] s'' [f ->]. apply wp_modify. simpl. split_and!; [|done..|].
        -- rewrite Hl in Hg'. apply app_inv_head in Hg'. rewrite Hl, <-Hg'.
           by rewrite <-app_assoc.
        -- intros p' Hp'. rewrite lookup_delete_ne by set_solver. apply Hw'. set_solver.
    + split_and!; [done|done|done|done|]. intros p _. by rewrite Hws.
    + intros [] s2 (Hg2&Hn2&He2&Hgc2&_). rewrite <-(app_nil_r (g_workers s)) in Hg2 at 1.
      apply app_inv_head in Hg2. apply wp_bind, wp_get, wp_ret. by rewrite He2.
Qed.
