(* ===== verification/AssocSpec.v ===== *)
(** * The association of namespaces and workers

    [associate_workers_with_ns] walks both queues in a circle.  The reference
    is arithmetic: the [i]-th context takes namespace [i mod n] and goes to
    worker [i mod m]. *)
From S2P Require Import Prelude Spdk Arb Engine EngineInv EngineSpec Variants Workers.
From S2P Require Import Registry RegistrySpec.

(** Walking a queue in a circle is counting modulo its length. *)
Lemma tailq_next_lookup (l : list Z) i p :
  NoDup l → l !! i = Some p → tailq_next l p = l !! S i.
Proof.
  revert i. induction l as [|x l IH]; intros i Hnd Hi; [done|].
  apply NoDup_cons in Hnd as [Hx Hnd]. simpl. destruct i as [|i]; simpl in Hi.
  - simplify_eq. rewrite decide_True by done. by destruct l.
  - rewrite decide_False; [by apply IH|]. intros ->.
    by apply Hx, list_elem_of_lookup_2 with i.
Qed.

Definition tailq_step (l : list Z) (p : Z) : option Z :=
  match tailq_next l p with Some n => Some n | None => head l end.

Lemma tailq_step_mod (l : list Z) k p : NoDup l →
  l !! (k mod length l)%nat = Some p → tailq_step l p = l !! (S k mod length l)%nat.
Proof.
  intros Hnd Hp. unfold tailq_step. rewrite (tailq_next_lookup _ _ _ Hnd Hp).
  assert (length l ≠ 0)%nat as Hl by (destruct l; [by destruct k|done]).
  pose proof (Nat.mod_upper_bound k (length l) Hl).
  destruct (decide (S (k mod length l) = length l)) as [He|Hne].
  - assert (S k mod length l = 0)%nat as ->.
    { pose proof (Nat.div_mod k (length l) Hl).
      replace (S k) with ((k / length l + 1) * length l)%nat by nia.
      apply Nat.Div0.mod_mul. }
    rewrite He. rewrite (lookup_ge_None_2 l (length l)) by lia. by destruct l.
  - assert (S k mod length l = S (k mod length l))%nat as ->.
    { pose proof (Nat.div_mod k (length l) Hl).
      symmetry. apply (Nat.mod_unique _ _ (k / length l)); lia. }
    destruct (l !! S (k mod length l)) eqn:E; [done|].
    apply lookup_ge_None in E. lia.
Qed.

(** The pointers of [ps], the first of which has number [k], that go to worker
    [j] of [m]. *)
Fixpoint share (m j k : nat) (ps : list Z) : list Z :=
  match ps with
  | [] => []
  | p :: ps' =>
      if decide (k mod m = j)%nat then p :: share m j (S k) ps' else share m j (S k) ps'
  end.

Lemma share_sublist m j k ps : share m j k ps `sublist_of` ps.
Proof.
  revert k. induction ps as [|p ps IH]; intros k; simpl; [done|].
  case_decide; constructor; apply IH.
Qed.

Lemma elem_of_share m j k ps p :
  p ∈ share m j k ps ↔ ∃ i, ps !! i = Some p ∧ ((k + i) mod m = j)%nat.
Proof.
  revert k. induction ps as [|x ps IH]; intros k; simpl.
  { split; [by intros ?%not_elem_of_nil|by intros (i&?&_)]. }
  trans ((x = p ∧ (k mod m = j)%nat) ∨ p ∈ share m j (S k) ps).
  { case_decide; rewrite ?elem_of_cons; naive_solver. }
  rewrite IH. split.
  - intros [[-> ?]|(i&?&?)]; [exists O|exists (S i)]; simpl; split; try done.
    + by rewrite Nat.add_0_r.
    + by rewrite <-Nat.add_succ_comm.
  - intros ([|i]&Hi&Hj); simpl in Hi; [left|right; exists i].
    + rewrite Nat.add_0_r in Hj. naive_solver.
    + by rewrite <-Nat.add_succ_comm in Hj.
Qed.

Lemma share_disjoint m j1 j2 k ps p : NoDup ps →
  p ∈ share m j1 k ps → p ∈ share m j2 k ps → j1 = j2.
Proof.
  intros Hnd (i1&H1&<-)%elem_of_share (i2&H2&<-)%elem_of_share.
  by rewrite (NoDup_lookup _ _ _ _ Hnd H1 H2).
Qed.

Section assoc.
Context {W X : Type} `{!Spdk W Z} `{!SpdkView W Z} `{!SpdkLaws W Z}.
Context `{!SpdkAdmin W} `{!SpdkAdminView W} `{!SpdkAdminLaws W Z}.
Context (x0 : X).
Implicit Types (s : prog W X).

Definition new_ctx (e : Z) : ns_worker_ctx X := NsWorkerCtx e 0 0 0 false None x0.

(** The effect of creating the contexts [ps], numbered from [k]. *)
Record associated (k : nat) (ps : list Z) s s' : Prop := {
  as_view : view (env s') = view (env s);
  as_arb : g_arbitration s' = g_arbitration s;
  as_entries : entries s' = entries s;
  as_ns : g_namespaces s' = g_namespaces s;
  as_wk : g_workers s' = g_workers s;
  as_ctrlrs : ctrlrs s' = ctrlrs s;
  as_gctrlrs : g_controllers s' = g_controllers s;
  as_pending c : admin_pending c (env s') = admin_pending c (env s);
  as_ctx i p : ps !! i = Some p → ∃ e,
    g_namespaces s !! ((k + i) mod length (g_namespaces s))%nat = Some e ∧
    ctxs s' !! p = Some (new_ctx e);
  as_ctx_old p : p ∉ ps → ctxs s' !! p = ctxs s !! p;
  as_worker j w wt : g_workers s !! j = Some w → workers s !! w = Some wt →
    workers s' !! w = Some (WorkerThread
      (w_ns_ctx wt ++ share (length (g_workers s)) j k ps) (lcore wt) (qprio wt));
  as_worker_old w : w ∉ g_workers s → workers s' !! w = workers s !! w;
}.

Lemma associated_nil k s : associated k [] s s.
Proof.
  split; try done. intros j w wt Hj Hw. simpl. rewrite app_nil_r. by destruct wt.
Qed.

(** One iteration of the loop. *)
Definition assoc_one (p e w : Z) (wt : worker_thread) (w' : W) s : prog W X :=
  set_workers <[w := WorkerThread (w_ns_ctx wt ++ [p]) (lcore wt) (qprio wt)]>
    (set_ctxs <[p := new_ctx e]> (set_next_ptr (Z.add 1) (set_env w' s))).

Lemma associated_cons k p ps s s1 s' e w wt w' :
  s1 = assoc_one p e w wt w' s → view w' = view (env s) →
  (∀ c, admin_pending c w' = admin_pending c (env s)) →
  NoDup (g_workers s) → p ∉ ps →
  g_namespaces s !! (k mod length (g_namespaces s))%nat = Some e →
  g_workers s !! (k mod length (g_workers s))%nat = Some w →
  workers s !! w = Some wt → associated (S k) ps s1 s' → associated k (p :: ps) s s'.
Proof.
  intros -> Hv Hpd Hnd Hp He Hw Hwt Ha.
  split; rewrite ?(as_view _ _ _ _ Ha), ?(as_arb _ _ _ _ Ha), ?(as_entries _ _ _ _ Ha),
    ?(as_ns _ _ _ _ Ha), ?(as_wk _ _ _ _ Ha), ?(as_ctrlrs _ _ _ _ Ha),
    ?(as_gctrlrs _ _ _ _ Ha); try done.
  - intros c. rewrite (as_pending _ _ _ _ Ha). apply Hpd.
  - intros [|i] q Hq; simpl in Hq.
    + simplify_eq. exists e. rewrite Nat.add_0_r. split; [done|].
      rewrite (as_ctx_old _ _ _ _ Ha) by done. simpl. by rewrite lookup_insert_eq.
    + rewrite <-Nat.add_succ_comm. by apply (as_ctx _ _ _ _ Ha).
  - intros q Hq. apply not_elem_of_cons in Hq as [??].
    rewrite (as_ctx_old _ _ _ _ Ha) by done. simpl. by rewrite lookup_insert_ne.
  - intros j w1 wt1 Hj Hw1.
    assert (w1 = w ↔ j = k mod length (g_workers s))%nat as Heq.
    { split; [intros ->; by eapply NoDup_lookup|intros ->; congruence]. }
    simpl. case_decide as Hk.
    + assert (w1 = w) as -> by (by apply Heq). assert (wt1 = wt) as -> by congruence.
      rewrite (as_worker _ _ _ _ Ha _ w
        (WorkerThread (w_ns_ctx wt ++ [p]) (lcore wt) (qprio wt)) Hj);
        [|simpl; by rewrite lookup_insert_eq]. simpl. by rewrite <-app_assoc.
    + rewrite (as_worker _ _ _ _ Ha _ w1 wt1 Hj); [done|].
      simpl. rewrite lookup_insert_ne; [done|]. intros ->. by apply Hk, eq_sym, Heq.
  - intros w1 Hw1. rewrite (as_worker_old _ _ _ _ Ha) by done. simpl.
    rewrite lookup_insert_ne; [done|]. intros ->. by apply Hw1, list_elem_of_lookup_2 with (k mod length (g_workers s))%nat.
Qed.

Lemma associate_loop_spec n k s E : NoDup (g_namespaces s) → NoDup (g_workers s) →
  (∀ w, w ∈ g_workers s → is_Some (workers s !! w)) → g_workers s ≠ [] →
  wp (associate_loop x0 n (g_namespaces s !! (k mod length (g_namespaces s))%nat)
        (g_workers s !! (k mod length (g_workers s))%nat))
    (λ rc s', (rc = 1 ∧ ∃ w w' : W, malloc_ok w = (false, w')) ∨
       rc = 0 ∧ (g_namespaces s = [] ∧ s' = s ∨
       associated k (seqZ (next_ptr s) (Z.of_nat n)) s s')) E s.
Proof.
  revert k s. induction n as [|n IH]; intros k s Hns Hwk Hall Hne.
  { simpl. apply wp_ret. right. split; [done|]. right. apply associated_nil. }
  destruct (g_namespaces s !! _) as [e|] eqn:He; simpl; last first.
  { apply wp_ret. right. split; [done|]. left. split; [|done].
    destruct (g_namespaces s) as [|y l] eqn:Hl; [done|exfalso].
    apply lookup_ge_None in He. simpl length in He.
    pose proof (Nat.mod_upper_bound k (S (length l)) ltac:(lia)). lia. }
  unfold malloc. apply wp_bind, wp_bind, wp_call. intros ok w' Hm. destruct (malloc_ok_law _ _ _ Hm) as [Hv _].
  pose proof (malloc_admin _ _ _ Hm) as Hpd.
  destruct ok; [|apply wp_ret, wp_ret; left; eauto].
  apply wp_bind, wp_gets, wp_bind, wp_modify, wp_ret. simpl.
  apply wp_bind, wp_modify, wp_bind.
  destruct (g_workers s !! _) as [w|] eqn:Hw; last first.
  { exfalso. apply lookup_ge_None in Hw. destruct (g_workers s) as [|y l]; [done|].
    simpl length in Hw. pose proof (Nat.mod_upper_bound k (S (length l)) ltac:(lia)). lia. }
  apply wp_ret.
  destruct (Hall w) as [wt Hwt]; [by eapply list_elem_of_lookup_2|].
  apply wp_bind. eapply wp_worker_at; [exact Hwt|].
  apply wp_bind, wp_modify, wp_bind, wp_get. simpl.
  fold (tailq_step (g_workers s) w). fold (tailq_step (g_namespaces s) e).
  rewrite (tailq_step_mod _ _ _ Hwk Hw), (tailq_step_mod _ _ _ Hns He).
  set (s1 := set_workers _ _).
  eapply wp_weaken; [apply (IH (S k) s1); try done|].
  - intros w1 Hw1. unfold s1. simpl. destruct (decide (w1 = w)) as [->|].
    + by rewrite lookup_insert_eq.
    + rewrite lookup_insert_ne by done. by apply Hall.
  - intros rc s' [?|[-> [[Hnil ->]|Ha]]]; [by left|right..]; (split; [done|]).
    + simpl in Hnil. rewrite Hnil in He. by destruct (k mod _)%nat.
    + right. rewrite (seqZ_cons (next_ptr s)) by lia.
      replace (Z.pred (Z.of_nat (S n))) with (Z.of_nat n) by lia.
      eapply associated_cons; [reflexivity|exact Hv|exact Hpd|done| |done|done|done|].
      * rewrite elem_of_seqZ. lia.
      * replace (Z.succ (next_ptr s)) with (1 + next_ptr s) by lia. exact Ha.
Qed.
End assoc.

(** ** The whole set-up *)
Section main.
Context {W X : Type} `{!Spdk W Z} `{!SpdkView W Z} `{!SpdkLaws W Z}.
Context `{!SpdkAdmin W} `{!SpdkAdminView W} `{!SpdkAdminLaws W Z}.
Context (x0 : X).
Implicit Types (s : prog W X).

(** The C library and the pool allocator have memory left. *)
Record enough_memory : Prop := {
  mem_malloc (w w' : W) b : malloc_ok w = (b, w') → b = true;
  mem_pool n (w w' : W) b : 0 ≤ n → pool_create n w = (b, w') → b = true;
}.

(** [main] before the set-up: nothing is registered. *)
Record blank s : Prop := {
  bl_ctxs : ctxs s = ∅;
  bl_entries : entries s = ∅;
  bl_workers : workers s = ∅;
  bl_ctrlrs : ctrlrs s = ∅;
  bl_controllers : g_controllers s = [];
  bl_ns : g_namespaces s = [];
  bl_wk : g_workers s = [];
  bl_num_ns : num_namespaces (g_arbitration s) = 0;
  bl_num_wk : num_workers (g_arbitration s) = 0;
  bl_out : outstanding_commands (g_arbitration s) = 0;
  bl_io : 0 ≤ io_size_bytes (g_arbitration s) < 2 ^ 32;
  bl_inflight : inflight (view (env s)) = ∅;
}.

Lemma blank_registry s : blank s → registry (view (env s)) s.
Proof.
  intros []. split; try done; rewrite ?bl_ctxs0, ?bl_entries0, ?bl_workers0, ?bl_ns0, ?bl_wk0,
      ?bl_ctrlrs0, ?bl_controllers0;
    try set_solver; try constructor; try done.
Qed.

(** Nothing is outstanding on the admin queue of any controller of the queue. *)
Record settled s : Prop := {
  se_out : outstanding_commands (g_arbitration s) = 0;
  se_nodup : NoDup (g_controllers s);
  se_ctrlr p : p ∈ g_controllers s → ∃ c, ctrlrs s !! p = Some c ∧
    admin_pending (c_ctrlr c) (env s) = [];
}.

Lemma registry_settled v0 s : registry v0 s →
  outstanding_commands (g_arbitration s) = 0 → settled s.
Proof. intros [] ?. by split. Qed.

(** The workers of the queue run on the cores [cs], one each. *)
Definition on_cores (cs : list Z) s : Prop :=
  Forall2 (λ w c, ∃ wt, workers s !! w = Some wt ∧ lcore wt = c) (g_workers s) cs.

(** What the workers find when they are launched with a pool of [tc] tasks: whatever a
    variant of the engine may do and whatever it promises of its added fields, as long as it
    promises it of the initial ones. *)
Definition ready (tc : Z) s : Prop := ∃ pool : gset Z,
  Z.of_nat (size pool) = tc ∧ avail (view (env s)) = pool ∧
  (let g := g_arbitration s in
   tc = u32 (u32 (Z.max (num_namespaces g) (num_workers g)) * u32 (queue_depth g))) ∧
  (∀ safe xinv, xinv 0 x0 → launchable pool safe xinv s) ∧ settled s ∧
  (∀ p e, entries s !! p = Some e → p ∈ g_namespaces s → good_entry (W := W) e).

Lemma task_count_range g : 0 ≤ task_count g < 2 ^ 32.
Proof. apply u32_range. Qed.

(** The contexts and the queues after the association. *)
Lemma associated_ctxs v0 n s s' p c : registry v0 s →
  associated x0 0 (seqZ (next_ptr s) n) s s' → ctxs s' !! p = Some c →
  p ∈ seqZ (next_ptr s) n ∧ ∃ e, e ∈ g_namespaces s ∧ c = new_ctx x0 e.
Proof.
  intros Hr Ha Hp. destruct (decide (p ∈ seqZ (next_ptr s) n)) as [Hin|Hnin].
  - split; [done|]. apply list_elem_of_lookup_1 in Hin as [i Hi].
    destruct (as_ctx _ _ _ _ _ Ha _ _ Hi) as (e&He&Hc). exists e.
    split; [by eapply list_elem_of_lookup_2|congruence].
  - rewrite (as_ctx_old _ _ _ _ _ Ha) in Hp by done. by rewrite (re_ctx _ _ Hr) in Hp.
Qed.

Lemma associated_workers v0 n s s' w wt : registry v0 s →
  associated x0 0 (seqZ (next_ptr s) n) s s' → workers s' !! w = Some wt →
  ∃ j, g_workers s !! j = Some w ∧
    w_ns_ctx wt = share (length (g_workers s)) j 0 (seqZ (next_ptr s) n).
Proof.
  intros Hr Ha Hwt. destruct (decide (w ∈ g_workers s)) as [Hin|Hnin].
  - destruct (re_wk _ _ Hr _ Hin) as [wt0 Hwt0].
    destruct (re_wk_all _ _ Hr _ _ Hwt0) as [Hnil _].
    apply list_elem_of_lookup_1 in Hin as [j Hj]. exists j. split; [done|].
    rewrite (as_worker _ _ _ _ _ Ha _ _ _ Hj Hwt0) in Hwt. simplify_eq. simpl.
    by rewrite Hnil.
  - rewrite (as_worker_old _ _ _ _ _ Ha) in Hwt by done.
    by destruct (re_wk_all _ _ Hr _ _ Hwt).
Qed.

Lemma associated_idle v0 n s s' p : registry v0 s →
  associated x0 0 (seqZ (next_ptr s) n) s s' → p ∈ seqZ (next_ptr s) n → idle_ctx s' p.
Proof.
  intros Hr Ha [i Hi]%list_elem_of_lookup_1.
  destruct (as_ctx _ _ _ _ _ Ha _ _ Hi) as (e&_&Hc). by exists (new_ctx x0 e).
Qed.

(** The association leaves contexts on which the engine may start. *)
Lemma associated_ready v0 n s s' w' A : registry v0 s → inflight v0 = ∅ →
  outstanding_commands (g_arbitration s) = 0 →
  (∀ c, admin_pending c w' = admin_pending c (env s')) →
  associated x0 0 (seqZ (next_ptr s) n) s s' →
  view w' = with_avail (λ _, A) (view (env s')) →
  Z.of_nat (size A) = task_count (g_arbitration s') →
  ready (task_count (g_arbitration s')) (set_env w' s').
Proof.
  intros Hr Hf Hout Hpd Ha Hw HA. pose proof (NoDup_seqZ (next_ptr s) n) as Hnd.
  pose proof (task_count_range (g_arbitration s')) as Htc.
  exists A. split; [done|]. split; [simpl; by rewrite Hw|]. split; [done|].
  split; [|split].
  - intros safe xinv Hx0. split.
    + apply inv_initial; simpl; rewrite ?Hw; simpl; [|done|lia| |].
      * by rewrite (as_view _ _ _ _ _ Ha), (re_view _ _ Hr).
      * intros p1 p2 c1 c2 q H1 _ Hq.
        by destruct (associated_ctxs _ _ _ _ _ _ Hr Ha H1) as (_&e&_&->).
      * intros p c Hp. destruct (associated_ctxs _ _ _ _ _ _ Hr Ha Hp) as (_&e&He&->).
        split; [done|]. rewrite (as_entries _ _ _ _ _ Ha).
        destruct (re_ns _ _ Hr _ He) as (en&?&[Hwf _]). exists en. simpl.
        split_and!; [done|done|lia|apply Hwf].
    + intros p c Hp. by destruct (associated_ctxs _ _ _ _ _ _ Hr Ha Hp) as (_&e&_&->).
    + intros p c Hp. simpl in Hp.
      by destruct (associated_ctxs _ _ _ _ _ _ Hr Ha Hp) as (_&e&_&->).
    + simpl. rewrite (as_wk _ _ _ _ _ Ha). intros w Hin.
      destruct (re_wk _ _ Hr _ Hin) as [wt Hwt].
      apply list_elem_of_lookup_1 in Hin as [j Hj].
      pose proof (as_worker _ _ _ _ _ Ha _ _ _ Hj Hwt) as Hwt'.
      destruct (re_wk_all _ _ Hr _ _ Hwt) as [Hnil _]. rewrite Hnil in Hwt'. simpl in Hwt'.
      eexists. split; [exact Hwt'|]. simpl. split.
      * by eapply sublist_NoDup; [|apply share_sublist].
      * intros p Hp. eapply elem_of_sublist in Hp; [|apply share_sublist].
        destruct (associated_idle _ _ _ _ _ Hr Ha Hp) as (c&?&?). by exists c.
    + simpl. rewrite (as_wk _ _ _ _ _ Ha). apply Hr.
    + simpl. intros w1 w2 wt1 wt2 p H1 H2 Hp1 Hp2.
      destruct (associated_workers _ _ _ _ _ _ Hr Ha H1) as (j1&Hj1&E1).
      destruct (associated_workers _ _ _ _ _ _ Hr Ha H2) as (j2&Hj2&E2).
      rewrite E1 in Hp1. rewrite E2 in Hp2.
      pose proof (share_disjoint _ _ _ _ _ _ Hnd Hp1 Hp2). congruence.
  - split; simpl.
    + by rewrite (as_arb _ _ _ _ _ Ha).
    + rewrite (as_gctrlrs _ _ _ _ _ Ha). apply Hr.
    + rewrite (as_gctrlrs _ _ _ _ _ Ha), (as_ctrlrs _ _ _ _ _ Ha). intros p Hp.
      destruct (re_ctrlr _ _ Hr _ Hp) as (c&?&?). exists c. split; [done|].
      by rewrite Hpd, (as_pending _ _ _ _ _ Ha).
  - simpl. rewrite (as_entries _ _ _ _ _ Ha), (as_ns _ _ _ _ _ Ha). intros p e Hp Hin.
    destruct (re_ns _ _ Hr _ Hin) as (?&?&?). by simplify_eq.
Qed.

(** The association does not move a worker. *)
Lemma associated_cores ps cs s s' : associated x0 0 ps s s' →
  on_cores cs s → on_cores cs s'.
Proof.
  unfold on_cores. intros Ha Hc. rewrite (as_wk _ _ _ _ _ Ha).
  apply Forall2_same_length_lookup. apply Forall2_same_length_lookup in Hc as [Hl Hc].
  split; [done|]. intros i w c Hw Hi. destruct (Hc _ _ _ Hw Hi) as (wt&Hwt&<-).
  rewrite (as_worker _ _ _ _ _ Ha _ _ _ Hw Hwt). eauto.
Qed.

Lemma registry_tsc v0 z s : registry v0 s → registry v0 (set_g_arbitration (set_tsc_rate z) s).
Proof. intros []. by split. Qed.

(** The last part of [main_setup]: association and pool. *)
Lemma associate_and_pool v0 n s : enough_memory → registry v0 s → inflight v0 = ∅ →
  outstanding_commands (g_arbitration s) = 0 → g_namespaces s ≠ [] → g_workers s ≠ [] →
  twp (λ fuel, rc ← associate_workers_with_ns x0 n;
      if decide (rc ≠ 0) then abandon fuel 0 else
      s ← get;
      let tc := task_count (g_arbitration s) in
      ok ← call (pool_create tc);
      if ok : bool then mret (inr tc) else abandon fuel tc)
    (λ r s', ∃ tc, r = inr tc ∧ ready tc s' ∧
       ∃ s1 w, s' = set_env w s1 ∧ associated x0 0 (seqZ (next_ptr s) (Z.of_nat n)) s s1)
    (λ _ _, False) s.
Proof.
  intros Hm Hr Hf Hout Hns Hwk. apply twp_bind_wp. unfold associate_workers_with_ns.
  apply wp_bind, wp_get.
  assert (∀ l : list Z, l ≠ [] → head l = l !! (0 mod length l)%nat) as Hhead
    by (intros [|x l] ?; [done|]; by rewrite Nat.Div0.mod_0_l).
  rewrite (Hhead _ Hns), (Hhead _ Hwk).
  eapply wp_weaken; [apply (associate_loop_spec x0 n 0 s);
    [apply Hr|apply Hr|apply Hr|done]|].
  intros rc s1 [[-> (w&w'&Hw)]|[-> [[? _]|Ha]]]; [|done|].
  { by pose proof (mem_malloc Hm _ _ _ Hw). }
  destruct (decide (0 ≠ 0)) as [?|_]; [done|].
  apply twp_bind_wp, wp_get, twp_bind_wp, wp_call. intros ok w' Hp. pose proof (task_count_range (g_arbitration s1)) as Htc.
  pose proof (mem_pool Hm _ _ _ _ (proj1 Htc) Hp) as ->.
  pose proof (pool_create_admin _ _ _ _ Hp) as Hpd.
  apply pool_create_true in Hp as (A&HA&Hv&_). apply twp_wp, wp_ret.
  eexists. split; [done|]. split; [by eapply associated_ready|]. by exists s1, w'.
Qed.

(** The workers that [register_workers] appends to the empty queue. *)
Lemma rows_on_cores wrr start cs s :
  Forall2 (λ p wt, workers s !! p = Some wt) (g_workers s) (worker_rows wrr start cs) →
  on_cores cs s.
Proof.
  unfold on_cores, worker_rows. intros [Hl Hf]%Forall2_same_length_lookup.
  apply Forall2_same_length_lookup. rewrite length_imap in Hl. split; [done|].
  intros i w c Hw Hc. eexists. split; [apply (Hf i _ _ Hw)|]; [|].
  { rewrite list_lookup_imap, Hc. reflexivity. }
  done.
Qed.

Lemma main_setup_spec init n s : blank s → inits init →
  enough_memory → has_namespace (W := W) (io_size_bytes (g_arbitration s)) →
  env_cores (env s) ≠ [] →
  twp (λ fuel, main_setup init fuel x0 n) (λ r s', ∃ tc, r = inr tc ∧ ready tc s' ∧
      on_cores (env_cores (env s)) s')
    (λ code _, code = 1) s.
Proof.
  intros Hb Hinit Hm Hns Hcores. unfold main_setup, main_with.
  apply twp_bind_wp, wp_get, twp_bind_wp, wp_modify, twp_bind_wp.
  set (s0 := set_g_arbitration _ s).
  assert (registry (view (env s)) s0) as Hr0 by (by apply registry_tsc, blank_registry).
  unfold register_workers. apply wp_bind, wp_get. simpl.
  eapply wp_mono; [by apply register_cores_spec| |done].
  intros rc s1 [[-> (w&w'&Hw)]|(->&Hr1&Hn1&Ho1&_&Hio1&ps&Hps&Hrows&_)].
  { by pose proof (mem_malloc Hm _ _ _ Hw). }
  destruct (decide (0 ≠ 0)) as [?|_]; [done|].
  simpl in Hps. rewrite (bl_wk _ Hb) in Hps. simpl in Hps.
  assert (on_cores (env_cores (env s)) s1) as Hcs1
    by (by eapply rows_on_cores; rewrite Hps).
  assert (g_workers s1 ≠ []) as Hwk1.
  { apply Forall2_length in Hcs1. destruct (g_workers s1); [|done].
    by destruct (env_cores (env s)). }
  apply twp_bind. eapply twp_weaken; [apply register_controllers_spec; [done|done|]|].
  { simpl in Ho1. rewrite Ho1. apply Hb. }
  simpl in Hio1. intros rc s2 [(Hr2&Hs2&_) (Ho2&[[-> Hne]|(_&_&Hno)])];
    [|by rewrite Hio1 in Hno].
  destruct (decide (0 ≠ 0)) as [?|_]; [done|].
  assert (on_cores (env_cores (env s)) s2) as Hcs2.
  { unfold on_cores. destruct Hs2 as (->&->&_). done. }
  eapply twp_mono; [eapply (associate_and_pool _ n _ Hm Hr2); [apply Hb|done|done|]| |done].
  - by destruct Hs2 as (->&_).
  - intros r s3 (tc&?&?&s1'&w&->&Ha). exists tc. split_and!; [done|done|].
    by eapply (associated_cores _ _ _ s1').
Qed.

(** A set-up that is undefined when it connects its controllers is undefined as a whole:
    what comes before cannot fail. *)
Lemma main_setup_undef init n fuel s : blank s → enough_memory →
  (∀ s', init fuel s' = Undef) → main_setup init fuel x0 n s = Undef.
Proof.
  intros Hb Hm Hu. unfold main_setup, main_with.
  unfold mbind at 1, M_bind at 1. simpl. unfold mbind at 1, M_bind at 1, g_upd, modify at 1.
  cbv beta iota. set (s0 := set_g_arbitration _ s).
  assert (registry (view (env s)) s0) as Hr0 by (by apply registry_tsc, blank_registry).
  assert (wp register_workers (λ rc _, rc = 0) (λ _ _, False) s0) as Hw.
  { unfold register_workers. apply wp_bind, wp_get. simpl.
    eapply wp_mono; [by apply register_cores_spec| |done].
    intros rc s1 [[-> (w&w'&Hw)]|(->&_)]; [|done]. by pose proof (mem_malloc Hm _ _ _ Hw). }
  unfold mbind at 1, M_bind at 1. unfold wp in Hw.
  destruct (register_workers s0) as [rc s1| | |]; try done. subst rc.
  rewrite decide_False by lia. unfold register_controllers.
  unfold mbind at 1, M_bind at 1. unfold mbind at 1, M_bind at 1. by rewrite Hu.
Qed.
End main.
