(* ===== verification/Program.v ===== *)
(** * The whole program

    [main] of [arbitration/arbitration.cc] (lines 1178-1272) with the statistics it
    prints (599-703): the set-up of [Registry], the workers of [Workers] in any
    interleaving, and the end.  The floating-point numbers of [print_performance] are
    quotients of the rows that it computes here. *)
From S2P Require Import Prelude Spdk Arb Engine EngineInv EngineSpec Variants Workers Schedule.
From S2P Require Import Registry RegistrySpec AssocSpec.

Definition SPDK_NVME_INTEL_LOG_READ_CMD_LATENCY : Z := 193.
Definition SPDK_NVME_INTEL_LOG_WRITE_CMD_LATENCY : Z := 194.

(** The lines of [print_latency_page]: one for each bucket that is not empty, with its unit
    and its bounds. *)
Definition bucket_lines (unit : string) (n : Z) (lo hi : Z → Z) (buckets : list Z)
    : list (string * Z * Z * Z) :=
  omap (λ i, x ← buckets !! Z.to_nat i;
    if decide (x = 0) then None else Some (unit, lo i, hi i, x)) (seqZ 0 n).

Definition print_latency_page (page : latency_page) : list (string * Z * Z * Z) :=
  bucket_lines "us" 32 (λ i, i * 32) (λ i, (i + 1) * 32) (buckets_32us page) ++
  bucket_lines "ms" 31 (λ i, i + 1) (λ i, i + 2) (buckets_1ms page) ++
  bucket_lines "ms" 31 (λ i, (i + 1) * 32) (λ i, (i + 2) * 32) (buckets_32ms page).

Section program.
Context {W X : Type} `{!Spdk W Z} `{!SpdkAdmin W}.
Implicit Types (s : prog W X).

Definition ctrlr_at (p : Z) : M (prog W X) ctrlr_entry :=
  s ← get; of_option (ctrlrs s !! p).

(** A list filled by one call per element. *)
Fixpoint collect {A B} (l : list A) (f : A → M (prog W X) (list B)) : M (prog W X) (list B) :=
  match l with
  | [] => mret []
  | a :: l' => x ← f a; y ← collect l' f; mret (x ++ y)
  end.

(** ** The statistics *)

(** One row per context: the core and the number of completed I/Os. *)
Definition print_performance : M (prog W X) (list (Z * Z)) :=
  s ← get;
  collect (g_workers s) (λ w,
    wt ← worker_at w;
    collect (w_ns_ctx wt) (λ p,
      c ← ctx_at p;
      _ ← entry_at (entry c);
      mret [(lcore wt, io_completed c)])).

(** The controllers whose latency page is printed, with the lines. *)
Definition print_latency_statistics (fuel : nat) (lid : Z)
    : M (prog W X) (list (Z * list (string * Z * Z * Z))) :=
  s ← get;
  foreach (g_controllers s) (λ p,
    c ← ctrlr_at p;
    s ← get;
    if log_page_supported (c_ctrlr c) lid (env s) then
      rc ← call (admin_submit (c_ctrlr c) (get_log_page lid));
      if decide (rc ≠ 0) then exit 1 else increment_outstanding
    else skip);;
  while fuel outstanding (s ← get; foreach (g_controllers s) (λ p,
    c ← ctrlr_at p; process_admin_completions (c_ctrlr c)));;
  s ← get;
  collect (g_controllers s) (λ p,
    c ← ctrlr_at p;
    s ← get;
    mret (if log_page_supported (c_ctrlr c) lid (env s)
          then [(p, print_latency_page (log_page (c_ctrlr c) lid (env s)))] else [])).

Definition print_latencies (fuel : nat) : M (prog W X) () :=
  s ← get;
  if decide (latency_tracking_enable (g_arbitration s) = 0) then skip else
  (if decide (rw_percentage (g_arbitration s) ≠ 0)
   then _ ← print_latency_statistics fuel SPDK_NVME_INTEL_LOG_READ_CMD_LATENCY; skip
   else skip);;
  (if decide (rw_percentage (g_arbitration s) ≠ 100)
   then _ ← print_latency_statistics fuel SPDK_NVME_INTEL_LOG_WRITE_CMD_LATENCY; skip
   else skip).

Definition print_stats (fuel : nat) : M (prog W X) (list (Z * Z)) :=
  rows ← print_performance;
  print_latencies fuel;;
  mret rows.

(** ** The launch *)

(** The loop over [g_workers] finds the worker of the main core; the others are
    launched on theirs. *)
Fixpoint launch (main_core : Z) (l : list Z) (main_worker : option Z)
    : M (prog W X) (option Z) :=
  match l with
  | [] => mret main_worker
  | w :: l' =>
      wt ← worker_at w;
      if decide (lcore wt ≠ main_core) then launch main_core l' main_worker
      else match main_worker with
           | None => launch main_core l' (Some w)
           | Some _ => exit SIGABRT_status
           end
  end.

Definition launch_workers : M (prog W X) Z :=
  s ← get;
  main_worker ← launch current_core (g_workers s) None;
  match main_worker with
  | None => exit SIGABRT_status
  | Some w => mret w
  end.

(** ** The end: [print_stats] and [zstore_cleanup], after [spdk_env_thread_wait_all] *)
Definition main_end (fuel : nat) (task_count : Z) : M (prog W X) (list (Z * Z) * bool) :=
  rows ← print_stats fuel;
  ok ← zstore_cleanup fuel true task_count;
  mret (rows, ok).

(** ** [main]

    A run of the program: what it returns, what it prints and the state it ends in.
    The workers interleave; the result is the one of the worker of the main core. *)
Inductive main_run (v : variant X) (setup : nat → M (prog W X) (Z + Z)) (fuel : nat) s
    : Z → list (Z * Z) → prog W X → Prop :=
  | main_gives_up rc s' :
      setup fuel s = Done (inl rc) s' → main_run v setup fuel s rc [] s'
  | main_finishes tc s1 i w o pr rc s2 ws rows ok s3 :
      setup fuel s = Done (inr tc) s1 →
      launch_workers s1 = Done w s1 →
      rtc (step v) (s1, launched s1) (s2, ws) → finished ws →
      g_workers s1 !! i = Some w → ws !! i = Some (WorkerState o pr (Returned rc)) →
      main_end fuel tc s2 = Done (rows, ok) s3 →
      main_run v setup fuel s rc rows s3.
End program.

(** ** The admin queues of several controllers *)

(** Changing one summand. *)
Lemma sum_upd (f g : Z → nat) c hs : NoDup hs → c ∈ hs → (∀ c', c' ≠ c → g c' = f c') →
  (sum_list_with g hs + f c = sum_list_with f hs + g c)%nat.
Proof.
  intros Hnd Hin Hfg. induction Hnd as [|x l Hx Hnd IH]; [set_solver|]. simpl.
  apply elem_of_cons in Hin as [<-|Hin].
  - assert (sum_list_with g l = sum_list_with f l) as ->; [|lia].
    clear IH Hnd. induction l as [|y l IH]; [done|]. simpl.
    rewrite Hfg by set_solver. rewrite IH; [done|set_solver].
  - specialize (IH Hin). rewrite (Hfg x) by (intros ->; done). lia.
Qed.

Lemma sum_le (f g : Z → nat) hs : (∀ c, (g c ≤ f c)%nat) →
  (sum_list_with g hs ≤ sum_list_with f hs)%nat.
Proof. intros Hfg. induction hs as [|x l IH]; simpl; [lia|]. specialize (Hfg x). lia. Qed.

Lemma sum_zero (f : Z → nat) hs c : c ∈ hs → sum_list_with f hs = O → f c = O.
Proof. intros Hin. induction hs; simpl; [set_solver|]. apply elem_of_cons in Hin as [->|?]; intuition lia. Qed.

Section admins.
Context {W X : Type} `{!Spdk W Z} `{!SpdkView W Z} `{!SpdkAdmin W} `{!SpdkAdminView W}.
Context `{!SpdkAdminLaws W Z}.
Implicit Types (s : prog W X).

(** Only the environment's admin side, the feature and the counter change. *)
Definition admin_any s s' : Prop := ∃ w f o,
  s' = set_g_arbitration (set_outstanding o) (set_features (λ _, f) (set_env w s)) ∧
  view w = view (env s).

#[global] Instance admin_any_preorder : PreOrder admin_any.
Proof.
  split.
  - intros s. exists (env s), (arb_feature s), (outstanding_commands (g_arbitration s)).
    destruct s as [? ? ? ? ? ? ? ? ? ? g]. by destruct g.
  - intros s1 s2 s3 (w&f&o&->&Hw) (w'&f'&o'&->&Hw'). exists w', f', o'. simpl in *.
    split; [done|congruence].
Qed.

Lemma admin_only_any c s s' : admin_only c s s' → admin_any s s'.
Proof. intros (w&f&o&->&Hw&_). by exists w, f, o. Qed.

Lemma admin_any_env w s : view w = view (env s) → admin_any s (set_env w s).
Proof.
  intros Hw. exists w, (arb_feature s), (outstanding_commands (g_arbitration s)).
  destruct s as [? ? ? ? ? ? ? ? ? ? g]. by destruct g.
Qed.

Lemma admin_any_globals s s' : admin_any s s' → tasks s' = tasks s ∧ ctxs s' = ctxs s ∧
  entries s' = entries s ∧ workers s' = workers s ∧ ctrlrs s' = ctrlrs s ∧
  g_controllers s' = g_controllers s ∧ g_namespaces s' = g_namespaces s ∧
  g_workers s' = g_workers s ∧ view (env s') = view (env s) ∧
  latency_tracking_enable (g_arbitration s') = latency_tracking_enable (g_arbitration s).
Proof. by intros (w&f&o&->&?). Qed.

Context (hs : list Z) (Hnd : NoDup hs).

Definition pendings (w : W) : nat := sum_list_with (λ c, length (admin_pending c w)) hs.
Definition lags (w : W) : nat := sum_list_with (λ c, admin_lag c w) hs.

(** The counter agrees with what the controllers [hs] still have to answer. *)
Definition books s : Prop := outstanding_commands (g_arbitration s) = Z.of_nat (pendings (env s)).

Lemma books_send c k s w' : books s → c ∈ hs → admin_submit c k (env s) = (0, w') →
  books (set_g_arbitration (λ g, set_outstanding (outstanding_commands g + 1) g)
    (set_env w' s)).
Proof.
  unfold books. simpl. intros -> Hc Hs. destruct (admin_submit_ok _ _ _ _ Hs) as [Hp _].
  pose proof (sum_upd (λ c, length (admin_pending c (env s)))
    (λ c, length (admin_pending c w')) c hs Hnd Hc) as Hu. simpl in Hu.
  rewrite Hp, length_app in Hu. simpl in Hu. unfold pendings.
  specialize (Hu ltac:(intros c' Hc'; by rewrite (admin_submit_other _ _ _ _ _ c' Hs))). lia.
Qed.

(** A poll of one controller: it answers something, or it had nothing to answer. *)
Lemma poll_one_spec c E s : books s → c ∈ hs →
  wp (process_admin_completions c) (λ _ s', admin_any s s' ∧ books s' ∧
    (lags (env s') ≤ lags (env s))%nat ∧
    ((lags (env s') < lags (env s))%nat ∨ admin_pending c (env s) = [] ∧
      ∀ c', admin_pending c' (env s') = admin_pending c' (env s))) E s.
Proof.
  intros Hb Hc. unfold process_admin_completions. apply wp_bind, wp_call. intros l w' Hp.
  destruct (admin_poll_law _ _ _ _ Hp) as [Hperm Hv].
  pose proof (λ c' (Hc' : c' ≠ c), admin_poll_other _ _ _ _ c' Hp Hc') as Hoth.
  pose proof (sum_upd (λ c, length (admin_pending c (env s)))
    (λ c, length (admin_pending c w')) c hs Hnd Hc) as Hu.
  specialize (Hu ltac:(intros; simpl; by rewrite Hoth)). simpl in Hu.
  pose proof (sum_upd (λ c, admin_lag c (env s)) (λ c', if decide (c' = c) then
    admin_lag c w' else admin_lag c' (env s)) c hs Hnd Hc) as Hlu. simpl in Hlu.
  specialize (Hlu ltac:(intros; by rewrite decide_False)). rewrite decide_True in Hlu by done.
  assert (lags w' ≤ sum_list_with (λ c', if decide (c' = c) then admin_lag c w'
    else admin_lag c' (env s)) hs)%nat as Hle.
  { apply sum_le. intros c'. case_decide as Hd; [by subst|]. by eapply admin_poll_lag. }
  pose proof (admin_poll_lag _ _ _ _ c Hp) as Hlc.
  pose proof (Permutation_length Hperm) as Hlen. rewrite length_app, length_fmap in Hlen.
  eapply wp_weaken; [apply (admin_callbacks_spec c)|]. intros [] s' (Ha&He&Ho).
  simpl in *. unfold books, lags, pendings in *. rewrite He. split_and!.
  - etrans; [by apply admin_any_env|]. by eapply admin_only_any.
  - lia.
  - lia.
  - destruct (decide (admin_pending c (env s) = [])) as [Hn|Hn]; [right|left].
    + split; [done|]. intros c'. destruct (decide (c' = c)) as [->|]; [|by apply Hoth].
      rewrite Hn in Hperm |- *. apply Permutation_nil_l in Hperm. symmetry in Hperm.
      by apply app_nil in Hperm as [_ ?].
    + pose proof (admin_poll_progress _ _ _ _ Hp Hn). lia.
Qed.

Lemma ctrlr_at_wp p c s Q E : ctrlrs s !! p = Some c → Q c s → wp (ctrlr_at p) Q E s.
Proof. intros Hc HQ. apply wp_bind, wp_get. by eapply wp_of_option. Qed.

Definition handles s : Prop := ∀ p, p ∈ g_controllers s → ∃ c,
  ctrlrs s !! p = Some c ∧ c_ctrlr c ∈ hs.

Lemma handles_any s s' : admin_any s s' → handles s → handles s'.
Proof.
  intros (_&_&_&_&Hc&Hg&_)%admin_any_globals Hh p. rewrite Hc, Hg. apply Hh.
Qed.
(** Every controller of [hs] has an entry in the queue. *)
Definition covered s : Prop := ∀ c, c ∈ hs → ∃ p e,
  p ∈ g_controllers s ∧ ctrlrs s !! p = Some e ∧ c_ctrlr e = c.

Lemma covered_any s s' : admin_any s s' → covered s → covered s'.
Proof.
  intros (_&_&_&_&Hc&Hg&_)%admin_any_globals Hh c. rewrite Hc, Hg. apply Hh.
Qed.

Definition poll_all : M (prog W X) () :=
  s ← get; foreach (g_controllers s) (λ p,
    c ← ctrlr_at p; process_admin_completions (c_ctrlr c)).

(** One round over all controllers brings the answers nearer. *)
Lemma poll_all_spec E s : books s → handles s → covered s →
  outstanding_commands (g_arbitration s) ≠ 0 →
  wp poll_all (λ _ s', admin_any s s' ∧ books s' ∧ (lags (env s') < lags (env s))%nat) E s.
Proof.
  intros Hb Hh Hcov Ho. unfold poll_all. apply wp_bind, wp_get.
  eapply wp_weaken; [apply (wp_foreach _ (λ pre s', admin_any s s' ∧ books s' ∧
    (lags (env s') ≤ lags (env s))%nat ∧ ((lags (env s') < lags (env s))%nat ∨
    (∀ c', admin_pending c' (env s') = admin_pending c' (env s)) ∧
    ∀ p e, p ∈ pre → ctrlrs s !! p = Some e → admin_pending (c_ctrlr e) (env s) = [])))|..].
  - intros pre p rest s' Hl (Ha&Hb'&Hle&Hcase).
    destruct (Hh p) as (e&He&Hin); [rewrite Hl; set_solver|]. apply wp_bind.
    eapply ctrlr_at_wp; [by destruct (admin_any_globals _ _ Ha) as (_&_&_&_&->&_)|].
    eapply wp_weaken; [by apply poll_one_spec|]. intros [] s'' (Ha'&Hb''&Hle'&Hcase').
    split_and!; [by etrans|done|lia|].
    destruct Hcase as [?|[Hsame Hpre]]; [left; lia|].
    destruct Hcase' as [?|[Hnil Hsame']]; [left; lia|right]. split.
    + intros c'. by rewrite Hsame', Hsame.
    + intros p' e' [Hp'| ->%list_elem_of_singleton]%elem_of_app He'; [by eapply Hpre|].
      simplify_eq. by rewrite <-Hsame.
  - split_and!; [done|done|lia|right]. split; [done|set_solver].
  - intros [] s' (Ha&Hb'&Hle&[?|[Hsame Hall]]); [by split_and!|exfalso].
    apply Ho. rewrite Hb. unfold pendings.
    assert (∀ l, (∀ c, c ∈ l → c ∈ hs) →
      sum_list_with (λ c, length (admin_pending c (env s))) l = O) as Hz; [|by rewrite Hz].
    induction l as [|c l IH]; intros Hl; simpl; [done|].
    destruct (Hcov c) as (p&e&Hp&He&<-); [apply Hl; by left|].
    rewrite (Hall p e Hp He). simpl. apply IH. intros; apply Hl; by right.
Qed.

Lemma wait_all_spec s : books s → handles s → covered s →
  twp (λ fuel, while fuel outstanding poll_all) (λ _ s', admin_any s s' ∧ books s' ∧
    outstanding_commands (g_arbitration s') = 0) (λ _ _, False) s.
Proof.
  intros Hb Hh Hcov. eapply twp_weaken; [apply (twp_while _ _
    (λ s', admin_any s s' ∧ books s') (λ s', lags (env s')))|].
  - intros s' [Ha Hb'] Ho%bool_decide_eq_true. eapply wp_weaken; [apply poll_all_spec; try done|].
    + by eapply handles_any.
    + by eapply covered_any.
    + intros [] s'' (?&?&?). split; [split; [by etrans|done]|done].
  - done.
  - intros [] s' [[??] Ho%bool_decide_eq_false]. split_and!; [done|done|lia].
Qed.

(** Calls that only read. *)
Lemma collect_pure {A B} (l : list A) (f : A → M (prog W X) (list B)) g s :
  (∀ a, a ∈ l → f a s = Done (g a) s) → collect l f s = Done (l ≫= g) s.
Proof.
  induction l as [|a l IH]; intros Hf; simpl; [done|]. unfold mbind, M_bind in *.
  rewrite Hf by (by left). by rewrite IH by (intros; apply Hf; by right).
Qed.

Lemma print_latency_spec lp s : accepts (W := W) → books s → handles s → covered s →
  twp (λ fuel, print_latency_statistics fuel lp) (λ _ s', admin_any s s' ∧ books s' ∧
    outstanding_commands (g_arbitration s') = 0) (λ _ _, False) s.
Proof.
  intros Hacc Hb Hh Hcov. unfold print_latency_statistics.
  apply twp_bind_wp, wp_get, twp_bind_wp.
  eapply wp_weaken; [apply (wp_foreach_inv _ (λ s', admin_any s s' ∧ books s'))|..].
  - intros p s' Hp [Ha Hb']. destruct (Hh p Hp) as (e&He&Hin). apply wp_bind.
    eapply ctrlr_at_wp; [by destruct (admin_any_globals _ _ Ha) as (_&_&_&_&->&_)|].
    apply wp_bind, wp_get. destruct (log_page_supported _ _ _); [|by apply wp_skip].
    apply wp_bind, wp_call. intros rc w' Hs. pose proof (Hacc _ _ _ _ _ Hs) as ->.
    rewrite decide_False by lia. apply wp_modify.
    split; [|by eapply books_send]. etrans; [exact Ha|].
    destruct (admin_submit_ok _ _ _ _ Hs) as [_ Hv].
    exists w', (arb_feature s'). eexists. by destruct s'.
  - done.
  - intros [] s1 [Ha1 Hb1].
    apply (twp_bind (λ fuel, while fuel outstanding poll_all)).
    eapply twp_weaken; [apply wait_all_spec; [done|by eapply handles_any|by eapply covered_any]|].
    intros [] s2 (Ha2&Hb2&Ho2). apply twp_wp, wp_bind, wp_get.
    assert (admin_any s s2) as Ha by (by etrans).
    destruct (admin_any_globals _ _ Ha) as (_&_&_&_&Hc&Hg&_).
    unfold wp. rewrite (collect_pure _ _ (λ p, match ctrlrs s !! p with
      | Some c => if log_page_supported (c_ctrlr c) lp (env s2)
          then [(p, print_latency_page (log_page (c_ctrlr c) lp (env s2)))] else []
      | None => [] end)); [by split_and!|].
    intros p Hp. rewrite Hg in Hp. destruct (Hh p Hp) as (e&He&_).
    unfold ctrlr_at, mbind, M_bind. simpl. by rewrite Hc, He.
Qed.
End admins.

(** ** The end of the program *)
Section ends.
Context {W X : Type} `{!Spdk W Z} `{!SpdkView W Z} `{!SpdkLaws W Z}.
Context `{!SpdkAdmin W} `{!SpdkAdminView W} `{!SpdkAdminLaws W Z}.
Implicit Types (s : prog W X).

(** The rows of [print_performance]. *)
Definition perf_rows s : list (Z * Z) :=
  g_workers s ≫= λ w, match workers s !! w with
  | None => []
  | Some wt => w_ns_ctx wt ≫= λ p, match ctxs s !! p with
    | None => []
    | Some c => [(lcore wt, io_completed c)]
    end
  end.

(** Every context of a worker is there, with its entry. *)
Definition printable s : Prop := ∀ w, w ∈ g_workers s → ∃ wt, workers s !! w = Some wt ∧
  ∀ p, p ∈ w_ns_ctx wt → ∃ c, ctxs s !! p = Some c ∧ is_Some (entries s !! entry c).

Lemma print_performance_eq s : printable s → print_performance s = Done (perf_rows s) s.
Proof.
  intros Hp. unfold print_performance, perf_rows. apply collect_pure.
  intros w Hw. destruct (Hp w Hw) as (wt&Hwt&Hctx).
  assert (worker_at w s = Done wt s) as Hat
    by (unfold worker_at, mbind, M_bind; simpl; by rewrite Hwt).
  unfold mbind at 1, M_bind at 1. rewrite Hat, Hwt.
  apply collect_pure. intros p Hpp. destruct (Hctx p Hpp) as (c&Hc&e&He).
  unfold ctx_at, entry_at, mbind, M_bind. simpl. rewrite Hc. simpl. by rewrite He.
Qed.

(** The controllers behind the queue, each once. *)
Definition handle_list s : list Z :=
  remove_dups (omap (λ p, c_ctrlr <$> ctrlrs s !! p) (g_controllers s)).

Lemma elem_of_handle_list s c : c ∈ handle_list s ↔ ∃ p e,
  p ∈ g_controllers s ∧ ctrlrs s !! p = Some e ∧ c_ctrlr e = c.
Proof.
  unfold handle_list. rewrite elem_of_remove_dups, list_elem_of_omap. split.
  - intros (p&Hp&Hc). destruct (ctrlrs s !! p) as [e|] eqn:He; simplify_eq/=. eauto.
  - intros (p&e&Hp&He&<-). exists p. by rewrite He.
Qed.

Lemma handle_list_handles s : settled s → handles (handle_list s) s.
Proof.
  intros Hs p Hp. destruct (se_ctrlr _ Hs p Hp) as (c&Hc&_). exists c.
  split; [done|]. apply elem_of_handle_list. eauto.
Qed.

Lemma handle_list_covered s : covered (handle_list s) s.
Proof. intros c (p&e&?&?&?)%elem_of_handle_list. eauto 6. Qed.

Lemma settled_books s : settled s → books (handle_list s) s.
Proof.
  intros Hs. unfold books, pendings. rewrite (se_out _ Hs).
  assert (∀ l, (∀ c, c ∈ l → c ∈ handle_list s) →
    sum_list_with (λ c, length (admin_pending c (env s))) l = O) as Hz; [|by rewrite Hz].
  induction l as [|c l IH]; intros Hl; simpl; [done|].
  assert (c ∈ handle_list s) as (p&e&Hp&He&<-)%elem_of_handle_list by (apply Hl; by left).
  destruct (se_ctrlr _ Hs p Hp) as (e'&He'&Hn). simplify_eq. rewrite Hn. simpl.
  apply IH. intros; apply Hl; by right.
Qed.

Lemma books_settled hs s : books hs s → handles hs s →
  outstanding_commands (g_arbitration s) = 0 → NoDup (g_controllers s) → settled s.
Proof.
  intros Hb Hh Ho Hnd. split; [done|done|]. intros p Hp.
  destruct (Hh p Hp) as (c&Hc&Hin). exists c. split; [done|].
  apply length_zero_iff_nil. unfold books in Hb. rewrite Ho in Hb.
  apply (sum_zero (λ c, length (admin_pending c (env s))) hs); [done|].
  unfold pendings in Hb. lia.
Qed.

Lemma print_latency_settled lp s : accepts (W := W) → settled s →
  twp (λ fuel, print_latency_statistics fuel lp) (λ _ s', admin_any s s' ∧ settled s')
    (λ _ _, False) s.
Proof.
  intros Hacc Hs. eapply twp_weaken; [apply (print_latency_spec (handle_list s));
    [apply NoDup_remove_dups|done|by apply settled_books|by apply handle_list_handles|
     apply handle_list_covered]|].
  intros r s' (Ha&Hb&Ho). split; [done|]. eapply (books_settled (handle_list s)); try done.
  - by eapply handles_any, handle_list_handles.
  - destruct (admin_any_globals _ _ Ha) as (_&_&_&_&_&->&_). apply Hs.
Qed.

Lemma print_latencies_spec s : accepts (W := W) → settled s →
  twp print_latencies (λ _ s', admin_any s s' ∧ settled s') (λ _ _, False) s.
Proof.
  intros Hacc Hs. unfold print_latencies. apply twp_bind_wp, wp_get.
  case_decide; [by apply twp_wp, wp_skip|].
  assert (∀ (b : Prop) `{Decision b} lp s', settled s' →
    twp (λ fuel, if decide b then _ ← print_latency_statistics fuel lp; skip else skip)
      (λ _ s'', admin_any s' s'' ∧ settled s'') (λ _ _, False) s') as Hone.
  { intros b Hb lp s' Hs'. case_decide; [|by apply twp_wp, wp_skip].
    apply (twp_bind (λ fuel, print_latency_statistics fuel lp) (λ _ _, skip)).
    eapply twp_weaken; [by apply print_latency_settled|].
    intros r s'' ?. by apply twp_wp, wp_skip. }
  apply twp_bind. eapply twp_weaken; [by apply Hone|]. intros [] s1 [Ha1 Hs1].
  eapply twp_weaken; [by apply Hone|]. intros [] s2 [Ha2 Hs2].
  split; [by etrans|done].
Qed.

Lemma print_stats_spec s : accepts (W := W) → settled s → printable s →
  twp print_stats (λ r s', r = perf_rows s ∧ admin_any s s' ∧ settled s') (λ _ _, False) s.
Proof.
  intros Hacc Hs Hp. unfold print_stats. apply twp_bind_wp.
  unfold wp. rewrite print_performance_eq by done. apply twp_bind.
  eapply twp_weaken; [by apply print_latencies_spec|].
  intros [] s1 ?. by apply twp_wp, wp_ret.
Qed.

(** Detaching the controllers one by one: the rest of the queue stays settled. *)
Definition detached s (pre : list Z) s' : Prop :=
  g_controllers s = pre ++ g_controllers s' ∧ settled s' ∧
  g_namespaces s' = g_namespaces s ∧ g_workers s' = g_workers s ∧
  workers s' = workers s ∧ view (env s') = view (env s).

(** Waiting for the end of the detachment. *)
Lemma detach_wait_spec s pre s' : detached s pre s' →
  twp (λ fuel, poll_while fuel (call nvme_detach_poll)) (λ _ s', detached s pre s') (λ _ _, False) s'.
Proof.
  intros Hd. apply (twp_poll_while _ _ (λ s', detach_lag (env s'))); [|done].
  clear s' Hd. intros s1 (Hg&Hs1&?&?&?&Hv). apply wp_call. intros again w' Hp.
  destruct (nvme_detach_poll_law (T := Z) _ _ _ Hp) as (Hv'&Ha&Hlt). split; [|done].
  split_and!; simpl; try done; [|congruence]. split; [apply Hs1|apply Hs1|].
  intros p' Hp'. destruct (se_ctrlr _ Hs1 p' Hp') as (c&?&Hc). exists c. split; [done|].
  simpl. by rewrite Ha.
Qed.

Lemma unregister_controllers_spec s : accepts (W := W) → settled s →
  twp unregister_controllers (λ _ s', g_controllers s' = [] ∧ detached s (g_controllers s) s')
    (λ _ _, False) s.
Proof.
  intros Hacc Hs. unfold unregister_controllers. apply twp_bind_wp, wp_get.
  apply (twp_bind (λ fuel, foreach (g_controllers s) (λ p, _)) (λ fuel _, _)).
  eapply twp_weaken; [apply (twp_foreach _ (detached s))|].
  - intros pre p rest s1 Hl (Hg&Hs1&Hn1&Hw1&Hwk1&Hv1).
    rewrite Hl in Hg. apply app_inv_head in Hg.
    destruct (se_ctrlr _ Hs1 p) as (c&Hc&Hpc); [rewrite <-Hg; by left|].
    apply twp_bind_wp, wp_modify, twp_bind_wp, wp_get, twp_bind_wp.
    eapply wp_of_option; [done|]. set (s2 := set_g_controllers tail s1).
    assert ((p ∉ rest) ∧ NoDup rest) as [Hp Hnd]
      by (apply NoDup_cons; rewrite Hg; apply Hs1).
    apply twp_bind. eapply (twp_mono _ (λ _ s', admin_only (c_ctrlr c) s2 s' ∧
      quiescent (c_ctrlr c) s') _ (λ _ _, False)); [|intros [] s3 [Ha Hq]|done].
    { case_decide; [by apply set_latency_tracking_spec; [|split; [apply Hs1|]]|].
      apply twp_wp, wp_skip. split; [apply admin_only_refl|split; [apply Hs1|done]]. }
    apply twp_wp, wp_bind, wp_modify, wp_modify.
    pose proof (nvme_detach_law (T := Z) (c_ctrlr c) (env s3)) as [Hdv Hdp].
    destruct Ha as (w&f&o&->&Hv&Hoth), Hq as [Ho Hq]. simpl in *.
    split_and!; simpl; rewrite ?Hdv; try congruence.
    + rewrite Hl, <-Hg. simpl. by rewrite <-app_assoc.
    + split; simpl; [done|by rewrite <-Hg|]. rewrite <-Hg. simpl. intros p' Hp'.
      destruct (se_ctrlr _ Hs1 p') as (c'&Hc'&Hpc'); [rewrite <-Hg; by right|].
      exists c'. rewrite lookup_delete_ne by (intros <-; done). split; [done|].
      rewrite Hdp. destruct (decide (c_ctrlr c' = c_ctrlr c)) as [->|Hne]; [done|].
      by rewrite Hoth.
  - by split_and!.
  - intros [] s' Hd. apply twp_bind_wp, wp_get.
    assert (∀ s', detached s (g_controllers s) s' → g_controllers s' = []) as Hnil.
    { intros s1 [Hg _]. rewrite <-(app_nil_r (g_controllers s)) in Hg at 1.
      by apply app_inv_head in Hg. }
    destruct (detaching (env s')); [|apply twp_wp, wp_skip; by split; [apply Hnil|]].
    eapply twp_weaken; [by apply (detach_wait_spec s (g_controllers s))|].
    intros [] s1 Hd1. by split; [apply Hnil|].
Qed.

(** [print_stats] and [zstore_cleanup]: everything is printed, released, and the count of
    the pool is judged. *)
Lemma main_end_spec tc s : accepts (W := W) → settled s → printable s → NoDup (g_workers s) →
  twp (λ fuel, main_end fuel tc) (λ r s', r.1 = perf_rows s ∧
    r.2 = bool_decide (Z.of_nat (size (avail (view (env s)))) = tc) ∧
    g_controllers s' = [] ∧ g_namespaces s' = [] ∧ g_workers s' = []) (λ _ _, False) s.
Proof.
  intros Hacc Hs Hp Hnd. unfold main_end. apply twp_bind.
  eapply twp_weaken; [by apply print_stats_spec|]. intros rows s1 (->&Ha&Hs1).
  destruct (admin_any_globals _ _ Ha) as (_&_&_&Hwk&_&_&_&Hgw&Hv&_).
  apply (twp_bind (λ fuel, zstore_cleanup fuel true tc) (λ _ ok, mret (perf_rows s, ok))).
  unfold zstore_cleanup. apply twp_bind.
  eapply twp_weaken; [by apply unregister_controllers_spec|].
  intros [] s2 (Hc2&_&_&Hn2&Hw2&Hwk2&Hv2). apply twp_bind_wp.
  assert (wp (cleanup true tc) (λ ok s', g_controllers s' = [] ∧ g_namespaces s' = [] ∧
    g_workers s' = [] ∧ ok = bool_decide (Z.of_nat (size (avail (view (env s)))) = tc))
    (λ _ _, False) s2) as Hcl.
  { eapply wp_weaken; [apply cleanup_spec|].
    - by rewrite Hw2, Hgw.
    - intros p. rewrite Hw2, Hgw, Hwk2, Hwk. intros Hin.
      destruct (Hp p Hin) as (wt&?&_). by exists wt.
    - intros ok s3 (?&?&He&?&->). split_and!; try done; [congruence|].
      by rewrite pool_count_law, Hv2, Hv. }
  eapply wp_weaken; [exact Hcl|]. intros ok s3 (?&?&?&->).
  apply twp_bind_wp, wp_modify, twp_wp, wp_ret, twp_wp, wp_ret. by split_and!.
Qed.
End ends.
