(* ===== verification/RegistryProps.v ===== *)
(** * Properties of the set-up

    The theorems about [Registry] that a reader of [main] relies on, with
    concrete runs on the simulated device. *)
From S2P Require Import Prelude Spdk Arb Engine EngineInv EngineSpec Variants Registry.
From S2P Require Import EngineProps RegistrySpec AssocSpec.

(** A machine before [main]: [cores] and the active namespaces of every
    controller; two I/Os per context, time limit 0. *)
Definition boot_arb : arb_context := {|
  shm_id := -1; outstanding_commands := 0; num_namespaces := 0;
  num_workers := 0; rw_percentage := 50; is_random := 0; queue_depth := 2;
  time_in_sec := 0; io_count := 100000; latency_tracking_enable := 0;
  arbitration_mechanism := SPDK_NVME_CC_AMS_WRR; arbitration_config := 1;
  io_size_bytes := 4096; max_completions := 0; tsc_rate := 0; core_mask := "0x3";
  workload_type := "rw" |}.

Definition boot {X} (faulty : bool) (rcs : list Z) (cores nss : list Z)
    : prog (sim faulty Z) X :=
  Prog (Sim (View ∅ ∅ ∅ ∅) 1 [] [] 0 (SimAdmin [] rcs cores nss None)) ∅ ∅ ∅ ∅ ∅ [] [] []
    (Feature 0 false) boot_arb 1.

Lemma boot_blank {X} faulty rcs cores nss : blank (boot (X := X) faulty rcs cores nss).
Proof. by split. Qed.

Lemma boot_registry cores nss :
  registry (view (env (boot (X := ()) false [] cores nss))) (boot (X := ()) false [] cores nss).
Proof. apply blank_registry, boot_blank. Qed.

Lemma sim_has_namespace : has_namespace (W := sim false Z) 4096.
Proof. intros c w. split; [done|]. exists 1. split; [done|]. split; [|split]; done. Qed.

Lemma sim_memory faulty : enough_memory (W := sim faulty Z).
Proof.
  split; simpl.
  - by intros w w' b [= <-].
  - intros n w w' b Hn. unfold sim_pool_create. rewrite decide_True by done. by intros [= <-].
Qed.

Lemma sim_accepts : accepts (W := sim false Z).
Proof. intros c k w w' rc [= <- <-]. done. Qed.

Lemma sim_connects faulty : connects (W := sim faulty Z).
Proof. intros t w w' c [= <- <-]. by eexists. Qed.

Definition boot_ok : prog (sim false Z) () := boot false [] [0; 1] [1].

(** ** The whole set-up *)

(** The set-up of [arbitration.cc] ends well: when memory suffices, the controllers
    answer and each has a namespace that takes the I/O size, and the image of the program
    has what [memcpy] reads behind the host name, [main] terminates without undefined
    behaviour and launches the workers with a pool of
    max(namespaces, workers) * depth tasks, on contexts that satisfy the preconditions of
    [work_fn], each owned by one worker, over entries that cover no more than their namespace;
    there is one worker per core, and no admin command is outstanding. *)
Theorem main_setup_launches {W} `{!Spdk W Z} `{!SpdkView W Z} `{!SpdkLaws W Z}
    `{!SpdkAdmin W} `{!SpdkAdminView W} `{!SpdkAdminLaws W Z} `{!Image} (s : prog W ()) :
  hostnqn_size ≤ literal_bytes g_hostnqn →
  blank s → accepts (W := W) → connects (W := W) → enough_memory (W := W) →
  has_namespace (W := W) (io_size_bytes (g_arbitration s)) → env_cores (env s) ≠ [] →
  ∃ n, ∀ fuel, (n ≤ fuel)%nat → wp (main_setup_arbitration fuel ())
    (λ r s', ∃ tc, r = inr tc ∧ ready () tc s' ∧ on_cores (env_cores (env s)) s')
    (λ code _, code = 1) s.
Proof.
  intros Hl Hb Hacc Hcon Hm Hns Hc. apply twp_elim.
  by apply main_setup_spec; [|apply dev_init_inits| | |].
Qed.

(** An image with a page behind every literal. *)
Definition padded_image : Image := λ _, 4096.

Section padded.
#[local] Existing Instance padded_image.

Lemma main_setup_launches_witness : ∃ n, ∀ fuel, (n ≤ fuel)%nat →
  wp (main_setup_arbitration fuel ()) (λ r s', ∃ tc, r = inr tc ∧ ready () tc s' ∧
      on_cores (env_cores (env boot_ok)) s') (λ code _, code = 1) boot_ok.
Proof.
  apply (main_setup_launches boot_ok).
  - done.
  - apply boot_blank.
  - apply sim_accepts.
  - apply sim_connects.
  - apply sim_memory.
  - apply sim_has_namespace.
  - discriminate.
Defined.
End padded.

(** ** Namespaces *)

(** (C11) [register_ns] registers a namespace exactly when the I/O size fits it, and then the
    entry's I/Os cover no more bytes than the namespace has. *)
Theorem register_ns_fits {W X} `{!Spdk W Z} `{!SpdkView W Z} `{!SpdkLaws W Z}
    `{!SpdkAdmin W} `{!SpdkAdminView W} `{!SpdkAdminLaws W Z} v0 c ns (s : prog W X) :
  registry v0 s →
  wp (register_ns c ns) (λ _ s',
      ¬ ns_fits (W := W) (io_size_bytes (g_arbitration s)) ns ∧ s' = s ∨
      ns_fits (W := W) (io_size_bytes (g_arbitration s)) ns ∧ ∃ p e,
        g_namespaces s' = g_namespaces s ++ [p] ∧ entries s' !! p = Some e ∧
        e_ns e = ns ∧ e_ctrlr e = c ∧
        size_in_ios e * io_size_blocks e * ns_get_sector_size (W := W) ns
          ≤ ns_get_size (W := W) ns ∧
        num_namespaces (g_arbitration s') = num_namespaces (g_arbitration s) + 1)
    (λ code _, code = 1) s.
Proof.
  intros Hr. eapply wp_weaken; [by eapply register_ns_spec|].
  intros [] s' (_&_&_&_&[?|(Hf&p&e&?&?&<-&?&[_ ?]&Hg)]); [by left|right].
  split; [done|]. exists p, e. by rewrite Hg.
Qed.

Lemma register_ns_fits_witness : ∃ s', register_ns 0 1 boot_ok = Done tt s' ∧
  length (g_namespaces s') = 1%nat.
Proof.
  pose proof (register_ns_fits _ 0 1 boot_ok (boot_registry _ _)) as H1.
  unfold wp in H1. revert H1.
  destruct (register_ns 0 1 boot_ok) as [[] s'| | |] eqn:E; intros H1;
    [|vm_compute in E; discriminate|destruct H1|destruct H1].
  exists s'. split; [reflexivity|].
  destruct H1 as [[Hnf _]|(_&p&e&Hn&_)]; [|by rewrite Hn].
  exfalso. apply Hnf. split; [|split]; by vm_compute.
Defined.

(** ** Association and workers *)

(** (C12) [associate_workers_with_ns] is round robin: context [i] drives namespace
    [i mod n], and the contexts of worker [j] are those with [i mod m = j], in order. *)
Theorem associate_round_robin {W} `{!Spdk W Z} `{!SpdkView W Z} `{!SpdkLaws W Z}
    `{!SpdkAdmin W} `{!SpdkAdminView W} `{!SpdkAdminLaws W Z} v0 count (s : prog W ()) :
  registry v0 s → g_namespaces s ≠ [] → g_workers s ≠ [] → enough_memory (W := W) →
  wp (associate_workers_with_ns () count) (λ rc s', rc = 0 ∧
      let ps := seqZ (next_ptr s) (Z.of_nat count) in
      (∀ i p, ps !! i = Some p → ∃ e,
         g_namespaces s !! (i mod length (g_namespaces s))%nat = Some e ∧
         ctxs s' !! p = Some (NsWorkerCtx e 0 0 0 false None ())) ∧
      (∀ j w, g_workers s !! j = Some w → ∃ wt, workers s' !! w = Some wt ∧
         w_ns_ctx wt = share (length (g_workers s)) j 0 ps)) (λ _ _, False) s.
Proof.
  intros Hr Hns Hwk Hm. unfold associate_workers_with_ns. apply wp_bind, wp_get.
  assert (∀ l : list Z, l ≠ [] → head l = l !! (0 mod length l)%nat) as Hhead
    by (intros [|x l] ?; [done|]; by rewrite Nat.Div0.mod_0_l).
  rewrite (Hhead _ Hns), (Hhead _ Hwk).
  eapply wp_weaken; [apply (associate_loop_spec () count 0 s); [apply Hr..|done]|].
  intros rc s1 [[-> (w&w'&Hw)]|[-> [[? _]|Ha]]]; [|done|split; [done|split]].
  - by pose proof (mem_malloc Hm _ _ _ Hw).
  - intros i p Hi. apply (as_ctx _ _ _ _ _ Ha _ _ Hi).
  - intros j w Hj. destruct (re_wk _ _ Hr w) as [wt Hwt]; [by eapply list_elem_of_lookup_2|].
    eexists. split; [by apply (as_worker _ _ _ _ _ Ha _ _ _ Hj Hwt)|]. simpl.
    by destruct (re_wk_all _ _ Hr _ _ Hwt) as [-> _].
Qed.

(** Two cores and one namespace have been registered. *)
Definition boot_registered : prog (sim false Z) () :=
  Prog (env boot_ok) ∅ ∅ {[ 3 := NsEntry 0 1 8 256 ]}
    {[ 1 := WorkerThread [] 0 1; 2 := WorkerThread [] 1 2 ]} ∅ [] [3] [1; 2]
    (Feature 0 false) (set_num_namespaces 1 (set_num_workers 2 boot_arb)) 4.

Lemma boot_registered_registry : registry (view (env boot_ok)) boot_registered.
Proof.
  split; simpl; try done.
  - intros p Hp. rewrite !lookup_insert_ne by lia. by rewrite !lookup_singleton_ne by lia.
  - set_solver.
  - constructor.
  - intros p ->%list_elem_of_singleton. exists (NsEntry 0 1 8 256).
    rewrite lookup_singleton_eq. split; [done|]. by split; [split; [split|]|].
  - apply NoDup_singleton.
  - intros p [->| ->%list_elem_of_singleton]%elem_of_cons.
    + by rewrite lookup_insert_eq.
    + rewrite lookup_insert_ne by done. by rewrite lookup_singleton_eq.
  - apply NoDup_cons. split; [set_solver|apply NoDup_singleton].
  - intros p wt [[<- <-]|[_ H1]]%lookup_insert_Some; [set_solver|].
    apply lookup_singleton_Some in H1 as [<- <-]. set_solver.
Qed.

Lemma associate_round_robin_witness : ∃ s',
  associate_workers_with_ns () 3 boot_registered = Done 0 s' ∧
  (∀ j w, g_workers boot_registered !! j = Some w → ∃ wt, workers s' !! w = Some wt ∧
     w_ns_ctx wt = share 2 j 0 [4; 5; 6]).
Proof.
  pose proof (associate_round_robin (view (env boot_ok)) 3 boot_registered
    boot_registered_registry ltac:(discriminate) ltac:(discriminate) (sim_memory _)) as H1.
  unfold wp in H1. revert H1.
  destruct (associate_workers_with_ns () 3 boot_registered) as [rc s'| | |];
    intros H1; [|destruct H1..].
  destruct H1 as [-> [_ H2]]. exists s'. split; [reflexivity|exact H2].
Defined.

(** (C13) [register_workers] creates one worker per core, in order.  Under weighted round
    robin the priority counts up before it is assigned: core [i] gets priority
    [(i + 1) mod 4], so the first core is not the urgent one but the high one; otherwise
    every worker is urgent. *)
Theorem register_workers_priorities {W X} `{!Spdk W Z} `{!SpdkView W Z} `{!SpdkLaws W Z}
    `{!SpdkAdmin W} `{!SpdkAdminView W} `{!SpdkAdminLaws W Z} v0 (s : prog W X) :
  registry v0 s → enough_memory (W := W) →
  wp register_workers (λ rc s', rc = 0 ∧ ∃ ps, g_workers s' = g_workers s ++ ps ∧
      length ps = length (env_cores (env s)) ∧
      ∀ i p c, ps !! i = Some p → env_cores (env s) !! i = Some c →
        workers s' !! p = Some (WorkerThread [] c
          (if is_wrr s then (Z.of_nat i + 1) mod 4 else 0))) (λ _ _, False) s.
Proof.
  intros Hr Hm. unfold register_workers. apply wp_bind, wp_get.
  eapply wp_weaken; [by apply register_cores_spec|].
  intros rc s1 [[-> (w&w'&Hw)]|(->&_&_&_&_&_&ps&Hps&Hrows&_)].
  { by pose proof (mem_malloc Hm _ _ _ Hw). }
  split; [done|]. exists ps. split; [done|].
  pose proof (Forall2_length _ _ _ Hrows) as Hl. unfold worker_rows in Hl, Hrows.
  rewrite length_imap in Hl. split; [done|]. intros i p c Hp Hc.
  eapply Forall2_lookup_l in Hp as (wt&Hwt&Hpw); [|exact Hrows].
  rewrite list_lookup_imap, Hc in Hwt. simplify_eq/=. rewrite Hpw. unfold worker_prio.
  by destruct (is_wrr s).
Qed.

Lemma register_workers_priorities_witness : ∃ s',
  register_workers boot_ok = Done 0 s' ∧ ∃ p, workers s' !! p = Some (WorkerThread [] 0 1).
Proof.
  pose proof (register_workers_priorities _ boot_ok (boot_registry _ _) (sim_memory _)) as H1.
  unfold wp in H1. revert H1.
  destruct (register_workers boot_ok) as [rc s'| | |] eqn:E; intros H1;
    [|destruct H1|destruct H1|destruct H1].
  destruct H1 as (->&ps&_&Hl&Hps). exists s'. split; [reflexivity|].
  destruct ps as [|p ps]; [discriminate Hl|]. exists p.
  by apply (Hps 0%nat p 0).
Defined.

(** ** The arbitration feature *)

(** When the controller takes admin commands and nothing is outstanding,
    [get_arb_feature] and [set_arb_feature] terminate, leave nothing outstanding and change
    nothing but the feature record and the environment, where the admin queues of the other
    controllers stay as they are; [set_arb_feature] returns 0. *)
Theorem arb_feature_returns {W X} `{!Spdk W Z} `{!SpdkView W Z} `{!SpdkAdmin W}
    `{!SpdkAdminView W} `{!SpdkAdminLaws W Z} c (s : prog W X) :
  accepts (W := W) → quiescent c s → ∃ n, ∀ fuel, (n ≤ fuel)%nat →
    wp (get_arb_feature fuel c) (λ _ s', admin_only c s s' ∧ quiescent c s') (λ _ _, False) s ∧
    wp (set_arb_feature fuel c) (λ rc s', rc = 0 ∧ admin_only c s s' ∧ quiescent c s')
      (λ _ _, False) s.
Proof.
  intros Hacc Hq.
  destruct (twp_elim _ _ _ _ (get_arb_feature_spec c s Hacc Hq)) as [n1 H1].
  destruct (twp_elim _ _ _ _ (set_arb_feature_spec c s Hacc Hq)) as [n2 H2].
  exists (n1 `max` n2)%nat. intros fuel Hf. split; [apply H1|apply H2]; lia.
Qed.

Lemma arb_feature_returns_witness : ∃ n, ∀ fuel, (n ≤ fuel)%nat →
  wp (get_arb_feature fuel 7) (λ _ s', admin_only 7 boot_ok s' ∧ quiescent 7 s')
    (λ _ _, False) boot_ok ∧
  wp (set_arb_feature fuel 7) (λ rc s', rc = 0 ∧ admin_only 7 boot_ok s' ∧ quiescent 7 s')
    (λ _ _, False) boot_ok.
Proof. apply (arb_feature_returns 7 boot_ok); [apply sim_accepts|by split]. Defined.

(** [get_arb_feature] does not look at the result of its command: when the controller
    refuses it and nothing else is pending, the loop waits for ever. *)
Theorem get_arb_feature_hangs {W X} `{!Spdk W Z} `{!SpdkView W Z} `{!SpdkAdmin W}
    `{!SpdkAdminView W} `{!SpdkAdminLaws W Z} c (s : prog W X) rc w' :
  admin_submit c (get_features SPDK_NVME_FEAT_ARBITRATION) (env s) = (rc, w') → rc ≠ 0 →
  admin_pending c (env s) = [] → outstanding_commands (g_arbitration s) = 0 →
  ∀ fuel, get_arb_feature fuel c s = Spin.
Proof.
  intros Hs Hrc Hp Ho fuel. destruct (admin_submit_failed _ _ _ _ _ Hs Hrc) as [Hp' _].
  unfold get_arb_feature, get_feature, call, increment_outstanding, g_upd, modify, mbind, M_bind.
  simpl. rewrite Hs.
  apply (admin_wait_hangs c); simpl; [lia|congruence].
Qed.

Lemma get_arb_feature_hangs_witness :
  get_arb_feature 100 7 (boot (X := ()) true [5] [0] [1]) = Spin.
Proof.
  by eapply (get_arb_feature_hangs 7 (boot (X := ()) true [5] [0] [1]) 5).
Defined.

(** The arbitration burst and the three weights that [set_arb_feature] packs into
    command dword 11 are what the bit fields of [spdk_nvme_feat_arbitration] read back, each
    truncated to the width of its field. *)
Theorem arbitration_raw_fields ab lpw mpw hpw :
  raw_ab (arbitration_raw ab lpw mpw hpw) = ab mod 8 ∧
  raw_lpw (arbitration_raw ab lpw mpw hpw) = lpw mod 256 ∧
  raw_mpw (arbitration_raw ab lpw mpw hpw) = mpw mod 256 ∧
  raw_hpw (arbitration_raw ab lpw mpw hpw) = hpw mod 256 ∧
  0 ≤ arbitration_raw ab lpw mpw hpw < 2 ^ 32.
Proof.
  unfold raw_ab, raw_lpw, raw_mpw, raw_hpw, arbitration_raw.
  change 7 with (Z.ones 3). change 255 with (Z.ones 8). rewrite !Z.land_ones by lia.
  assert (∀ x n, 0 ≤ n → Z.shiftl x n = x * 2 ^ n) as Hsh by (intros; by apply Z.shiftl_mul_pow2).
  pose proof (Z.mod_pos_bound ab (2 ^ 3) ltac:(lia)). pose proof (Z.mod_pos_bound lpw (2 ^ 8) ltac:(lia)).
  pose proof (Z.mod_pos_bound mpw (2 ^ 8) ltac:(lia)). pose proof (Z.mod_pos_bound hpw (2 ^ 8) ltac:(lia)).
  rewrite !Hsh, !Z.lor_assoc by lia.
  rewrite (lor_above 8), (lor_above 16), (lor_above 24) by lia.
  rewrite !Z.shiftr_div_pow2 by lia.
  repeat split; try lia; Z.to_euclidean_division_equations; lia.
Qed.

(** ** What goes wrong *)

(** (C20) A worker of [arbitration_rdma.cc] whose contexts want more tasks than the pool
    holds never measures anything: on every device, [work_fn] returns 1 or the process exits
    with code 1. *)
Theorem short_pool_exits {W} `{!Spdk W Z} `{!SpdkView W Z} `{!SpdkLaws W Z}
    pool (s : prog W ()) w wt fuel :
  inv pool in_namespace s → opened s → workers s !! w = Some wt →
  NoDup (w_ns_ctx wt) → (∀ p, p ∈ w_ns_ctx wt → idle_ctx s p) →
  Z.of_nat (size (avail (view (env s)))) <
    Z.of_nat (length (w_ns_ctx wt)) * queue_depth (g_arbitration s) →
  wp (work_fn v_arbitration_rdma fuel w) (λ rc _, rc = 1) (λ code _, code = 1) s.
Proof.
  pose proof (trivial_extra (W := W) v_arbitration_rdma ltac:(done) eq_refl) as Hx.
  intros. eapply work_fn_short; eauto. exact v_arbitration_ok.
Qed.

Lemma demo_short_inv : inv {[ 50 ]} in_namespace (demo (X := ()) false {[ 50 ]} [] ()).
Proof.
  apply inv_initial; try done.
  - intros p1 p2 c1 c2 q H1 H2. singleton H1. by singleton H2.
  - intros p c H1. singleton H1. split; [done|]. by exists demo_entry.
Qed.

Lemma short_pool_exits_witness :
  wp (work_fn v_arbitration_rdma 100 3) (λ rc _, rc = 1) (λ code _, code = 1)
    (demo (X := ()) false {[ 50 ]} [] ()).
Proof.
  apply (short_pool_exits {[ 50 ]} (demo (X := ()) false {[ 50 ]} [] ()) 3
    (WorkerThread [2] 0 0) 100).
  - apply demo_short_inv.
  - intros p c q H1. by singleton H1.
  - reflexivity.
  - apply NoDup_singleton.
  - intros p ->%list_elem_of_singleton. by eexists.
  - reflexivity.
Defined.

(** One core and one namespace: the two contexts that [arbitration_rdma.cc] always makes
    share a pool that [main] has sized for one. *)
Definition boot_small : prog (sim false Z) () := boot false [] [0] [1].

Section small.
#[local] Existing Instance padded_image.

Definition run_small : option (Z * outcome (prog (sim false Z) ()) Z) :=
  match main_setup_rdma 10 () boot_small with
  | Done (inr tc) s =>
      match g_workers s with
      | [w] => Some (tc, work_fn v_arbitration_rdma 10 w s)
      | _ => None
      end
  | _ => None
  end.

(** The count of contexts is fixed to two after the maximum has been computed: on a
    machine with one core and one namespace the set-up of [arbitration_rdma.cc] succeeds with
    a pool of [queue_depth] tasks, and the worker then exits with code 1. *)
Theorem rdma_pool_exhausted : ∃ s', run_small = Some (2, Exited 1 s').
Proof. eexists. vm_compute. reflexivity. Qed.
End small.

(** (C14) Every failure of the set-up before the pool exists ends in undefined behaviour (or
    earlier, or never): [main] counts the tasks of a null pool, so it never returns its error
    code. *)
Theorem setup_failure_undefined {W X} `{!Spdk W Z} `{!SpdkAdmin W} init fuel (x0 : X) count
    (s : prog W X) rc s' :
  main_setup init fuel x0 count s ≠ Done (inl rc) s'.
Proof.
  intros (?&?&_&H)%bind_done. apply bind_done in H as (?&?&_&H).
  apply bind_done in H as (?&?&_&H). case_decide; [by apply abandon_never in H|].
  apply bind_done in H as (?&?&_&H). case_decide; [by apply abandon_never in H|].
  apply bind_done in H as (?&?&_&H). case_decide; [by apply abandon_never in H|].
  apply bind_done in H as (?&?&_&H). apply bind_done in H as (ok&?&_&H).
  destruct ok; [done|by apply abandon_never in H].
Qed.

(** ** Clean-up *)


