(* ===== verification/ProgramProps.v ===== *)
(** * Properties of the whole program

    The set-up, the workers and the end of [arbitration.cc] together: what [main]
    promises on a machine that is blank when it starts, for any number of cores and
    any interleaving of the workers. *)
From S2P Require Import Prelude Spdk Arb Engine EngineInv EngineSpec Variants Workers Schedule.
From S2P Require Import EngineProps Registry RegistrySpec AssocSpec RegistryProps Program.

(** ** The launch *)
Section launch_spec.
Context {W X : Type} `{!Spdk W Z} `{!SpdkAdmin W}.
Implicit Types (s : prog W X).



End launch_spec.

(** ** From the launch to the end *)
Section runs.
Context {W X : Type} `{!Spdk W Z} `{!SpdkView W Z} `{!SpdkLaws W Z}.
Context `{!SpdkAdmin W} `{!SpdkAdminView W} `{!SpdkAdminLaws W Z}.
Implicit Types (s : prog W X).




(** A program whose engine is the variant [v] and whose added fields start as [x0]. *)
Context (v : variant X) (safe : ns_entry → io_cmd → Prop) (xinv : Z → X → Prop) (x0 : X).
Context (Hv : variant_ok safe v) (Hx : variant_extra (W := W) xinv v) (Hx0 : xinv 0 x0).



End runs.




(** ** One worker *)

(** (C4) [work_fn] refines the step relation: every run of a worker by itself is a
    schedule of the system in which only that worker moves, call by call in the same order,
    from its launch to its return value. *)
Theorem work_fn_refines {W X} `{!Spdk W Z} `{!SpdkView W Z} `{!SpdkLaws W Z}
    (v : variant X) (s s' : prog W X) ws i w wt fuel rc :
  workers s !! w = Some wt →
  ws !! i = Some (WorkerState (w_ns_ctx wt) (qprio wt) (Starting (w_ns_ctx wt))) →
  work_fn v fuel w s = Done rc s' →
  rtc (step v) (s, ws)
    (s', <[i := WorkerState (w_ns_ctx wt) (qprio wt) (Returned rc)]> ws).
Proof.
  intros Hw Hi Hm. assert (i < length ws)%nat as Hlt by (by eapply lookup_lt_Some).
  pose proof (work_fn_steps v ws i (w_ns_ctx wt) (qprio wt) Hlt fuel w wt rc s s' Hw
    eq_refl eq_refl Hm) as Hst.
  unfold on in Hst. by rewrite (list_insert_id ws i) in Hst.
Qed.

Definition demo_run : prog (sim false Z) () :=
  match work_fn v_arbitration 20 3 (demo false demo_pool [] ()) with
  | Done _ s => s | _ => demo false demo_pool [] () end.

Lemma work_fn_refines_witness : rtc (step v_arbitration)
  (demo false demo_pool [] (), launched (demo false demo_pool [] ()))
  (demo_run, [WorkerState [2] 0 (Returned 0)]).
Proof.
  apply (work_fn_refines v_arbitration (demo false demo_pool [] ()) demo_run
    (launched (demo false demo_pool [] ())) 0 3 (WorkerThread [2] 0 0) 20);
    vm_compute; reflexivity.
Defined.
