(* ===== verification/Measurement.v ===== *)
(** * The measurement program

    [measurement.cc]: the engine of [arbitration_read.cc] in a program of its own, with
    the set-up of the store taken from a header.  [zns_device.h] is not in the repository:
    its constant [append_times] and its functions [init_ns_worker_ctx],
    [cleanup_ns_worker_ctx], [register_workers], [register_controllers],
    [associate_workers_with_ns] and [zstore_cleanup] are parameters.  The members of its
    structures that the code uses are those of [Arb]: [g_zstore] is an [arb_context] (it
    has no member [is_random], and the code never looks at one), a context has the stamps
    of [Variants]. *)
From S2P Require Import Prelude Spdk Arb Engine EngineInv EngineSpec Variants Workers Schedule.
From S2P Require Import Registry Program.

(** [work_fn] clears [stimes] twice and [etimes] never. *)
Definition report_measurement (x : stamps) : option stamps :=
  _ ← deltas1 (stimes x) (etimes x);
  Some (Stamps (stime x) (etime x) [] (etimes x)).

Section measurement.
Context {W : Type} `{!Spdk W Z}.
Context (append_times : Z).
Context (init_ns_worker_ctx_m : Z → M (prog W stamps) Z).
Context (cleanup_ns_worker_ctx_m : Z → M (prog W stamps) ()).
Implicit Types (s : prog W stamps) (c : ns_worker_ctx stamps).

Definition submit_single_io_m (p : Z) : M (prog W stamps) () :=
  task ← call pool_get;
  match task with
  | None => exit 1
  | Some t =>
      s ← get;
      b ← call (dma_zmalloc (io_size_bytes (g_arbitration s)));
      match b with
      | None => effect (pool_put t);; exit 1
      | Some b =>
          modify (set_tasks <[t := ArbTask p b]>);;
          c ← ctx_at p;
          e ← entry_at (entry c);
          let next := u64 (offset_in_ios c + 1) in
          ctx_upd p (set_offset (if decide (next = size_in_ios e) then 0 else next));;
          now ← call clock_now;
          ctx_upd p (λ c, set_extra (push_stime now (extra c)) c);;
          q ← of_option (qpair c);
          rc ← call (submit q (cmd_read (e_ns e) b (u64 (offset_in_ios c * io_size_blocks e))
            (io_size_blocks e)) t);
          if decide (rc ≠ 0) then skip
          else ctx_upd p (λ c, set_depth (u64 (current_queue_depth c + 1)) c)
      end
  end.

Definition task_complete_m (t : Z) : M (prog W stamps) () :=
  task ← task_at t;
  let p := ns_ctx task in
  ctx_upd p (λ c, set_depth (u64 (current_queue_depth c - 1)) c);;
  ctx_upd p (λ c, set_io_completed (u64 (io_completed c + 1)) c);;
  now ← call clock_now;
  ctx_upd p (λ c, set_extra (push_etime now (extra c)) c);;
  effect (dma_free (buf task));;
  effect (pool_put t);;
  c ← ctx_at p;
  if is_draining c then skip else submit_single_io_m p.

Definition io_complete_m (t : Z) (completion : cpl) : M (prog W stamps) () :=
  task_complete_m t.

(** [spdk_nvme_qpair_process_completions] with the callback [io_complete]. *)
Fixpoint deliver_m (n : nat) (q : Z) : M (prog W stamps) () :=
  match n with
  | O => skip
  | S n' =>
      r ← call (poll_next q);
      match r with
      | None => skip
      | Some (t, completion) => io_complete_m t completion;; deliver_m n' q
      end
  end.

Definition check_io_m (p : Z) : M (prog W stamps) () :=
  c ← ctx_at p;
  q ← of_option (qpair c);
  s ← get;
  deliver_m (poll_budget q (max_completions (g_arbitration s)) (env s)) q.

Definition submit_io_m (p : Z) (n : Z) : M (prog W stamps) () :=
  repeat_m (Z.to_nat n) (submit_single_io_m p).

Definition drain_io_m (fuel : nat) (p : Z) : M (prog W stamps) () :=
  ctx_upd p (set_draining true);;
  while fuel (busy p) (check_io_m p).

Fixpoint init_all_m (ps : list Z) : M (prog W stamps) bool :=
  match ps with
  | [] => mret true
  | p :: ps' =>
      rc ← init_ns_worker_ctx_m p;
      if decide (rc ≠ 0) then mret false else init_all_m ps'
  end.

(** One round over the contexts: it stops at a context that has done enough. *)
Fixpoint sweep (ps : list Z) : M (prog W stamps) () :=
  match ps with
  | [] => skip
  | p :: ps' =>
      check_io_m p;;
      c ← ctx_at p;
      if decide (io_completed c > u64 append_times) then skip else sweep ps'
  end.

Fixpoint poll_until_m (fuel : nat) (tsc_end : Z) (ps : list Z) : M (prog W stamps) () :=
  match fuel with
  | O => λ _, Spin
  | S fuel' =>
      sweep ps;;
      now ← call get_ticks;
      if decide (now > tsc_end) then skip else poll_until_m fuel' tsc_end ps
  end.

Definition report_m (p : Z) : M (prog W stamps) () :=
  c ← ctx_at p;
  x ← of_option (report_measurement (extra c));
  ctx_upd p (set_extra x).

(** What [work_fn] does once its queue pairs exist. *)
Definition measure_m (fuel : nat) (ps : list Z) : M (prog W stamps) Z :=
  now ← call get_ticks;
  s ← get;
  let g := g_arbitration s in
  let tsc_end := u64 (now + u64 (time_in_sec g * tsc_rate g)) in
  foreach ps (λ p, submit_io_m p (queue_depth g));;
  poll_until_m fuel tsc_end ps;;
  foreach ps (λ p, drain_io_m fuel p;; cleanup_ns_worker_ctx_m p;; report_m p);;
  mret 0.

Definition work_fn_m (fuel : nat) (worker : Z) : M (prog W stamps) Z :=
  wt ← worker_at worker;
  ok ← init_all_m (w_ns_ctx wt);
  if negb ok then mret 1 else measure_m fuel (w_ns_ctx wt).

(** ** [main]

    [zone_file] is the number in the file [../current_zone], if it can be read.  [inl rc]:
    [main] returns [rc]; [inr tc]: the workers are launched with a pool of [tc] tasks. *)
Section main.
Context `{!SpdkAdmin W}.
Context (env_init : option W) (zone_file : option Z).
Context (register_workers_m register_controllers_m : M (prog W stamps) Z).
Context (associate_m : Z → M (prog W stamps) Z).
Context (zstore_cleanup_m : Z → M (prog W stamps) ()).

Definition abandon_m (tc : Z) : M (prog W stamps) (Z + Z) :=
  zstore_cleanup_m tc;; mret (inl 1).

Definition setup_m : M (prog W stamps) (Z + Z) :=
  s ← get;
  g_upd (set_tsc_rate (get_ticks_hz (env s)));;
  rc ← register_workers_m;
  if decide (rc ≠ 0) then abandon_m 0 else
  let current_zone := default 0 zone_file in
  rc ← register_controllers_m;
  if decide (rc ≠ 0) then abandon_m 0 else
  rc ← associate_m current_zone;
  if decide (rc ≠ 0) then mret (inl 1) else
  s ← get;
  let tc := task_count (g_arbitration s) in
  ok ← call (pool_create tc);
  if ok : bool then mret (inr tc) else abandon_m tc.

Definition main_m : M (prog W stamps) (Z + Z) :=
  match env_init with
  | None => mret (inl 1)
  | Some w => modify (set_env w);; setup_m
  end.

(** After the workers: [print_stats] is [print_performance] alone. *)
Definition main_end_m (tc : Z) : M (prog W stamps) (list (Z * Z)) :=
  rows ← print_performance;
  zstore_cleanup_m tc;;
  mret rows.
End main.
End measurement.
