(* ===== verification/MeasurementProps.v ===== *)
(** * Properties of the measurement program

    The engine of [measurement.cc] is the engine of the family with the stamps of the read
    benchmark, so the lemmas of [EngineSpec] carry over; its rounds and what it takes from
    the header are new. *)
From S2P Require Import Prelude Spdk Arb Engine EngineInv EngineSpec Variants Workers Schedule.
From S2P Require Import EngineProps Registry Program Measurement.

Definition v_measurement : variant stamps :=
  Variant (λ x, x) (Some push_stime) read_cmd (λ x, x) (Some push_etime)
    report_measurement false.

(** ** Agreement of the two engines

    [g_zstore] has no member [is_random]: in the state of [measurement.cc] it is 0. *)
Section agree.
Context {W : Type} `{!Spdk W Z} `{!SpdkView W Z} `{!SpdkLaws W Z}.
Implicit Types (s : prog W stamps) (c : ns_worker_ctx stamps).

Definition sequential s : Prop := is_random (g_arbitration s) = 0.

Definition agree {A} (m m' : M (prog W stamps) A) : Prop := ∀ s, sequential s → m s = m' s.

Lemma agree_refl {A} (m : M (prog W stamps) A) : agree m m.
Proof. done. Qed.

Lemma keeps_sequential s s' : keeps same_qpair s s' → sequential s → sequential s'.
Proof. intros [_ Hg _]. unfold sequential. injection Hg. congruence. Qed.

Lemma agree_bind {A B} (m m' : M (prog W stamps) A) (k k' : A → M (prog W stamps) B) :
  agree m m' → keeping same_qpair m' → (∀ a, agree (k a) (k' a)) →
  agree (m ≫= k) (m' ≫= k').
Proof.
  intros Hm Hkp Hk s Hs. unfold mbind, M_bind. rewrite Hm by done.
  destruct (m' s) as [a s1| | |] eqn:Hr; [|done..]. apply Hk.
  by eapply keeps_sequential; [eapply (keeping_done same_qpair)|].
Qed.

Lemma agree_while (f : prog W stamps → bool) m m' n : agree m m' → keeping same_qpair m' →
  agree (while n f m) (while n f m').
Proof.
  intros Hm Hk. induction n as [|n IH]; simpl; [apply agree_refl|]. intros s Hs.
  destruct (f s); [|done]. by apply (agree_bind m m' (λ _, while n f m) (λ _, while n f m')).
Qed.

Lemma agree_repeat m m' n : agree m m' → keeping same_qpair m' →
  agree (repeat_m n m) (repeat_m n m').
Proof.
  intros Hm Hk. induction n as [|n IH]; simpl; [apply agree_refl|]. by apply agree_bind.
Qed.

Lemma agree_wp {A} (m m' : M (prog W stamps) A) Q E s : agree m m' → sequential s →
  wp m' Q E s → wp m Q E s.
Proof. unfold wp. intros Hm Hs. by rewrite Hm. Qed.

Lemma agree_twp {A} (f g : nat → M (prog W stamps) A) Q E s : (∀ n, agree (f n) (g n)) →
  sequential s → twp g Q E s → twp f Q E s.
Proof. intros Hm Hs (n&r&Hr&Hw). exists n, r. split; [|done]. intros. by rewrite Hm, Hr. Qed.

Lemma bind_run {A B} (m : M (prog W stamps) A) (k : A → M (prog W stamps) B) s a s' :
  m s = Done a s' → (m ≫= k) s = k a s'.
Proof. intros Hm. unfold mbind, M_bind. by rewrite Hm. Qed.

Lemma ctx_at_some p s c : ctxs s !! p = Some c → ctx_at p s = Done c s.
Proof. intros Hc. unfold ctx_at, mbind, M_bind. simpl. by rewrite Hc. Qed.

Lemma entry_at_some p s e : entries s !! p = Some e → entry_at p s = Done e s.
Proof. intros Hc. unfold entry_at, mbind, M_bind. simpl. by rewrite Hc. Qed.

(** Where a sequential program goes next. *)
Lemma next_offset_sequential p s c e : sequential s → ctxs s !! p = Some c →
  entries s !! entry c = Some e → let next := u64 (offset_in_ios c + 1) in
  next_offset p s = Done (offset_in_ios c)
    (set_ctxs <[p := set_offset (if decide (next = size_in_ios e) then 0 else next) c]> s).
Proof.
  intros Hs Hc He. unfold next_offset. rewrite (bind_run _ _ _ _ _ (ctx_at_some _ _ _ Hc)).
  rewrite (bind_run _ _ _ _ _ (entry_at_some _ _ _ He)).
  rewrite (bind_run get _ s s s) by done.
  destruct (decide (is_random _ ≠ 0)) as [Hn|_]; [by destruct Hn|].
  by rewrite (bind_run _ _ _ _ _ (ctx_upd_some _ _ _ _ Hc)).
Qed.

Lemma agree_submit p : agree (submit_single_io_m p) (submit_single_io v_measurement p).
Proof.
  apply agree_bind; [apply agree_refl|keeping|intros [t|]; [|apply agree_refl]].
  apply agree_bind; [apply agree_refl|keeping|intros s0].
  apply agree_bind; [apply agree_refl|keeping|intros [b|]; [|apply agree_refl]].
  apply agree_bind; [apply agree_refl|keeping|intros _ s Hs].
  destruct (ctxs s !! p) as [c|] eqn:Hc; last first.
  { unfold next_offset, ctx_at, mbind, M_bind. simpl. by rewrite Hc. }
  rewrite (bind_run _ _ _ _ _ (ctx_at_some _ _ _ Hc)).
  destruct (entries s !! entry c) as [e|] eqn:He; last first.
  { unfold next_offset, ctx_at, entry_at, mbind, M_bind. simpl. rewrite Hc. simpl. by rewrite He. }
  rewrite (bind_run _ _ _ _ _ (entry_at_some _ _ _ He)).
  rewrite (bind_run _ _ _ _ _ (next_offset_sequential _ _ _ _ Hs Hc He)).
  rewrite (bind_run _ _ _ _ _ (ctx_upd_some _ _ _ _ Hc)).
  set (c1 := set_offset _ c). set (s1 := set_ctxs _ s).
  assert (ctxs s1 !! p = Some c1) as Hc1 by apply lookup_insert_eq.
  assert (entries s1 !! entry c1 = Some e) as He1 by done.
  assert (qpair c1 = qpair c) as Hq1 by done. clearbody c1 s1.
  unfold stamp, mbind, M_bind, call. simpl. destruct (clock_now _) as [now w]. simpl.
  rewrite (ctx_upd_some p _ (set_env w s1) c1 Hc1).
  set (s2 := set_ctxs _ _). unfold send.
  assert (ctxs s2 !! p = Some (set_extra (push_stime now (extra c1)) c1)) as Hc2
    by apply lookup_insert_eq.
  rewrite (bind_run _ _ _ _ _ (ctx_at_some _ _ _ Hc2)).
  rewrite (bind_run _ _ _ _ _ (entry_at_some _ s2 e He1)). simpl. rewrite <-Hq1.
  destruct (qpair c1) as [q|]; [|done]. unfold call, mbind, M_bind. simpl.
  destruct (submit _ _ _ _) as [rc w']. simpl.
  rewrite (ctx_upd_some p _ (set_env w' s2) _ Hc2).
  assert (set_extra (extra (set_extra (push_stime now (extra c1)) c1))
    (set_extra (push_stime now (extra c1)) c1) = set_extra (push_stime now (extra c1)) c1)
    as -> by done.
  by rewrite set_ctxs_id.
Qed.

Lemma agree_assoc {A B C} (m : M (prog W stamps) C) (m1 : M (prog W stamps) A)
    (f : A → M (prog W stamps) B) (g : B → M (prog W stamps) C) :
  agree m (m1 ≫= λ a, f a ≫= g) → agree m ((m1 ≫= f) ≫= g).
Proof. intros Hm s Hs. rewrite Hm by done. unfold mbind, M_bind. by destruct (m1 s). Qed.

Lemma agree_complete t r : agree (io_complete_m t r) (io_complete v_measurement t r).
Proof.
  unfold io_complete_m, io_complete, task_complete_m, task_complete, stamp. simpl.
  apply agree_bind; [apply agree_refl|keeping|intros tk].
  do 2 (apply agree_bind; [apply agree_refl|keeping|intros _]).
  apply agree_assoc, agree_bind; [apply agree_refl|keeping|intros now].
  do 3 (apply agree_bind; [apply agree_refl|keeping|intros _]).
  apply agree_bind; [apply agree_refl|keeping|intros c].
  destruct (is_draining c); [apply agree_refl|apply agree_submit].
Qed.

Lemma agree_deliver n q : agree (deliver_m n q) (deliver v_measurement n q).
Proof.
  induction n as [|n IH]; simpl; [apply agree_refl|].
  apply agree_bind; [apply agree_refl|keeping|intros [[t r]|]; [|apply agree_refl]].
  apply agree_bind; [apply agree_complete|apply keeping_complete|done].
Qed.

Lemma keeping_deliver n q : keeping same_qpair (deliver (W := W) v_measurement n q).
Proof.
  induction n as [|n IH]; simpl; [keeping|].
  apply keeping_bind; [apply _|keeping|intros [[t r]|]; [|keeping]].
  apply keeping_bind; [apply _|apply keeping_complete|done].
Qed.

Lemma keeping_check p : keeping same_qpair (check_io (W := W) v_measurement p).
Proof. unfold check_io, process_completions. keeping; apply keeping_deliver. Qed.

Lemma agree_check p : agree (check_io_m p) (check_io v_measurement p).
Proof.
  apply agree_bind; [apply agree_refl|keeping|intros c].
  apply agree_bind; [apply agree_refl|keeping|intros q].
  intros s Hs. unfold process_completions, mbind, M_bind. by apply agree_deliver.
Qed.

Lemma agree_submit_io p n : agree (submit_io_m p n) (submit_io v_measurement p n).
Proof. apply agree_repeat; [apply agree_submit|apply keeping_submit]. Qed.

Lemma agree_drain n p : agree (drain_io_m n p) (drain_io v_measurement n p).
Proof.
  apply agree_bind; [apply agree_refl|keeping|intros _].
  apply agree_while; [apply agree_check|apply keeping_check].
Qed.
End agree.

(** ** What the header promises

    [init_ns_worker_ctx] gives a context a new queue pair or reports an error;
    [cleanup_ns_worker_ctx] releases a queue pair on which nothing is outstanding. *)
Record store_header {W} `{!Spdk W Z} `{!SpdkView W Z} (init : Z → M (prog W stamps) Z)
    (clean : Z → M (prog W stamps) ()) : Prop := {
  init_header p c s : ctxs s !! p = Some c → qpair c = None →
    (∃ rc w, rc ≠ 0 ∧ init p s = Done rc (set_env w s) ∧
       view w = view (env s) ∧ tsc (env s) ≤ tsc w) ∨
    (∃ q w, init p s = Done 0 (set_ctxs <[p := set_qpair (Some q) c]> (set_env w s)) ∧
       (q ∉ qpairs (view (env s))) ∧ depth q (inflight (view (env s))) = O ∧
       view w = with_qpairs (λ X, {[q]} ∪ X) (view (env s)) ∧ tsc (env s) ≤ tsc w);
  clean_header p c q s : ctxs s !! p = Some c → qpair c = Some q →
    depth q (inflight (view (env s))) = O →
    ∃ w, clean p s = Done tt (set_env w s) ∧
      view w = with_qpairs (λ X, X ∖ {[q]}) (view (env s));
}.

(** ** The worker *)
Section worker.
Context {W : Type} `{!Spdk W Z} `{!SpdkView W Z} `{!SpdkLaws W Z}.
Context (append_times : Z) (init : Z → M (prog W stamps) Z) (clean : Z → M (prog W stamps) ()).
Context (Hh : store_header init clean) (Hnf : ¬ may_fail (W := W)).
Context (pool : gset Z).
Implicit Types (s : prog W stamps).

(** No context has more stamps of submissions than of completions and outstanding commands
    together. *)
Definition behind (d : Z) (x : stamps) : Prop :=
  Z.of_nat (length (stimes x)) ≤ Z.of_nat (length (etimes x)) + d.

Lemma v_measurement_ok : variant_ok in_namespace v_measurement.
Proof. apply v_read_ok. Qed.

Lemma behind_report x : behind 0 x → ∃ y, report_measurement x = Some y ∧ behind 0 y.
Proof.
  unfold behind, report_measurement. intros Hx.
  destruct (deltas1_some (stimes x) (etimes x)) as (l&->&_); [lia|].
  eexists. split; [done|]. simpl. lia.
Qed.

Lemma v_measurement_extra : variant_extra (W := W) behind v_measurement.
Proof.
  split; unfold behind; simpl; try done.
  - intros d x now ??. rewrite length_app. simpl. lia.
  - intros d x now ??. rewrite length_app. simpl. lia.
  - apply behind_report.
Qed.

Local Abbreviation inv := (inv pool in_namespace).
Local Abbreviation evolves := (evolves pool in_namespace behind).
Local Abbreviation xok := (xok behind).
Local Abbreviation lost := (lost pool).
Local Abbreviation closes := (closes pool in_namespace behind).
Local Abbreviation flying s := (inflight (view (env s))).
Local Abbreviation Hv := v_measurement_ok.
Local Abbreviation Hx := v_measurement_extra.

Lemma evolves_sequential s s' : evolves s s' → sequential s → sequential s'.
Proof. intros (_&Hf&_). unfold sequential. by rewrite (fr_arb _ _ Hf). Qed.

Lemma sweep_spec ps s : inv s → sequential s → (∀ p, p ∈ ps → live_ctx s p) →
  wp (sweep append_times ps) (λ _ s', evolves s s') (λ code _, code = 1) s.
Proof.
  revert s. induction ps as [|p ps IH]; intros s Hi Hs Hlive; simpl.
  { by apply wp_skip, evolves_refl. }
  destruct (Hlive p) as (c&q&Hc&Hq); [by left|]. apply wp_seq.
  eapply wp_weaken; [eapply agree_wp; [apply agree_check|done|];
    eapply (check_io_spec _ _ _ _ Hv Hx); eauto|].
  intros [] s' Hs'. destruct (evolves_ctx _ _ _ _ _ _ _ _ Hs' Hc Hq) as (c'&Hc'&Hq'&_).
  apply wp_bind. eapply wp_ctx_at; [done|]. case_decide; [by apply wp_skip|].
  eapply wp_weaken; [apply IH; [apply Hs'|by eapply evolves_sequential|]|].
  - intros p' Hp'. eapply evolves_live; [exact Hs'|]. apply Hlive. by right.
  - intros [] s'' ?. by eapply evolves_trans.
Qed.

Lemma init_m_spec p s : inv s → opened s → idle_ctx s p →
  wp (init p) (attached pool in_namespace behind p s) (λ _ _, False) s.
Proof.
  intros Hi Hop (c&Hc&Hq&Hd). unfold wp, attached.
  destruct (init_header _ _ Hh p c s Hc Hq)
    as [(rc&w&Hrc&->&Hw&Ht)|(q&w&->&Hqn&Hq0&Hw&Ht)].
  - destruct (set_up_refused pool in_namespace behind p c s w) as [Hs _]; try done.
    rewrite set_ctxs_id in Hs by (simpl; rewrite Hc; by destruct c; simplify_eq/=).
    split_and!; [done|done|]. right. split; [done|]. by exists c.
  - destruct (set_up_attach pool in_namespace _ behind Hv Hx p c q (extra c) s
      (set_ctxs <[p := set_qpair (Some q) c]> (set_env w s))) as (?&?&?); try done.
    + intros Hok. rewrite <-Hd. exact (Hok p c Hc).
    + split_and!; [done|done|]. by left.
Qed.

Lemma clean_closes : closes (λ p, clean p;; report_m p).
Proof.
  intros p c q s Hi Hok Hc Hq Hd.
  destruct (clean_header _ _ Hh p c q s Hc Hq Hd) as (w&Hw&Hview).
  set (s1 := set_env w s).
  assert (inv s1) as Hi1 by (apply inv_take; rewrite ?Hview; done).
  apply wp_seq. unfold wp at 1. rewrite Hw. unfold report_m.
  apply wp_bind. eapply wp_ctx_at; [done|].
  destruct (behind_report _ (idle_extra _ _ _ _ _ _ _ Hi Hok Hc Hq Hd)) as (y&Hy&Hxy).
  apply wp_bind. eapply wp_of_option; [done|]. eapply wp_ctx_upd; [done|].
  destruct (report_spec pool in_namespace behind p c q s1 y) as (?&?&?); try done;
    [simpl; by rewrite Hview|].
  split_and!; try done; unfold EngineSpec.lost; simpl; by rewrite Hview.
Qed.

(** The rest of [work_fn]. *)
Lemma measure_m_spec ps s : inv s → xok s → sequential s → (∀ p, p ∈ ps → live_ctx s p) →
  twp (λ fuel, measure_m append_times clean fuel ps) (λ rc s', rc = 0 ∧ inv s' ∧ xok s' ∧
    ∀ p, p ∈ ps → drained s' p) (λ code _, code = 1) s.
Proof.
  intros Hi Hok Hsq Hlive. unfold measure_m.
  apply twp_bind_wp, wp_call. intros now w2 (_&?&Hw2&_)%get_ticks_law.
  assert (evolves s (set_env w2 s)) as Hs2 by (apply evolves_env; [done|done|lia]).
  apply twp_bind_wp, wp_get, twp_bind_wp.
  eapply wp_weaken; [apply (wp_foreach_inv _ (evolves s)); [|done]|].
  { intros p s' Hp Hs'.
    destruct (evolves_live _ _ _ _ _ _ Hs' (Hlive _ Hp)) as (c&q&?&?).
    eapply wp_weaken; [eapply agree_wp; [apply agree_submit_io|by eapply evolves_sequential|];
      eapply (submit_io_spec _ _ _ _ Hv Hx); [apply Hs'|done..]|].
    intros [] s'' ?. by eapply evolves_trans. }
  intros [] s3 Hs3. eapply (twp_bind (λ fuel, poll_until_m append_times fuel _ _)).
  eapply twp_weaken; [eapply (ticking_spec _ _ behind _ _ (sweep append_times ps));
    [done| |apply Hs3]|].
  { intros s' Hs'. assert (evolves s s') as He by (by eapply evolves_trans).
    apply sweep_spec; [apply Hs'|by eapply evolves_sequential|].
    intros p Hp. by eapply evolves_live; [exact He|apply Hlive]. }
  intros [] s4 [Hs4 _]. assert (evolves s s4) as Hs14 by (by eapply evolves_trans).
  apply (twp_bind (λ fuel, foreach _ _) (λ _ _, mret 0)).
  eapply twp_mono; [apply (close_all pool _ _ _ Hv Hx drain_io_m);
    [apply clean_closes| |apply Hs14|by apply Hs14|]|..].
  - intros s' Hg n p. apply agree_drain. unfold sequential. rewrite Hg.
    by apply (evolves_sequential _ _ Hs14).
  - intros p Hp. by eapply evolves_live; [exact Hs14|apply Hlive].
  - intros [] s5 (?&?&?&?). apply twp_wp, wp_ret. by split_and!.
  - done.
Qed.

Lemma work_fn_m_spec w wt s : inv s → xok s → sequential s → opened s →
  workers s !! w = Some wt → NoDup (w_ns_ctx wt) → (∀ p, p ∈ w_ns_ctx wt → idle_ctx s p) →
  twp (λ fuel, work_fn_m append_times init clean fuel w) (λ rc s', inv s' ∧ xok s' ∧
      (rc = 0 ∧ (∀ p, p ∈ w_ns_ctx wt → drained s' p) ∨ rc = 1 ∧ flying s' = flying s))
    (λ code _, code = 1) s.
Proof.
  intros Hi Hok Hsq Hop Hwt Hnd Hidle. unfold work_fn_m.
  apply twp_bind_wp. eapply wp_worker_at; [done|].
  apply twp_bind_wp. eapply wp_mono; [eapply (init_each_spec pool in_namespace _ behind Hv Hx
    (init_all_m init) init); [done|done|apply init_m_spec|done..]| |done].
  intros ok s1 (Hs1&_&Hlive). destruct Hs1 as (Hi1&_&Hfl1&_&_&_&Hg1&_&Hx1&_).
  destruct ok; simpl; last first.
  { apply twp_wp, wp_ret. split_and!; [done|by apply Hx1|by right]. }
  eapply twp_weaken; [apply measure_m_spec; [done|by apply Hx1|by unfold sequential; rewrite Hg1|auto]|].
  intros rc s2 (->&?&?&?). split_and!; [done|done|by left].
Qed.
End worker.

(** ** The program *)

(** (C9) The worker of [measurement.cc] ends, however early its rounds break off: when the
    header sets up queue pairs and the driver accepts every command, every context is
    drained in the end, and the report has stayed inside its arrays. *)
Theorem measurement_drains {W} `{!Spdk W Z} `{!SpdkView W Z} `{!SpdkLaws W Z}
    append_times init clean pool (s : prog W stamps) w wt :
  store_header init clean → ¬ may_fail (W := W) →
  inv pool in_namespace s → sequential s → opened s → workers s !! w = Some wt →
  NoDup (w_ns_ctx wt) → (∀ p, p ∈ w_ns_ctx wt → idle_ctx s p) →
  (∀ p c, ctxs s !! p = Some c → behind (current_queue_depth c) (extra c)) →
  ∃ n, ∀ fuel, (n ≤ fuel)%nat → wp (work_fn_m append_times init clean fuel w)
    (λ rc s', inv pool in_namespace s' ∧
       (rc = 0 ∧ (∀ p, p ∈ w_ns_ctx wt → drained s' p) ∨
        rc = 1 ∧ inflight (view (env s')) = inflight (view (env s))))
    (λ code _, code = 1) s.
Proof.
  intros Hh Hnf Hi Hsq Hop Hw Hnd Hidle Hx0. apply twp_elim.
  eapply twp_weaken; [by eapply (work_fn_m_spec append_times _ _ Hh Hnf pool)|].
  by intros rc s' (?&_&?).
Qed.

(** A header on the simulated device. *)
Definition sim_init (p : Z) : M (prog (sim false Z) stamps) Z :=
  c ← ctx_at p;
  q ← call (alloc_io_qpair 0 0);
  match q with
  | None => mret (-1)
  | Some q => ctx_upd p (set_qpair (Some q));; mret 0
  end.

Lemma sim_store_header : store_header sim_init (cleanup_ns_worker_ctx (W := sim false Z)).
Proof.
  split.
  - intros p c s Hc Hq. right. unfold sim_init. rewrite (bind_run _ _ _ _ _ (ctx_at_some _ _ _ Hc)).
    destruct (alloc_io_qpair 0 0 (env s)) as [[q|] w] eqn:Ha; [|done].
    rewrite (bind_run (call _) _ s (Some q) (set_env w s)) by (unfold call; by rewrite Ha).
    rewrite (bind_run _ _ _ _ _ (ctx_upd_some p _ (set_env w s) _ Hc)).
    apply alloc_io_qpair_some in Ha as (?&?&?&?). by exists q, w.
  - intros p c q s Hc Hq Hd. unfold cleanup_ns_worker_ctx.
    rewrite (bind_run _ _ _ _ _ (ctx_at_some _ _ _ Hc)). rewrite Hq.
    eexists. split; [reflexivity|]. by apply free_io_qpair_law.
Qed.

Lemma measurement_drains_witness : ∃ n, ∀ fuel, (n ≤ fuel)%nat →
  wp (work_fn_m 1 sim_init cleanup_ns_worker_ctx fuel 3)
    (λ rc s', inv demo_pool in_namespace s' ∧
       (rc = 0 ∧ (∀ p, p ∈ [2] → drained s' p) ∨
        rc = 1 ∧ inflight (view (env s')) =
          inflight (view (env (demo (X := stamps) false demo_pool [] no_stamps)))))
    (λ code _, code = 1) (demo false demo_pool [] no_stamps).
Proof.
  apply (measurement_drains 1 sim_init cleanup_ns_worker_ctx demo_pool
    (demo false demo_pool [] no_stamps) 3 (WorkerThread [2] 0 0)).
  - apply sim_store_header.
  - apply sim_never_fails.
  - apply demo_inv.
  - reflexivity.
  - apply demo_opened.
  - reflexivity.
  - simpl. apply NoDup_singleton.
  - apply demo_idle.
  - intros p c Hp. singleton Hp. unfold behind. simpl. lia.
Defined.

(** A context that has done more than [append_times] I/Os ends the round: the contexts
    behind it are not polled. *)
Lemma sweep_stops {W} `{!Spdk W Z} append_times p ps (s s' : prog W stamps) c :
  check_io_m p s = Done tt s' → ctxs s' !! p = Some c → u64 append_times < io_completed c →
  sweep append_times (p :: ps) s = Done tt s'.
Proof.
  intros Hm Hc Hlt. simpl. rewrite (bind_run _ _ _ _ _ Hm).
  rewrite (bind_run _ _ _ _ _ (ctx_at_some _ _ _ Hc)). by rewrite decide_True by lia.
Qed.
