(* ===== verification/Verify.v ===== *)
(** * The write-and-verify benchmark

    [multipath/verification.cc]: every I/O is an append of a recognisable
    pattern; when it completes, the pair of its address and its pattern is
    queued, and a completion that leaves room starts the verifying read of
    the oldest pair.  The globals and the queues are those of [Arb]; the tasks
    carry more members, and the contents of the DMA buffers matter.  A task is
    raw memory of the pool and a context is zeroed memory: the constructors of the string
    in the one and of the queue in the other never run, and using them is undefined. *)
From S2P Require Import Prelude Spdk Arb Engine Registry.
Open Scope string_scope.
Open Scope Z_scope.

(** The members that [ns_worker_ctx] has here.  [pending_reads] is a
    [std::queue]: [None] stands for the zero bytes that [memset] leaves, which
    are no queue (no constructor has run). *)
Record vextra := VExtra {
  count : Z;
  write_completed : Z;
  read_completed : Z;
  verification_passed : Z;
  verification_failed : Z;
  pending_reads : option (list (Z * string));
}.

Record vtask := VTask {
  vt_ctx : Z;
  vt_buf : option Z;
  vt_read_buf : option Z;
  vt_lba : Z;
  verification_mode : bool;
  expected_data : string;
}.

(** The contents of DMA buffers as C strings; [None]: the buffer holds no
    terminator. *)
Class DmaData (W : Type) := {
  dma_store : Z → string → W → W;
  dma_string : Z → W → option string;
}.

(** The tasks whose string member has been constructed: none of them, as the pool is
    created.  Nothing in the program changes that; what it would do with constructed
    strings can be stated all the same. *)
Class TaskStrings := has_string : Z → bool.

Definition raw_tasks : TaskStrings := λ _, false.

Record vprog (W : Type) := VProg {
  base : prog W vextra;
  vtasks : gmap Z vtask;
  starting_lba : bool;
}.
Arguments VProg {W} _ _ _.
Arguments base {W} _.
Arguments vtasks {W} _.
Arguments starting_lba {W} _.

(** [std::to_string] of a 64-bit number, and the pattern of an append. *)
Definition to_string (n : Z) : string := digits 20 n "".
Definition data_pattern (n : Z) : string :=
  "zstore1:" +:+ to_string n +:+ ":pattern:" +:+ to_string (u64 (n * 0xDEADBEEF)).

(** [std::string::substr (0, n)]. *)
Definition prefix_of (n : nat) (s : string) : string := String.substring 0 n s.
Definition compare_len (expected : string) : nat := String.length expected `min` 50.

(** The comparison of [task_complete]. *)
Definition verified (expected got : string) : bool :=
  bool_decide (prefix_of (compare_len expected) got =
               prefix_of (compare_len expected) expected).

(** Updates of one member. *)
Definition vx_count f x := VExtra (f (count x)) (write_completed x) (read_completed x)
  (verification_passed x) (verification_failed x) (pending_reads x).
Definition vx_written f x := VExtra (count x) (f (write_completed x)) (read_completed x)
  (verification_passed x) (verification_failed x) (pending_reads x).
Definition vx_read f x := VExtra (count x) (write_completed x) (f (read_completed x))
  (verification_passed x) (verification_failed x) (pending_reads x).
Definition vx_passed f x := VExtra (count x) (write_completed x) (read_completed x)
  (f (verification_passed x)) (verification_failed x) (pending_reads x).
Definition vx_failed f x := VExtra (count x) (write_completed x) (read_completed x)
  (verification_passed x) (f (verification_failed x)) (pending_reads x).
Definition vx_pending q x := VExtra (count x) (write_completed x) (read_completed x)
  (verification_passed x) (verification_failed x) q.

Definition incr (z : Z) : Z := u64 (z + 1).

Section verify.
Context {W : Type} `{!Spdk W Z} `{!DmaData W} `{!TaskStrings}.
Implicit Types (s : vprog W).

(** Assigning to the string of a task. *)
Definition string_assigned (t : Z) : M (vprog W) () := if has_string t then skip else undef.

(** Code that only uses the common state. *)
Definition lift {A} (m : M (prog W vextra) A) : M (vprog W) A := λ s,
  match m (base s) with
  | Done a b => Done a (VProg b (vtasks s) (starting_lba s))
  | Exited c b => Exited c (VProg b (vtasks s) (starting_lba s))
  | Undef => Undef
  | Spin => Spin
  end.

Definition vtask_at (t : Z) : M (vprog W) vtask := s ← get; of_option (vtasks s !! t).
Definition put_vtask (t : Z) (tk : vtask) : M (vprog W) () :=
  modify (λ s, VProg (base s) (<[t := tk]> (vtasks s)) (starting_lba s)).
Definition vx_upd (p : Z) (f : vextra → vextra) : M (vprog W) () :=
  lift (ctx_upd p (λ c, set_extra (f (extra c)) c)).

(** The offset that the write path computes and does not use. *)
Definition write_offset (p : Z) : M (vprog W) () :=
  c ← lift (ctx_at p);
  e ← lift (entry_at (entry c));
  s ← get;
  if decide (is_random (g_arbitration (base s)) ≠ 0) then
    _ ← lift (call rand_r);
    if decide (size_in_ios e = 0) then undef else skip
  else
    let next := u64 (offset_in_ios c + 1) in
    lift (ctx_upd p (set_offset (if decide (next = size_in_ios e) then 0 else next))).

Definition free_buf (b : option Z) : M (vprog W) () :=
  match b with Some b => lift (effect (dma_free b)) | None => skip end.

(** The end of [submit_single_io]: the result of the submission. *)
Definition started (p t rc : Z) : M (vprog W) () :=
  if decide (rc ≠ 0) then
    tk ← vtask_at t;
    free_buf (vt_buf tk);; free_buf (vt_read_buf tk);;
    lift (effect (pool_put t))
  else lift (ctx_upd p (λ c, set_depth (u64 (current_queue_depth c + 1)) c)).

Definition submit_read (p t lba : Z) (data : string) : M (vprog W) () :=
  string_assigned t;;
  s ← get;
  let io := io_size_bytes (g_arbitration (base s)) in
  b ← lift (call (dma_zmalloc io));
  match b with
  | None => lift (effect (pool_put t));; exit 1
  | Some b =>
      put_vtask t (VTask p None (Some b) lba true data);;
      lift (effect (dma_store b ""));;
      c ← lift (ctx_at p);
      e ← lift (entry_at (entry c));
      q ← of_option (qpair c);
      rc ← lift (call (submit q (cmd_read (e_ns e) b lba (io_size_blocks e)) t));
      started p t rc
  end.

Definition submit_write (p t lba : Z) : M (vprog W) () :=
  s ← get;
  let io := io_size_bytes (g_arbitration (base s)) in
  b ← lift (call (dma_zmalloc io));
  match b with
  | None => lift (effect (pool_put t));; exit 1
  | Some b =>
      c ← lift (ctx_at p);
      let data := data_pattern (count (extra c)) in
      lift (effect (dma_store b (prefix_of (Z.to_nat (io - 1)) data)));;
      string_assigned t;;
      put_vtask t (VTask p (Some b) None lba false data);;
      vx_upd p (vx_count incr);;
      write_offset p;;
      c ← lift (ctx_at p);
      e ← lift (entry_at (entry c));
      q ← of_option (qpair c);
      rc ← lift (call (submit q (zone_append (e_ns e) b 0 (io_size_blocks e)) t));
      started p t rc
  end.

(** [lba] of a write task is only set when it completes. *)
Definition submit_single_io (p : Z) (is_read_verify : bool) (verify_lba : Z) (data : string)
    : M (vprog W) () :=
  task ← lift (call pool_get);
  match task with
  | None => exit 1
  | Some t =>
      if is_read_verify then submit_read p t verify_lba data
      else
        s ← get;
        submit_write p t (default 0 (vt_lba <$> vtasks s !! t))
  end.

(** What a completion records. *)
Definition record_read (p : Z) (tk : vtask) : M (vprog W) () :=
  vx_upd p (vx_read incr);;
  b ← of_option (vt_read_buf tk);
  s ← get;
  got ← of_option (dma_string b (env (base s)));
  (if verified (expected_data tk) got then vx_upd p (vx_passed incr)
   else vx_upd p (vx_failed incr));;
  lift (effect (dma_free b)).

(** Pushing to a queue that was never constructed is undefined. *)
Definition record_write (p : Z) (tk : vtask) : M (vprog W) () :=
  vx_upd p (vx_written incr);;
  c ← lift (ctx_at p);
  l ← of_option (pending_reads (extra c));
  vx_upd p (vx_pending (Some (l ++ [(vt_lba tk, expected_data tk)])%list));;
  b ← of_option (vt_buf tk);
  lift (effect (dma_free b)).

Definition next_io (p : Z) : M (vprog W) () :=
  c ← lift (ctx_at p);
  s ← get;
  l ← of_option (pending_reads (extra c));
  match l with
  | (lba, data) :: l' =>
      if decide (current_queue_depth c < u64 (queue_depth (g_arbitration (base s)))) then
        vx_upd p (vx_pending (Some l'));;
        submit_single_io p true lba data
      else submit_single_io p false 0 ""
  | [] => submit_single_io p false 0 ""
  end.

Definition task_complete (t : Z) : M (vprog W) () :=
  tk ← vtask_at t;
  let p := vt_ctx tk in
  lift (ctx_upd p (λ c, set_depth (u64 (current_queue_depth c - 1)) c));;
  lift (ctx_upd p (λ c, set_io_completed (u64 (io_completed c + 1)) c));;
  (if verification_mode tk then record_read p tk else record_write p tk);;
  lift (effect (pool_put t));;
  c ← lift (ctx_at p);
  if is_draining c then skip else next_io p.

(** The status of the completion is not looked at; the address of an append
    is the low dword of the completion. *)
Definition io_complete (t : Z) (completion : cpl) : M (vprog W) () :=
  tk ← vtask_at t;
  (if verification_mode tk then skip else
   put_vtask t (VTask (vt_ctx tk) (vt_buf tk) (vt_read_buf tk) (u32 (cdw0 completion)) false
     (expected_data tk));;
   modify (λ s, VProg (base s) (vtasks s) true));;
  task_complete t.

Fixpoint deliver (n : nat) (q : Z) : M (vprog W) () :=
  match n with
  | O => skip
  | S n' =>
      r ← lift (call (poll_next q));
      match r with
      | None => skip
      | Some (t, completion) => io_complete t completion;; deliver n' q
      end
  end.

Definition check_io (p : Z) : M (vprog W) () :=
  c ← lift (ctx_at p);
  q ← of_option (qpair c);
  s ← get;
  deliver (poll_budget q (max_completions (g_arbitration (base s))) (env (base s))) q.

Definition submit_io (p n : Z) : M (vprog W) () :=
  repeat_m (Z.to_nat n) (submit_single_io p false 0 "").

Definition drain_io (fuel : nat) (p : Z) : M (vprog W) () :=
  lift (ctx_upd p (set_draining true));;
  while fuel (λ s, busy p (base s)) (check_io p).

Definition init_ns_worker_ctx (p prio : Z) : M (vprog W) Z :=
  c ← lift (ctx_at p);
  e ← lift (entry_at (entry c));
  q ← lift (call (alloc_io_qpair (e_ctrlr e) prio));
  lift (ctx_upd p (set_qpair q));;
  match q with
  | None => mret 1
  | Some _ =>
      vx_upd p (λ x, VExtra 0 0 0 0 0 (pending_reads x));;
      mret 0
  end.

Definition cleanup_ns_worker_ctx (p : Z) : M (vprog W) () :=
  c ← lift (ctx_at p);
  q ← of_option (qpair c);
  lift (effect (free_io_qpair q)).

Fixpoint init_all (ps : list Z) (prio : Z) : M (vprog W) bool :=
  match ps with
  | [] => mret true
  | p :: ps' =>
      rc ← init_ns_worker_ctx p prio;
      if decide (rc ≠ 0) then mret false else init_all ps' prio
  end.

Fixpoint poll_until (fuel : nat) (tsc_end : Z) (ps : list Z) : M (vprog W) () :=
  match fuel with
  | O => λ _, Spin
  | S fuel' =>
      foreach ps check_io;;
      now ← lift (call get_ticks);
      if decide (now > tsc_end) then skip else poll_until fuel' tsc_end ps
  end.

Definition work_fn (fuel : nat) (worker : Z) : M (vprog W) Z :=
  wt ← lift (worker_at worker);
  ok ← init_all (w_ns_ctx wt) (qprio wt);
  if negb ok then mret 1 else
  now ← lift (call get_ticks);
  s ← get;
  let g := g_arbitration (base s) in
  let tsc_end := u64 (now + u64 (time_in_sec g * tsc_rate g)) in
  foreach (w_ns_ctx wt) (λ p, submit_io p (queue_depth g));;
  poll_until fuel tsc_end (w_ns_ctx wt);;
  foreach (w_ns_ctx wt) (λ p, drain_io fuel p;; cleanup_ns_worker_ctx p);;
  mret 0.
End verify.
