(* ===== verification/VerifySpec.v ===== *)
(** * Specifications of the write-and-verify benchmark

    The operations of [Verify] keep the invariant of the engine on the common
    state, match every outstanding command with a task of its mode, and keep
    the books of every context. *)
From S2P Require Import Prelude Spdk Arb Engine EngineInv EngineSpec Verify.

(** ** Laws of the buffer contents *)
Class DmaLaws (W : Type) `{!SpdkView W Z} `{!DmaData W} : Prop := {
  dma_store_law b d w : view (dma_store b d w) = view w ∧ quiet w (dma_store b d w);
}.

(** ** Tasks with a string

    What follows is about a program that would construct the string of every task of its
    pool; the program as it is does not ([VerifyProps.verification_never_succeeds]). *)
Class Constructed `{!TaskStrings} (pool : gset Z) : Prop := {
  strings_constructed t : t ∈ pool → has_string t = true;
}.

Section spec.
Context {W : Type} `{!Spdk W Z} `{!SpdkView W Z} `{!SpdkLaws W Z}.
Context `{!DmaData W} `{!DmaLaws W} `{!TaskStrings}.
Context (pool : gset Z) `{!Constructed pool}.
Implicit Types (s : vprog W) (c : ns_worker_ctx vextra).

Lemma wp_lift {A} (m : M (prog W vextra) A) Q E s :
  wp m (λ a b, Q a (VProg b (vtasks s) (starting_lba s)))
    (λ code b, E code (VProg b (vtasks s) (starting_lba s))) (base s) →
  wp (lift m) Q E s.
Proof. unfold wp, lift. by destruct (m (base s)). Qed.

Lemma wp_vtask_at t tk Q E s : vtasks s !! t = Some tk → Q tk s → wp (vtask_at t) Q E s.
Proof. intros Ht HQ. apply wp_bind, wp_get. by eapply wp_of_option. Qed.

Lemma wp_vx_upd p f c Q E s : ctxs (base s) !! p = Some c →
  Q tt (VProg (set_ctxs <[p := set_extra (f (extra c)) c]> (base s)) (vtasks s)
    (starting_lba s)) → wp (vx_upd p f) Q E s.
Proof. intros Hc HQ. by eapply wp_lift, wp_ctx_upd. Qed.

(** ** The invariant *)

Definition vt_buffer (tk : vtask) : Z :=
  default (default 0 (vt_read_buf tk)) (vt_buf tk).

(** The common state, with the tasks as the engine sees them. *)
Definition erase s : prog W vextra :=
  set_tasks (λ _, (λ tk, ArbTask (vt_ctx tk) (vt_buffer tk)) <$> vtasks s) (base s).

Local Abbreviation flying s := (inflight (view (env (base s)))).

(** A read of the entry's length, or an append to the first zone. *)
Definition vsafe (e : ns_entry) (k : io_cmd) : Prop :=
  ∃ b, (∃ lba, k = cmd_read (e_ns e) b lba (io_size_blocks e)) ∨
    k = zone_append (e_ns e) b 0 (io_size_blocks e).

Definition matches (tk : vtask) (k : io_cmd) : Prop :=
  if verification_mode tk
  then vt_buf tk = None ∧ vt_read_buf tk = Some (cmd_buf k) ∧
    ∃ ns n, k = cmd_read ns (cmd_buf k) (vt_lba tk) n
  else vt_buf tk = Some (cmd_buf k) ∧ vt_read_buf tk = None ∧
    ∃ ns n, k = zone_append ns (cmd_buf k) 0 n.

(** The books of a context: all counters wrap at 2^64. *)
Record books c : Prop := {
  bk_queue : is_Some (pending_reads (extra c));
  bk_io : io_completed c = u64 (write_completed (extra c) + read_completed (extra c));
  bk_read : read_completed (extra c) =
    u64 (verification_passed (extra c) + verification_failed (extra c));
}.

Record vinv s : Prop := {
  vi_engine : inv pool vsafe (erase s);
  vi_match t q k : flying s !! t = Some (q, k) →
    ∃ tk, vtasks s !! t = Some tk ∧ matches tk k;
  vi_books p c : ctxs (base s) !! p = Some c → books c;
}.

Lemma matches_buffer tk k : matches tk k → vt_buffer tk = cmd_buf k.
Proof.
  unfold matches, vt_buffer. destruct (verification_mode tk).
  - by intros (->&->&_).
  - by intros (->&_).
Qed.

Lemma erase_insert t tk b ts st :
  erase (VProg b (<[t := tk]> ts) st) =
  set_tasks <[t := ArbTask (vt_ctx tk) (vt_buffer tk)]> (erase (VProg b ts st)).
Proof. unfold erase, set_tasks. simpl. by rewrite fmap_insert. Qed.

(** ** Submissions *)

(** What [submit_single_io] on context [p] has done when it returns: the
    command is outstanding, or everything it took has been given back. *)
Record vsubmitted p s s' : Prop := {
  vs_inv : vinv s';
  vs_frame : frame (base s) (base s');
  vs_lost : lost pool (base s') = lost pool (base s);
  vs_ctx c c' : ctxs (base s) !! p = Some c → ctxs (base s') !! p = Some c' →
    io_completed c' = io_completed c ∧
    write_completed (extra c') = write_completed (extra c) ∧
    read_completed (extra c') = read_completed (extra c) ∧
    verification_passed (extra c') = verification_passed (extra c) ∧
    verification_failed (extra c') = verification_failed (extra c) ∧
    pending_reads (extra c') = pending_reads (extra c) ∧
    (current_queue_depth c' = current_queue_depth c + 1 ∨
     current_queue_depth c' = current_queue_depth c ∧
       view (env (base s')) = view (env (base s)));
  vs_others p' : p' ≠ p → ctxs (base s') !! p' = ctxs (base s) !! p';
}.

(** The state in which the command is submitted. *)
Record varmed p t tk k c s s' : Prop := {
  va_inv : inv pool vsafe (erase s');
  va_books p' c' : ctxs (base s') !! p' = Some c' → books c';
  va_frame : frame (base s) (base s');
  va_task : vtasks s' !! t = Some tk;
  va_tasks t' : t' ≠ t → vtasks s' !! t' = vtasks s !! t';
  va_match : matches tk k;
  va_owner : vt_ctx tk = p;
  va_free : t ∈ avail (view (env (base s)));
  va_view : view (env (base s')) = with_held (λ B, {[cmd_buf k]} ∪ B)
    (with_avail (λ A, A ∖ {[t]}) (view (env (base s))));
  va_fresh : cmd_buf k ∉ held (view (env (base s)));
  va_ctx : ctxs (base s') !! p = Some c;
  va_same c0 : ctxs (base s) !! p = Some c0 →
    io_completed c = io_completed c0 ∧ current_queue_depth c = current_queue_depth c0 ∧
    write_completed (extra c) = write_completed (extra c0) ∧
    read_completed (extra c) = read_completed (extra c0) ∧
    verification_passed (extra c) = verification_passed (extra c0) ∧
    verification_failed (extra c) = verification_failed (extra c0) ∧
    pending_reads (extra c) = pending_reads (extra c0);
  va_others p' : p' ≠ p → ctxs (base s') !! p' = ctxs (base s) !! p';
}.

Lemma free_bufs_spec {A} tk k (m : M (vprog W) A) Q E s : matches tk k →
  wp m Q E (VProg (set_env (dma_free (cmd_buf k) (env (base s))) (base s)) (vtasks s)
    (starting_lba s)) →
  wp (free_buf (vt_buf tk);; free_buf (vt_read_buf tk);; m) Q E s.
Proof.
  unfold matches. intros Hm HQ. destruct (verification_mode tk); destruct Hm as (->&->&_);
    apply wp_bind; simpl.
  - apply wp_skip, wp_bind, wp_lift, wp_effect. exact HQ.
  - apply wp_lift, wp_effect, wp_bind, wp_skip. exact HQ.
Qed.

Lemma started_spec p t tk k c q e s s' E :
  vinv s → varmed p t tk k c s s' → qpair c = Some q →
  entries (base s') !! entry c = Some e → vsafe e k →
  wp (rc ← lift (call (submit q k t)); started p t rc)
    (λ _ s'', vsubmitted p s s'') E s'.
Proof.
  intros Hv Ha Hq He Hsafe.
  pose proof (vi_engine _ Hv) as Hi0. pose proof (va_inv _ _ _ _ _ _ _ Ha) as Hi.
  pose proof (va_free _ _ _ _ _ _ _ Ha) as Ht.
  pose proof (va_view _ _ _ _ _ _ _ Ha) as Hvw.
  pose proof (inv_disj _ _ _ Hi0 _ Ht) as Htf. simpl in Htf.
  pose proof (inv_pool _ _ _ Hi0) as Hpool. simpl in Hpool.
  assert (t ∈ pool) as Htp by (clear -Hpool Ht; set_solver).
  assert (∀ t' q' k', flying s !! t' = Some (q', k') → cmd_buf k' ≠ cmd_buf k) as Hbuf.
  { intros t' q' k' Hk Heq. apply (va_fresh _ _ _ _ _ _ _ Ha). rewrite <-Heq.
    by destruct (inv_cmd _ _ _ Hi0 _ _ _ Hk) as (?&?&?&?&?&?&?&?&?). }
  pose proof (va_ctx _ _ _ _ _ _ _ Ha) as Hc.
  apply wp_bind, wp_lift, wp_call. intros rc w' Hsub. unfold started.
  case_decide as Hrc.
  - (* everything is given back *)
    apply submit_failed in Hsub as [Hv' [Hlag Htsc]]; [|done].
    apply wp_bind. eapply wp_vtask_at; [simpl; apply Ha|].
    eapply free_bufs_spec; [apply Ha|]. simpl. apply wp_lift, wp_effect. simpl.
    destruct (give_back w' (cmd_buf k) t) as [Hv3 Hq3].
    { rewrite Hv', Hvw. simpl. set_solver. }
    { rewrite Hv', Hvw. simpl. set_solver. }
    set (w3 := pool_put t (dma_free (cmd_buf k) w')) in *.
    assert (view w3 = view (env (base s))) as Hw3.
    { rewrite Hv3, Hv', Hvw. pose proof (va_fresh _ _ _ _ _ _ _ Ha) as Hfr.
      destruct (view (env (base s))) as [A B C D]. unfold with_avail, with_held. simpl in *.
      f_equal; apply set_eq; intros x.
      - destruct (decide (x = t)) as [->|]; set_solver.
      - destruct (decide (x = cmd_buf k)) as [->|]; set_solver. }
    set (s'' := VProg _ _ _).
    assert (vinv s'') as Hv''.
    { split.
      - apply (inv_give pool vsafe (erase (VProg (set_env w' (base s')) (vtasks s')
          (starting_lba s'))) w3 (cmd_buf k) t); simpl.
        + by apply (inv_quiet _ _ (erase s')).
        + done.
        + by rewrite Hv', Hvw.
        + rewrite Hv', Hvw. exact Hbuf.
        + done.
      - intros t' q' k'. simpl. rewrite Hw3. intros Hk.
        rewrite (va_tasks _ _ _ _ _ _ _ Ha) by congruence. by eapply (vi_match _ Hv).
      - apply Ha. }
    split; [done| | | |].
    + transitivity (base s'); [apply Ha|].
      change (base s'') with (set_env w3 (base s')). apply frame_env.
      * by rewrite Hw3, Hvw.
      * destruct Hq3. lia.
    + unfold lost, s''. simpl. by rewrite Hw3.
    + intros c0 c0' Hc0 Hc0'. simpl in Hc0'. simplify_eq.
      destruct (va_same _ _ _ _ _ _ _ Ha _ Hc0) as (?&?&?&?&?&?&?).
      split_and!; try done. right. split; [done|]. unfold s''. simpl. by rewrite Hw3.
    + intros p' ?. by apply (va_others _ _ _ _ _ _ _ Ha).
  - assert (rc = 0) as -> by (destruct (decide (rc = 0)); naive_solver).
    apply submit_ok in Hsub as [Hv' Htsc]; [|by rewrite Hvw].
    eapply wp_lift, wp_ctx_upd; [exact Hc|]. simpl.
    assert (Hex : ∃ q0, qpair c = Some q0 ∧ current_queue_depth c =
      Z.of_nat (depth q0 (flying s))).
    { exists q. split; [done|]. by rewrite (inv_depth _ _ _ Hi p c q Hc Hq); simpl; rewrite Hvw. }
    assert (u64 (current_queue_depth c + 1) = current_queue_depth c + 1) as Hd.
    { destruct Hex as (q0&_&->). pose proof (inv_bound _ _ _ Hi0).
      assert (S (depth q0 (flying s)) ≤ size pool)%nat; [|apply u64_small; lia].
      transitivity (S (size (flying s))); [pose proof (depth_le_size q0 (flying s)); lia|].
      rewrite <-(map_size_insert_None t (q, k) (flying s)), <-size_dom by done.
      apply subseteq_size. rewrite dom_insert_L. clear -Hpool Ht. set_solver. }
    rewrite Hd. set (c' := set_depth _ c). set (s'' := VProg _ _ _).
    assert (vinv s'') as Hv''.
    { split.
      - apply (inv_fly pool vsafe (erase s') w' p c c' e q t k); try done; simpl.
        + rewrite lookup_fmap, (va_task _ _ _ _ _ _ _ Ha). simpl.
          rewrite (matches_buffer tk k) by apply Ha. by rewrite (va_owner _ _ _ _ _ _ _ Ha).
        + rewrite Hvw. simpl. clear. set_solver.
        + by rewrite Hvw.
        + rewrite Hvw. simpl. clear. set_solver.
        + rewrite Hvw. exact Hbuf.
      - intros t' q' k'. simpl. rewrite Hv', Hvw. simpl.
        intros [[<- [= <- <-]]|[? Hk]]%lookup_insert_Some.
        + exists tk. split; apply Ha.
        + rewrite (va_tasks _ _ _ _ _ _ _ Ha) by done. by eapply (vi_match _ Hv).
      - intros p' c1. simpl. intros [[<- <-]|[_ Hc1]]%lookup_insert_Some.
        + by destruct (va_books _ _ _ _ _ _ _ Ha _ _ Hc).
        + by eapply (va_books _ _ _ _ _ _ _ Ha). }
    split; [done| | | |].
    + transitivity (base s'); [apply Ha|]. transitivity (set_env w' (base s')).
      * apply frame_env; [by rewrite Hv'|done].
      * by eapply frame_ctx.
    + unfold lost, s''. simpl. rewrite Hv', Hvw. simpl. rewrite dom_insert_L. by apply tokens_take.
    + intros c0 c0' Hc0 Hc0'. simpl in Hc0'. rewrite lookup_insert_eq in Hc0'. simplify_eq.
      destruct (va_same _ _ _ _ _ _ _ Ha _ Hc0) as (?&Hd0&?&?&?&?&?).
      split_and!; try done. left. simpl. by rewrite Hd0.
    + intros p' ?. simpl. rewrite lookup_insert_ne by done. by apply (va_others _ _ _ _ _ _ _ Ha).
Qed.

(** Storing into a buffer changes nothing that the invariant sees. *)
Lemma wp_dma_store b d Q E s :
  (∀ w', view w' = view (env (base s)) → quiet (env (base s)) w' →
     Q tt (VProg (set_env w' (base s)) (vtasks s) (starting_lba s))) →
  wp (lift (effect (dma_store b d))) Q E s.
Proof. intros HQ. apply wp_lift, wp_effect. by destruct (dma_store_law b d (env (base s))) as [??]; apply HQ. Qed.

Lemma quiet_trans (w1 w2 w3 : W) : quiet w1 w2 → quiet w2 w3 → quiet w1 w3.
Proof. intros [H1 ?] [H2 ?]. split; [intros q; by rewrite H2, H1|congruence]. Qed.

(** A task with its buffer has been taken from the environment; context [p]
    may have been updated. *)
Lemma arm p t tk k c c0 w' s :
  vinv s → ctxs (base s) !! p = Some c0 → t ∈ avail (view (env (base s))) →
  view w' = with_held (λ B, {[cmd_buf k]} ∪ B)
    (with_avail (λ A, A ∖ {[t]}) (view (env (base s)))) → quiet (env (base s)) w' →
  cmd_buf k ∉ held (view (env (base s))) → matches tk k → vt_ctx tk = p →
  entry c = entry c0 → qpair c = qpair c0 → is_draining c = is_draining c0 →
  current_queue_depth c = current_queue_depth c0 → io_completed c = io_completed c0 →
  (∀ e, entries (base s) !! entry c0 = Some e → wf_entry e →
     0 ≤ offset_in_ios c0 < size_in_ios e → 0 ≤ offset_in_ios c < size_in_ios e) →
  write_completed (extra c) = write_completed (extra c0) →
  read_completed (extra c) = read_completed (extra c0) →
  verification_passed (extra c) = verification_passed (extra c0) →
  verification_failed (extra c) = verification_failed (extra c0) →
  pending_reads (extra c) = pending_reads (extra c0) →
  varmed p t tk k c s (VProg (set_ctxs <[p := c]> (set_env w' (base s)))
    (<[t := tk]> (vtasks s)) (starting_lba s)).
Proof.
  intros Hv Hc0 Ht Hvw [_ Htsc] Hfr Hm Hp He Hq Hdr Hd Hio Hof Hx1 Hx2 Hx3 Hx4 Hx5.
  pose proof (vi_engine _ Hv) as Hi. pose proof (inv_disj _ _ _ Hi _ Ht) as Htf.
  simpl in Htf. split; simpl; try done.
  - rewrite erase_insert. apply inv_task; simpl; [|by rewrite Hvw].
    apply (inv_ctx_upd pool vsafe (set_env w' (erase s)) p c0 c); try done.
    apply inv_take; [done|..]; simpl; rewrite Hvw; simpl; [set_solver..|done].
  - intros p' c' [[<- <-]|[_ Hc']]%lookup_insert_Some; [|by eapply (vi_books _ Hv)].
    destruct (vi_books _ Hv _ _ Hc0) as [Hb1 Hb2 Hb3].
    split; congruence.
  - transitivity (set_env w' (base s)).
    + apply frame_env; [by rewrite Hvw|lia].
    + eapply frame_ctx; [exact Hc0|]. split; congruence.
  - apply lookup_insert_eq.
  - intros t' ?. by rewrite lookup_insert_ne.
  - apply lookup_insert_eq.
  - intros c1 Hc1. simplify_eq. done.
  - intros p' ?. by rewrite lookup_insert_ne.
Qed.

Lemma free_in_pool s t : vinv s → t ∈ avail (view (env (base s))) → t ∈ pool.
Proof. intros Hv Ht. apply (inv_pool _ _ _ (vi_engine _ Hv)). simpl. set_solver. Qed.

Lemma string_assigned_spec t Q E s : t ∈ pool → Q tt s → wp (string_assigned t) Q E s.
Proof. intros Ht HQ. unfold string_assigned. by rewrite strings_constructed. Qed.

Lemma submit_read_spec p t lba data c q s w1 E :
  vinv s → ctxs (base s) !! p = Some c → qpair c = Some q →
  t ∈ avail (view (env (base s))) →
  view w1 = with_avail (λ A, A ∖ {[t]}) (view (env (base s))) → quiet (env (base s)) w1 →
  (∀ s', E 1 s') →
  wp (submit_read p t lba data) (λ _ s', vsubmitted p s s') E
    (VProg (set_env w1 (base s)) (vtasks s) (starting_lba s)).
Proof.
  intros Hv Hc Hq Ht Hv1 Hq1 HE. unfold submit_read.
  apply wp_bind, string_assigned_spec; [by apply (free_in_pool s)|].
  apply wp_bind, wp_get. simpl.
  apply wp_bind, wp_lift, wp_call. intros [b|] w2 Hz; last first.
  { apply wp_bind, wp_lift, wp_effect. by apply wp_exit. }
  apply dma_zmalloc_some in Hz as (Hb&Hv2&Hq2). simpl in Hb, Hv2, Hq2. rewrite Hv1 in Hv2, Hb.
  apply wp_bind, wp_modify, wp_bind, wp_dma_store. intros w3 Hv3 Hq3. simpl in *.
  destruct (inv_entry _ _ _ (vi_engine _ Hv) p c Hc) as (e&He&Hwf&Hoff). simpl in He.
  apply wp_bind, wp_lift. eapply wp_ctx_at; [exact Hc|]. simpl.
  apply wp_bind, wp_lift. eapply wp_entry_at; [exact He|]. simpl.
  apply wp_bind. eapply wp_of_option; [exact Hq|].
  set (k := cmd_read (e_ns e) b lba (io_size_blocks e)).
  assert (varmed p t (VTask p None (Some b) lba true data) k c s
    (VProg (set_env w3 (base s)) (<[t:=VTask p None (Some b) lba true data]> (vtasks s))
      (starting_lba s))) as Ha.
  { rewrite <-(set_ctxs_id p c (set_env w3 (base s))) by done.
    apply (arm p t _ k c c w3 s); try done.
    - by rewrite Hv3, Hv2.
    - eapply quiet_trans; [exact Hq1|]. eapply quiet_trans; [exact Hq2|exact Hq3].
    - split; [done|]. split; [done|]. by exists (e_ns e), (io_size_blocks e). }
  eapply started_spec; [exact Hv|exact Ha|exact Hq|exact He|].
  exists b. left. by exists lba.
Qed.

Lemma write_offset_spec p c e E s :
  ctxs (base s) !! p = Some c → entries (base s) !! entry c = Some e → wf_entry e →
  0 ≤ offset_in_ios c < size_in_ios e →
  wp (write_offset p) (λ _ s', ∃ w' o, view w' = view (env (base s)) ∧
    quiet (env (base s)) w' ∧ 0 ≤ o < size_in_ios e ∧
    s' = VProg (set_ctxs <[p := set_offset o c]> (set_env w' (base s))) (vtasks s)
           (starting_lba s)) E s.
Proof.
  intros Hc He [??] ?. unfold write_offset.
  apply wp_bind, wp_lift. eapply wp_ctx_at; [exact Hc|]. simpl.
  apply wp_bind, wp_lift. eapply wp_entry_at; [exact He|]. simpl.
  apply wp_bind, wp_get. simpl. case_decide.
  - apply wp_bind, wp_lift, wp_call. intros r w' (?&?&?)%rand_r_law.
    rewrite decide_False by lia. apply wp_skip. exists w', (offset_in_ios c).
    split_and!; try done; try lia. rewrite set_ctxs_id; [done|]. by destruct c.
  - eapply wp_lift, wp_ctx_upd; [exact Hc|]. simpl.
    exists (env (base s)), (if decide (u64 (offset_in_ios c + 1) = size_in_ios e) then 0
                     else u64 (offset_in_ios c + 1)).
    rewrite set_env_id. split_and!; try done; try lia;
      rewrite u64_small by lia; case_decide; lia.
Qed.

Lemma submit_write_spec p t lba c q s w1 E :
  vinv s → ctxs (base s) !! p = Some c → qpair c = Some q →
  t ∈ avail (view (env (base s))) →
  view w1 = with_avail (λ A, A ∖ {[t]}) (view (env (base s))) → quiet (env (base s)) w1 →
  (∀ s', E 1 s') →
  wp (submit_write p t lba) (λ _ s', vsubmitted p s s') E
    (VProg (set_env w1 (base s)) (vtasks s) (starting_lba s)).
Proof.
  intros Hv Hc Hq Ht Hv1 Hq1 HE. unfold submit_write. apply wp_bind, wp_get. simpl.
  destruct (inv_entry _ _ _ (vi_engine _ Hv) p c Hc) as (e&He&Hwf&Hoff). simpl in He.
  apply wp_bind, wp_lift, wp_call. intros [b|] w2 Hz; last first.
  { apply wp_bind, wp_lift, wp_effect. by apply wp_exit. }
  apply dma_zmalloc_some in Hz as (Hb&Hv2&Hq2). simpl in Hb, Hv2, Hq2. rewrite Hv1 in Hv2, Hb.
  apply wp_bind, wp_lift. eapply wp_ctx_at; [exact Hc|]. simpl.
  apply wp_bind, wp_dma_store. intros w3 Hv3 Hq3. simpl in Hv3, Hq3.
  set (data := data_pattern _).
  apply wp_bind, string_assigned_spec; [by apply (free_in_pool s)|].
  apply wp_bind, wp_modify. simpl.
  apply wp_bind. eapply wp_vx_upd; [exact Hc|]. simpl. rewrite ?set_env_ctxs, ?set_env2.
  apply wp_bind. eapply wp_weaken.
  { eapply write_offset_spec; simpl; [apply lookup_insert_eq|exact He|done|exact Hoff]. }
  intros [] ? (w4&o&Hv4&Hq4&Ho&->). simpl in Hv4, Hq4 |- *. rewrite ?set_env_ctxs, ?set_env2.
  rewrite set_ctxs_insert2. set (c' := set_offset o _).
  apply wp_bind, wp_lift. eapply wp_ctx_at; [apply lookup_insert_eq|]. simpl.
  apply wp_bind, wp_lift. eapply wp_entry_at; [exact He|]. simpl.
  apply wp_bind. eapply wp_of_option; [exact Hq|].
  set (k := zone_append (e_ns e) b 0 (io_size_blocks e)).
  assert (varmed p t (VTask p (Some b) None lba false data) k c' s
    (VProg (set_ctxs <[p := c']> (set_env w4 (base s)))
      (<[t:=VTask p (Some b) None lba false data]> (vtasks s)) (starting_lba s))) as Ha.
  { apply (arm p t _ k c' c w4 s); try done.
    - by rewrite Hv4, Hv3, Hv2.
    - eapply quiet_trans; [exact Hq1|]. eapply quiet_trans; [exact Hq2|].
      eapply quiet_trans; [exact Hq3|exact Hq4].
    - split; [done|]. split; [done|]. by exists (e_ns e), (io_size_blocks e).
    - intros e' He' _ _. simpl. by simplify_eq. }
  eapply started_spec; [exact Hv|exact Ha|exact Hq|exact He|].
  exists b. by right.
Qed.

Lemma v_submit_single_io_spec p r lba data c q s :
  vinv s → ctxs (base s) !! p = Some c → qpair c = Some q →
  wp (Verify.submit_single_io p r lba data) (λ _ s', vsubmitted p s s')
    (λ code _, code = 1) s.
Proof.
  intros Hv Hc Hq. unfold Verify.submit_single_io. apply wp_bind, wp_lift, wp_call.
  intros [t|] w1 Hget; [|by apply wp_exit]. apply pool_get_some in Hget as (Ht&Hv1&Hq1).
  destruct r.
  - eapply submit_read_spec; eauto.
  - apply wp_bind, wp_get. eapply submit_write_spec; eauto.
Qed.

(** ** Completions *)

(** What a completion adds to the queue of pending reads. *)
Definition queued (tk : vtask) (r : cpl) : list (Z * string) :=
  if verification_mode tk then [] else [(u32 (cdw0 r), expected_data tk)].

(** The books after the completion of [tk]; [got] is what the buffer holds. *)
Definition recorded (tk : vtask) (r : cpl) (got : string) (x x' : vextra) : Prop :=
  count x' = count x ∧
  (if verification_mode tk
   then write_completed x' = write_completed x ∧ read_completed x' = incr (read_completed x) ∧
     (if verified (expected_data tk) got
      then verification_passed x' = incr (verification_passed x) ∧
        verification_failed x' = verification_failed x
      else verification_passed x' = verification_passed x ∧
        verification_failed x' = incr (verification_failed x))
   else write_completed x' = incr (write_completed x) ∧
     read_completed x' = read_completed x ∧
     verification_passed x' = verification_passed x ∧
     verification_failed x' = verification_failed x) ∧
  pending_reads x' = (λ l, l ++ queued tk r)%list <$> pending_reads x.

(** The state in which [task_complete] chooses the next I/O. *)
Record vlanded t tk c r got w' s s' : Prop := {
  vl_inv : vinv s';
  vl_frame : frame (base s) (base s');
  vl_lost : lost pool (base s') = lost pool (base s);
  vl_flying : flying s' = delete t (flying s);
  vl_quiet : quiet w' (env (base s'));
  vl_arb : g_arbitration (base s') = g_arbitration (base s);
  vl_ctx : ∃ c', ctxs (base s') !! vt_ctx tk = Some c' ∧ recorded tk r got (extra c) (extra c') ∧
    qpair c' = qpair c ∧ is_draining c' = is_draining c ∧
    io_completed c' = incr (io_completed c) ∧
    current_queue_depth c' = current_queue_depth c - 1;
  vl_others p' : p' ≠ vt_ctx tk → ctxs (base s') !! p' = ctxs (base s) !! p';
}.

Lemma books_recorded tk r got c c' : books c → recorded tk r got (extra c) (extra c') →
  io_completed c' = incr (io_completed c) → books c'.
Proof.
  intros [[l Hl] Hio Hrd] (_&Hm&Hp) Hio'. unfold incr in *. split.
  - rewrite Hp, Hl. by eexists.
  - rewrite Hio', Hio, u64_add_l. destruct (verification_mode tk).
    + destruct Hm as (->&->&_). rewrite (Z.add_comm _ (u64 _)), u64_add_l. f_equal. lia.
    + destruct Hm as (->&->&_). rewrite u64_add_l. f_equal. lia.
  - destruct (verification_mode tk).
    + destruct Hm as (_&->&Hv). rewrite Hrd, u64_add_l. destruct (verified _ _).
      * destruct Hv as [-> ->]. rewrite u64_add_l. f_equal. lia.
      * destruct Hv as [-> ->]. rewrite (Z.add_comm _ (u64 _)), u64_add_l. f_equal. lia.
    + by destruct Hm as (_&->&->&->).
Qed.

(** Every buffer that a read has filled holds a terminator. *)
Context (terminated : ∀ b (w : W), is_Some (dma_string b w)).

Definition got_at (tk : vtask) (w' : W) : string :=
  default "" (vt_read_buf tk ≫= λ b, dma_string b w').

(** The body of [task_complete] before the pool gets the task back. *)
Lemma record_spec p tk k r c0 c w' b ts st E :
  matches tk k → (verification_mode tk = false → vt_lba tk = u32 (cdw0 r)) →
  ctxs b !! p = Some c0 → env b = w' → is_Some (pending_reads (extra c0)) →
  extra c0 = extra c →
  wp (if verification_mode tk then record_read p tk else record_write p tk)
    (λ _ s', ∃ x, recorded tk r (got_at tk w') (extra c) x ∧
       s' = VProg (set_ctxs <[p := set_extra x c0]>
              (set_env (dma_free (cmd_buf k) w') b)) ts st) E (VProg b ts st).
Proof.
  intros Hm Hlba Hc <- [l Hl] Hx. unfold matches in Hm. unfold recorded, queued, got_at.
  rewrite Hx in Hl. destruct (verification_mode tk) eqn:Hmode.
  - destruct Hm as (_&Hb&_). unfold record_read.
    apply wp_bind. eapply wp_vx_upd; [exact Hc|]. simpl.
    apply wp_bind. eapply wp_of_option; [exact Hb|]. apply wp_bind, wp_get. simpl.
    destruct (terminated (cmd_buf k) (env b)) as [got Hgot].
    apply wp_bind. eapply wp_of_option; [exact Hgot|]. rewrite Hb. simpl. rewrite Hgot. simpl.
    apply wp_bind. destruct (verified _ got); eapply wp_vx_upd, wp_lift, wp_effect; simpl;
      try apply lookup_insert_eq; rewrite set_ctxs_insert2; rewrite Hx;
      (eexists; split; [|reflexivity]); simpl; (split; [done|]); (split; [done|]);
      rewrite Hl; simpl; by rewrite app_nil_r.
  - destruct Hm as (Hb&_&_). unfold record_write.
    apply wp_bind. eapply wp_vx_upd; [exact Hc|]. simpl.
    apply wp_bind, wp_lift. eapply wp_ctx_at; [apply lookup_insert_eq|]. simpl.
    apply wp_bind. eapply wp_of_option; [by rewrite Hx, Hl|].
    apply wp_bind. eapply wp_vx_upd; [apply lookup_insert_eq|]. simpl.
    rewrite set_ctxs_insert2. apply wp_bind. eapply wp_of_option; [exact Hb|].
    apply wp_lift, wp_effect. eexists. split; [|reflexivity]. simpl.
    rewrite Hx, Hl. simpl. rewrite (Hlba eq_refl). done.
Qed.

(** [tk1] is [tk] with its address filled in. *)
Record addressed (tk tk1 : vtask) (r : cpl) : Prop := {
  ad_ctx : vt_ctx tk1 = vt_ctx tk;
  ad_mode : verification_mode tk1 = verification_mode tk;
  ad_data : expected_data tk1 = expected_data tk;
  ad_buf : vt_buf tk1 = vt_buf tk;
  ad_read_buf : vt_read_buf tk1 = vt_read_buf tk;
  ad_lba : if verification_mode tk then vt_lba tk1 = vt_lba tk
    else vt_lba tk1 = u32 (cdw0 r);
}.

Lemma addressed_matches tk tk1 r k : addressed tk tk1 r → matches tk k → matches tk1 k.
Proof.
  intros [Hc Hm Hd Hb Hr Hl]. unfold matches. rewrite Hm, Hb, Hr.
  destruct (verification_mode tk); [by rewrite Hl|done].
Qed.

Lemma addressed_recorded tk tk1 r got x x' : addressed tk tk1 r →
  recorded tk1 r got x x' → recorded tk r got x x'.
Proof. intros [Hc Hm Hd Hb Hr Hl]. unfold recorded, queued. by rewrite Hm, Hd. Qed.

(** The first half of a completion: everything up to the choice of the next
    I/O. *)
Lemma land_spec t tk tk1 ts1 st1 c q k r w' s :
  vinv s → poll_next q (env (base s)) = (Some (t, r), w') →
  flying s !! t = Some (q, k) → vtasks s !! t = Some tk → addressed tk tk1 r →
  ts1 !! t = Some tk1 → (∀ t', t' ≠ t → ts1 !! t' = vtasks s !! t') →
  ctxs (base s) !! vt_ctx tk = Some c → ∀ x, recorded tk r (got_at tk w') (extra c) x →
  vlanded t tk c r (got_at tk w') w' s (VProg
    (set_ctxs <[vt_ctx tk := NsWorkerCtx (entry c) (incr (io_completed c))
       (current_queue_depth c - 1) (offset_in_ios c) (is_draining c) (qpair c) x]>
       (set_env (pool_put t (dma_free (cmd_buf k) w')) (base s))) ts1 st1).
Proof.
  intros Hv Hpoll Ht Htk Had Hts Hoth Hc x Hx. pose proof (vi_engine _ Hv) as Hi.
  destruct (poll_some _ _ _ _ _ Hpoll) as (_&Hv1&Htsc1).
  destruct (vi_match _ Hv _ _ _ Ht) as (tk0&Htk0&Hmt). simplify_eq.
  destruct (inv_cmd _ _ _ Hi _ _ _ Ht) as (ak&c1&e&Hak&Hc1&Hq&Hbuf&Hheld&He&Hsafe).
  simpl in Hak, Hc1. rewrite lookup_fmap, Htk in Hak. simpl in Hak. simplify_eq/=.
  set (c' := NsWorkerCtx _ _ _ _ _ _ _).
  destruct (give_back w' (cmd_buf k) t) as [Hv3 [Hl3 Ht3]].
  { by rewrite Hv1. }
  { rewrite Hv1. intros Ha. pose proof (inv_disj _ _ _ Hi _ Ha) as Hd. simpl in Hd. congruence. }
  rewrite Hv1 in Hv3. set (w3 := pool_put t (dma_free (cmd_buf k) w')) in *.
  assert (erase (VProg (base s) ts1 st1) = erase s) as Her.
  { unfold erase, set_tasks. simpl. f_equal. apply map_eq. intros t'. rewrite !lookup_fmap.
    destruct (decide (t' = t)) as [->|]; [|by rewrite Hoth].
    rewrite Hts, Htk. simpl. unfold vt_buffer. destruct Had. congruence. }
  assert (inv pool vsafe (erase (VProg (set_ctxs <[vt_ctx tk := c']> (set_env w3 (base s)))
    ts1 st1))) as Hi'.
  { change (erase _) with (set_ctxs <[vt_ctx tk := c']>
      (set_env w3 (erase (VProg (base s) ts1 st1)))). rewrite Her.
    eapply (inv_complete pool vsafe (erase s) w3 q t k c c'); try done; simpl.
    rewrite lookup_fmap, Htk. simpl. by rewrite (matches_buffer _ _ Hmt). }
  split; simpl; try done.
  - split; [done| |].
    + intros t' q' k'. simpl. rewrite Hv3. simpl. intros [? Hk]%lookup_delete_Some.
      rewrite Hoth by done. by eapply (vi_match _ Hv).
    + intros p' c2. simpl. intros [[<- <-]|[_ Hc2]]%lookup_insert_Some;
        [|by eapply (vi_books _ Hv)].
      eapply books_recorded; [by eapply (vi_books _ Hv)|exact Hx|done].
  - eapply frame_land; [exact Hc|done|by rewrite Hv3|lia].
  - unfold lost. simpl. rewrite Hv3. simpl. rewrite dom_delete_L.
    apply tokens_return, elem_of_dom. by eexists.
  - by rewrite Hv3.
  - exists c'. split; [apply lookup_insert_eq|]. done.
  - intros p' ?. by rewrite lookup_insert_ne.
Qed.

(** [s] with the queue of pending reads of [p] replaced by [l]. *)
Definition with_pending (p : Z) (l : list (Z * string)) s : vprog W :=
  VProg (set_ctxs (alter (λ c, set_extra (vx_pending (Some l) (extra c)) c) p) (base s))
    (vtasks s) (starting_lba s).

Lemma with_pending_eq p l c s : ctxs (base s) !! p = Some c →
  with_pending p l s = VProg (set_ctxs
    <[p := set_extra (vx_pending (Some l) (extra c)) c]> (base s)) (vtasks s) (starting_lba s).
Proof.
  intros Hc. unfold with_pending, set_ctxs. do 2 f_equal. apply map_eq. intros p'.
  destruct (decide (p' = p)) as [->|].
  - by rewrite lookup_alter_eq, lookup_insert_eq, Hc.
  - by rewrite lookup_alter_ne, lookup_insert_ne.
Qed.

Lemma with_pending_inv p l c s : vinv s → ctxs (base s) !! p = Some c →
  vinv (with_pending p l s).
Proof.
  intros Hv Hc. rewrite (with_pending_eq _ _ _ _ Hc). split.
  - eapply (inv_ctx_upd pool vsafe (erase s) p c); [apply Hv|exact Hc|done..].
  - apply (vi_match _ Hv).
  - intros p' c'. simpl. intros [[<- <-]|[_ Hc']]%lookup_insert_Some;
      [|by eapply (vi_books _ Hv)].
    destruct (vi_books _ Hv _ _ Hc). split; [by eexists|done|done].
Qed.

(** The I/O that replaces a completed one: the verifying read of the oldest
    pending pair when there is one and room for it, a write otherwise. *)
Definition replaced (p : Z) s s' : Prop := ∃ c l,
  ctxs (base s) !! p = Some c ∧ pending_reads (extra c) = Some l ∧
  match l with
  | _ :: l' =>
      if decide (current_queue_depth c < u64 (queue_depth (g_arbitration (base s))))
      then vsubmitted p (with_pending p l' s) s' else vsubmitted p s s'
  | [] => vsubmitted p s s'
  end.

Lemma next_io_spec p c q s : vinv s → ctxs (base s) !! p = Some c → qpair c = Some q →
  wp (next_io p) (λ _ s', replaced p s s') (λ code _, code = 1) s.
Proof.
  intros Hv Hc Hq. destruct (bk_queue _ (vi_books _ Hv _ _ Hc)) as [l Hl].
  unfold next_io. apply wp_bind, wp_lift. eapply wp_ctx_at; [exact Hc|]. simpl.
  apply wp_bind, wp_get, wp_bind. eapply wp_of_option; [exact Hl|].
  replace (VProg (base s) (vtasks s) (starting_lba s)) with s by (by destruct s).
  assert (∀ Q : () → vprog W → Prop, (∀ s', vsubmitted p s s' → Q tt s') →
    wp (Verify.submit_single_io p false 0 "") Q (λ code _, code = 1) s) as Hw.
  { intros Q HQ. eapply wp_weaken; [by eapply v_submit_single_io_spec|].
    intros [] s' ?. by apply HQ. }
  destruct l as [|[lba data] l'].
  { apply Hw. intros s' ?. by exists c, []. }
  case_decide as Hroom.
  - apply wp_bind. eapply wp_vx_upd; [exact Hc|].
    rewrite <-(with_pending_eq p l' c s) by done.
    eapply wp_weaken; [eapply v_submit_single_io_spec|].
    + by eapply with_pending_inv.
    + rewrite (with_pending_eq _ _ _ _ Hc). apply lookup_insert_eq.
    + done.
    + intros [] s' Hs. exists c, ((lba, data) :: l'). split_and!; [done|done|].
      by rewrite decide_True.
  - apply Hw. intros s' ?. exists c, ((lba, data) :: l'). split_and!; [done|done|].
    by rewrite decide_False.
Qed.

(** A whole completion. *)
Definition vcompleted t tk c r w' s s' : Prop := ∃ s1,
  vlanded t tk c r (got_at tk w') w' s s1 ∧
  if is_draining c then s' = s1 else replaced (vt_ctx tk) s1 s'.

Lemma v_io_complete_spec q t r w' s tk c :
  vinv s → poll_next q (env (base s)) = (Some (t, r), w') →
  vtasks s !! t = Some tk → ctxs (base s) !! vt_ctx tk = Some c →
  wp (Verify.io_complete t r) (λ _ s', vcompleted t tk c r w' s s')
    (λ code _, code = 1 ∧ is_draining c = false)
    (VProg (set_env w' (base s)) (vtasks s) (starting_lba s)).
Proof.
  intros Hv Hpoll Htk Hc. pose proof (vi_engine _ Hv) as Hi.
  destruct (poll_some _ _ _ _ _ Hpoll) as ((k&Ht)&Hv1&_).
  destruct (vi_match _ Hv _ _ _ Ht) as (tk0&Htk0&Hmt). simplify_eq.
  destruct (inv_cmd _ _ _ Hi _ _ _ Ht) as (ak&c1&e&Hak&Hc1&Hq&_).
  simpl in Hak, Hc1. rewrite lookup_fmap, Htk in Hak. simpl in Hak. simplify_eq/=.
  assert (current_queue_depth c = Z.of_nat (S (depth q (delete t (flying s))))) as Hd.
  { rewrite (inv_depth _ _ _ Hi _ _ _ Hc Hq). simpl. by rewrite (depth_delete_eq _ _ _ _ Ht). }
  assert (u64 (current_queue_depth c - 1) = current_queue_depth c - 1) as Hd1.
  { pose proof (inv_bound _ _ _ Hi). pose proof (inv_pool _ _ _ Hi) as Hpool. simpl in Hpool.
    assert (depth q (flying s) ≤ size pool)%nat by (apply depth_le_pool; set_solver).
    rewrite (depth_delete_eq _ _ _ _ Ht) in *. apply u64_small. lia. }
  assert (∃ tk1 ts1 st1, addressed tk tk1 r ∧ ts1 !! t = Some tk1 ∧
    (∀ t', t' ≠ t → ts1 !! t' = vtasks s !! t') ∧
    (wp (Verify.task_complete t) (λ _ s', vcompleted t tk c r w' s s')
      (λ code _, code = 1 ∧ is_draining c = false) (VProg (set_env w' (base s)) ts1 st1) →
     wp (Verify.io_complete t r) (λ _ s', vcompleted t tk c r w' s s')
      (λ code _, code = 1 ∧ is_draining c = false)
      (VProg (set_env w' (base s)) (vtasks s) (starting_lba s))))
    as (tk1&ts1&st1&Had&Hts&Hoth&Hstart).
  { unfold Verify.io_complete. destruct (verification_mode tk) eqn:Hmode.
    - exists tk, (vtasks s), (starting_lba s). split_and!; try done.
      + split; try done. by rewrite Hmode.
      + intros Hw. apply wp_bind. eapply wp_vtask_at; [exact Htk|]. rewrite Hmode.
        by apply wp_bind, wp_skip.
    - set (tk1 := VTask (vt_ctx tk) (vt_buf tk) (vt_read_buf tk) (u32 (cdw0 r)) false
        (expected_data tk)).
      exists tk1, (<[t := tk1]> (vtasks s)), true. split_and!; [|apply lookup_insert_eq| |].
      + split; rewrite ?Hmode; done.
      + intros t' ?. by rewrite lookup_insert_ne.
      + intros Hw. apply wp_bind. eapply wp_vtask_at; [exact Htk|]. rewrite Hmode.
        apply wp_bind, wp_bind, wp_modify, wp_modify. exact Hw. }
  apply Hstart. clear Hstart. unfold Verify.task_complete.
  apply wp_bind. eapply wp_vtask_at; [exact Hts|]. simpl.
  rewrite (ad_ctx _ _ _ Had).
  apply wp_bind, wp_lift. eapply wp_ctx_upd; [exact Hc|]. simpl.
  apply wp_bind, wp_lift. eapply wp_ctx_upd; [apply lookup_insert_eq|]. simpl.
  rewrite set_ctxs_insert2, Hd1. apply wp_bind.
  pose proof (addressed_matches _ _ _ _ Had Hmt) as Hmt1.
  set (c0 := set_io_completed _ _).
  eapply wp_weaken.
  { eapply (record_spec (vt_ctx tk) tk1 k r c0 c w'); [exact Hmt1| | | | |].
    - intros Hf. pose proof (ad_lba _ _ _ Had) as Hl. by rewrite <-(ad_mode _ _ _ Had), Hf in Hl.
    - simpl. apply lookup_insert_eq.
    - done.
    - apply (bk_queue c), (vi_books _ Hv _ _ Hc).
    - done. }
  intros [] ? (x&Hx&->). simpl. rewrite set_env_ctxs, set_env2, set_ctxs_insert2.
  apply wp_bind, wp_lift, wp_effect. simpl. rewrite set_env_ctxs, set_env2.
  assert (got_at tk1 w' = got_at tk w') as Hgot
    by (unfold got_at; by rewrite (ad_read_buf _ _ _ Had)).
  rewrite Hgot in Hx. apply (addressed_recorded _ _ _ _ _ _ Had) in Hx.
  pose proof (land_spec t tk tk1 ts1 st1 c q k r w' s Hv Hpoll Ht Htk Had Hts Hoth Hc x Hx) as Hl.
  set (s1 := VProg _ _ _) in Hl. match goal with |- wp ?m ?Q ?E _ => change (wp m Q E s1) end.
  clearbody s1. destruct (vl_ctx _ _ _ _ _ _ _ _ Hl) as (c'&Hc'&_&Hq'&Hdr&_).
  apply wp_bind, wp_lift. eapply wp_ctx_at; [exact Hc'|].
  replace (VProg (base s1) (vtasks s1) (starting_lba s1)) with s1 by (by destruct s1).
  rewrite Hdr. destruct (is_draining c) eqn:Hdrc.
  - apply wp_skip. exists s1. split; [exact Hl|]. by rewrite Hdrc.
  - eapply wp_mono; [eapply next_io_spec; [apply Hl|exact Hc'|by rewrite Hq']| |by intros ? ? ->].
    intros [] s' Hs'. exists s1. split; [exact Hl|]. by rewrite Hdrc.
Qed.

(** The counters after a completion: the next I/O does not touch them. *)
Lemma replaced_counts p c s s' : ctxs (base s) !! p = Some c → replaced p s s' →
  ∃ c', ctxs (base s') !! p = Some c' ∧ io_completed c' = io_completed c ∧
    write_completed (extra c') = write_completed (extra c) ∧
    read_completed (extra c') = read_completed (extra c) ∧
    verification_passed (extra c') = verification_passed (extra c) ∧
    verification_failed (extra c') = verification_failed (extra c).
Proof.
  intros Hc (c0&l&Hc0&_&Hs). simplify_eq.
  assert (∀ s0 c1, ctxs (base s0) !! p = Some c1 → vsubmitted p s0 s' →
    ∃ c', ctxs (base s') !! p = Some c' ∧ io_completed c' = io_completed c1 ∧
    write_completed (extra c') = write_completed (extra c1) ∧
    read_completed (extra c') = read_completed (extra c1) ∧
    verification_passed (extra c') = verification_passed (extra c1) ∧
    verification_failed (extra c') = verification_failed (extra c1)) as Hsub.
  { intros s0 c1 Hc1 [_ Hf _ Hcs _]. destruct (fr_ctx _ _ Hf _ _ Hc1) as (c'&Hc'&_).
    exists c'. by destruct (Hcs _ _ Hc1 Hc') as (?&?&?&?&?&_). }
  destruct l as [|x l]; [by eapply Hsub|]. case_decide; [|by eapply Hsub].
  apply (Hsub (with_pending p l s) (set_extra (vx_pending (Some l) (extra c)) c)); [|done].
  rewrite (with_pending_eq _ _ _ _ Hc). apply lookup_insert_eq.
Qed.

Lemma vcompleted_counts t tk c r w' s s' : vcompleted t tk c r w' s s' → ∃ c',
  ctxs (base s') !! vt_ctx tk = Some c' ∧ io_completed c' = incr (io_completed c) ∧
  ∃ x, recorded tk r (got_at tk w') (extra c) x ∧
    write_completed (extra c') = write_completed x ∧
    read_completed (extra c') = read_completed x ∧
    verification_passed (extra c') = verification_passed x ∧
    verification_failed (extra c') = verification_failed x.
Proof.
  intros (s1&Hl&Hs). destruct (vl_ctx _ _ _ _ _ _ _ _ Hl) as (c1&Hc1&Hx&_&_&Hio&_).
  destruct (is_draining c).
  - subst. by exists c1; split_and!; [..|exists (extra c1)].
  - destruct (replaced_counts _ _ _ _ Hc1 Hs) as (c'&?&Hio'&?&?&?&?).
    exists c'. split_and!; [done|congruence|]. by exists (extra c1).
Qed.
End spec.
