(* ===== verification/VerifyRun.v ===== *)
(** * A whole run of the write-and-verify benchmark

    From single completions to [work_fn] of [Verify]: polling, draining,
    queue pairs and the worker's run, with the invariant of [VerifySpec]. *)
From S2P Require Import Prelude Spdk Arb Engine EngineInv EngineSpec Verify VerifySpec.

Section run.
Context {W : Type} `{!Spdk W Z} `{!SpdkView W Z} `{!SpdkLaws W Z}.
Context `{!DmaData W} `{!DmaLaws W} `{!TaskStrings}.
Context (pool : gset Z) `{!Constructed pool}.
Context (terminated : ∀ b (w : W), is_Some (dma_string b w)).
Implicit Types (s : vprog W) (c : ns_worker_ctx vextra).

Local Abbreviation flying s := (inflight (view (env (base s)))).
Local Abbreviation vinv := (vinv pool).

(** What any call between two polls preserves; nothing is ever lost. *)
Definition vevolves s s' : Prop :=
  vinv s' ∧ frame (base s) (base s') ∧ lost pool (base s') = lost pool (base s).

Lemma vevolves_refl s : vinv s → vevolves s s.
Proof. by intros. Qed.

Lemma vevolves_trans s1 s2 s3 : vevolves s1 s2 → vevolves s2 s3 → vevolves s1 s3.
Proof. intros (?&?&?) (?&?&?). split_and!; [done|by etransitivity|congruence]. Qed.

Lemma vsubmitted_evolves p s s' : vsubmitted pool p s s' → vevolves s s'.
Proof. by intros []. Qed.

Lemma vlanded_evolves t tk c r got w' s s' : vlanded pool t tk c r got w' s s' → vevolves s s'.
Proof. by intros []. Qed.

Lemma with_pending_evolves p l c s : vinv s → ctxs (base s) !! p = Some c →
  vevolves s (with_pending p l s).
Proof.
  intros Hv Hc. split; [by eapply with_pending_inv|].
  rewrite (with_pending_eq _ _ _ _ Hc). split; [|done]. by eapply frame_ctx.
Qed.

Lemma replaced_evolves p s s' : vinv s → replaced pool p s s' → vevolves s s'.
Proof.
  intros Hv (c&l&Hc&_&Hs). destruct l as [|x l]; [by eapply vsubmitted_evolves|].
  case_decide; [|by eapply vsubmitted_evolves].
  eapply vevolves_trans; [by apply (with_pending_evolves p l c)|by eapply vsubmitted_evolves].
Qed.

Lemma vcompleted_evolves t tk c r w' s s' : vcompleted pool t tk c r w' s s' → vevolves s s'.
Proof.
  intros (s1&Hl&Hs). pose proof (vlanded_evolves _ _ _ _ _ _ _ _ Hl) as H1.
  destruct (is_draining c); [by subst|].
  eapply vevolves_trans; [done|]. by eapply replaced_evolves; [apply H1|].
Qed.

Lemma vevolves_env s w' : vinv s → view w' = view (env (base s)) →
  tsc (env (base s)) ≤ tsc w' →
  vevolves s (VProg (set_env w' (base s)) (vtasks s) (starting_lba s)).
Proof.
  intros Hv Hw ?. split_and!.
  - split.
    + apply (inv_quiet pool vsafe (erase s)); [apply Hv|done].
    + simpl. rewrite Hw. apply (vi_match _ _ Hv).
    + apply (vi_books _ _ Hv).
  - by apply frame_env; [rewrite Hw|].
  - unfold lost. simpl. by rewrite Hw.
Qed.

Lemma vevolves_ctx s s' p c q : vevolves s s' → ctxs (base s) !! p = Some c →
  qpair c = Some q → ∃ c', ctxs (base s') !! p = Some c' ∧ qpair c' = Some q ∧
    (is_draining c = true → is_draining c' = true).
Proof.
  intros (_&Hf&_) Hc Hq. destruct (fr_ctx _ _ Hf _ _ Hc) as (c'&?&[]).
  exists c'. split_and!; congruence || done.
Qed.

(** The task and the context of a completion exist. *)
Lemma poll_task q s t r w' : vinv s → poll_next q (env (base s)) = (Some (t, r), w') →
  ∃ tk c, vtasks s !! t = Some tk ∧ ctxs (base s) !! vt_ctx tk = Some c ∧ qpair c = Some q.
Proof.
  intros Hv Hp. destruct (poll_some _ _ _ _ _ Hp) as ((k&Hk)&_&_).
  destruct (inv_cmd _ _ _ (vi_engine _ _ Hv) _ _ _ Hk) as (ak&c&e&Hak&Hc&Hq&_).
  simpl in Hak, Hc. rewrite lookup_fmap in Hak.
  destruct (vtasks s !! t) as [tk|]; [|done]. simplify_eq/=. by exists tk, c.
Qed.

Lemma v_deliver_spec n q s : vinv s →
  wp (Verify.deliver n q) (λ _ s', vevolves s s') (λ code _, code = 1) s.
Proof.
  revert s. induction n as [|n IH]; intros s Hv; simpl; [by apply wp_skip, vevolves_refl|].
  apply wp_bind, wp_lift, wp_call. intros [[t r]|] w' Hp.
  - destruct (poll_task _ _ _ _ _ Hv Hp) as (tk&c&Htk&Hc&_). apply wp_bind.
    eapply wp_mono; [by eapply (v_io_complete_spec pool)| |by intros ?? []].
    intros [] s' Hs'. apply vcompleted_evolves in Hs'.
    eapply wp_weaken; [apply IH, Hs'|]. intros [] s'' ?. by eapply vevolves_trans.
  - apply poll_none in Hp as [??]. by apply wp_skip, vevolves_env.
Qed.

Lemma v_check_io_spec p c q s : vinv s → ctxs (base s) !! p = Some c → qpair c = Some q →
  wp (Verify.check_io p) (λ _ s', vevolves s s') (λ code _, code = 1) s.
Proof.
  intros Hv Hc Hq. unfold Verify.check_io. apply wp_bind, wp_lift. eapply wp_ctx_at; [done|].
  apply wp_bind. eapply wp_of_option; [done|]. apply wp_bind, wp_get.
  replace (VProg (base s) (vtasks s) (starting_lba s)) with s by (by destruct s).
  by apply v_deliver_spec.
Qed.

Lemma v_submit_io_spec p c q n s : vinv s → ctxs (base s) !! p = Some c → qpair c = Some q →
  wp (Verify.submit_io p n) (λ _ s', vevolves s s') (λ code _, code = 1) s.
Proof.
  intros Hv Hc Hq. apply (wp_repeat _ (λ _ s', vevolves s s')); [|by apply vevolves_refl].
  intros k s' _ Hs'. destruct (vevolves_ctx _ _ _ _ _ Hs' Hc Hq) as (c'&Hc'&Hq'&_).
  eapply wp_weaken; [eapply (v_submit_single_io_spec pool); [apply Hs'|done..]|].
  intros [] s'' Hs''. eapply vevolves_trans; [done|]. by eapply vsubmitted_evolves.
Qed.

(** While a context drains nothing is submitted. *)
Lemma v_deliver_draining n p c q s :
  vinv s → ctxs (base s) !! p = Some c → qpair c = Some q → is_draining c = true →
  wp (Verify.deliver n q) (λ _ s', vevolves s s' ∧ flying s' ⊆ flying s ∧
      (lag q (env (base s')) ≤ lag q (env (base s)))%nat ∧
      (n ≠ O → depth q (flying s) ≠ O →
         (lag q (env (base s')) < lag q (env (base s)))%nat)) (λ _ _, False) s.
Proof.
  revert s c. induction n as [|n IH]; intros s c Hv Hc Hq Hdr; simpl.
  { apply wp_skip. split; [by apply vevolves_refl|done]. }
  apply wp_bind, wp_lift, wp_call. intros r w' Hp.
  pose proof (poll_idle _ _ _ _ Hp) as Hle. pose proof (poll_progress _ _ _ _ Hp) as Hlt.
  destruct r as [[t r]|]; last first.
  { apply poll_none in Hp as [Hw ?]. apply wp_skip.
    split_and!; [by apply vevolves_env|simpl; by rewrite Hw|done|done]. }
  destruct (poll_task _ _ _ _ _ Hv Hp) as (tk&c0&Htk&Hc0&Hq0).
  assert (vt_ctx tk = p) as <- by (by eapply (inv_qpair _ _ _ (vi_engine _ _ Hv))).
  simplify_eq. apply wp_bind. eapply wp_mono; [by eapply (v_io_complete_spec pool)| |].
  - intros [] s' Hs'. pose proof (vcompleted_evolves _ _ _ _ _ _ _ Hs') as He.
    destruct Hs' as (s1&Hl&Hs1). rewrite Hdr in Hs1. subst s1.
    destruct (vl_quiet _ _ _ _ _ _ _ _ _ Hl) as [Hlag _].
    destruct (vevolves_ctx _ _ _ _ _ He Hc Hq) as (c'&Hc'&Hq'&Hdr').
    eapply wp_weaken; [eapply (IH s' c'); [apply He|done|done|auto]|].
    intros [] s'' (He'&Hsub&Hle'&_). rewrite Hlag in Hle'.
    rewrite (vl_flying _ _ _ _ _ _ _ _ _ Hl) in Hsub.
    split_and!; [by eapply vevolves_trans| |lia|intros; specialize (Hlt ltac:(done)); lia].
    by etransitivity; [exact Hsub|apply delete_subseteq].
  - intros ? _ [_ Hd]. congruence.
Qed.

Lemma v_drain_io_spec p c q s : vinv s → ctxs (base s) !! p = Some c → qpair c = Some q →
  twp (λ fuel, Verify.drain_io fuel p) (λ _ s', vevolves s s' ∧ flying s' ⊆ flying s ∧
      depth q (flying s') = O) (λ _ _, False) s.
Proof.
  intros Hv Hc Hq. unfold Verify.drain_io. apply twp_bind_wp, wp_lift.
  eapply wp_ctx_upd; [exact Hc|]. set (s0 := VProg (set_ctxs _ _) _ _).
  assert (vevolves s s0) as Hs0.
  { split_and!; [|by eapply frame_ctx|done]. split.
    - eapply (inv_ctx_upd pool vsafe (erase s) p c); [apply Hv|exact Hc|done..].
    - apply (vi_match _ _ Hv).
    - intros p' c'. simpl. intros [[<- <-]|[_ Hc']]%lookup_insert_Some;
        [|by eapply (vi_books _ _ Hv)]. by destruct (vi_books _ _ Hv _ _ Hc). }
  pose (I s' := vevolves s s' ∧ flying s' ⊆ flying s ∧ ∃ c', ctxs (base s') !! p = Some c' ∧
    qpair c' = Some q ∧ is_draining c' = true).
  eapply twp_weaken; [apply (twp_while _ _ I (λ s', lag q (env (base s'))))|].
  - intros s' (Hs'&Hsub&c'&Hc'&Hq'&Hdr) Hb. unfold busy in Hb. rewrite Hc' in Hb.
    apply bool_decide_eq_true in Hb.
    rewrite (inv_depth _ _ _ (vi_engine _ _ (proj1 Hs')) p c' q Hc' Hq') in Hb. simpl in Hb.
    unfold Verify.check_io. apply wp_bind, wp_lift. eapply wp_ctx_at; [done|].
    apply wp_bind. eapply wp_of_option; [done|]. apply wp_bind, wp_get.
    replace (VProg (base s') (vtasks s') (starting_lba s')) with s' by (by destruct s').
    eapply wp_weaken; [eapply v_deliver_draining; [apply Hs'|done..]|].
    intros [] s'' (Hs''&Hsub'&_&Hlt).
    destruct (vevolves_ctx _ _ _ _ _ Hs'' Hc' Hq') as (c''&?&?&?).
    split; [|apply Hlt; [|lia]].
    + split_and!; [by eapply vevolves_trans|by etransitivity|exists c''; auto].
    + pose proof (poll_budget_pos q (max_completions (g_arbitration (base s')))
        (env (base s'))). lia.
  - split_and!; [done|done|]. eexists. split; [apply lookup_insert_eq|done].
  - intros [] s' ((Hs'&Hsub&c'&Hc'&Hq'&_)&Hb). split_and!; [done|done|].
    unfold busy in Hb. rewrite Hc' in Hb. apply bool_decide_eq_false in Hb.
    rewrite (inv_depth _ _ _ (vi_engine _ _ (proj1 Hs')) p c' q Hc' Hq') in Hb.
    simpl in Hb. lia.
Qed.

Definition vlive s p : Prop := live_ctx (base s) p.

Lemma vevolves_live s s' p : vevolves s s' → vlive s p → vlive s' p.
Proof.
  intros He (c&q&Hc&Hq). destruct (vevolves_ctx _ _ _ _ _ He Hc Hq) as (c'&?&?&_).
  by exists c', q.
Qed.

(** One round of the polling loop. *)
Lemma poll_round ps s : vinv s → (∀ p, p ∈ ps → vlive s p) →
  wp (foreach ps Verify.check_io;; lift (call get_ticks)) (λ now s',
    vevolves s s' ∧ tsc (env (base s)) ≤ now < tsc (env (base s'))) (λ code _, code = 1) s.
Proof.
  intros Hv Hps. apply wp_seq. eapply wp_weaken; [apply (wp_foreach_inv _ (vevolves s))|].
  - intros p s' Hp Hs'. destruct (vevolves_live _ _ _ Hs' (Hps p Hp)) as (c&q&?&?).
    eapply wp_weaken; [eapply v_check_io_spec; [apply Hs'|done..]|].
    intros [] s'' ?. by eapply vevolves_trans.
  - by apply vevolves_refl.
  - intros [] s' Hs'. apply wp_lift, wp_call. intros now w' (->&?&Hw&_)%get_ticks_law.
    pose proof (fr_tsc _ _ (proj1 (proj2 Hs'))). split_and!; simpl; [|lia|lia].
    eapply vevolves_trans; [done|apply vevolves_env; [apply Hs'|done|lia]].
Qed.

Lemma v_poll_until_spec tsc_end ps s : vinv s → (∀ p, p ∈ ps → vlive s p) →
  twp (λ fuel, Verify.poll_until fuel tsc_end ps) (λ _ s', vevolves s s')
    (λ code _, code = 1) s.
Proof.
  intros Hv Hps. remember (Z.to_nat (tsc_end + 1 - tsc (env (base s)))) as k eqn:Hk.
  revert s Hk Hv Hps. induction (lt_wf k) as [k _ IH]; intros s -> Hv Hps.
  pose proof (poll_round ps s Hv Hps) as Hbody. unfold wp, mbind, M_bind in Hbody.
  destruct (foreach ps Verify.check_io s) as [[] s1|code s1| |] eqn:Hf; [|..|done|done];
    last first.
  { exists 1%nat, (Exited code s1). split; [|done]. intros [|m] Hm; [lia|].
    simpl. unfold mbind, M_bind. by rewrite Hf. }
  destruct (lift (call get_ticks) s1) as [now s2|code s2| |] eqn:Ht; [|..|done|done];
    last first.
  { unfold lift, call in Ht. by destruct (get_ticks _). }
  destruct Hbody as (Hev&Hnow). destruct (decide (now > tsc_end)).
  - exists 1%nat, (Done () s2). split; [|done]. intros [|m] Hm; [lia|].
    simpl. unfold mbind, M_bind. rewrite Hf, Ht. by rewrite decide_True.
  - destruct (IH (Z.to_nat (tsc_end + 1 - tsc (env (base s2)))) ltac:(lia) s2 eq_refl)
      as (n'&r&Hr&Hw); [apply Hev| |].
    { intros p Hp. by eapply vevolves_live, Hps. }
    exists (Datatypes.S n'), r. split.
    + intros [|m] Hm; [lia|]. simpl. unfold mbind, M_bind in *.
      rewrite Hf, Ht, decide_False by done. apply Hr. lia.
    + eapply wp_weaken; [exact Hw|]. intros [] s' ?. by eapply vevolves_trans.
Qed.

(** A context as [memset] and a constructed queue leave it. *)
Definition vidle s p : Prop := ∃ c, ctxs (base s) !! p = Some c ∧ qpair c = None ∧
  current_queue_depth c = 0 ∧ io_completed c = 0.

Definition vset_up s s' : Prop :=
  vinv s' ∧ opened (base s') ∧ flying s' = flying s ∧
  lost pool (base s') = lost pool (base s) ∧ tsc (env (base s)) ≤ tsc (env (base s')).

Lemma vset_up_trans s1 s2 s3 : vset_up s1 s2 → vset_up s2 s3 → vset_up s1 s3.
Proof. intros (?&?&?&?&?) (?&?&?&?&?). unfold vset_up. split_and!; congruence || lia || done. Qed.

Lemma v_init_ns_worker_ctx_spec p prio s E : vinv s → opened (base s) → vidle s p →
  wp (Verify.init_ns_worker_ctx p prio) (λ rc s', vset_up s s' ∧
      (∀ p', p' ≠ p → ctxs (base s') !! p' = ctxs (base s) !! p') ∧
      (rc = 0 ∧ vlive s' p ∨ rc = 1)) E s.
Proof.
  intros Hv Hop (c&Hc&Hq&Hd&Hio). pose proof (vi_engine _ _ Hv) as Hi.
  destruct (inv_entry _ _ _ Hi p c Hc) as (e&He&_). simpl in He.
  unfold Verify.init_ns_worker_ctx. apply wp_bind, wp_lift. eapply wp_ctx_at; [done|].
  apply wp_bind, wp_lift. eapply wp_entry_at; [done|]. simpl.
  apply wp_bind, wp_lift, wp_call. intros [q|] w' Ha; simpl.
  - apply alloc_io_qpair_some in Ha as (Hqn&Hq0&Hw&?).
    apply wp_bind, wp_lift. eapply wp_ctx_upd; [done|]. simpl.
    apply wp_bind. eapply wp_vx_upd; [apply lookup_insert_eq|]. simpl. apply wp_ret.
    set (c' := set_extra _ _). rewrite set_ctxs_insert2.
    assert (inv pool vsafe (set_ctxs <[p := c']> (set_env w' (erase s)))) as Hi'.
    { rewrite <-(set_ctxs_insert2 p _ (set_qpair (Some q) c)).
      eapply inv_ctx_upd; [|apply lookup_insert_eq|done..].
      eapply inv_attach; try done; try by rewrite Hw.
      intros p' c1 Hc1 Hq1. by destruct Hqn; eapply Hop. }
    split_and!; [split_and!|..].
    + split; [exact Hi'| |].
      * simpl. rewrite Hw. apply (vi_match _ _ Hv).
      * intros p' c1. simpl. intros [[<- <-]|[_ Hc1]]%lookup_insert_Some;
          [|by eapply (vi_books _ _ Hv)].
        destruct (vi_books _ _ Hv _ _ Hc). by split; simpl; rewrite ?Hio.
    + intros p1 c1 q1. simpl. rewrite Hw. simpl.
      intros [[<- <-]|[??]]%lookup_insert_Some ?; simplify_eq/=; [set_solver|].
      apply elem_of_union_r. by eapply Hop.
    + simpl. by rewrite Hw.
    + unfold lost. simpl. by rewrite Hw.
    + done.
    + intros p' ?. simpl. by rewrite lookup_insert_ne.
    + left. split; [done|]. eexists _, q. split; [apply lookup_insert_eq|done].
  - apply alloc_io_qpair_none in Ha as [Hw Htsc].
    apply wp_bind, wp_lift. eapply wp_ctx_upd; [done|]. simpl. apply wp_ret.
    rewrite set_ctxs_id; [|simpl; rewrite Hc; by destruct c; simplify_eq/=].
    destruct (vevolves_env s w' Hv Hw Htsc) as (Hv'&_&Hl').
    split_and!; [split_and!|..]; try done.
    + intros p1 c1 q1. simpl. rewrite Hw. apply Hop.
    + simpl. by rewrite Hw.
    + by right.
Qed.

Lemma v_init_all_spec ps prio s E : vinv s → opened (base s) → NoDup ps →
  (∀ p, p ∈ ps → vidle s p) →
  wp (Verify.init_all ps prio) (λ ok s', vset_up s s' ∧
      (∀ p', p' ∉ ps → ctxs (base s') !! p' = ctxs (base s) !! p') ∧
      (ok = true → ∀ p, p ∈ ps → vlive s' p)) E s.
Proof.
  revert s. induction ps as [|p ps IH]; intros s Hv Hop Hnd Hidle; simpl.
  { apply wp_ret. split; [done|]. split; [done|]. set_solver. }
  apply NoDup_cons in Hnd as [Hp Hnd].
  apply wp_bind. eapply wp_weaken; [apply v_init_ns_worker_ctx_spec; set_solver|].
  intros rc s1 (Hs1&Hfr&Hrc). case_decide as Hz.
  { apply wp_ret. split_and!; [done| |done]. intros p' Hp'. apply Hfr. set_solver. }
  eapply wp_weaken; [apply IH; [apply Hs1|apply Hs1|done|]|].
  - intros p' Hp'. destruct (Hidle p') as (c&?&?); [set_solver|].
    exists c. rewrite Hfr by set_solver. done.
  - intros ok s2 (Hs2&Hfr2&Hlive). split_and!; [by eapply vset_up_trans| |].
    + intros p' Hp'. rewrite Hfr2, Hfr by set_solver. done.
    + intros Hok p' [->|Hp']%elem_of_cons; [|by apply Hlive].
      destruct Hrc as [[_ (c&q&?&?)]| ->]; [|done]. exists c, q. by rewrite Hfr2.
Qed.

(** Nothing is outstanding on a context. *)
Definition vdrained s p : Prop := drained (base s) p.

Lemma vdrained_at s p c q : vinv s → ctxs (base s) !! p = Some c → qpair c = Some q →
  depth q (flying s) = O → vdrained s p.
Proof.
  intros Hv Hc Hq Hd. exists c, q. split_and!; try done.
  rewrite (inv_depth _ _ _ (vi_engine _ _ Hv) p c q Hc Hq). simpl. lia.
Qed.

Lemma vevolves_drained s s' p :
  vevolves s s' → flying s' ⊆ flying s → vdrained s p → vdrained s' p.
Proof.
  intros He Hsub (c&q&Hc&Hq&Hd&_).
  destruct (vevolves_ctx _ _ _ _ _ He Hc Hq) as (c'&Hc'&Hq'&_).
  eapply vdrained_at; [apply He|done|done|].
  pose proof (depth_mono q _ _ Hsub). lia.
Qed.

Lemma v_drain_and_close p s : vinv s → vlive s p →
  twp (λ fuel, Verify.drain_io fuel p;; Verify.cleanup_ns_worker_ctx p) (λ _ s',
      vinv s' ∧ lost pool (base s') = lost pool (base s) ∧ vdrained s' p ∧
      (∀ p', vlive s p' → vlive s' p') ∧ (∀ p', vdrained s p' → vdrained s' p'))
    (λ _ _, False) s.
Proof.
  intros Hv (c&q&Hc&Hq). apply (twp_bind (λ fuel, Verify.drain_io fuel p) (λ _ _, _)).
  eapply twp_weaken; [by eapply v_drain_io_spec|]. intros [] s1 (Hs1&Hsub&Hd). apply twp_wp.
  destruct (vevolves_ctx _ _ _ _ _ Hs1 Hc Hq) as (c1&Hc1&Hq1&_).
  unfold Verify.cleanup_ns_worker_ctx. apply wp_bind, wp_lift. eapply wp_ctx_at; [done|].
  apply wp_bind. eapply wp_of_option; [done|]. apply wp_lift, wp_effect. simpl.
  destruct (free_io_qpair_law q (env (base s1)) Hd) as [Hw _].
  set (s2 := VProg _ _ _).
  assert (vinv s2) as Hv2.
  { split.
    - apply (inv_take pool vsafe (erase s1)); simpl; rewrite ?Hw; try done. apply Hs1.
    - simpl. rewrite Hw. apply (vi_match _ _ (proj1 Hs1)).
    - apply (vi_books _ _ (proj1 Hs1)). }
  assert (∀ p', vdrained s1 p' → vdrained s2 p') as H12.
  { intros p' (c'&q'&Hc'&Hq'&Hd'&_). eapply (vdrained_at s2 p' c' q'); [done|done|done|].
    simpl. by rewrite Hw. }
  split_and!; [done| | | |].
  - transitivity (lost pool (base s1)); [|apply Hs1]. unfold lost, s2. simpl. by rewrite Hw.
  - apply H12. by eapply vdrained_at; [apply Hs1|..].
  - intros p' Hp'. apply (vevolves_live _ _ _ Hs1) in Hp' as (c'&q'&?&?). by exists c', q'.
  - intros p' Hp'. apply H12. by eapply vevolves_drained.
Qed.

Lemma v_work_fn_spec w wt s :
  vinv s → opened (base s) → workers (base s) !! w = Some wt → NoDup (w_ns_ctx wt) →
  (∀ p, p ∈ w_ns_ctx wt → vidle s p) →
  twp (λ fuel, Verify.work_fn fuel w) (λ rc s', vinv s' ∧
      lost pool (base s') = lost pool (base s) ∧
      (rc = 0 ∧ (∀ p, p ∈ w_ns_ctx wt → vdrained s' p) ∨
       rc = 1 ∧ flying s' = flying s)) (λ code _, code = 1) s.
Proof.
  intros Hv Hop Hwt Hnd Hidle. unfold Verify.work_fn.
  apply twp_bind_wp, wp_lift. eapply wp_worker_at; [done|]. simpl.
  replace (VProg (base s) (vtasks s) (starting_lba s)) with s by (by destruct s).
  apply twp_bind_wp. eapply wp_weaken; [by eapply v_init_all_spec|].
  intros ok s1 (Hs1&_&Hlive). destruct Hs1 as (Hv1&_&Hfl1&Hl1&_).
  destruct ok; simpl; last first.
  { apply twp_wp, wp_ret. split_and!; [done|done|by right]. }
  apply twp_bind_wp, wp_lift, wp_call. intros now w2 (_&?&Hw2&_)%get_ticks_law.
  assert (vevolves s1 (VProg (set_env w2 (base s1)) (vtasks s1) (starting_lba s1))) as Hs2
    by (apply vevolves_env; [done|done|lia]).
  apply twp_bind_wp, wp_get, twp_bind_wp.
  eapply wp_weaken; [apply (wp_foreach_inv _ (vevolves s1)); [|done]|].
  { intros p s' Hp Hs'. destruct (vevolves_live _ _ _ Hs' (Hlive eq_refl _ Hp)) as (c&q&?&?).
    eapply wp_weaken; [eapply v_submit_io_spec; [apply Hs'|done..]|].
    intros [] s'' ?. by eapply vevolves_trans. }
  intros [] s3 Hs3. eapply (twp_bind (λ fuel, Verify.poll_until fuel _ _)).
  eapply twp_weaken; [apply v_poll_until_spec; [apply Hs3|]|].
  { intros p Hp. by eapply vevolves_live; [|apply Hlive]. }
  intros [] s4 Hs4. assert (vevolves s1 s4) as Hs14 by (by eapply vevolves_trans).
  apply (twp_bind (λ fuel, foreach _ _) (λ _ _, mret 0)).
  eapply twp_mono; [apply (twp_foreach _ (λ pre s', vinv s' ∧
    lost pool (base s') = lost pool (base s4) ∧
    (∀ p, p ∈ w_ns_ctx wt → vlive s' p) ∧ (∀ p, p ∈ pre → vdrained s' p)))| |].
  - intros pre p rest s' Hps (Hv'&Hl'&Hlv&Hdr).
    eapply twp_mono; [apply v_drain_and_close; [done|apply Hlv; rewrite Hps; set_solver]| |done].
    intros [] s'' (?&?&?&?&?). split_and!; [done|congruence|auto|]. set_solver.
  - split_and!; [apply Hs14|done| |set_solver].
    intros p Hp. by eapply vevolves_live; [|apply Hlive].
  - intros [] s5 (Hv5&Hl5&_&Hdr5). apply twp_wp, wp_ret.
    split_and!; [done| |by left]. rewrite Hl5, <-Hl1. apply Hs14.
  - done.
Qed.
End run.
