(* ===== verification/VerifyProps.v ===== *)
(** * Properties of the write-and-verify benchmark

    The comparison of [verification.cc] recognises exactly the data of the right write,
    but the program never gets as far as comparing: the strings of its tasks are never
    constructed, so the first I/O is undefined.  With constructed strings and queues its
    worker would run to its end and keep its books. *)
From S2P Require Import Prelude Spdk Arb Engine EngineInv EngineSpec EngineProps.
From S2P Require Import Verify VerifySpec VerifyRun.
Open Scope string_scope.
Open Scope Z_scope.

(** ** Strings *)
Section strings.
#[local] Arguments String.append !_ _ : simpl nomatch.

Lemma prefix_of_app n a b : (String.length a ≤ n)%nat →
  prefix_of n (a +:+ b) = a +:+ prefix_of (n - String.length a) b.
Proof.
  unfold prefix_of. revert n. induction a as [|x a IH]; intros n Hn; simpl in *.
  - by rewrite Nat.sub_0_r.
  - destruct n as [|n]; [lia|]. simpl. f_equal. apply IH. lia.
Qed.

Lemma prefix_of_prefix k j s : (k ≤ j)%nat → prefix_of k (prefix_of j s) = prefix_of k s.
Proof.
  unfold prefix_of. revert k j. induction s as [|x s IH]; intros k j Hk.
  - destruct j; done.
  - destruct k as [|k]; [by destruct j|]. destruct j as [|j]; [lia|]. simpl.
    f_equal. apply IH. lia.
Qed.

Lemma prefix_of_split n s : ∃ r, s = prefix_of n s +:+ r.
Proof.
  unfold prefix_of. revert n. induction s as [|x s IH]; intros n.
  - exists "". by destruct n.
  - destruct n as [|n]; [by exists (String x s)|]. destruct (IH n) as [r Hr].
    exists r. simpl. rewrite Hr at 1. done.
Qed.

Lemma append_assoc a b c : a +:+ b +:+ c = (a +:+ b) +:+ c.
Proof. induction a as [|x a IH]; simpl; [done|]. by rewrite IH. Qed.

Lemma length_append a b : String.length (a +:+ b) = (String.length a + String.length b)%nat.
Proof. induction a as [|x a IH]; simpl; congruence. Qed.

(** Strings of digits, which a colon ends. *)
Fixpoint all_digits (s : string) : Prop :=
  match s with EmptyString => True | String c s' => is_Some (digit c) ∧ all_digits s' end.

Lemma all_digits_digits fuel n acc : all_digits acc → all_digits (digits fuel n acc).
Proof.
  revert n acc. induction fuel as [|fuel IH]; intros n acc Ha; [done|]. cbn [digits].
  assert (all_digits (String (ascii_of_nat (Z.to_nat (48 + n mod 10))) acc)) as Ha'.
  { split; [|done]. pose proof (Z.mod_pos_bound n 10). rewrite digit_of by lia. by eexists. }
  case_decide; [done|by apply IH].
Qed.

Lemma length_digits fuel n acc :
  (String.length (digits fuel n acc) ≤ fuel + String.length acc)%nat.
Proof.
  revert n acc. induction fuel as [|fuel IH]; intros n acc; [done|]. cbn [digits].
  case_decide; simpl; [lia|]. etransitivity; [apply IH|]. simpl. lia.
Qed.

Lemma digits_until_colon a b x y : all_digits a → all_digits b →
  a +:+ String ":" x = b +:+ String ":" y → a = b.
Proof.
  revert b. induction a as [|c a IH]; intros [|c' b] Ha Hb; simpl in *.
  - done.
  - intros [= <-]. by destruct Hb as [[d Hd] _].
  - intros [= ->]. by destruct Ha as [[d Hd] _].
  - intros [= <- Hab]. f_equal. apply IH; [apply Ha|apply Hb|done].
Qed.

Lemma to_string_inj n m : 0 ≤ n < 2 ^ 64 → 0 ≤ m < 2 ^ 64 → to_string n = to_string m → n = m.
Proof.
  unfold to_string. intros Hn Hm Heq.
  assert (decimal 0 (digits 20 n "") = decimal 0 (digits 20 m "")) as Hd by (by rewrite Heq).
  rewrite !decimal_digits in Hd by (simpl; lia). exact Hd.
Qed.
End strings.

(** (C18) The comparison of [task_complete] is exact on the patterns: for buffers of at least 51
    bytes, data that the pattern of count [m] left in a buffer verifies against the pattern of
    count [n] exactly when [n = m], although only 50 characters are compared. *)
Theorem verification_exact n m io : 0 ≤ n < 2 ^ 64 → 0 ≤ m < 2 ^ 64 → 51 ≤ io →
  verified (data_pattern n) (prefix_of (Z.to_nat (io - 1)) (data_pattern m)) = true ↔ n = m.
Proof.
  intros Hn Hm Hio. unfold verified. rewrite bool_decide_eq_true, prefix_of_prefix
    by (unfold compare_len; lia).
  split; [|by intros ->]. intros Heq. apply to_string_inj; [done|done|].
  set (j := (9 + String.length (to_string n))%nat).
  assert (j ≤ compare_len (data_pattern n))%nat as Hj.
  { unfold compare_len, data_pattern. rewrite !length_append. simpl.
    pose proof (length_digits 20 n ""). unfold to_string in *. simpl (String.length "") in *. lia. }
  assert (prefix_of j (data_pattern m) = prefix_of j (data_pattern n)) as Hpre
    by (rewrite <-(prefix_of_prefix j (compare_len (data_pattern n))) by done;
        by rewrite Heq, prefix_of_prefix).
  assert (prefix_of j (data_pattern n) = "zstore1:" +:+ to_string n +:+ ":") as Hpn.
  { unfold data_pattern, j. rewrite prefix_of_app by (simpl; lia). simpl String.length. f_equal.
    rewrite prefix_of_app by lia.
    replace (_ - _ - _)%nat with 1%nat by lia. done. }
  destruct (prefix_of_split j (data_pattern m)) as [rest Hrest].
  rewrite Hpre, Hpn in Hrest. unfold data_pattern in Hrest. simpl in Hrest.
  injection Hrest as Hrest. symmetry.
  change (to_string m +:+ ":pattern:" +:+ to_string (u64 (m * 3735928559)) =
    (to_string n +:+ ":") +:+ rest) in Hrest. rewrite <-append_assoc in Hrest.
  eapply digits_until_colon; [by apply all_digits_digits..|exact Hrest].
Qed.

(** The pattern of another write is a longer string with the same beginning. *)
Lemma verification_exact_witness :
  verified (data_pattern 1) (prefix_of (Z.to_nat (4096 - 1)) (data_pattern 10)) = true ↔ 1 = 10.
Proof. apply (verification_exact 1 10 4096); lia. Defined.

(** ** What the program does

    The tasks come from a pool of raw memory: no string of theirs is ever constructed. *)
Section raw.
Context {W : Type} `{!Spdk W Z} `{!DmaData W}.
#[local] Existing Instance raw_tasks.
Implicit Types (s : vprog W).

(** [m] fails: it exits with status 1, is undefined, or returns a result that satisfies
    [Q]; it does not loop. *)
Definition fails_or {A} (Q : A → vprog W → Prop) (m : M (vprog W) A) s : Prop :=
  match m s with Done a s' => Q a s' | Exited code _ => code = 1 | Undef => True | Spin => False end.
Abbreviation fails := (fails_or (λ _ _, False)).

Lemma fails_bind {A B} (m : M (vprog W) A) (k : A → M (vprog W) B) Q s :
  fails_or (λ a, fails_or Q (k a)) m s → fails_or Q (m ≫= k) s.
Proof. unfold fails_or, mbind, M_bind. by destruct (m s). Qed.

Lemma fails_mono {A} (m : M (vprog W) A) (Q R : A → vprog W → Prop) s :
  (∀ a s', Q a s' → R a s') → fails_or Q m s → fails_or R m s.
Proof. unfold fails_or. destruct (m s); naive_solver. Qed.

Lemma fails_lift {A} (m : M (prog W vextra) A) Q s :
  (match m (base s) with
   | Done a b => Q a (VProg b (vtasks s) (starting_lba s))
   | Exited code _ => code = 1 | Undef => True | Spin => False end) →
  fails_or Q (lift m) s.
Proof. unfold fails_or, lift. by destruct (m (base s)). Qed.

(** Reading a member through a pointer that may be bad. *)
Lemma fails_read {A B} (f : prog W vextra → option A) (k : A → M (vprog W) B) Q s :
  (∀ a, f (base s) = Some a → fails_or Q (k a) s) →
  fails_or Q (lift (s ← get; of_option (f s)) ≫= k) s.
Proof.
  intros Hk. apply fails_bind, fails_lift. unfold mbind, M_bind, get, of_option, mret, M_ret.
  destruct (f (base s)); simpl; [|done]. destruct s. by apply Hk.
Qed.

Lemma fails_get {B} (k : vprog W → M (vprog W) B) Q s :
  fails_or Q (k s) s → fails_or Q (get ≫= k) s.
Proof. done. Qed.

(** The string is assigned right before the write is submitted, and before the buffer of
    a read is allocated. *)
Lemma submit_single_io_fails p rd lba data s : fails (Verify.submit_single_io p rd lba data) s.
Proof.
  unfold Verify.submit_single_io. apply fails_bind, fails_lift. unfold call.
  destruct (pool_get _) as [[t|] w1]; [|done]. destruct rd; [done|].
  apply fails_get, fails_get. apply fails_bind, fails_lift. unfold call.
  destruct (dma_zmalloc _ _) as [[b|] w2]; [|done].
  apply fails_read. intros c _. done.
Qed.

Lemma init_all_keeps ps prio s :
  fails_or (λ _ s', g_arbitration (base s') = g_arbitration (base s)) (Verify.init_all ps prio) s.
Proof.
  revert s. induction ps as [|p ps IH]; intros s; [done|]. simpl.
  apply fails_bind. eapply (fails_mono _
    (λ _ s', g_arbitration (base s') = g_arbitration (base s))).
  - intros rc s' Hg. case_decide; [by unfold fails_or|].
    eapply fails_mono; [|apply IH]. intros ? s'' ?. simpl in *. congruence.
  - apply fails_read. intros c Hc. apply fails_read. intros e He.
    apply fails_bind, fails_lift. unfold call. destruct (alloc_io_qpair _ _ _) as [q w1].
    apply fails_bind, fails_lift. rewrite (ctx_upd_some _ _ _ c) by done. simpl.
    destruct q; [|done]. apply fails_bind, fails_lift.
    by rewrite (ctx_upd_some _ _ _ (set_qpair (Some z) c)) by apply lookup_insert_eq.
Qed.

(** (C19) [verification.cc] never verifies anything: its tasks are raw memory of the pool,
    and every I/O assigns to the string of its task.  Whatever the state, the device and
    the arguments, [submit_single_io] exits (no task, no buffer) or is undefined, it never
    returns; so a worker with a namespace and a positive queue depth never reaches its
    polling loop, whatever the fuel, and never reports success. *)
Theorem verification_never_succeeds s fuel w wt :
  workers (base s) !! w = Some wt → w_ns_ctx wt ≠ [] → 0 < queue_depth (g_arbitration (base s)) →
  (∀ p is_read_verify verify_lba data s',
     fails (Verify.submit_single_io p is_read_verify verify_lba data) s') ∧
  fails_or (λ rc _, rc = 1) (Verify.work_fn fuel w) s.
Proof.
  intros Hw Hps Hqd. split; [intros; apply submit_single_io_fails|].
  unfold Verify.work_fn. apply fails_read. intros wt' Hwt. simplify_eq.
  apply fails_bind. eapply fails_mono; [|apply init_all_keeps]. intros [] s' Hg; simpl; [|done].
  apply fails_bind, fails_lift. unfold call. destruct (get_ticks _) as [now w1].
  unfold mbind at 1, M_bind at 1, get, fails_or. simpl.
  destruct (w_ns_ctx wt) as [|p ps]; [done|]. cbn [foreach].
  apply fails_bind. unfold submit_io. rewrite Hg.
  apply fails_bind. destruct (Z.to_nat _) as [|n] eqn:E; [lia|].
  cbn [repeat_m]. apply fails_bind. eapply fails_mono; [|apply submit_single_io_fails]. done.
Qed.

End raw.

(** ** What it would do with constructed queues and strings *)
Section runs.
Context {W : Type} `{!Spdk W Z} `{!SpdkView W Z} `{!SpdkLaws W Z}.
Context `{!DmaData W} `{!DmaLaws W} `{!TaskStrings} (pool : gset Z) `{!Constructed pool}.
Implicit Types (s : vprog W).

(** With constructed queues and strings [work_fn] of [verification.cc] terminates on every device that behaves as NVMe promises.  When it returns 0 nothing
    of its contexts is outstanding; no task is ever lost; and every context has its books
    balanced: the I/Os it completed are its writes and its reads, and every read passed
    or failed. *)
Lemma verification_drains s w wt :
  (∀ b (v : W), is_Some (dma_string b v)) →
  vinv pool s → opened (base s) → workers (base s) !! w = Some wt →
  NoDup (w_ns_ctx wt) → (∀ p, p ∈ w_ns_ctx wt → vidle s p) →
  ∃ n, ∀ fuel, (n ≤ fuel)%nat → wp (Verify.work_fn fuel w)
    (λ rc s', lost pool (base s') = lost pool (base s) ∧
       (∀ p c, ctxs (base s') !! p = Some c →
          io_completed c = u64 (write_completed (extra c) + read_completed (extra c)) ∧
          read_completed (extra c) =
            u64 (verification_passed (extra c) + verification_failed (extra c))) ∧
       (rc = 0 ∧ (∀ p, p ∈ w_ns_ctx wt → drained (base s') p) ∨ rc = 1))
    (λ code _, code = 1) s.
Proof.
  intros Ht Hv Hop Hw Hnd Hidle. apply twp_elim.
  eapply twp_weaken; [by eapply (v_work_fn_spec pool Ht)|].
  intros rc s' (Hv'&Hl&Hrc). split_and!; [done| |naive_solver].
  intros p c Hc. by destruct (vi_books _ _ Hv' p c Hc).
Qed.

(** What a completion of [verification.cc] would record: a write is counted and nothing
    else; a read is counted as passed exactly when the first characters of its buffer are
    those of the pattern that was written.  The next I/O does not touch the counters. *)
Lemma verification_verdict s q t r w' tk c :
  (∀ b (v : W), is_Some (dma_string b v)) →
  vinv pool s → poll_next q (env (base s)) = (Some (t, r), w') →
  vtasks s !! t = Some tk → ctxs (base s) !! vt_ctx tk = Some c →
  wp (Verify.io_complete t r) (λ _ s', ∃ c', ctxs (base s') !! vt_ctx tk = Some c' ∧
       io_completed c' = incr (io_completed c) ∧
       let x := extra c in let x' := extra c' in
       if verification_mode tk then
         write_completed x' = write_completed x ∧ read_completed x' = incr (read_completed x) ∧
         (if verified (expected_data tk) (got_at tk w')
          then verification_passed x' = incr (verification_passed x) ∧
            verification_failed x' = verification_failed x
          else verification_passed x' = verification_passed x ∧
            verification_failed x' = incr (verification_failed x))
       else write_completed x' = incr (write_completed x) ∧
         read_completed x' = read_completed x ∧
         verification_passed x' = verification_passed x ∧
         verification_failed x' = verification_failed x)
    (λ code _, code = 1 ∧ is_draining c = false)
    (VProg (set_env w' (base s)) (vtasks s) (starting_lba s)).
Proof.
  intros Ht Hv Hp Htk Hc. eapply wp_weaken; [by eapply (v_io_complete_spec pool Ht)|].
  intros [] s' Hs'. destruct (vcompleted_counts _ _ _ _ _ _ _ _ Hs') as (c'&Hc'&Hio&Hx).
  exists c'. split; [done|]. split; [done|]. cbv zeta. destruct Hx as (x&(_&Hx&_)&->&->&->&->). exact Hx.
Qed.

(** Neither is the queue of pending reads: its memory was zeroed and never constructed,
    and the first completed write would push to it. *)
Lemma queue_never_constructed s t r tk c : vtasks s !! t = Some tk →
  ctxs (base s) !! vt_ctx tk = Some c → verification_mode tk = false →
  pending_reads (extra c) = None → Verify.io_complete t r s = Undef.
Proof.
  intros Htk Hc Hm Hq.
  unfold io_complete, task_complete, record_write, vx_upd, lift, ctx_upd, ctx_at, vtask_at,
    put_vtask, mbind, M_bind, get, modify, of_option, mret, M_ret.
  repeat (simpl; rewrite ?Htk, ?Hc, ?Hm, ?lookup_insert_eq). simpl.
  by rewrite Hq.
Qed.

(** Unlike its siblings, [submit_single_io] of [verification.cc] gives the task and
    the buffer back when the driver refuses the command. *)
Lemma verification_keeps_pool s p rd lba data c q :
  vinv pool s → ctxs (base s) !! p = Some c → qpair c = Some q →
  wp (Verify.submit_single_io p rd lba data) (λ _ s', lost pool (base s') = lost pool (base s) ∧
       ∃ c', ctxs (base s') !! p = Some c' ∧
       (current_queue_depth c' = current_queue_depth c + 1 ∨
        current_queue_depth c' = current_queue_depth c ∧
          view (env (base s')) = view (env (base s))))
    (λ code _, code = 1) s.
Proof.
  intros Hv Hc Hq. eapply wp_weaken; [by eapply v_submit_single_io_spec|].
  intros [] s' [_ Hf Hl Hcs _]. split; [done|].
  destruct (fr_ctx _ _ Hf _ _ Hc) as (c'&Hc'&_). exists c'. split; [done|].
  by destruct (Hcs _ _ Hc Hc') as (_&_&_&_&_&_&?).
Qed.
End runs.

(** ** A simulated device whose buffers read as empty strings *)
#[local] Instance sim_dma_data {faulty} : DmaData (sim faulty Z) :=
  {| dma_store _ _ w := w; dma_string _ _ := Some "" |}.
#[local] Instance sim_dma_laws {faulty} : DmaLaws (sim faulty Z).
Proof. by split. Qed.

(** A program that constructs the string of every task. *)
Definition cooked_tasks : TaskStrings := λ _, true.

Section demos.
#[local] Existing Instance cooked_tasks.

Lemma cooked_constructed pool : Constructed pool.
Proof. by split. Qed.
#[local] Existing Instance cooked_constructed.

Definition demo_extra : vextra := VExtra 0 0 0 0 0 (Some []).
Definition vdemo : vprog (sim false Z) := VProg (demo false demo_pool [] demo_extra) ∅ false.
Definition vdemo_live (faulty : bool) (rcs : list Z) : vprog (sim faulty Z) :=
  VProg (demo_live faulty demo_pool rcs demo_extra) ∅ false.

Lemma sim_terminated b (w : sim false Z) : is_Some (dma_string b w).
Proof. by eexists. Qed.

Lemma vdemo_inv : vinv demo_pool vdemo.
Proof.
  split; [apply (demo_inv (X := vextra))|done|].
  intros p c H1. singleton H1. by split; [eexists|..].
Qed.

Lemma vdemo_live_inv faulty rcs : vinv demo_pool (vdemo_live faulty rcs).
Proof.
  split; [apply (demo_live_inv (X := vextra))|done|].
  intros p c H1. singleton H1. by split; [eexists|..].
Qed.


(** ** Runs on the simulated device *)
Lemma verification_drains_witness : ∃ n, ∀ fuel, (n ≤ fuel)%nat →
  wp (Verify.work_fn fuel 3)
    (λ rc s', lost demo_pool (base s') = lost demo_pool (base vdemo) ∧
       (∀ p c, ctxs (base s') !! p = Some c →
          io_completed c = u64 (write_completed (extra c) + read_completed (extra c)) ∧
          read_completed (extra c) =
            u64 (verification_passed (extra c) + verification_failed (extra c))) ∧
       (rc = 0 ∧ (∀ p, p ∈ [2] → drained (base s') p) ∨ rc = 1))
    (λ code _, code = 1) vdemo.
Proof.
  apply (verification_drains demo_pool vdemo 3 (WorkerThread [2] 0 0)).
  - apply sim_terminated.
  - apply vdemo_inv.
  - apply (demo_opened (X := vextra)).
  - reflexivity.
  - simpl. apply NoDup_singleton.
  - intros p ->%list_elem_of_singleton. by eexists.
Defined.

Abbreviation refused := (Verify.submit_single_io 2 false 0 "" (vdemo_live true [-1])).

Lemma refused_ctx : match refused with
  | Done _ s' => ctxs (base s') !! 2 | _ => None end =
  Some (NsWorkerCtx 1 0 0 1 false (Some 7) (VExtra 1 0 0 0 0 (Some []))).
Proof. vm_compute. reflexivity. Qed.

Lemma verification_keeps_pool_witness : ∃ s', refused = Done tt s' ∧
  lost demo_pool (base s') = lost demo_pool (base (vdemo_live true [-1])) ∧
  view (env (base s')) = view (env (base (vdemo_live true [-1]))).
Proof.
  pose proof (verification_keeps_pool demo_pool (vdemo_live true [-1]) 2 false 0 ""
    (NsWorkerCtx 1 0 0 0 false (Some 7) demo_extra) 7 (vdemo_live_inv _ _) eq_refl eq_refl) as H1.
  pose proof refused_ctx as H2.
  destruct refused as [[] s'| | |] eqn:E; try discriminate H2.
  exists s'. split; [reflexivity|]. 
  destruct (wp_done _ _ _ _ _ _ H1 E) as (Hl&c'&Hc&[Hd|[_ Hw]]); [|by split].
  rewrite H2 in Hc. injection Hc as <-. discriminate.
Defined.

(** A read of one I/O is outstanding on a context that drains. *)
Definition vdemo_task : vtask := VTask 2 None (Some 9) 16 true "zstore1:0".
Definition vdemo_ctx : ns_worker_ctx vextra := NsWorkerCtx 1 0 1 0 true (Some 7) demo_extra.
Definition vdemo_reading : vprog (sim false Z) :=
  VProg (Prog (Sim (View {[ 50; 52 ]} {[ 9 ]} {[ 7 ]} {[ 51 := (7, cmd_read 200 9 16 8) ]})
      0 [] [] 0 (SimAdmin [] [] [0] [1] None)) ∅ {[ 2 := vdemo_ctx ]}
    {[ 1 := demo_entry ]} {[ 3 := WorkerThread [2] 0 0 ]} ∅ [] [1] [3]
    (Feature 0 false) demo_arb 10) {[ 51 := vdemo_task ]} false.

Lemma vdemo_reading_engine : inv demo_pool vsafe (erase vdemo_reading).
Proof.
  split.
  - intros t q k H1. simpl in H1. apply lookup_singleton_Some in H1 as [<- [= <- <-]].
    exists (ArbTask 2 9), vdemo_ctx, demo_entry.
    split_and!; [reflexivity..| |reflexivity|exists 9; left; by exists 16].
    simpl. set_solver.
  - intros t1 t2 q1 q2 k1 k2 H1 H2 _. simpl in H1, H2.
    apply lookup_singleton_Some in H1 as [<- _], H2 as [<- _]. done.
  - intros t Ht. simpl in *. apply lookup_singleton_None. set_solver.
  - simpl. unfold demo_pool. rewrite dom_singleton_L. set_solver.
  - done.
  - intros p1 p2 c1 c2 q H1 H2 _ _. singleton H1. by singleton H2.
  - intros p c q H1 H2. singleton H1. injection H2 as <-. reflexivity.
  - intros p c H1. singleton H1. by exists demo_entry.
Qed.

Lemma vdemo_reading_inv : vinv demo_pool vdemo_reading.
Proof.
  split; [exact vdemo_reading_engine| |].
  - intros t q k H1. simpl in H1. apply lookup_singleton_Some in H1 as [<- [= <- <-]].
    exists vdemo_task. split; [done|]. split; [done|]. split; [done|]. by exists 200, 8.
  - intros p c H1. singleton H1. by split; [eexists|..].
Qed.

Lemma reading_polled : poll_next 7 (env (base vdemo_reading)) =
  (Some (51, Cpl 16 false), (poll_next 7 (env (base vdemo_reading))).2).
Proof. vm_compute. reflexivity. Qed.

Abbreviation landed := (Verify.io_complete 51 (Cpl 16 false)
  (VProg (set_env (poll_next 7 (env (base vdemo_reading))).2 (base vdemo_reading))
    (vtasks vdemo_reading) false)).

Lemma landed_done : match landed with Done _ _ => true | _ => false end = true.
Proof. vm_compute. reflexivity. Qed.

(** The buffer reads as the empty string: the verification fails. *)
Lemma verification_verdict_witness : ∃ s' c', landed = Done tt s' ∧
  ctxs (base s') !! 2 = Some c' ∧ io_completed c' = 1 ∧ verification_failed (extra c') = 1 ∧
  verification_passed (extra c') = 0.
Proof.
  pose proof (verification_verdict demo_pool vdemo_reading 7 51 (Cpl 16 false)
    (poll_next 7 (env (base vdemo_reading))).2 vdemo_task vdemo_ctx sim_terminated
    vdemo_reading_inv reading_polled eq_refl eq_refl) as H1.
  pose proof landed_done as H2.
  destruct landed as [[] s'| | |] eqn:E; try discriminate H2.
  destruct (wp_done _ _ _ _ _ _ H1 E) as (c'&Hc&Hio&_&_&Hp&Hf).
  exists s', c'. split; [reflexivity|]. split; [exact Hc|]. split; [exact Hio|].
  split; [exact Hf|exact Hp].
Defined.

(** The same context with a write, and with the queue as [main] leaves it. *)
Lemma queue_never_constructed_witness : Verify.io_complete 51 (Cpl 0 false)
  (VProg (set_ctxs <[2 := set_extra (VExtra 1 0 0 0 0 None) vdemo_ctx]> (base vdemo_reading))
    {[ 51 := VTask 2 (Some 9) None 0 false "" ]} false) = Undef.
Proof.
  apply (queue_never_constructed _ 51 (Cpl 0 false) (VTask 2 (Some 9) None 0 false "")
    (set_extra (VExtra 1 0 0 0 0 None) vdemo_ctx)); reflexivity.
Defined.
End demos.

(** The tasks as they are. *)
Section raw_demo.
#[local] Existing Instance raw_tasks.

Lemma verification_never_succeeds_witness :
  (∀ fuel, fails_or (λ rc _, rc = 1) (Verify.work_fn fuel 3) vdemo) ∧
  Verify.work_fn 5 3 vdemo = Undef.
Proof.
  split; [intros fuel|by vm_compute].
  eapply (verification_never_succeeds vdemo fuel 3); done.
Defined.
End raw_demo.
