(* ===== verification/Launch.v ===== *)
(** * The set-up of every program of the family

    Which controllers each copy of [arbitration.cc] connects to, how many
    contexts it makes, and [main] up to the launch of the workers, by source
    file.  The added fields of a context start as zero bytes: no stamps, a
    counter of 0, no queue. *)
From S2P Require Import Prelude Spdk Arb Engine EngineInv EngineSpec Variants Registry.
From S2P Require Import RegistrySpec AssocSpec Verify.
Open Scope string_scope.
Open Scope Z_scope.

Definition zstore2 : string := "nqn.2024-04.io.zstore2:cnode1".
Definition zstore3 : string := "nqn.2024-04.io.zstore3:cnode1".
Definition zstore4 : string := "nqn.2024-04.io.zstore4:cnode1".

Definition zstore5 : string := "nqn.2024-04.io.zstore5:cnode1".

Definition trid (transport nqn ip port : string) : transport_id :=
  TransportId transport "IPv4" ip port nqn.

Section launch.
Context {W X : Type} `{!Spdk W Z} `{!SpdkAdmin W}.

(** [zns_dev_init] with its arguments: one controller after the other. *)
Fixpoint connect_all (fuel : nat) (targets : list transport_id) : M (prog W X) () :=
  match targets with
  | [] => skip
  | t :: targets' =>
      c ← call (nvme_connect t);
      register_ctrlr fuel c;;
      connect_all fuel targets'
  end.

(** Each pair is one program's [zns_dev_init] and the call of it in
    [register_controllers].  Those that fill in the host name with [memcpy] read behind the
    literal; the others print it into the array. *)
Context `{!Image}.

Definition zns_dev_init_rdma_append (ip1 port1 : string) (fuel : nat) : M (prog W X) () :=
  memcpy_literal hostnqn_size g_hostnqn;;
  connect_all fuel [trid "TCP" g_hostnqn ip1 port1].
Definition dev_init_rdma_append : nat → M (prog W X) () :=
  zns_dev_init_rdma_append "12.12.12.2" "5520".

Definition zns_dev_init_rdma_read (ip1 port1 : string) (fuel : nat) : M (prog W X) () :=
  memcpy_literal hostnqn_size g_hostnqn;;
  connect_all fuel [trid "RDMA" g_hostnqn ip1 port1].
Definition dev_init_rdma_read : nat → M (prog W X) () :=
  zns_dev_init_rdma_read "192.168.100.9" "5520".

Definition zns_dev_init_one_append (ip1 port1 : string) (fuel : nat) : M (prog W X) () :=
  memcpy_literal hostnqn_size zstore3;;
  connect_all fuel [trid "RDMA" zstore3 ip1 port1].
Definition dev_init_one_append : nat → M (prog W X) () :=
  zns_dev_init_one_append "12.12.12.3" "5520".

Definition zns_dev_init_one_read (ip1 port1 : string) (fuel : nat) : M (prog W X) () :=
  connect_all fuel [trid "RDMA" zstore3 ip1 port1].
Definition dev_init_one_read : nat → M (prog W X) () :=
  zns_dev_init_one_read "12.12.12.3" "5520".

Definition zns_dev_init_three_reads (ip1 port1 ip2 port2 ip3 port3 : string) (fuel : nat)
    : M (prog W X) () :=
  connect_all fuel [trid "RDMA" zstore2 ip1 port1; trid "RDMA" zstore2 ip2 port2;
    trid "RDMA" zstore2 ip3 port3].
Definition dev_init_three_reads : nat → M (prog W X) () :=
  zns_dev_init_three_reads "12.12.12.2" "5520" "12.12.12.2" "4420" "12.12.12.2" "3320".

Definition zns_dev_init_three_writes (ip1 port1 ip2 port2 ip3 port3 : string) (fuel : nat)
    : M (prog W X) () :=
  connect_all fuel [trid "RDMA" zstore2 ip1 port1; trid "RDMA" zstore3 ip2 port2;
    trid "RDMA" zstore4 ip3 port3].
Definition dev_init_three_writes : nat → M (prog W X) () :=
  zns_dev_init_three_writes "12.12.12.2" "5520" "12.12.12.3" "5520" "12.12.12.4" "5520".

Definition zns_dev_init_two_reads (ip1 port1 ip2 port2 : string) (fuel : nat)
    : M (prog W X) () :=
  connect_all fuel [trid "RDMA" zstore3 ip1 port1; trid "RDMA" zstore3 ip2 port2].
Definition dev_init_two_reads : nat → M (prog W X) () :=
  zns_dev_init_two_reads "12.12.12.3" "5520" "12.12.12.3" "5521".

Definition zns_dev_init_verify (ip1 port1 : string) (fuel : nat) : M (prog W X) () :=
  memcpy_literal hostnqn_size zstore5;;
  connect_all fuel [trid "RDMA" zstore5 ip1 port1].
Definition dev_init_verify : nat → M (prog W X) () :=
  zns_dev_init_verify "12.12.12.5" "5520".
End launch.

(** ** [main] of each copy up to the launch, with its number of contexts *)
Section mains.
Context {W : Type} `{!Spdk W Z} `{!SpdkAdmin W} `{!Image}.

Definition associate_append : M (prog W stamps) Z := associate_workers_with_ns no_stamps 1.
Definition main_append (fuel : nat) : M (prog W stamps) (Z + Z) :=
  main_with dev_init associate_append fuel.

Definition associate_read : M (prog W stamps) Z := associate_workers_with_ns no_stamps 1.
Definition main_read (fuel : nat) : M (prog W stamps) (Z + Z) :=
  main_with dev_init associate_read fuel.

Definition associate_write : M (prog W Z) Z := associate_workers_with_ns 0 2.
Definition main_write (fuel : nat) : M (prog W Z) (Z + Z) :=
  main_with dev_init associate_write fuel.

Definition associate_rdma_append : M (prog W stamps) Z := associate_workers_with_ns no_stamps 1.
Definition main_rdma_append (fuel : nat) : M (prog W stamps) (Z + Z) :=
  main_with dev_init_rdma_append associate_rdma_append fuel.

Definition associate_rdma_read : M (prog W stamps) Z := associate_workers_with_ns no_stamps 1.
Definition main_rdma_read (fuel : nat) : M (prog W stamps) (Z + Z) :=
  main_with dev_init_rdma_read associate_rdma_read fuel.

Definition associate_one_append : M (prog W Z) Z := associate_workers_with_ns 0 1.
Definition main_one_append (fuel : nat) : M (prog W Z) (Z + Z) :=
  main_with dev_init_one_append associate_one_append fuel.

Definition associate_one_read : M (prog W Z) Z := associate_workers_with_ns 0 2.
Definition main_one_read (fuel : nat) : M (prog W Z) (Z + Z) :=
  main_with dev_init_one_read associate_one_read fuel.

Definition associate_three_reads : M (prog W Z) Z := associate_workers_with_ns 0 6.
Definition main_three_reads (fuel : nat) : M (prog W Z) (Z + Z) :=
  main_with dev_init_three_reads associate_three_reads fuel.

Definition associate_three_writes : M (prog W Z) Z := associate_workers_with_ns 0 6.
Definition main_three_writes (fuel : nat) : M (prog W Z) (Z + Z) :=
  main_with dev_init_three_writes associate_three_writes fuel.

Definition associate_two_reads : M (prog W Z) Z := associate_workers_with_ns 0 2.
Definition main_two_reads (fuel : nat) : M (prog W Z) (Z + Z) :=
  main_with dev_init_two_reads associate_two_reads fuel.

(** The queue is part of a context that is only zeroed. *)
Definition no_queue : vextra := VExtra 0 0 0 0 0 None.
Definition associate_verify : M (prog W vextra) Z := associate_workers_with_ns no_queue 1.
Definition main_verify (fuel : nat) : M (prog W vextra) (Z + Z) :=
  main_with dev_init_verify associate_verify fuel.
End mains.

(** ** Connecting a list of controllers *)
Section connect.
Context {W X : Type} `{!Spdk W Z} `{!SpdkView W Z} `{!SpdkLaws W Z}.
Context `{!SpdkAdmin W} `{!SpdkAdminView W} `{!SpdkAdminLaws W Z}.
Implicit Types (s : prog W X).

Lemma connect_all_spec v0 t ts s : accepts (W := W) → connects (W := W) → registry v0 s →
  outstanding_commands (g_arbitration s) = 0 →
  twp (λ fuel, connect_all fuel (t :: ts))
    (λ _ s', grows v0 s s' ∧ outstanding_commands (g_arbitration s') = 0 ∧
      (has_namespace (W := W) (io_size_bytes (g_arbitration s)) → g_namespaces s' ≠ []))
    (λ code _, code = 1) s.
Proof.
  intros Hacc Hcon. revert t s. induction ts as [|t' ts IH]; intros t s Hr Ho.
  - apply twp_bind_wp, wp_call. intros c w Hc.
    apply (twp_bind (λ fuel, register_ctrlr fuel c) (λ _ _, skip)).
    eapply twp_weaken; [by eapply connect_spec|]. intros [] s' ?. by apply twp_wp, wp_skip.
  - apply twp_bind_wp, wp_call. intros c w Hc. apply twp_bind.
    eapply twp_weaken; [by eapply connect_spec|]. intros [] s1 (Hs1&Ho1&_).
    eapply twp_weaken; [apply IH; [apply Hs1|done]|]. intros [] s2 (Hs2&Ho2&Hne).
    rewrite (grows_io _ _ _ Hs1) in Hne. split_and!; [by eapply grows_trans|done|done].
Qed.

Lemma connect_all_inits t ts : accepts (W := W) → connects (W := W) →
  inits (W := W) (X := X) (λ fuel, connect_all fuel (t :: ts)).
Proof. intros ?? v0 s ??. by apply connect_all_spec. Qed.

(** The same with the [memcpy] of the host name before it, when the image has the bytes. *)
Lemma copied_inits `{!Image} l init : hostnqn_size ≤ literal_bytes l → inits (W := W) (X := X) init →
  inits (W := W) (X := X) (λ fuel, memcpy_literal hostnqn_size l;; init fuel).
Proof. intros Hl Hi v0 s Hr Ho. apply memcpy_literal_spec; [done|by apply Hi]. Qed.
End connect.
