(* ===== verification/Config.v ===== *)
(** * Command line and configuration

    [parse_args] of [arbitration/arbitration.cc] (lines 704-873) and of its
    copies, over a model of [getopt] of the C library, and the default
    configurations that the copies compile in. *)
From S2P Require Import Prelude Spdk Arb.
From Stdlib Require Import Ascii.
Open Scope string_scope.

(** ** [getopt]

    [getopt] is called until it returns -1; the list holds what it returns,
    with [optarg].  Arguments that are not options are skipped (GNU getopt
    moves them to the end), [--] ends the options, an unknown option or a
    missing argument gives ['?']. *)
Definition optstring : string := "a:b:c:d:ghi:l:m:n:o:q:r:t:w:M:L:".

(** [Some true]: the option takes an argument. *)
Fixpoint opt_kind (c : ascii) (opts : string) : option bool :=
  match opts with
  | EmptyString => None
  | String o opts' =>
      if decide (o = c ∧ c ≠ ":"%char)
      then Some (match opts' with String ":" _ => true | _ => false end)
      else opt_kind c opts'
  end.

(** The options in one cluster [-xyz]; [next] is the argument after it.  The
    boolean tells whether [next] has been used as an option's argument. *)
Fixpoint getopt_cluster (s : string) (next : option string)
    : list (ascii * string) * bool :=
  match s with
  | EmptyString => ([], false)
  | String c s' =>
      match opt_kind c optstring with
      | None => let '(l, b) := getopt_cluster s' next in (("?"%char, "") :: l, b)
      | Some false => let '(l, b) := getopt_cluster s' next in ((c, "") :: l, b)
      | Some true =>
          match s', next with
          | EmptyString, None => ([("?"%char, "")], false)
          | EmptyString, Some a => ([(c, a)], true)
          | _, _ => ([(c, s')], false)
          end
      end
  end.

Fixpoint getopt (argv : list string) : list (ascii * string) :=
  match argv with
  | [] => []
  | a :: rest =>
      match a with
      | String "-" (String _ _ as cluster) =>
          if decide (cluster = "-") then [] else
          let '(l, used) := getopt_cluster cluster (head rest) in
          if used then match rest with [] => l | _ :: rest' => l ++ getopt rest' end
          else l ++ getopt rest
      | _ => getopt rest
      end
  end.

(** ** The globals that the options set *)
Record config := Config {
  g_arb : arb_context;
  g_dpdk_mem : Z;
  g_dpdk_mem_single_seg : bool;
  g_trid : transport_id;
}.

Definition SPDK_NVMF_DISCOVERY_NQN : string := "nqn.2014-08.org.nvmexpress.discovery".

Definition set_arb (f : arb_context → arb_context) (c : config) : config :=
  Config (f (g_arb c)) (g_dpdk_mem c) (g_dpdk_mem_single_seg c) (g_trid c).
Definition set_dpdk_mem (z : Z) (c : config) : config :=
  Config (g_arb c) z (g_dpdk_mem_single_seg c) (g_trid c).
Definition set_single_seg (c : config) : config :=
  Config (g_arb c) (g_dpdk_mem c) true (g_trid c).
Definition set_trid (t : transport_id) (c : config) : config :=
  Config (g_arb c) (g_dpdk_mem c) (g_dpdk_mem_single_seg c) t.

(** The members of [g_arbitration] that a numeric option sets, converted to
    the member's type. *)
Definition set_number (op : ascii) (val : Z) (g : arb_context) : option arb_context :=
  let upd shm qd t io lat mech cfg size maxc rw :=
    ArbContext shm (outstanding_commands g) (num_namespaces g) (num_workers g) rw
      (is_random g) qd t io lat mech cfg size maxc (tsc_rate g) (core_mask g)
      (workload_type g) in
  let '(shm, qd, t, io, lat) :=
    (shm_id g, queue_depth g, time_in_sec g, io_count g, latency_tracking_enable g) in
  let '(mech, cfg, size, maxc, rw) :=
    (arbitration_mechanism g, arbitration_config g, io_size_bytes g, max_completions g,
     rw_percentage g) in
  if decide (op = "i"%char) then Some (upd (i32 val) qd t io lat mech cfg size maxc rw)
  else if decide (op = "l"%char) then Some (upd shm qd t io (u8 val) mech cfg size maxc rw)
  else if decide (op = "m"%char) then Some (upd shm qd t io lat mech cfg size (u32 val) rw)
  else if decide (op = "q"%char) then Some (upd shm (i32 val) t io lat mech cfg size maxc rw)
  else if decide (op = "o"%char) then Some (upd shm qd t io lat mech cfg (u32 val) maxc rw)
  else if decide (op = "t"%char) then Some (upd shm qd (i32 val) io lat mech cfg size maxc rw)
  else if decide (op = "M"%char) then Some (upd shm qd t io lat mech cfg size maxc (i32 val))
  else if decide (op = "a"%char) then Some (upd shm qd t io lat (u8 val) cfg size maxc rw)
  else if decide (op = "b"%char) then Some (upd shm qd t io lat mech (u8 val) size maxc rw)
  else if decide (op = "n"%char) then Some (upd shm qd t (i32 val) lat mech cfg size maxc rw)
  else None.

Definition set_core_mask (m : string) (g : arb_context) : arb_context :=
  ArbContext (shm_id g) (outstanding_commands g) (num_namespaces g) (num_workers g)
    (rw_percentage g) (is_random g) (queue_depth g) (time_in_sec g) (io_count g)
    (latency_tracking_enable g) (arbitration_mechanism g) (arbitration_config g)
    (io_size_bytes g) (max_completions g) (tsc_rate g) m (workload_type g).
Definition set_workload (w : string) (g : arb_context) : arb_context :=
  ArbContext (shm_id g) (outstanding_commands g) (num_namespaces g) (num_workers g)
    (rw_percentage g) (is_random g) (queue_depth g) (time_in_sec g) (io_count g)
    (latency_tracking_enable g) (arbitration_mechanism g) (arbitration_config g)
    (io_size_bytes g) (max_completions g) (tsc_rate g) (core_mask g) w.
Definition set_rw (z : Z) (g : arb_context) : arb_context :=
  ArbContext (shm_id g) (outstanding_commands g) (num_namespaces g) (num_workers g)
    z (is_random g) (queue_depth g) (time_in_sec g) (io_count g)
    (latency_tracking_enable g) (arbitration_mechanism g) (arbitration_config g)
    (io_size_bytes g) (max_completions g) (tsc_rate g) (core_mask g) (workload_type g).
Definition set_random (z : Z) (g : arb_context) : arb_context :=
  ArbContext (shm_id g) (outstanding_commands g) (num_namespaces g) (num_workers g)
    (rw_percentage g) z (queue_depth g) (time_in_sec g) (io_count g)
    (latency_tracking_enable g) (arbitration_mechanism g) (arbitration_config g)
    (io_size_bytes g) (max_completions g) (tsc_rate g) (core_mask g) (workload_type g).

(** ** [parse_args]

    SPDK's conversions are parameters: [spdk_strtol s] is negative when [s]
    is not a number, [transport_id_parse s t] is the new identifier unless it
    fails, [log_set_flag s] is negative for an unknown flag. *)
Section parse.
Context (spdk_strtol : string → Z).
Context (transport_id_parse : string → transport_id → option transport_id).
Context (log_set_flag : string → Z).

Definition EINVAL : Z := 22.

(** One turn of the loop over the options: [Some rc] leaves [parse_args]. *)
Definition parse_opt (op : ascii) (optarg : string) : M config (option Z) :=
  if decide (op = "c"%char) then modify (set_arb (set_core_mask optarg));; mret None
  else if decide (op = "d"%char) then
    let v := i32 (spdk_strtol optarg) in
    modify (set_dpdk_mem v);;
    mret (if decide (v < 0) then Some v else None)
  else if decide (op = "w"%char) then modify (set_arb (set_workload optarg));; mret None
  else if decide (op = "r"%char) then
    c ← get;
    match transport_id_parse optarg (g_trid c) with
    | None => mret (Some 1)
    | Some t => modify (set_trid t);; mret None
    end
  else if decide (op = "g"%char) then modify set_single_seg;; mret None
  else if decide (op = "h"%char ∨ op = "?"%char) then mret (Some 1)
  else if decide (op = "L"%char) then
    if decide (log_set_flag optarg < 0) then exit 1 else mret None
  else
    let val := spdk_strtol optarg in
    if decide (val < 0) then mret (Some (i32 val)) else
    c ← get;
    match set_number op val (g_arb c) with
    | Some g => modify (set_arb (λ _, g));; mret None
    | None => mret (Some (- EINVAL))
    end.

Fixpoint parse_opts (l : list (ascii * string)) : M config (option Z) :=
  match l with
  | [] => mret None
  | (op, a) :: l' =>
      r ← parse_opt op a;
      match r with Some rc => mret (Some rc) | None => parse_opts l' end
  end.

Definition workloads : list string :=
  ["read"; "write"; "randread"; "randwrite"; "rw"; "randrw"].

(** The chains of [strcmp]. *)
Definition one_of (l : list string) (w : string) : bool := existsb (String.eqb w) l.

(** The checks after the loop.  [force_seq] is the assignment
    [is_random = 0] that some copies add after the choice. *)
Definition check_args (force_seq : bool) : M config Z :=
  c ← get;
  let w := workload_type (g_arb c) in
  if negb (one_of workloads w) then mret 1 else
  (if one_of ["read"; "randread"] w then modify (set_arb (set_rw 100)) else skip);;
  (if one_of ["write"; "randwrite"] w then modify (set_arb (set_rw 0)) else skip);;
  c ← get;
  let rw := rw_percentage (g_arb c) in
  if one_of ["rw"; "randrw"] w && bool_decide (rw < 0 ∨ rw > 100) then mret 1 else
  modify (set_arb (set_random (if one_of ["read"; "write"; "rw"] w then 0 else 1)));;
  (if force_seq then modify (set_arb (set_random 0)) else skip);;
  c ← get;
  let g := g_arb c in
  if decide (latency_tracking_enable g ≠ 0 ∧ latency_tracking_enable g ≠ 1) then mret 1 else
  let a := arbitration_mechanism g in
  if decide (a ≠ SPDK_NVME_CC_AMS_RR ∧ a ≠ SPDK_NVME_CC_AMS_WRR ∧ a ≠ SPDK_NVME_CC_AMS_VS)
  then mret 1 else
  if decide (arbitration_config g ≠ 0 ∧ arbitration_config g ≠ 1) then mret 1
  else if decide (arbitration_config g = 1 ∧ a ≠ SPDK_NVME_CC_AMS_WRR) then mret 1
  else mret 0.

Definition parse_args_with (force_seq : bool) (argv : list string) : M config Z :=
  modify (λ c, set_trid (TransportId "PCIE" (adrfam (g_trid c)) (traddr (g_trid c))
    (trsvcid (g_trid c)) SPDK_NVMF_DISCOVERY_NQN) c);;
  r ← parse_opts (getopt argv);
  match r with Some rc => mret rc | None => check_args force_seq end.

(** [arbitration.cc] and the copies that repeat it. *)
Definition parse_args : list string → M config Z := parse_args_with false.
Definition parse_args_append : list string → M config Z := parse_args_with false.
Definition parse_args_rdma : list string → M config Z := parse_args_with false.
Definition parse_args_rdma_append : list string → M config Z := parse_args_with false.
Definition parse_args_rdma_read : list string → M config Z := parse_args_with false.
Definition parse_args_read : list string → M config Z := parse_args_with false.
Definition parse_args_write : list string → M config Z := parse_args_with false.
Definition parse_args_one_append : list string → M config Z := parse_args_with false.
Definition parse_args_verify : list string → M config Z := parse_args_with false.

(** The copies that force sequential I/O. *)
Definition parse_args_one_drive_read : list string → M config Z := parse_args_with true.
Definition parse_args_three_reads : list string → M config Z := parse_args_with true.
Definition parse_args_three_writes : list string → M config Z := parse_args_with true.
Definition parse_args_two_reads : list string → M config Z := parse_args_with true.
End parse.

(** ** What is printed for a queue priority *)
Definition print_qprio (q : Z) : string :=
  match q with
  | 0 => "urgent priority queue"
  | 1 => "high priority queue"
  | 2 => "medium priority queue"
  | 3 => "low priority queue"
  | _ => "invalid priority queue"
  end.

(** ** [print_configuration]

    The words after the program's name of the command line that is printed;
    [dec] prints [%d].  The I/O size is printed as option [-s]. *)
Definition config_args (dec : Z → string) (size_opt : string) (g : arb_context)
    : list string :=
  ["-q"; dec (queue_depth g); size_opt; dec (i32 (io_size_bytes g));
   "-w"; workload_type g; "-M"; dec (rw_percentage g);
   "-l"; dec (latency_tracking_enable g); "-t"; dec (time_in_sec g);
   "-c"; core_mask g; "-m"; dec (i32 (max_completions g));
   "-a"; dec (arbitration_mechanism g); "-b"; dec (arbitration_config g);
   "-n"; dec (io_count g); "-i"; dec (shm_id g)].
Definition print_configuration (dec : Z → string) : arb_context → list string :=
  config_args dec "-s".

(** ** The configurations that the copies compile in *)
Definition defaults (qd t n size : Z) (mask : string) : arb_context := {|
  shm_id := -1; outstanding_commands := 0; num_namespaces := 0;
  num_workers := 0; rw_percentage := 50; is_random := 0; queue_depth := qd;
  time_in_sec := t; io_count := n; latency_tracking_enable := 0;
  arbitration_mechanism := SPDK_NVME_CC_AMS_RR; arbitration_config := 0;
  io_size_bytes := size; max_completions := 0; tsc_rate := 0;
  core_mask := mask; workload_type := "randrw" |}.

Definition g_arbitration_append := defaults 64 9 100000 4096 "0x3".
Definition g_arbitration_rdma := defaults 64 9 100000 4096 "0x1".
Definition g_arbitration_rdma_append := defaults 64 1 1000000 4096 "0x1".
Definition g_arbitration_rdma_read := defaults 64 9 1000000 4096 "0x1".
Definition g_arbitration_read := defaults 64 9 100000 4096 "0x1".
Definition g_arbitration_write := defaults 64 9 100000 4096 "0x3".
Definition g_arbitration_one_append := defaults 1 1 1000000 4096 "0x1".
Definition g_arbitration_one_read := defaults 128 1 1000000 4096 "0x1".
Definition g_arbitration_three_reads := defaults 128 1 1000000 (4096 * 16) "0xfff".
Definition g_arbitration_three_writes := defaults 128 1 1000000 4096 "0xfff".
Definition g_arbitration_two_reads := defaults 128 1 1000000 4096 "0xff".
Definition g_arbitration_verification := defaults 1 1 1000000 4096 "0x1".

(** The globals when [main] starts. *)
Definition config0 (g : arb_context) : config :=
  Config g 0 false (TransportId "" "" "" "" "").
