(* ===== verification/ConfigProps.v ===== *)
(** * Properties of the command line

    What [Config.parse_args] guarantees to the rest of the program, and what
    it silently accepts. *)
From S2P Require Import Prelude Spdk Arb Config.
From Stdlib Require Import Ascii.
Open Scope string_scope.
Open Scope Z_scope.

(** The members hold values of their C types. *)
Definition typed (g : arb_context) : Prop :=
  - 2 ^ 31 ≤ queue_depth g < 2 ^ 31 ∧ - 2 ^ 31 ≤ time_in_sec g < 2 ^ 31 ∧
  - 2 ^ 31 ≤ io_count g < 2 ^ 31 ∧ - 2 ^ 31 ≤ rw_percentage g < 2 ^ 31 ∧
  - 2 ^ 31 ≤ shm_id g < 2 ^ 31 ∧ 0 ≤ io_size_bytes g < 2 ^ 32 ∧
  0 ≤ max_completions g < 2 ^ 32 ∧ 0 ≤ latency_tracking_enable g < 256 ∧
  0 ≤ arbitration_mechanism g < 256 ∧ 0 ≤ arbitration_config g < 256.

(** What no option touches. *)
Definition same_counters (g g' : arb_context) : Prop :=
  outstanding_commands g' = outstanding_commands g ∧
  num_namespaces g' = num_namespaces g ∧ num_workers g' = num_workers g ∧
  tsc_rate g' = tsc_rate g.

Definition sequential (w : string) : Prop := w = "read" ∨ w = "write" ∨ w = "rw".

(** What is checked of a configuration.  The queue depth, the I/O size, the time and the
    other numbers are not. *)
Record checked_config (force_seq : bool) (g : arb_context) : Prop := {
  gc_workload : workload_type g ∈ workloads;
  gc_read : workload_type g = "read" ∨ workload_type g = "randread" → rw_percentage g = 100;
  gc_write : workload_type g = "write" ∨ workload_type g = "randwrite" → rw_percentage g = 0;
  gc_rw : 0 ≤ rw_percentage g ≤ 100;
  gc_random : is_random g = 0 ↔ force_seq = true ∨ sequential (workload_type g);
  gc_latency : latency_tracking_enable g = 0 ∨ latency_tracking_enable g = 1;
  gc_mechanism : arbitration_mechanism g = 0 ∨ arbitration_mechanism g = 1 ∨
    arbitration_mechanism g = 7;
  gc_config : arbitration_config g = 0 ∨
    arbitration_config g = 1 ∧ arbitration_mechanism g = 1;
}.

Section props.
Context (spdk_strtol : string → Z).
Context (transport_id_parse : string → transport_id → option transport_id).
Context (log_set_flag : string → Z).

Definition kept (c c' : config) : Prop :=
  typed (g_arb c') ∧ same_counters (g_arb c) (g_arb c').

Lemma set_number_kept op v g g' :
  typed g → set_number op v g = Some g' → typed g' ∧ same_counters g g'.
Proof.
  intros Ht Hg. pose proof (i32_range v). pose proof (u32_range v). pose proof (u8_range v).
  unfold set_number in Hg. unfold typed in *.
  repeat case_decide; simplify_eq/=; (split; [lia|done]).
Qed.

(** [spdk_strtol] reports an error as the negated code of the C library. *)
Context (strtol_errno : ∀ a, spdk_strtol a < 0 → - 2 ^ 31 ≤ spdk_strtol a).

Lemma kept_modify c f E : typed (f (g_arb c)) → same_counters (g_arb c) (f (g_arb c)) →
  wp (modify (set_arb f);; mret None) (λ r c', (r = None → kept c c') ∧ r ≠ Some 0) E c.
Proof. intros. by apply wp_seq, wp_modify, wp_ret. Qed.

Lemma parse_opt_kept op a c : typed (g_arb c) →
  wp (parse_opt spdk_strtol transport_id_parse log_set_flag op a)
    (λ r c', (r = None → kept c c') ∧ r ≠ Some 0) (λ code _, code = 1) c.
Proof.
  intros Ht. assert (same_counters (g_arb c) (g_arb c)) as Hs by done.
  assert (∀ z, wp (mret (Some z)) (λ r c', (r = None → kept c c') ∧ r ≠ Some 0)
    (λ code _, code = 1) c ↔ z ≠ 0) as Hret.
  { intros z. unfold wp. simpl. naive_solver. }
  unfold parse_opt. case_decide; [by apply kept_modify|].
  case_decide.
  { apply wp_seq, wp_modify, wp_ret. case_decide; [|done]. split; [done|]. intros [=]. lia. }
  case_decide; [by apply kept_modify|]. case_decide.
  { apply wp_bind, wp_get. destruct (transport_id_parse _ _); [|by apply Hret].
    by apply wp_seq, wp_modify, wp_ret. }
  case_decide; [by apply wp_seq, wp_modify, wp_ret|].
  case_decide; [by apply Hret|]. case_decide.
  { case_decide; [by apply wp_exit|by apply wp_ret]. }
  simpl. case_decide as Hlt.
  - apply Hret. rewrite i32_small; [lia|]. specialize (strtol_errno a). lia.
  - apply wp_bind, wp_get. destruct (set_number _ _ _) as [g|] eqn:Hg; [|by apply Hret].
    apply set_number_kept in Hg as [??]; [|done]. by apply kept_modify.
Qed.

Lemma parse_opts_kept l c : typed (g_arb c) →
  wp (parse_opts spdk_strtol transport_id_parse log_set_flag l)
    (λ r c', (r = None → kept c c') ∧ r ≠ Some 0) (λ code _, code = 1) c.
Proof.
  revert c. induction l as [|[op a] l IH]; intros c Ht; simpl; [by apply wp_ret|].
  apply wp_bind. eapply wp_weaken; [by apply parse_opt_kept|].
  intros [rc|] c' [Hk Hrc]; [by apply wp_ret|].
  destruct (Hk eq_refl) as [Ht' (?&?&?&?)]. eapply wp_weaken; [by apply IH|].
  intros r c'' [Hk' ?]. split; [|done]. intros Hr. destruct (Hk' Hr) as [? (?&?&?&?)].
  split; [done|]. unfold same_counters. split_and!; congruence.
Qed.

Lemma one_of_spec l w : one_of l w = true ↔ w ∈ l.
Proof.
  unfold one_of. rewrite existsb_exists. setoid_rewrite String.eqb_eq.
  rewrite list_elem_of_In. naive_solver.
Qed.

Lemma check_args_good fs c E : typed (g_arb c) →
  wp (check_args fs) (λ rc c', rc = 0 → kept c c' ∧ checked_config fs (g_arb c')) E c.
Proof.
  intros Ht. unfold check_args. apply wp_bind, wp_get.
  destruct (one_of workloads _) eqn:Hw; simpl; [|by apply wp_ret].
  apply one_of_spec in Hw.
  destruct c as [g m sg tr]. destruct g as
    [shm out nns nwk rw rnd qd tm n lat mech cfg size maxc tsc mask w]. simpl in *.
  assert (Hw6 := Hw). unfold workloads in Hw6. rewrite !elem_of_cons, elem_of_nil in Hw6.
  unfold typed in Ht. simpl in Ht.
  destruct_or! Hw6; try done; subst w.
  all: unfold wp, mbind, M_bind, modify, skip, get, mret, M_ret; simpl.
  all: try (destruct (bool_decide_reflect (rw < 0 ∨ rw > 100)); simpl; [done|]).
  all: unfold SPDK_NVME_CC_AMS_RR, SPDK_NVME_CC_AMS_WRR, SPDK_NVME_CC_AMS_VS.
  all: destruct fs; simpl; repeat (case_decide; simpl; [done|]).
  all: intros _; split; [by split; [unfold typed; simpl; lia|]|].
  all: split; simpl; unfold sequential; first
    [ exact Hw | lia | by intros [|] | split; [by auto 6|done]
    | split; [done|by intros [|[|[|]]]] ].
Qed.

(** [parse_args] ends on every command line, and what it accepts is checked. *)
Lemma parse_args_spec force_seq argv c :
  typed (g_arb c) →
  wp (parse_args_with spdk_strtol transport_id_parse log_set_flag force_seq argv)
    (λ rc c', rc = 0 → typed (g_arb c') ∧ same_counters (g_arb c) (g_arb c') ∧
       checked_config force_seq (g_arb c')) (λ code _, code = 1) c.
Proof.
  intros Ht. unfold parse_args_with. apply wp_seq, wp_modify, wp_bind.
  eapply wp_weaken; [by apply parse_opts_kept|]. intros [rc|] c1 [Hk Hrc].
  { apply wp_ret. intros ->. done. }
  destruct (Hk eq_refl) as [Ht1 (?&?&?&?)]. eapply wp_weaken; [by apply check_args_good|].
  intros rc c2 Hg Hz. destruct (Hg Hz) as [[? (?&?&?&?)] ?]. unfold same_counters. simpl in *.
  split_and!; congruence || done.
Qed.
(** *** Printing a configuration and reading it back *)

(** [g] with the counters of [g0], which no option sets. *)
Definition with_counters (g0 g : arb_context) : arb_context :=
  ArbContext (shm_id g) (outstanding_commands g0) (num_namespaces g0) (num_workers g0)
    (rw_percentage g) (is_random g) (queue_depth g) (time_in_sec g) (io_count g)
    (latency_tracking_enable g) (arbitration_mechanism g) (arbitration_config g)
    (io_size_bytes g) (max_completions g) (tsc_rate g0) (core_mask g) (workload_type g).

(** Every number can be given on a command line. *)
Definition writable (g : arb_context) : Prop :=
  Forall (λ n, 0 ≤ n < 2 ^ 31) [queue_depth g; io_size_bytes g; time_in_sec g;
    max_completions g; io_count g; shm_id g].

Lemma parse_opts_number op a l v g' c :
  spdk_strtol a = v → 0 ≤ v → set_number op v (g_arb c) = Some g' →
  parse_opts spdk_strtol transport_id_parse log_set_flag ((op, a) :: l) c =
  parse_opts spdk_strtol transport_id_parse log_set_flag l (set_arb (λ _, g') c).
Proof.
  clear strtol_errno. intros Hv Hpos Hg. simpl. unfold parse_opt.
  assert (op ∈ ["i"; "l"; "m"; "q"; "o"; "t"; "M"; "a"; "b"; "n"]%char) as Hop.
  { unfold set_number in Hg. repeat case_decide; subst; try done; set_solver. }
  rewrite !decide_False by (intros Ho; set_solver).
  unfold mbind, M_bind. simpl. rewrite Hv, decide_False by lia. simpl. by rewrite Hg.
Qed.

Lemma check_args_accepts c g : checked_config false g →
  g_arb c = set_random (is_random (g_arb c)) g → is_random g = 0 ∨ is_random g = 1 →
  check_args false c = Done 0 (set_arb (λ _, g) c).
Proof.
  clear strtol_errno. intros [Hw Hr Hwr Hrw Hrand Hl Hm Hc] Hg H01.
  destruct c as [g0 m sg tr]. simpl in Hg. generalize dependent (is_random g0).
  intros r ->. destruct g as
    [shm out nns nwk rw rnd qd tm n lat mech cfg size maxc tsc mask w]. simpl in *.
  unfold workloads in Hw. rewrite !elem_of_cons, elem_of_nil in Hw.
  destruct_or! Hw; try done; subst w; unfold sequential in Hrand;
    first [pose proof (proj2 Hrand ltac:(auto 6)) as ->
          |destruct H01 as [->| ->]; [destruct (proj1 Hrand eq_refl) as [|[|[|]]]; done|]];
    try (rewrite (Hr ltac:(auto))); try (rewrite (Hwr ltac:(auto)));
    unfold check_args, mbind, M_bind, modify, skip, get, mret, M_ret; simpl.
  all: try (rewrite bool_decide_false by lia); simpl.
  all: unfold SPDK_NVME_CC_AMS_RR, SPDK_NVME_CC_AMS_WRR, SPDK_NVME_CC_AMS_VS.
  all: do 4 (rewrite decide_False by lia); done.
Qed.
Lemma parse_opts_workload w l c :
  parse_opts spdk_strtol transport_id_parse log_set_flag (("w"%char, w) :: l) c =
  parse_opts spdk_strtol transport_id_parse log_set_flag l (set_arb (set_workload w) c).
Proof. done. Qed.

Lemma parse_opts_core_mask m l c :
  parse_opts spdk_strtol transport_id_parse log_set_flag (("c"%char, m) :: l) c =
  parse_opts spdk_strtol transport_id_parse log_set_flag l (set_arb (set_core_mask m) c).
Proof. done. Qed.

#[local] Arguments parse_opts : simpl never.
#[local] Arguments check_args : simpl never.
Ltac read_number Hdec :=
  erewrite parse_opts_number; [simpl|apply Hdec; lia|lia|simpl; reflexivity].

(** A command line that gives three numbers, and what else has to be given. *)
Definition number_args (dec : Z → string) (qd size t : Z) : list string :=
  ["-q"; dec (u32 qd); "-o"; dec size; "-t"; dec (u32 t); "-w"; "read";
   "-l"; dec 0; "-a"; dec 0; "-b"; dec 0].

Lemma number_args_accepted force_seq dec qd size t c :
  (∀ n, 0 ≤ n < 2 ^ 32 → spdk_strtol (dec n) = n) →
  - 2 ^ 31 ≤ qd < 2 ^ 31 → 0 ≤ size < 2 ^ 32 → - 2 ^ 31 ≤ t < 2 ^ 31 →
  ∃ c', parse_args_with spdk_strtol transport_id_parse log_set_flag force_seq
      (number_args dec qd size t) c = Done 0 c' ∧
    queue_depth (g_arb c') = qd ∧ io_size_bytes (g_arb c') = size ∧ time_in_sec (g_arb c') = t.
Proof.
  clear strtol_errno. intros Hdec Hqd Hsize Ht. pose proof (u32_range qd). pose proof (u32_range t).
  destruct c as [g0 m sg tr]. destruct g0.
  unfold parse_args_with. change (getopt (number_args _ _ _ _)) with
    [("q"%char, dec (u32 qd)); ("o"%char, dec size); ("t"%char, dec (u32 t)); ("w"%char, "read");
     ("l"%char, dec 0); ("a"%char, dec 0); ("b"%char, dec 0)].
  unfold mbind at 1, M_bind at 1, modify at 1. unfold mbind at 1, M_bind at 1.
  do 3 read_number Hdec. rewrite parse_opts_workload. simpl. do 3 read_number Hdec.
  rewrite !i32_u32, (u32_small size) by lia.
  unfold check_args, mbind, M_bind, modify, skip, get, mret, M_ret. simpl.
  destruct force_seq; simpl; by eexists.
Qed.

(** (C15) What [parse_args] checks, exactly.  It ends on every command line, by returning or,
    for an unknown log flag, by [exit(1)].  When it returns 0 the members hold values of
    their types, the ones that no option sets are untouched, the workload is a known one with
    its direction and percentage, the mechanism exists, latency tracking is on or off, and a
    user configuration is only taken together with weighted round robin.  The queue depth,
    the I/O size and the time are not checked: every value of their types is accepted, a
    depth or a size of 0 and (given as a number above 2^31) a negative depth among them. *)
Theorem parse_args_valid force_seq dec c :
  typed (g_arb c) → (∀ n, 0 ≤ n < 2 ^ 32 → spdk_strtol (dec n) = n) →
  (∀ argv, wp (parse_args_with spdk_strtol transport_id_parse log_set_flag force_seq argv)
    (λ rc c', rc = 0 → typed (g_arb c') ∧ same_counters (g_arb c) (g_arb c') ∧
       checked_config force_seq (g_arb c')) (λ code _, code = 1) c) ∧
  ∀ qd size t, - 2 ^ 31 ≤ qd < 2 ^ 31 → 0 ≤ size < 2 ^ 32 → - 2 ^ 31 ≤ t < 2 ^ 31 →
    ∃ argv c', parse_args_with spdk_strtol transport_id_parse log_set_flag force_seq argv c =
        Done 0 c' ∧
      queue_depth (g_arb c') = qd ∧ io_size_bytes (g_arb c') = size ∧
      time_in_sec (g_arb c') = t.
Proof.
  intros Ht Hdec. split; [intros argv; by apply parse_args_spec|].
  intros qd size t ???. exists (number_args dec qd size t). by apply number_args_accepted.
Qed.

(** (C16) Every checked configuration of numbers below 2^31 can be given on the command line:
    [parse_args] reads the arguments back as that configuration and keeps its own counters. *)
Theorem parse_args_roundtrip dec g c :
  (∀ n, 0 ≤ n < 2 ^ 31 → spdk_strtol (dec n) = n) →
  checked_config false g → writable g → is_random g = 0 ∨ is_random g = 1 →
  ∃ c', parse_args spdk_strtol transport_id_parse log_set_flag (config_args dec "-o" g) c =
      Done 0 c' ∧ g_arb c' = with_counters (g_arb c) g.
Proof.
  clear strtol_errno. intros Hdec Hg Hwr H01.
  pose proof Hg as [_ _ _ Hrw _ Hl Hm Hc].
  unfold writable in Hwr. rewrite !Forall_cons in Hwr.
  destruct c as [g0 m sg tr]. destruct g0, g as
    [shm out nns nwk rw rnd qd tm n lat mech cfg size maxc tsc mask w]. simpl in *.
  unfold parse_args, parse_args_with.
  change (getopt (config_args _ _ _)) with
    [("q"%char, dec qd); ("o"%char, dec (i32 size)); ("w"%char, w); ("M"%char, dec rw);
     ("l"%char, dec lat); ("t"%char, dec tm); ("c"%char, mask); ("m"%char, dec (i32 maxc));
     ("a"%char, dec mech); ("b"%char, dec cfg); ("n"%char, dec n); ("i"%char, dec shm)].
  rewrite (i32_small size), (i32_small maxc) by lia.
  unfold mbind at 1, M_bind at 1, modify at 1. unfold mbind at 1, M_bind at 1.
  do 2 read_number Hdec.
  rewrite parse_opts_workload. simpl.
  do 3 read_number Hdec.
  rewrite parse_opts_core_mask. simpl.
  do 5 read_number Hdec.
  match goal with |- ∃ _, check_args false ?c = _ ∧ _ =>
    let c' := eval simpl in c in change c with c' end.
  wrap.
  match goal with |- ∃ c', _ ∧ g_arb c' = ?g => eexists; split;
    [apply (check_args_accepts (Config _ _ _ _) g); [by destruct Hg|reflexivity|exact H01]
    |reflexivity] end.
Qed.

Lemma getopt_unknown a rest :
  getopt ("-q" :: a :: "-s" :: rest) = ("q"%char, a) :: ("?"%char, "") :: getopt rest.
Proof. done. Qed.

(** What [print_configuration] prints is not a command line of the program: it names the
    I/O size [-s], which [parse_args] does not know. *)
Theorem printed_configuration_rejected dec g c force_seq : typed (g_arb c) →
  wp (parse_args_with spdk_strtol transport_id_parse log_set_flag force_seq
      (print_configuration dec g)) (λ rc _, rc ≠ 0) (λ code _, code = 1) c.
Proof.
  intros Ht. unfold parse_args_with. apply wp_seq, wp_modify, wp_bind.
  unfold print_configuration, config_args. rewrite getopt_unknown.
  apply wp_bind. eapply wp_weaken; [by apply parse_opt_kept|].
  intros [rc|] c1 [_ Hrc]; [apply wp_ret, wp_ret; congruence|].
  apply wp_bind, wp_ret, wp_ret, wp_ret. done.
Qed.
End props.

(** A [strtol] for decimal numbers, the conversion the witnesses run with. *)
Definition strtol10 (s : string) : Z := Z.max (- 22) (decimal 0 s).

Definition dec10 (n : Z) : string := digits 10 n "".

Lemma strtol10_dec10 n : 0 ≤ n < 2 ^ 31 → strtol10 (dec10 n) = n.
Proof.
  intros Hn. unfold strtol10, dec10. rewrite decimal_digits by (simpl; lia). simpl. lia.
Qed.

Abbreviation run_args force_seq argv :=
  (parse_args_with strtol10 (λ s t, None) (λ _, 0) force_seq argv (config0 g_arbitration_init)).

Lemma typed_initial : typed g_arbitration_init.
Proof. unfold typed. vm_compute. by repeat split; intros. Qed.

Lemma strtol10_errno a : strtol10 a < 0 → - 2 ^ 31 ≤ strtol10 a.
Proof. intros _. unfold strtol10. lia. Qed.

Lemma strtol10_dec10_u32 n : 0 ≤ n < 2 ^ 32 → strtol10 (dec10 n) = n.
Proof.
  intros Hn. unfold strtol10, dec10. rewrite decimal_digits by (simpl; lia). simpl. lia.
Qed.

Lemma parse_args_valid_witness :
  (∃ c', run_args false ["-q"; "8"; "-w"; "randread"; "-a1"; "-b"; "1"] = Done 0 c' ∧
    typed (g_arb c') ∧ rw_percentage (g_arb c') = 100) ∧
  ∃ argv c', run_args false argv = Done 0 c' ∧ queue_depth (g_arb c') = -1 ∧
    io_size_bytes (g_arb c') = 0 ∧ time_in_sec (g_arb c') = 0.
Proof.
  destruct (parse_args_valid strtol10 (λ s t, None) (λ _, 0) strtol10_errno false
    dec10 (config0 g_arbitration_init) typed_initial strtol10_dec10_u32) as [H1 H2].
  split; [|by apply H2]. specialize (H1 ["-q"; "8"; "-w"; "randread"; "-a1"; "-b"; "1"]).
  assert (∃ c', run_args false ["-q"; "8"; "-w"; "randread"; "-a1"; "-b"; "1"] = Done 0 c' ∧
    workload_type (g_arb c') = "randread") as (c'&E&Hw)
    by (eexists; split; [vm_compute; reflexivity|reflexivity]).
  exists c'. destruct (wp_done _ _ _ _ _ _ H1 E eq_refl) as (Ht&_&Hg).
  split; [exact E|]. split; [exact Ht|].
  apply (gc_read _ _ Hg). by right.
Defined.

(** The checks run on the narrowed members: [-l 256] is accepted and leaves latency
    tracking off, [-a 257] is accepted as mechanism 1, and a queue depth of [2 ^ 32 + 1]
    is a depth of 1. *)
Theorem narrowing_accepted : ∃ c',
  parse_args strtol10 (λ s t, None) (λ _, 0) ["-l"; "256"; "-a"; "257"; "-q"; "4294967297"]
    (config0 g_arbitration_init) = Done 0 c' ∧
  latency_tracking_enable (g_arb c') = 0 ∧ arbitration_mechanism (g_arb c') = 1 ∧
  queue_depth (g_arb c') = 1.
Proof. eexists. split; [vm_compute; reflexivity|done]. Qed.

(** A configuration that no default has. *)
Definition g_demo : arb_context := {|
  shm_id := 3; outstanding_commands := 0; num_namespaces := 0; num_workers := 0;
  rw_percentage := 100; is_random := 1; queue_depth := 32; time_in_sec := 5;
  io_count := 1000; latency_tracking_enable := 1; arbitration_mechanism := 1;
  arbitration_config := 1; io_size_bytes := 8192; max_completions := 4; tsc_rate := 0;
  core_mask := "0x7"; workload_type := "randread" |}.

Lemma g_demo_good : checked_config false g_demo.
Proof.
  split; simpl; try lia; try done.
  - unfold workloads. set_solver.
  - by intros [|].
  - split; [done|]. by intros [|[|[|]]].
Qed.

Lemma parse_args_roundtrip_witness : ∃ c',
  parse_args strtol10 (λ s t, None) (λ _, 0) (config_args dec10 "-o" g_demo)
    (config0 g_arbitration_init) = Done 0 c' ∧
  g_arb c' = with_counters g_arbitration_init g_demo.
Proof.
  apply (parse_args_roundtrip strtol10 (λ s t, None) (λ _, 0) dec10 g_demo
    (config0 g_arbitration_init)).
  - exact strtol10_dec10.
  - exact g_demo_good.
  - unfold writable. rewrite !Forall_cons. simpl. by split_and!; try lia.
  - by right.
Defined.

Lemma printed_configuration_rejected_witness :
  wp (parse_args_with strtol10 (λ s t, None) (λ _, 0) false (print_configuration dec10 g_demo))
    (λ rc _, rc ≠ 0) (λ code _, code = 1) (config0 g_demo).
Proof.
  apply (printed_configuration_rejected strtol10 (λ s t, None) (λ _, 0) strtol10_errno).
  unfold typed. vm_compute. by repeat split; intros.
Defined.
