(* ===== verification/Family.v ===== *)
(** * The programs of the family, function by function

    Every program of [arbitration/] and [multipath/] starts as a copy of [arbitration.cc].
    What a copy does differently is in [Variants] (its engine), [ZoneReport], [Verify] and
    [Launch] (its controllers and contexts) and [Config] (its globals and its command
    line); the functions that it repeats are instances of the shared definitions, on
    contexts with the fields of the copy.  This file puts each program together: the
    groups of functions in the order of the file, and the [main] that calls them.  The
    copies also differ in what they print on the way, which is not modelled. *)
From S2P Require Import Prelude Spdk Arb Verify Engine EngineInv EngineSpec Variants Workers.
From S2P Require Import Registry RegistrySpec AssocSpec Program Launch Config.

(** ** The environment

    [spdk_env_init] with the options that [main] sets: the state of the machine when it
    succeeds. *)
Record env_opts := EnvOpts {
  mem_size : Z; hugepage_single_segments : bool; opts_core_mask : string; opts_shm_id : Z }.

Class SpdkEnv (W : Type) := env_init : env_opts → option W.

(** The cores of the mask are distinct, [main] runs on one of them, and no command has
    been submitted. *)
Class SpdkEnvLaws (W T : Type) `{Countable T} `{!SpdkView W T} `{!SpdkAdmin W} `{!SpdkEnv W}
    : Prop := {
  env_init_idle o w : env_init o = Some w → inflight (view w) = ∅;
  env_init_cores o w : env_init o = Some w → NoDup (env_cores w);
  env_init_current o w : env_init o = Some w → current_core (W := W) ∈ env_cores w;
}.

Definition env_opts_of (c : config) : env_opts :=
  EnvOpts (g_dpdk_mem c) (g_dpdk_mem_single_seg c) (core_mask (g_arb c)) (shm_id (g_arb c)).

(** ** The functions of a program

    [R] is what it prints for a context at the end. *)
Section groups.
Context {W : Type} (X R : Type).

Record registration := Registration {
  r_register_ns : Z → Z → M (prog W X) ();
  r_enable_latency_tracking_complete : cpl → M (prog W X) ();
  r_set_latency_tracking_feature : nat → Z → bool → M (prog W X) ();
  r_register_ctrlr : nat → option Z → M (prog W X) ();
}.

Record io_path := IoPath {
  i_io_complete : Z → cpl → M (prog W X) ();
  i_check_io : Z → M (prog W X) ();
  i_submit_io : Z → Z → M (prog W X) ();
  i_drain_io : nat → Z → M (prog W X) ();
}.

Record clean_up := CleanUp {
  k_cleanup_ns_worker_ctx : Z → M (prog W X) ();
  k_cleanup : bool → Z → M (prog W X) bool;
}.

Record statistics := Statistics {
  t_print_qprio : Z → string;
  t_print_configuration : (Z → string) → arb_context → list string;
  t_print_performance : M (prog W X) (list R);
  t_print_latency_page : latency_page → list (string * Z * Z * Z);
  t_print_latency_statistics :
    nat → Z → M (prog W X) (list (Z * list (string * Z * Z * Z)));
  t_print_stats : nat → M (prog W X) (list R);
}.

Record controllers := Controllers {
  c_register_controllers : nat → M (prog W X) Z;
  c_unregister_controllers : nat → M (prog W X) ();
}.

Record features := Features {
  f_get_feature_completion : cpl → M (prog W X) ();
  f_get_feature : Z → Z → M (prog W X) Z;
  f_get_arb_feature : nat → Z → M (prog W X) ();
  f_set_feature_completion : cpl → M (prog W X) ();
  f_set_arb_feature : nat → Z → M (prog W X) Z;
  f_zstore_cleanup : nat → bool → Z → M (prog W X) bool;
}.

(** [p_parse_args] takes SPDK's conversions. *)
Record program := Program {
  p_globals : arb_context;
  p_parse_args : (string → Z) → (string → transport_id → option transport_id) →
    (string → Z) → list string → M config Z;
  p_registration : registration;
  p_clean_up : clean_up;
  p_statistics : statistics;
  p_register_workers : M (prog W X) Z;
  p_controllers : controllers;
  p_associate : M (prog W X) Z;
  p_features : features;
}.
End groups.
Arguments Registration {W X} _ _ _ _.
Arguments IoPath {W X} _ _ _ _.
Arguments CleanUp {W X} _ _.
Arguments Statistics {W X R} _ _ _ _ _ _.
Arguments t_print_stats {W X R} _.
Arguments Controllers {W X} _ _.
Arguments c_register_controllers {W X} _.
Arguments Features {W X} _ _ _ _ _ _.
Arguments f_zstore_cleanup {W X} _.
Arguments Program {W X R} _ _ _ _ _ _ _ _ _.
Arguments p_globals {W X R} _.
Arguments p_parse_args {W X R} _.
Arguments p_statistics {W X R} _.
Arguments p_register_workers {W X R} _.
Arguments p_controllers {W X R} _.
Arguments p_associate {W X R} _.
Arguments p_features {W X R} _.

(** ** [main] of a program *)
Section main.
Context {W X R : Type} `{!Spdk W Z} `{!SpdkAdmin W} `{!SpdkEnv W}.
Context (P : program (W := W) X R).
Implicit Types (s : prog W X).

(** From the environment to the launch: [inl rc] when [main] returns [rc] after it has
    cleaned up, [inr tc] when the workers start with a pool of [tc] tasks. *)
Definition main_of (fuel : nat) : M (prog W X) (Z + Z) :=
  let bail_out tc := _ ← f_zstore_cleanup (p_features P) fuel false tc; mret (inl 1) in
  s ← get;
  g_upd (set_tsc_rate (get_ticks_hz (env s)));;
  rc ← p_register_workers P;
  if decide (rc ≠ 0) then bail_out 0 else
  rc ← c_register_controllers (p_controllers P) fuel;
  if decide (rc ≠ 0) then bail_out 0 else
  rc ← p_associate P;
  if decide (rc ≠ 0) then bail_out 0 else
  s ← get;
  let tc := task_count (g_arbitration s) in
  ok ← call (pool_create tc);
  if ok : bool then mret (inr tc) else bail_out tc.

(** After the last worker. *)
Definition end_of (fuel : nat) (task_count : Z) : M (prog W X) (list R * bool) :=
  rows ← t_print_stats (p_statistics P) fuel;
  ok ← f_zstore_cleanup (p_features P) fuel true task_count;
  mret (rows, ok).

(** The program when [spdk_env_init] has given it the machine [w]. *)
Definition booted (c : config) (w : W) : prog W X :=
  Prog w ∅ ∅ ∅ ∅ ∅ [] [] [] (Feature 0 false) (g_arb c) 1.

Context (spdk_strtol : string → Z).
Context (transport_id_parse : string → transport_id → option transport_id).
Context (log_set_flag : string → Z).

Definition parsed (argv : list string) : outcome config Z :=
  p_parse_args P spdk_strtol transport_id_parse log_set_flag argv (config0 (p_globals P)).

(** A run from the command line: the exit status and the rows it prints. *)
Inductive program_run (v : variant X) (fuel : nat) (argv : list string)
    : Z → list R → Prop :=
  | run_usage rc c : parsed argv = Done rc c → rc ≠ 0 → program_run v fuel argv rc []
  | run_bad_flag rc c : parsed argv = Exited rc c → program_run v fuel argv rc []
  | run_no_env c : parsed argv = Done 0 c → env_init (env_opts_of c) = None →
      program_run v fuel argv 1 []
  | run_gives_up c w rc s : parsed argv = Done 0 c → env_init (env_opts_of c) = Some w →
      main_of fuel (booted c w) = Done (inl rc) s → program_run v fuel argv rc []
  | run_finishes c w tc s1 i m o pr rc s2 ws rows ok s3 :
      parsed argv = Done 0 c → env_init (env_opts_of c) = Some w →
      main_of fuel (booted c w) = Done (inr tc) s1 →
      launch_workers s1 = Done m s1 →
      rtc (step v) (s1, launched s1) (s2, ws) → finished ws →
      g_workers s1 !! i = Some m → ws !! i = Some (WorkerState o pr (Returned rc)) →
      end_of fuel tc s2 = Done (rows, ok) s3 →
      program_run v fuel argv rc rows.
End main.

(** ** The programs *)
Section programs.
Context {W : Type} `{!Spdk W Z} `{!SpdkAdmin W} `{!Image}.

Local Abbreviation registration := (registration (W := W)).
Local Abbreviation io_path := (io_path (W := W)).
Local Abbreviation clean_up := (clean_up (W := W)).
Local Abbreviation statistics := (statistics (W := W)).
Local Abbreviation controllers := (controllers (W := W)).
Local Abbreviation features := (features (W := W)).
Local Abbreviation program := (program (W := W)).

Definition program_arbitration : program () (Z * Z) :=
  Program g_arbitration_init parse_args
    (Registration register_ns enable_latency_tracking_complete set_latency_tracking_feature
      register_ctrlr)
    (CleanUp cleanup_ns_worker_ctx cleanup)
    (Statistics print_qprio print_configuration print_performance print_latency_page
      print_latency_statistics print_stats)
    register_workers
    (Controllers (λ fuel, register_controllers (dev_init fuel)) unregister_controllers)
    (associate_workers_with_ns () 2)
    (Features get_feature_completion get_feature get_arb_feature set_feature_completion
      set_arb_feature zstore_cleanup).

Definition associate_rdma : M (prog W ()) Z := associate_workers_with_ns () 2.

(** What [verification.cc] prints for a context: the core, the completed I/Os, the writes
    and reads, the verifications that passed and failed, and whether it warns. *)
Record verify_row := VerifyRow {
  vr_lcore : Z; vr_completed : Z; vr_writes : Z; vr_reads : Z;
  vr_passed : Z; vr_failed : Z; vr_warning : bool }.

Definition print_performance_verify : M (prog W vextra) (list verify_row) :=
  s ← get;
  collect (g_workers s) (λ w,
    wt ← worker_at w;
    collect (w_ns_ctx wt) (λ p,
      c ← ctx_at p;
      _ ← entry_at (entry c);
      let x := extra c in
      mret [VerifyRow (lcore wt) (io_completed c) (write_completed x) (read_completed x)
        (verification_passed x) (verification_failed x)
        (bool_decide (verification_failed x > 0))])).

Definition print_stats_verify (fuel : nat) : M (prog W vextra) (list verify_row) :=
  rows ← print_performance_verify;
  print_latencies fuel;;
  mret rows.

(** *** [arbitration/arbitration_append.cc] *)
Definition registration_append : registration stamps :=
  Registration register_ns enable_latency_tracking_complete set_latency_tracking_feature
    register_ctrlr.
Definition io_path_append : io_path stamps :=
  IoPath (io_complete v_arbitration_append) (check_io v_arbitration_append) (submit_io v_arbitration_append) (drain_io v_arbitration_append).
Definition clean_up_append : clean_up stamps := CleanUp cleanup_ns_worker_ctx cleanup.
Definition statistics_append : statistics stamps (Z * Z) :=
  Statistics print_qprio print_configuration print_performance print_latency_page
    print_latency_statistics print_stats.
Definition register_workers_append : M (prog W stamps) Z := register_workers.
Definition controllers_append : controllers stamps :=
  Controllers (λ fuel, register_controllers (dev_init fuel)) unregister_controllers.
Definition features_append : features stamps :=
  Features get_feature_completion get_feature get_arb_feature set_feature_completion
    set_arb_feature zstore_cleanup.
Definition program_append : program stamps (Z * Z) :=
  Program g_arbitration_append parse_args_append registration_append clean_up_append statistics_append
    register_workers_append controllers_append associate_append features_append.

(** *** [arbitration/arbitration_rdma.cc] *)
Definition registration_rdma : registration () :=
  Registration register_ns enable_latency_tracking_complete set_latency_tracking_feature
    register_ctrlr.
Definition io_path_rdma : io_path () :=
  IoPath (io_complete v_arbitration_rdma) (check_io v_arbitration_rdma) (submit_io v_arbitration_rdma) (drain_io v_arbitration_rdma).
Definition clean_up_rdma : clean_up () := CleanUp cleanup_ns_worker_ctx cleanup.
Definition statistics_rdma : statistics () (Z * Z) :=
  Statistics print_qprio print_configuration print_performance print_latency_page
    print_latency_statistics print_stats.
Definition register_workers_rdma : M (prog W ()) Z := register_workers.
Definition controllers_rdma : controllers () :=
  Controllers (λ fuel, register_controllers (dev_init_rdma fuel)) unregister_controllers.
Definition features_rdma : features () :=
  Features get_feature_completion get_feature get_arb_feature set_feature_completion
    set_arb_feature zstore_cleanup.
Definition program_rdma : program () (Z * Z) :=
  Program g_arbitration_rdma parse_args_rdma registration_rdma clean_up_rdma statistics_rdma
    register_workers_rdma controllers_rdma associate_rdma features_rdma.

(** *** [arbitration/arbitration_rdma_append.cc] *)
Definition registration_rdma_append : registration stamps :=
  Registration register_ns enable_latency_tracking_complete set_latency_tracking_feature
    register_ctrlr.
Definition io_path_rdma_append : io_path stamps :=
  IoPath (io_complete v_arbitration_rdma_append) (check_io v_arbitration_rdma_append) (submit_io v_arbitration_rdma_append) (drain_io v_arbitration_rdma_append).
Definition clean_up_rdma_append : clean_up stamps := CleanUp cleanup_ns_worker_ctx cleanup.
Definition statistics_rdma_append : statistics stamps (Z * Z) :=
  Statistics print_qprio print_configuration print_performance print_latency_page
    print_latency_statistics print_stats.
Definition register_workers_rdma_append : M (prog W stamps) Z := register_workers.
Definition controllers_rdma_append : controllers stamps :=
  Controllers (λ fuel, register_controllers (dev_init_rdma_append fuel)) unregister_controllers.
Definition features_rdma_append : features stamps :=
  Features get_feature_completion get_feature get_arb_feature set_feature_completion
    set_arb_feature zstore_cleanup.
Definition program_rdma_append : program stamps (Z * Z) :=
  Program g_arbitration_rdma_append parse_args_rdma_append registration_rdma_append clean_up_rdma_append statistics_rdma_append
    register_workers_rdma_append controllers_rdma_append associate_rdma_append features_rdma_append.

(** *** [arbitration/arbitration_rdma_read.cc] *)
Definition registration_rdma_read : registration stamps :=
  Registration register_ns enable_latency_tracking_complete set_latency_tracking_feature
    register_ctrlr.
Definition io_path_rdma_read : io_path stamps :=
  IoPath (io_complete v_arbitration_rdma_read) (check_io v_arbitration_rdma_read) (submit_io v_arbitration_rdma_read) (drain_io v_arbitration_rdma_read).
Definition clean_up_rdma_read : clean_up stamps := CleanUp cleanup_ns_worker_ctx cleanup.
Definition statistics_rdma_read : statistics stamps (Z * Z) :=
  Statistics print_qprio print_configuration print_performance print_latency_page
    print_latency_statistics print_stats.
Definition register_workers_rdma_read : M (prog W stamps) Z := register_workers.
Definition controllers_rdma_read : controllers stamps :=
  Controllers (λ fuel, register_controllers (dev_init_rdma_read fuel)) unregister_controllers.
Definition features_rdma_read : features stamps :=
  Features get_feature_completion get_feature get_arb_feature set_feature_completion
    set_arb_feature zstore_cleanup.
Definition program_rdma_read : program stamps (Z * Z) :=
  Program g_arbitration_rdma_read parse_args_rdma_read registration_rdma_read clean_up_rdma_read statistics_rdma_read
    register_workers_rdma_read controllers_rdma_read associate_rdma_read features_rdma_read.

(** *** [arbitration/arbitration_read.cc] *)
Definition registration_read : registration stamps :=
  Registration register_ns enable_latency_tracking_complete set_latency_tracking_feature
    register_ctrlr.
Definition io_path_read : io_path stamps :=
  IoPath (io_complete v_arbitration_read) (check_io v_arbitration_read) (submit_io v_arbitration_read) (drain_io v_arbitration_read).
Definition clean_up_read : clean_up stamps := CleanUp cleanup_ns_worker_ctx cleanup.
Definition statistics_read : statistics stamps (Z * Z) :=
  Statistics print_qprio print_configuration print_performance print_latency_page
    print_latency_statistics print_stats.
Definition register_workers_read : M (prog W stamps) Z := register_workers.
Definition controllers_read : controllers stamps :=
  Controllers (λ fuel, register_controllers (dev_init fuel)) unregister_controllers.
Definition features_read : features stamps :=
  Features get_feature_completion get_feature get_arb_feature set_feature_completion
    set_arb_feature zstore_cleanup.
Definition program_read : program stamps (Z * Z) :=
  Program g_arbitration_read parse_args_read registration_read clean_up_read statistics_read
    register_workers_read controllers_read associate_read features_read.

(** *** [arbitration/arbitration_write.cc] *)
Definition registration_write : registration Z :=
  Registration register_ns enable_latency_tracking_complete set_latency_tracking_feature
    register_ctrlr.
Definition io_path_write : io_path Z :=
  IoPath (io_complete v_arbitration_write) (check_io v_arbitration_write) (submit_io v_arbitration_write) (drain_io v_arbitration_write).
Definition clean_up_write : clean_up Z := CleanUp cleanup_ns_worker_ctx cleanup.
Definition statistics_write : statistics Z (Z * Z) :=
  Statistics print_qprio print_configuration print_performance print_latency_page
    print_latency_statistics print_stats.
Definition register_workers_write : M (prog W Z) Z := register_workers.
Definition controllers_write : controllers Z :=
  Controllers (λ fuel, register_controllers (dev_init fuel)) unregister_controllers.
Definition features_write : features Z :=
  Features get_feature_completion get_feature get_arb_feature set_feature_completion
    set_arb_feature zstore_cleanup.
Definition program_write : program Z (Z * Z) :=
  Program g_arbitration_write parse_args_write registration_write clean_up_write statistics_write
    register_workers_write controllers_write associate_write features_write.

(** *** [multipath/mp_one_drive_append.cc] *)
Definition registration_one_append : registration Z :=
  Registration register_ns enable_latency_tracking_complete set_latency_tracking_feature
    register_ctrlr.
Definition io_path_one_append : io_path Z :=
  IoPath (io_complete v_mp_one_drive_append) (check_io v_mp_one_drive_append) (submit_io v_mp_one_drive_append) (drain_io v_mp_one_drive_append).
Definition clean_up_one_append : clean_up Z := CleanUp cleanup_ns_worker_ctx cleanup.
Definition statistics_one_append : statistics Z (Z * Z) :=
  Statistics print_qprio print_configuration print_performance print_latency_page
    print_latency_statistics print_stats.
Definition register_workers_one_append : M (prog W Z) Z := register_workers.
Definition controllers_one_append : controllers Z :=
  Controllers (λ fuel, register_controllers (dev_init_one_append fuel)) unregister_controllers.
Definition features_one_append : features Z :=
  Features get_feature_completion get_feature get_arb_feature set_feature_completion
    set_arb_feature zstore_cleanup.
Definition program_one_append : program Z (Z * Z) :=
  Program g_arbitration_one_append parse_args_one_append registration_one_append clean_up_one_append statistics_one_append
    register_workers_one_append controllers_one_append associate_one_append features_one_append.

(** *** [multipath/mp_one_drive_read.cc] *)
Definition registration_one_read : registration Z :=
  Registration register_ns enable_latency_tracking_complete set_latency_tracking_feature
    register_ctrlr.
Definition io_path_one_read : io_path Z :=
  IoPath (io_complete v_mp_one_drive_read) (check_io v_mp_one_drive_read) (submit_io v_mp_one_drive_read) (drain_io v_mp_one_drive_read).
Definition clean_up_one_read : clean_up Z := CleanUp cleanup_ns_worker_ctx cleanup.
Definition statistics_one_read : statistics Z (Z * Z) :=
  Statistics print_qprio print_configuration print_performance print_latency_page
    print_latency_statistics print_stats.
Definition register_workers_one_read : M (prog W Z) Z := register_workers.
Definition controllers_one_read : controllers Z :=
  Controllers (λ fuel, register_controllers (dev_init_one_read fuel)) unregister_controllers.
Definition features_one_read : features Z :=
  Features get_feature_completion get_feature get_arb_feature set_feature_completion
    set_arb_feature zstore_cleanup.
Definition program_one_read : program Z (Z * Z) :=
  Program g_arbitration_one_read parse_args_one_drive_read registration_one_read clean_up_one_read statistics_one_read
    register_workers_one_read controllers_one_read associate_one_read features_one_read.

(** *** [multipath/three_target_reads.cc] *)
Definition registration_three_reads : registration Z :=
  Registration register_ns enable_latency_tracking_complete set_latency_tracking_feature
    register_ctrlr.
Definition io_path_three_reads : io_path Z :=
  IoPath (io_complete v_three_target_reads) (check_io v_three_target_reads) (submit_io v_three_target_reads) (drain_io v_three_target_reads).
Definition clean_up_three_reads : clean_up Z := CleanUp cleanup_ns_worker_ctx cleanup.
Definition statistics_three_reads : statistics Z (Z * Z) :=
  Statistics print_qprio print_configuration print_performance print_latency_page
    print_latency_statistics print_stats.
Definition register_workers_three_reads : M (prog W Z) Z := register_workers.
Definition controllers_three_reads : controllers Z :=
  Controllers (λ fuel, register_controllers (dev_init_three_reads fuel)) unregister_controllers.
Definition features_three_reads : features Z :=
  Features get_feature_completion get_feature get_arb_feature set_feature_completion
    set_arb_feature zstore_cleanup.
Definition program_three_reads : program Z (Z * Z) :=
  Program g_arbitration_three_reads parse_args_three_reads registration_three_reads clean_up_three_reads statistics_three_reads
    register_workers_three_reads controllers_three_reads associate_three_reads features_three_reads.

(** *** [multipath/three_target_writes.cc] *)
Definition registration_three_writes : registration Z :=
  Registration register_ns enable_latency_tracking_complete set_latency_tracking_feature
    register_ctrlr.
Definition io_path_three_writes : io_path Z :=
  IoPath (io_complete v_three_target_writes) (check_io v_three_target_writes) (submit_io v_three_target_writes) (drain_io v_three_target_writes).
Definition clean_up_three_writes : clean_up Z := CleanUp cleanup_ns_worker_ctx cleanup.
Definition statistics_three_writes : statistics Z (Z * Z) :=
  Statistics print_qprio print_configuration print_performance print_latency_page
    print_latency_statistics print_stats.
Definition register_workers_three_writes : M (prog W Z) Z := register_workers.
Definition controllers_three_writes : controllers Z :=
  Controllers (λ fuel, register_controllers (dev_init_three_writes fuel)) unregister_controllers.
Definition features_three_writes : features Z :=
  Features get_feature_completion get_feature get_arb_feature set_feature_completion
    set_arb_feature zstore_cleanup.
Definition program_three_writes : program Z (Z * Z) :=
  Program g_arbitration_three_writes parse_args_three_writes registration_three_writes clean_up_three_writes statistics_three_writes
    register_workers_three_writes controllers_three_writes associate_three_writes features_three_writes.

(** *** [multipath/two_targets_read.cc] *)
Definition registration_two_reads : registration Z :=
  Registration register_ns enable_latency_tracking_complete set_latency_tracking_feature
    register_ctrlr.
Definition io_path_two_reads : io_path Z :=
  IoPath (io_complete v_two_targets_read) (check_io v_two_targets_read) (submit_io v_two_targets_read) (drain_io v_two_targets_read).
Definition clean_up_two_reads : clean_up Z := CleanUp cleanup_ns_worker_ctx cleanup.
Definition statistics_two_reads : statistics Z (Z * Z) :=
  Statistics print_qprio print_configuration print_performance print_latency_page
    print_latency_statistics print_stats.
Definition register_workers_two_reads : M (prog W Z) Z := register_workers.
Definition controllers_two_reads : controllers Z :=
  Controllers (λ fuel, register_controllers (dev_init_two_reads fuel)) unregister_controllers.
Definition features_two_reads : features Z :=
  Features get_feature_completion get_feature get_arb_feature set_feature_completion
    set_arb_feature zstore_cleanup.
Definition program_two_reads : program Z (Z * Z) :=
  Program g_arbitration_two_reads parse_args_two_reads registration_two_reads clean_up_two_reads statistics_two_reads
    register_workers_two_reads controllers_two_reads associate_two_reads features_two_reads.

(** *** [multipath/verification.cc] *)
Definition registration_verify : registration vextra :=
  Registration register_ns enable_latency_tracking_complete set_latency_tracking_feature
    register_ctrlr.
Definition clean_up_verify : clean_up vextra := CleanUp cleanup_ns_worker_ctx cleanup.
Definition statistics_verify : statistics vextra verify_row :=
  Statistics print_qprio print_configuration print_performance_verify print_latency_page
    print_latency_statistics print_stats_verify.
Definition register_workers_verify : M (prog W vextra) Z := register_workers.
Definition controllers_verify : controllers vextra :=
  Controllers (λ fuel, register_controllers (dev_init_verify fuel)) unregister_controllers.
Definition features_verify : features vextra :=
  Features get_feature_completion get_feature get_arb_feature set_feature_completion
    set_arb_feature zstore_cleanup.
Definition program_verify : program vextra verify_row :=
  Program g_arbitration_verification parse_args_verify registration_verify clean_up_verify statistics_verify
    register_workers_verify controllers_verify associate_verify features_verify.
End programs.
