(* ===== verification/FamilyProps.v ===== *)
(** * Every program of the family runs to its end

    The counterpart of [ProgramProps.program_ends] for all programs of the family, from
    the command line on. *)
From S2P Require Import Prelude Spdk Arb Verify Engine EngineInv EngineSpec Variants Workers.
From S2P Require Import EngineProps Registry RegistrySpec AssocSpec RegistryProps.
From S2P Require Import Program ProgramProps Launch Config ConfigProps Family.



Section launches.
Context {W : Type} `{!Spdk W Z} `{!SpdkView W Z} `{!SpdkLaws W Z}.
Context `{!SpdkAdmin W} `{!SpdkAdminView W} `{!SpdkAdminLaws W Z} `{!Image}.









(** ** From the command line *)
Context `{!SpdkEnv W} `{!SpdkEnvLaws W Z}.
Context (spdk_strtol : string → Z).
Context (transport_id_parse : string → transport_id → option transport_id).
Context (log_set_flag : string → Z).
Context (strtol_errno : ∀ a, spdk_strtol a < 0 → - 2 ^ 31 ≤ spdk_strtol a).




















End launches.

(** ** A simulated environment: two cores, unless the mask is empty *)
Definition sim_boot : sim false Z := Sim (View ∅ ∅ ∅ ∅) 1 [] [] 0 (SimAdmin [] [] [0; 1] [1] None).

#[export] Instance sim_env : SpdkEnv (sim false Z) :=
  λ o, if String.eqb (opts_core_mask o) "" then None else Some sim_boot.

#[export] Instance sim_env_laws : SpdkEnvLaws (sim false Z) Z.
Proof.
  split; intros o w; unfold env_init, sim_env; destruct (String.eqb _ _); try done;
    intros [= <-]; [done|..]; apply (bool_decide_unpack _); vm_compute; exact I.
Qed.

Section padded.
#[local] Existing Instance padded_image.

End padded.
