(* ===== verification/Nvmf.v ===== *)
(** * The NVMe-oF target application

    [nvmf.cc]: the life of the target from the initialisation of the bdev layer
    to the end of the reactors, as the callbacks and messages that drive
    [nvmf_target_advance_state].  Functions that run later, because they were
    sent to a thread or because an accepted call of SPDK will call them back,
    are queued as events with the thread on which they run. *)
From S2P Require Import Prelude.

Inductive nvmf_target_state :=
  | NVMF_INIT_SUBSYSTEM
  | NVMF_INIT_TARGET
  | NVMF_INIT_POLL_GROUPS
  | NVMF_INIT_START_SUBSYSTEMS
  | NVMF_RUNNING
  | NVMF_FINI_STOP_SUBSYSTEMS
  | NVMF_FINI_POLL_GROUPS
  | NVMF_FINI_TARGET
  | NVMF_FINI_SUBSYSTEM.

#[export] Instance nvmf_target_state_eq_dec : EqDecision nvmf_target_state.
Proof. solve_decision. Defined.

(** The values of the enumeration, which the code compares. *)
Definition state_num (st : nvmf_target_state) : Z :=
  match st with
  | NVMF_INIT_SUBSYSTEM => 0
  | NVMF_INIT_TARGET => 1
  | NVMF_INIT_POLL_GROUPS => 2
  | NVMF_INIT_START_SUBSYSTEMS => 3
  | NVMF_RUNNING => 4
  | NVMF_FINI_STOP_SUBSYSTEMS => 5
  | NVMF_FINI_POLL_GROUPS => 6
  | NVMF_FINI_TARGET => 7
  | NVMF_FINI_SUBSYSTEM => 8
  end.

Record nvmf_target_poll_group := PollGroup { group : Z; thread : Z }.

(** What runs later: messages and callbacks. *)
Inductive event :=
  | AppStart
  | InitDone
  | CreatePollGroup
  | CreatePollGroupDone (pg : Z)
  | StartNext (subsystem : Z)
  | StopNext (subsystem : Z)
  | DestroyPollGroup (pg : Z)
  | PollGroupDestroyed (pg : Z)
  | DestroyPollGroupsDone
  | TgtDestroyed
  | FiniDone
  | Shutdown
  | Migrate.

Record nvmf (W : Type) := Nvmf {
  lib : W;
  core_ids : list Z;
  g_target_state : nvmf_target_state;
  g_intr_received : bool;
  g_num_poll_groups : Z;
  g_poll_groups : list Z;
  poll_groups : gmap Z nvmf_target_poll_group;
  g_next_pg : option Z;
  g_migrate_pg_period_us : Z;
  g_migrate_pg_poller : option Z;
  tgt : option Z;
  max_subsystems : Z;
  g_init_thread : Z;
  g_fini_thread : option Z;
  g_reactors_exit : bool;
  events : list (Z * event);
}.
Arguments Nvmf {W} _ _ _ _ _ _ _ _ _ _ _ _ _ _ _ _.
Arguments lib {W} _.
Arguments core_ids {W} _.
Arguments g_target_state {W} _.
Arguments g_intr_received {W} _.
Arguments g_num_poll_groups {W} _.
Arguments g_poll_groups {W} _.
Arguments poll_groups {W} _.
Arguments g_next_pg {W} _.
Arguments g_migrate_pg_period_us {W} _.
Arguments g_migrate_pg_poller {W} _.
Arguments tgt {W} _.
Arguments max_subsystems {W} _.
Arguments g_init_thread {W} _.
Arguments g_fini_thread {W} _.
Arguments g_reactors_exit {W} _.
Arguments events {W} _.

(** Updates of one field. *)
Section updates.
Context {W : Type}.
Implicit Types (s : nvmf W).
Definition set_lib (x : W) s : nvmf W :=
  Nvmf x (core_ids s) (g_target_state s) (g_intr_received s) (g_num_poll_groups s)
    (g_poll_groups s) (poll_groups s) (g_next_pg s) (g_migrate_pg_period_us s)
    (g_migrate_pg_poller s) (tgt s) (max_subsystems s) (g_init_thread s) (g_fini_thread s)
    (g_reactors_exit s) (events s).
Definition set_state (x : nvmf_target_state) s : nvmf W :=
  Nvmf (lib s) (core_ids s) x (g_intr_received s) (g_num_poll_groups s) (g_poll_groups s)
    (poll_groups s) (g_next_pg s) (g_migrate_pg_period_us s) (g_migrate_pg_poller s) (tgt s)
    (max_subsystems s) (g_init_thread s) (g_fini_thread s) (g_reactors_exit s) (events s).
Definition set_intr (x : bool) s : nvmf W :=
  Nvmf (lib s) (core_ids s) (g_target_state s) x (g_num_poll_groups s) (g_poll_groups s)
    (poll_groups s) (g_next_pg s) (g_migrate_pg_period_us s) (g_migrate_pg_poller s) (tgt s)
    (max_subsystems s) (g_init_thread s) (g_fini_thread s) (g_reactors_exit s) (events s).
Definition set_num (x : Z) s : nvmf W :=
  Nvmf (lib s) (core_ids s) (g_target_state s) (g_intr_received s) x (g_poll_groups s)
    (poll_groups s) (g_next_pg s) (g_migrate_pg_period_us s) (g_migrate_pg_poller s) (tgt s)
    (max_subsystems s) (g_init_thread s) (g_fini_thread s) (g_reactors_exit s) (events s).
Definition set_groups (x : list Z) s : nvmf W :=
  Nvmf (lib s) (core_ids s) (g_target_state s) (g_intr_received s) (g_num_poll_groups s) x
    (poll_groups s) (g_next_pg s) (g_migrate_pg_period_us s) (g_migrate_pg_poller s) (tgt s)
    (max_subsystems s) (g_init_thread s) (g_fini_thread s) (g_reactors_exit s) (events s).
Definition set_heap (x : gmap Z nvmf_target_poll_group) s : nvmf W :=
  Nvmf (lib s) (core_ids s) (g_target_state s) (g_intr_received s) (g_num_poll_groups s)
    (g_poll_groups s) x (g_next_pg s) (g_migrate_pg_period_us s) (g_migrate_pg_poller s)
    (tgt s) (max_subsystems s) (g_init_thread s) (g_fini_thread s) (g_reactors_exit s)
    (events s).
Definition set_next_pg (x : option Z) s : nvmf W :=
  Nvmf (lib s) (core_ids s) (g_target_state s) (g_intr_received s) (g_num_poll_groups s)
    (g_poll_groups s) (poll_groups s) x (g_migrate_pg_period_us s) (g_migrate_pg_poller s)
    (tgt s) (max_subsystems s) (g_init_thread s) (g_fini_thread s) (g_reactors_exit s)
    (events s).
Definition set_poller (x : option Z) s : nvmf W :=
  Nvmf (lib s) (core_ids s) (g_target_state s) (g_intr_received s) (g_num_poll_groups s)
    (g_poll_groups s) (poll_groups s) (g_next_pg s) (g_migrate_pg_period_us s) x (tgt s)
    (max_subsystems s) (g_init_thread s) (g_fini_thread s) (g_reactors_exit s) (events s).
Definition set_tgt (x : option Z) s : nvmf W :=
  Nvmf (lib s) (core_ids s) (g_target_state s) (g_intr_received s) (g_num_poll_groups s)
    (g_poll_groups s) (poll_groups s) (g_next_pg s) (g_migrate_pg_period_us s)
    (g_migrate_pg_poller s) x (max_subsystems s) (g_init_thread s) (g_fini_thread s)
    (g_reactors_exit s) (events s).
Definition set_fini_thread (x : option Z) s : nvmf W :=
  Nvmf (lib s) (core_ids s) (g_target_state s) (g_intr_received s) (g_num_poll_groups s)
    (g_poll_groups s) (poll_groups s) (g_next_pg s) (g_migrate_pg_period_us s)
    (g_migrate_pg_poller s) (tgt s) (max_subsystems s) (g_init_thread s) x (g_reactors_exit s)
    (events s).
Definition set_exit (x : bool) s : nvmf W :=
  Nvmf (lib s) (core_ids s) (g_target_state s) (g_intr_received s) (g_num_poll_groups s)
    (g_poll_groups s) (poll_groups s) (g_next_pg s) (g_migrate_pg_period_us s)
    (g_migrate_pg_poller s) (tgt s) (max_subsystems s) (g_init_thread s) (g_fini_thread s) x
    (events s).
Definition set_events (x : list (Z * event)) s : nvmf W :=
  Nvmf (lib s) (core_ids s) (g_target_state s) (g_intr_received s) (g_num_poll_groups s)
    (g_poll_groups s) (poll_groups s) (g_next_pg s) (g_migrate_pg_period_us s)
    (g_migrate_pg_poller s) (tgt s) (max_subsystems s) (g_init_thread s) (g_fini_thread s)
    (g_reactors_exit s) x.
End updates.

(** The libraries: SPDK's targets, subsystems, poll groups, threads and RPC,
    and [calloc] and [free] ([calloc] is told which poll groups are live).
    Calls that are accepted with 0 call back later. *)
Class NvmfLib (W : Type) := {
  tgt_create : Z → W → option Z * W;
  discovery_create : Z → W → option Z * W;
  subsystem_get_first : Z → W → option Z;
  subsystem_get_next : Z → W → option Z;
  subsystem_start : Z → W → Z * W;
  subsystem_stop : Z → W → Z * W;
  poll_group_create : Z → W → option Z * W;
  calloc_pg : gset Z → W → option Z * W;
  free_pg : Z → W → W;
  thread_create : Z → W → option Z * W;
  rpc_initialize : W → Z * W;
  app_stop : Z → W → W;
  poller_register : Z → W → option Z * W;
  current_core : Z → W → Z;
  thread_set_cpumask : Z → Z → W → W;
  thread_exit : Z → W → W;
  allow_any_host : Z → W → W;
  poller_unregister : option Z → W → W;
  rpc_set_runtime : W → W;
  rpc_finish : W → W;
}.

Section nvmf.
Context {W : Type} `{!NvmfLib W}.
(** Whether the program was compiled with its assertions. *)
Context (asserts : bool).
Implicit Types (s : nvmf W) (th : Z).

Definition lib_call {A} (f : W → A * W) : M (nvmf W) A := λ s,
  Done (f (lib s)).1 (set_lib (f (lib s)).2 s).
Definition lib_effect (f : W → W) : M (nvmf W) () := modify (λ s, set_lib (f (lib s)) s).

(** A failed assertion aborts the process: status 134 is SIGABRT. *)
Definition assert (b : bool) : M (nvmf W) () :=
  if asserts && negb b then exit 134 else skip.

(** [spdk_thread_send_msg], and a call that calls back on the same thread. *)
Definition send_msg th (e : event) : M (nvmf W) () :=
  modify (λ s, set_events (events s ++ [(th, e)]) s).
Definition call_back th (e : event) : M (nvmf W) () := send_msg th e.

Definition goto (st : nvmf_target_state) : M (nvmf W) () := modify (set_state st).

Definition nvmf_create_nvmf_tgt : M (nvmf W) () :=
  s ← get;
  t ← lib_call (tgt_create (max_subsystems s));
  modify (set_tgt t);;
  match t with
  | None => goto NVMF_FINI_TARGET
  | Some t =>
      subsystem ← lib_call (discovery_create t);
      match subsystem with
      | None => goto NVMF_FINI_TARGET
      | Some x => lib_effect (allow_any_host x);; goto NVMF_INIT_POLL_GROUPS
      end
  end.

Definition nvmf_destroy_nvmf_tgt th : M (nvmf W) () :=
  s ← get;
  match tgt s with
  | Some _ => call_back th TgtDestroyed
  | None => goto NVMF_FINI_SUBSYSTEM
  end.

Definition nvmf_poll_groups_create : M (nvmf W) () :=
  s ← get;
  foreach (core_ids s) (λ i,
    t ← lib_call (thread_create i);
    assert (bool_decide (is_Some t));;
    t ← of_option t;
    send_msg t CreatePollGroup).

Definition nvmf_tgt_create_poll_group th : M (nvmf W) () :=
  s ← get;
  pg ← lib_call (calloc_pg (dom (poll_groups s)));
  match pg with
  | None => assert false
  | Some pg =>
      s ← get;
      t ← of_option (tgt s);
      g ← lib_call (poll_group_create t);
      match g with
      | None => lib_effect (free_pg pg);; assert false
      | Some g =>
          modify (λ s, set_heap (<[pg := PollGroup g th]> (poll_groups s)) s);;
          s ← get;
          send_msg (g_init_thread s) (CreatePollGroupDone pg)
      end
  end.

Definition nvmf_poll_groups_destroy th : M (nvmf W) () :=
  modify (set_fini_thread (Some th));;
  s ← get;
  foreach (g_poll_groups s) (λ p,
    modify (λ s, set_groups (tail (g_poll_groups s)) s);;
    s ← get;
    pg ← of_option (poll_groups s !! p);
    send_msg (thread pg) (DestroyPollGroup p)).

Definition nvmf_tgt_destroy_poll_group th (p : Z) : M (nvmf W) () :=
  s ← get;
  _ ← of_option (poll_groups s !! p);
  call_back th (PollGroupDestroyed p).

Definition nvmf_tgt_destroy_poll_groups_done th (p : Z) : M (nvmf W) () :=
  modify (λ s, set_heap (delete p (poll_groups s)) s);;
  lib_effect (free_pg p);;
  s ← get;
  f ← of_option (g_fini_thread s);
  send_msg f DestroyPollGroupsDone;;
  lib_effect (thread_exit th).

Definition nvmf_tgt_start_subsystems th : M (nvmf W) () :=
  s ← get;
  t ← of_option (tgt s);
  match subsystem_get_first t (lib s) with
  | Some x =>
      rc ← lib_call (subsystem_start x);
      if decide (rc ≠ 0) then goto NVMF_FINI_STOP_SUBSYSTEMS
      else call_back th (StartNext x)
  | None => goto NVMF_RUNNING
  end.

(** [advance] stands for the call of [nvmf_target_advance_state]. *)
Fixpoint stop_next_with (advance : M (nvmf W) ()) (fuel : nat) th (subsystem : Z)
    : M (nvmf W) () :=
  match fuel with
  | O => λ _, Spin
  | S fuel' =>
      s ← get;
      match subsystem_get_next subsystem (lib s) with
      | Some x =>
          rc ← lib_call (subsystem_stop x);
          if decide (rc ≠ 0) then stop_next_with advance fuel' th x
          else call_back th (StopNext x)
      | None => goto NVMF_FINI_POLL_GROUPS;; advance
      end
  end.

Definition stop_subsystems_with (stop_next : Z → M (nvmf W) ()) th : M (nvmf W) () :=
  s ← get;
  t ← of_option (tgt s);
  match subsystem_get_first t (lib s) with
  | Some x =>
      rc ← lib_call (subsystem_stop x);
      if decide (rc ≠ 0) then stop_next x else call_back th (StopNext x)
  | None => goto NVMF_FINI_POLL_GROUPS
  end.

Definition register_migration : M (nvmf W) () :=
  s ← get;
  if decide (g_migrate_pg_period_us s ≠ 0) then
    p ← lib_call (poller_register (g_migrate_pg_period_us s));
    modify (set_poller p)
  else skip.

Definition unregister_migration : M (nvmf W) () :=
  s ← get;
  lib_effect (poller_unregister (g_migrate_pg_poller s));;
  modify (set_poller None).

(** The switch of [nvmf_target_advance_state]. *)
Definition state_op (advance : M (nvmf W) ()) (fuel : nat) th (st : nvmf_target_state)
    : M (nvmf W) () :=
  match st with
  | NVMF_INIT_SUBSYSTEM => call_back th InitDone
  | NVMF_INIT_TARGET => nvmf_create_nvmf_tgt
  | NVMF_INIT_POLL_GROUPS => nvmf_poll_groups_create
  | NVMF_INIT_START_SUBSYSTEMS => nvmf_tgt_start_subsystems th
  | NVMF_RUNNING => register_migration
  | NVMF_FINI_STOP_SUBSYSTEMS =>
      unregister_migration;; stop_subsystems_with (stop_next_with advance fuel th) th
  | NVMF_FINI_POLL_GROUPS => nvmf_poll_groups_destroy th
  | NVMF_FINI_TARGET => nvmf_destroy_nvmf_tgt th
  | NVMF_FINI_SUBSYSTEM => call_back th FiniDone
  end.

(** The first state returns, the others go round while the state changes. *)
Fixpoint nvmf_target_advance_state (fuel : nat) th : M (nvmf W) () :=
  match fuel with
  | O => λ _, Spin
  | S fuel' =>
      s ← get;
      let prev_state := g_target_state s in
      state_op (nvmf_target_advance_state fuel' th) fuel' th prev_state;;
      if decide (prev_state = NVMF_INIT_SUBSYSTEM) then skip else
      s ← get;
      if decide (g_target_state s = prev_state) then skip
      else nvmf_target_advance_state fuel' th
  end.

Definition nvmf_tgt_subsystem_stop_next (fuel : nat) th (subsystem : Z) : M (nvmf W) () :=
  stop_next_with (nvmf_target_advance_state fuel th) fuel th subsystem.

Definition nvmf_tgt_stop_subsystems (fuel : nat) th : M (nvmf W) () :=
  stop_subsystems_with (nvmf_tgt_subsystem_stop_next fuel th) th.

Definition nvmf_tgt_subsystem_start_next (fuel : nat) th (subsystem : Z) : M (nvmf W) () :=
  s ← get;
  match subsystem_get_next subsystem (lib s) with
  | Some x =>
      rc ← lib_call (subsystem_start x);
      if decide (rc ≠ 0) then
        goto NVMF_FINI_STOP_SUBSYSTEMS;; nvmf_target_advance_state fuel th
      else call_back th (StartNext x)
  | None => goto NVMF_RUNNING;; nvmf_target_advance_state fuel th
  end.

Definition nvmf_tgt_create_poll_groups_done (fuel : nat) th (pg : Z) : M (nvmf W) () :=
  modify (λ s, set_next_pg (match g_next_pg s with None => Some pg | q => q end) s);;
  modify (λ s, set_groups (g_poll_groups s ++ [pg]) s);;
  s ← get;
  assert (bool_decide (g_num_poll_groups s < Z.of_nat (length (core_ids s))));;
  modify (λ s, set_num (u32 (g_num_poll_groups s + 1)) s);;
  s ← get;
  if decide (g_num_poll_groups s = Z.of_nat (length (core_ids s))) then
    goto NVMF_INIT_START_SUBSYSTEMS;; nvmf_target_advance_state fuel th
  else skip.

Definition destroy_poll_groups_done (fuel : nat) th : M (nvmf W) () :=
  s ← get;
  assert (bool_decide (g_num_poll_groups s > 0));;
  modify (λ s, set_num (u32 (g_num_poll_groups s - 1)) s);;
  s ← get;
  if decide (g_num_poll_groups s = 0) then
    goto NVMF_FINI_TARGET;; nvmf_target_advance_state fuel th
  else skip.

Definition nvmf_tgt_destroy_done (fuel : nat) th : M (nvmf W) () :=
  goto NVMF_FINI_SUBSYSTEM;; nvmf_target_advance_state fuel th.

Definition nvmf_subsystem_fini_done : M (nvmf W) () :=
  lib_effect rpc_finish;; modify (set_exit true).

(** The status that the callback is given is overwritten. *)
Definition nvmf_subsystem_init_done (fuel : nat) th (rc : Z) : M (nvmf W) () :=
  rc ← lib_call rpc_initialize;
  if decide (rc ≠ 0) then lib_effect (app_stop rc)
  else lib_effect rpc_set_runtime;;
    goto NVMF_INIT_TARGET;; nvmf_target_advance_state fuel th.

Definition nvmf_target_app_start (fuel : nat) th : M (nvmf W) () :=
  goto NVMF_INIT_SUBSYSTEM;; nvmf_target_advance_state fuel th.

(** [_nvmf_shutdown_cb], and the signal handler that sends it. *)
Definition shutdown_cb (fuel : nat) th : M (nvmf W) () :=
  s ← get;
  if decide (state_num (g_target_state s) < state_num NVMF_RUNNING) then send_msg th Shutdown
  else if decide (state_num (g_target_state s) > state_num NVMF_RUNNING) then skip
  else goto NVMF_FINI_STOP_SUBSYSTEMS;; nvmf_target_advance_state fuel th.

Definition nvmf_shutdown_cb : M (nvmf W) () :=
  s ← get;
  if g_intr_received s then skip
  else modify (set_intr true);; send_msg (g_init_thread s) Shutdown.

(** The core after [c]; the first one after the last. *)
Fixpoint core_after (c first : Z) (cores : list Z) : Z :=
  match cores with
  | [] => first
  | c1 :: cores' =>
      if decide (c1 = c) then match cores' with c2 :: _ => c2 | [] => first end
      else core_after c first cores'
  end.

Definition migrate_poll_group_by_rr th : M (nvmf W) () :=
  s ← get;
  let next := core_after (current_core th (lib s)) (default 0 (head (core_ids s))) (core_ids s) in
  lib_effect (thread_set_cpumask th next).

Definition migrate_poll_groups_by_rr : M (nvmf W) () :=
  s ← get;
  foreach (g_poll_groups s) (λ p,
    s ← get;
    pg ← of_option (poll_groups s !! p);
    send_msg (thread pg) Migrate).

(** One event on its thread; [status] is what a callback is given. *)
Definition handle (fuel : nat) th (status : Z) (e : event) : M (nvmf W) () :=
  match e with
  | AppStart => nvmf_target_app_start fuel th
  | InitDone => nvmf_subsystem_init_done fuel th status
  | CreatePollGroup => nvmf_tgt_create_poll_group th
  | CreatePollGroupDone pg => nvmf_tgt_create_poll_groups_done fuel th pg
  | StartNext x => nvmf_tgt_subsystem_start_next fuel th x
  | StopNext x => nvmf_tgt_subsystem_stop_next fuel th x
  | DestroyPollGroup pg => nvmf_tgt_destroy_poll_group th pg
  | PollGroupDestroyed pg => nvmf_tgt_destroy_poll_groups_done th pg
  | DestroyPollGroupsDone => destroy_poll_groups_done fuel th
  | TgtDestroyed => nvmf_tgt_destroy_done fuel th
  | FiniDone => nvmf_subsystem_fini_done
  | Shutdown => shutdown_cb fuel th
  | Migrate => migrate_poll_group_by_rr th
  end.

(** One queued event is taken and handled to its end. *)
Definition runs s s' : Prop := ∃ pre th e post status fuel,
  events s = pre ++ (th, e) :: post ∧
  ∀ k, (fuel ≤ k)%nat → handle k th status e (set_events (pre ++ post) s) = Done tt s'.

(** Any queued event, the poller, a signal, or a change inside the libraries may
    come next. *)
Inductive step : nvmf W → nvmf W → Prop :=
  | step_event s s' : runs s s' → step s s'
  | step_poller s s' p :
      g_migrate_pg_poller s = Some p → migrate_poll_groups_by_rr s = Done tt s' → step s s'
  | step_signal s s' : nvmf_shutdown_cb s = Done tt s' → step s s'
  | step_lib s w : step s (set_lib w s).

(** What [main] leaves to the first reactor. *)
Definition nvmf_boot (w : W) (cores : list Z) (period max_subs init : Z) : nvmf W :=
  Nvmf w cores NVMF_INIT_SUBSYSTEM false 0 [] ∅ None period None None max_subs init None false
    [(init, AppStart)].
End nvmf.
