(* ===== verification/NvmfSpec.v ===== *)
(** * The life of the NVMe-oF target

    The invariant of [Nvmf]: in every state of the target exactly the
    messages and callbacks of that state are outstanding, the poll groups that
    they mention are alive, and the number of poll groups is right. *)
From S2P Require Import Prelude Nvmf.

(** ** Laws of the libraries *)
Class NvmfLaws (W : Type) `{!NvmfLib W} := {
  rank : W → Z → nat;
  next_rank x y w : subsystem_get_next x w = Some y → (rank w y < rank w x)%nat;
  start_rank x y w : rank (subsystem_start x w).2 y = rank w y;
  stop_rank x y w : rank (subsystem_stop x w).2 y = rank w y;
  calloc_fresh L p (w : W) : (calloc_pg L w).1 = Some p → p ∉ L;
}.

(** A machine with memory, on which threads and poll groups can be made and the
    RPC server starts. *)
Record healthy (W : Type) `{!NvmfLib W} : Prop := {
  he_calloc L (w : W) : is_Some (calloc_pg L w).1;
  he_group t (w : W) : is_Some (poll_group_create t w).1;
  he_thread i (w : W) : is_Some (thread_create i w).1;
  he_rpc (w : W) : (rpc_initialize w).1 = 0;
}.

(** Messages that may be outstanding in any state. *)
Definition ambient (e : event) : bool :=
  match e with Shutdown | Migrate => true | _ => false end.

Definition pg_of (e : event) : option Z :=
  match e with
  | CreatePollGroupDone p | DestroyPollGroup p | PollGroupDestroyed p => Some p
  | _ => None
  end.

(** The messages and callbacks of a state. *)
Definition allowed (st : nvmf_target_state) (e : event) : bool :=
  match st, e with
  | NVMF_INIT_SUBSYSTEM, (AppStart | InitDone)
  | NVMF_INIT_POLL_GROUPS, (CreatePollGroup | CreatePollGroupDone _)
  | NVMF_INIT_START_SUBSYSTEMS, StartNext _
  | NVMF_FINI_STOP_SUBSYSTEMS, StopNext _
  | NVMF_FINI_POLL_GROUPS, (DestroyPollGroup _ | PollGroupDestroyed _ | DestroyPollGroupsDone)
  | NVMF_FINI_TARGET, TgtDestroyed
  | NVMF_FINI_SUBSYSTEM, FiniDone => true
  | _, _ => false
  end.

Definition works (l : list (Z * event)) : list (Z * event) :=
  filter (λ x, ambient x.2 = false) l.
Definition pgs_of (l : list (Z * event)) : list Z := omap (λ x, pg_of x.2) l.

Section spec.
Context {W : Type} `{!NvmfLib W} `{!NvmfLaws W}.
Context (asserts : bool).
Implicit Types (s : nvmf W) (th : Z).

Local Abbreviation cores s := (length (core_ids s)).
Local Abbreviation advance := (nvmf_target_advance_state asserts).

Definition work s : list (Z * event) := works (events s).

(** The poll groups that exist: registered, or on their way. *)
Definition live_pgs s : list Z := pgs_of (work s) ++ g_poll_groups s.

Definition groups_ok s : Prop :=
  let num := g_num_poll_groups s in let groups := length (g_poll_groups s) in
  match g_target_state s with
  | NVMF_INIT_SUBSYSTEM | NVMF_INIT_TARGET | NVMF_FINI_TARGET | NVMF_FINI_SUBSYSTEM =>
      num = 0 ∧ groups = 0%nat
  | NVMF_INIT_POLL_GROUPS => num = Z.of_nat groups ∧ (groups < cores s)%nat
  | NVMF_INIT_START_SUBSYSTEMS | NVMF_RUNNING | NVMF_FINI_STOP_SUBSYSTEMS =>
      num = Z.of_nat groups ∧ groups = cores s
  | NVMF_FINI_POLL_GROUPS =>
      num = Z.of_nat (groups + length (work s)) ∧ 0 < num ≤ Z.of_nat (cores s)
  end.

Definition has_target (st : nvmf_target_state) : bool :=
  match st with
  | NVMF_INIT_POLL_GROUPS | NVMF_INIT_START_SUBSYSTEMS | NVMF_RUNNING
  | NVMF_FINI_STOP_SUBSYSTEMS => true
  | _ => false
  end.

Record common s : Prop := {
  co_cores : 0 < Z.of_nat (cores s) < 2 ^ 32;
  co_groups : groups_ok s;
  co_nodup : NoDup (live_pgs s);
  co_heap p : p ∈ live_pgs s ↔ is_Some (poll_groups s !! p);
  co_tgt : has_target (g_target_state s) = true → is_Some (tgt s);
  co_fini : g_target_state s = NVMF_FINI_POLL_GROUPS → work s ≠ [] → is_Some (g_fini_thread s);
  co_poller : is_Some (g_migrate_pg_poller s) →
    g_target_state s = NVMF_RUNNING ∨ g_target_state s = NVMF_FINI_STOP_SUBSYSTEMS;
  co_intr : g_intr_received s = true →
    4 < state_num (g_target_state s) ∨ ∃ th, (th, Shutdown) ∈ events s;
}.

(** The state has just been entered. *)
Definition entering (st : nvmf_target_state) s : Prop :=
  common s ∧ g_target_state s = st ∧ work s = [] ∧ g_reactors_exit s = false.

(** How many messages and callbacks the state waits for. *)
Definition quota s : Z :=
  match g_target_state s with
  | NVMF_INIT_TARGET | NVMF_RUNNING => 0
  | NVMF_INIT_POLL_GROUPS => Z.of_nat (cores s) - g_num_poll_groups s
  | NVMF_FINI_POLL_GROUPS => g_num_poll_groups s
  | NVMF_FINI_SUBSYSTEM => if g_reactors_exit s then 0 else 1
  | _ => 1
  end.

Record life s : Prop := {
  li_common : common s;
  li_allowed x : x ∈ work s → allowed (g_target_state s) x.2 = true;
  li_quota : Z.of_nat (length (work s)) = quota s;
  li_rest : g_target_state s ≠ NVMF_INIT_TARGET;
  li_poller : g_target_state s = NVMF_FINI_STOP_SUBSYSTEMS → g_migrate_pg_poller s = None;
  li_exit : g_reactors_exit s = true → g_target_state s = NVMF_FINI_SUBSYSTEM;
}.

(** ** Lists of events *)
Lemma works_app l1 l2 : works (l1 ++ l2) = works l1 ++ works l2.
Proof. apply filter_app. Qed.
Lemma works_one th e : works [(th, e)] = if ambient e then [] else [(th, e)].
Proof. unfold works. rewrite filter_cons, filter_nil. simpl. by destruct (ambient e). Qed.
Lemma pgs_of_app l1 l2 : pgs_of (l1 ++ l2) = pgs_of l1 ++ pgs_of l2.
Proof. apply omap_app. Qed.

(** Taking an event out of the queue. *)
Lemma works_take pre th e post : works (pre ++ (th, e) :: post) =
  if ambient e then works (pre ++ post) else works pre ++ (th, e) :: works post.
Proof.
  rewrite cons_middle, !works_app, works_one. by destruct (ambient e).
Qed.

(** ** The loop of [nvmf_target_advance_state] *)
Lemma advance_round th st Q X s : g_target_state s = st → st ≠ NVMF_INIT_SUBSYSTEM →
  twp (λ n, state_op asserts (advance n th) n th st) (λ _ s',
    if decide (g_target_state s' = st) then Q tt s' else twp (λ n, advance n th) Q X s') X s →
  twp (λ n, advance n th) Q X s.
Proof.
  intros Hst Hne Hop. eapply twp_S; [intros n; reflexivity|].
  apply twp_bind_wp, wp_get. simpl. rewrite Hst.
  apply (twp_bind _ (λ n _, _)). eapply twp_weaken; [exact Hop|].
  intros [] s' Hs'. destruct (decide (st = NVMF_INIT_SUBSYSTEM)) as [|_]; [done|].
  apply twp_bind_wp, wp_get. simpl.
  case_decide; [by apply twp_wp, wp_skip|done].
Qed.

(** ** Entering a state *)

(** What the work of a state leaves alone. *)
Record keeps s s' : Prop := {
  ke_cores : core_ids s' = core_ids s;
  ke_num : g_num_poll_groups s' = g_num_poll_groups s;
  ke_groups : g_poll_groups s' = g_poll_groups s;
  ke_heap : poll_groups s' = poll_groups s;
  ke_intr : g_intr_received s' = g_intr_received s;
  ke_exit : g_reactors_exit s' = g_reactors_exit s;
}.

(** From one state to a later one. *)
Lemma move st st' s s' : entering st s → keeps s s' → events s' = events s →
  g_target_state s' = st' → groups_ok s' → (has_target st' = true → is_Some (tgt s')) →
  (is_Some (g_migrate_pg_poller s') → st' = NVMF_RUNNING ∨ st' = NVMF_FINI_STOP_SUBSYSTEMS) →
  state_num st ≤ state_num st' → entering st' s'.
Proof.
  intros ([]&Hst&Hw&He) [] Hev Hst' Hg Ht Hp Hle.
  assert (work s' = []) as Hw' by (unfold work in *; by rewrite Hev).
  split_and!; [|done|done|congruence]. split; try congruence.
  - unfold live_pgs in *. rewrite Hw', Hw in *. congruence.
  - intros p. rewrite ke_heap0, <-co_heap0. unfold live_pgs. by rewrite Hw', Hw, ke_groups0.
  - by rewrite Hst'.
  - by rewrite Hst'.
  - rewrite ke_intr0, Hst', Hev. intros Hi. destruct (co_intr0 Hi) as [H|H]; [|by right].
    left. rewrite Hst in H. lia.
Qed.

(** A state waits for the events [ev] that its work has queued. *)
Lemma settle st ev s s' : entering st s → keeps s s' → g_target_state s' = st →
  events s' = events s ++ ev → tgt s' = tgt s → pgs_of ev = [] →
  (∀ x, x ∈ ev → allowed st x.2 = true) → Z.of_nat (length ev) = quota s' →
  st ≠ NVMF_INIT_TARGET → st ≠ NVMF_FINI_POLL_GROUPS →
  (is_Some (g_migrate_pg_poller s') → st = NVMF_RUNNING) → life s'.
Proof.
  intros ([]&Hst&Hw&He) [] Hst' Hev Ht Hpg Hal Hq H1 H2 Hp.
  assert (works ev = ev) as Hevw.
  { clear -Hal. induction ev as [|[th e] ev IH]; [done|]. unfold works in *.
    rewrite filter_cons_True; [f_equal; apply IH; set_solver|].
    specialize (Hal (th, e) ltac:(set_solver)). simpl in *. by destruct st, e. }
  assert (work s' = ev) as Hw'.
  { unfold work in *. by rewrite Hev, works_app, Hw, Hevw. }
  assert (live_pgs s' = live_pgs s) as Hlive.
  { unfold live_pgs. by rewrite Hw', Hw, Hpg, ke_groups0. }
  split; rewrite ?Hw', ?Hst'; try done.
  - split; rewrite ?Hlive, ?ke_heap0, ?Hst', ?ke_cores0, ?Ht; try done.
    + unfold groups_ok in *. rewrite Hst', ke_num0, ke_groups0, ke_cores0.
      rewrite Hst in *. by destruct st.
    + by rewrite <-Hst.
    + intros Hs. left. by apply Hp.
    + rewrite ke_intr0, Hev. intros Hi. destruct (co_intr0 Hi) as [Hs|[th Hs]].
      * left. by rewrite <-Hst.
      * right. exists th. set_solver.
  - intros ->. destruct (g_migrate_pg_poller s'); [|done]. by discriminate Hp.
  - congruence.
Qed.

Ltac keep := by split.

(** The outcome of [nvmf_target_advance_state] in state [st]. *)
Definition advanced (st : nvmf_target_state) s : Prop :=
  life s ∧ state_num st ≤ state_num (g_target_state s).

Lemma advanced_le st st' s : state_num st ≤ state_num st' → advanced st' s → advanced st s.
Proof. intros Hle [? ?]. split; [done|lia]. Qed.

Lemma groups_done s : entering NVMF_FINI_TARGET s ∨ entering NVMF_FINI_SUBSYSTEM s →
  g_num_poll_groups s = 0 ∧ length (g_poll_groups s) = 0%nat.
Proof. intros [([_ Hg]&Hst&_)|([_ Hg]&Hst&_)]; unfold groups_ok in Hg; by rewrite Hst in Hg. Qed.

Lemma enter_fini_subsystem th s : entering NVMF_FINI_SUBSYSTEM s →
  twp (λ n, advance n th) (λ _, advanced NVMF_FINI_SUBSYSTEM) (λ _ _, False) s.
Proof.
  intros He. destruct (id He) as ([]&Hst&Hw&Hex). eapply advance_round; [done|done|].
  apply twp_wp, wp_modify. simpl. rewrite decide_True by done.
  split; [|simpl; by rewrite Hst].
  eapply (settle _ [(th, FiniDone)]); [exact He|keep|done..| | |done|done|].
  - intros x ->%list_elem_of_singleton. done.
  - unfold quota. simpl. by rewrite Hst, Hex.
  - intros Hp. destruct (co_poller0 Hp); congruence.
Qed.

Lemma enter_fini_target th s : entering NVMF_FINI_TARGET s →
  twp (λ n, advance n th) (λ _, advanced NVMF_FINI_TARGET) (λ _ _, False) s.
Proof.
  intros He. destruct (id He) as ([]&Hst&Hw&Hex). eapply advance_round; [done|done|].
  apply twp_wp, wp_bind, wp_get. destruct (tgt s) eqn:Ht.
  - apply wp_modify. simpl. rewrite decide_True by done. split; [|simpl; by rewrite Hst].
    eapply (settle _ [(th, TgtDestroyed)]); [exact He|keep|done..| | |done|done|].
    + intros x ->%list_elem_of_singleton. done.
    + unfold quota. simpl. by rewrite Hst.
    + intros Hp. destruct (co_poller0 Hp); congruence.
  - apply wp_modify. simpl.
    eapply twp_weaken; [apply enter_fini_subsystem|].
    + eapply move; [exact He|keep|done..| | | |done].
      * unfold groups_ok in *. simpl. by rewrite Hst in *.
      * done.
      * simpl. intros Hp. destruct (co_poller0 Hp); congruence.
    + intros [] s'. by apply advanced_le.
Qed.

(** The poll groups are told to end. *)
Lemma poll_groups_destroy_spec th s : (∀ p, p ∈ g_poll_groups s → is_Some (poll_groups s !! p)) →
  wp (nvmf_poll_groups_destroy th) (λ _ s', ∃ ev, events s' = events s ++ ev ∧
      pgs_of ev = g_poll_groups s ∧ (∀ x, x ∈ ev → ∃ p, x.2 = DestroyPollGroup p) ∧
      length ev = length (g_poll_groups s) ∧
      s' = set_events (events s') (set_groups [] (set_fini_thread (Some th) s)))
    (λ _ _, False) s.
Proof.
  intros Hh. unfold nvmf_poll_groups_destroy. apply wp_bind, wp_modify, wp_bind, wp_get. simpl.
  eapply wp_weaken; [apply (wp_foreach _ (λ pre s', ∃ ev rest,
    g_poll_groups s = pre ++ rest ∧ events s' = events s ++ ev ∧ pgs_of ev = pre ∧
    (∀ x, x ∈ ev → ∃ p, x.2 = DestroyPollGroup p) ∧ length ev = length pre ∧
    s' = set_events (events s') (set_groups rest (set_fini_thread (Some th) s))))|].
  - intros pre p rest s' Hl (ev&rest'&Hl'&Hev&Hpg&Hx&Hlen&Hs').
    assert (rest' = p :: rest) as -> by (rewrite Hl in Hl'; by apply app_inv_head in Hl').
    apply wp_bind, wp_modify, wp_bind, wp_get. simpl.
    destruct (Hh p) as [pg Hp]; [rewrite Hl; set_solver|].
    apply wp_bind. eapply wp_of_option; [rewrite Hs'; exact Hp|]. apply wp_modify. simpl.
    exists (ev ++ [(thread pg, DestroyPollGroup p)]), rest. split_and!.
    + by rewrite <-app_assoc.
    + by rewrite Hev, app_assoc.
    + by rewrite pgs_of_app, Hpg.
    + intros x [?| ->%list_elem_of_singleton]%elem_of_app; [by apply Hx|by eexists].
    + by rewrite !length_app, Hlen.
    + rewrite Hs'. simpl. done.
  - exists [], (g_poll_groups s). split_and!; [done|by rewrite app_nil_r|done|set_solver|done|by destruct s].
  - intros [] s' (ev&rest&Hl&Hev&Hpg&Hx&Hlen&Hs'). exists ev. split_and!; try done.
    assert (rest = []) as ->; [|done].
    apply (f_equal length) in Hl. rewrite length_app in Hl. destruct rest; [done|].
    simpl in Hl. lia.
Qed.

(** All poll groups have been told to end. *)
Definition destroying s : Prop :=
  life s ∧ g_target_state s = NVMF_FINI_POLL_GROUPS ∧ g_poll_groups s = [].

Lemma enter_fini_poll_groups th s : entering NVMF_FINI_POLL_GROUPS s →
  twp (λ n, advance n th) (λ _, destroying) (λ _ _, False) s.
Proof.
  intros He. destruct (id He) as ([]&Hst&Hw&Hex). eapply advance_round; [done|done|].
  apply twp_wp. unfold live_pgs in *. rewrite Hw in *. simpl in *.
  eapply wp_weaken; [apply poll_groups_destroy_spec; intros p; by apply co_heap0|].
  intros [] s' (ev&Hev&Hpg&Hx&Hlen&Hs').
  assert (g_target_state s' = NVMF_FINI_POLL_GROUPS) as Hst' by (by rewrite Hs').
  rewrite decide_True by done. split; [|split; [done|by rewrite Hs']].
  assert (work s' = ev) as Hw'.
  { unfold work in *. rewrite Hev, works_app, Hw. simpl. clear -Hx.
    induction ev as [|[t e] ev IH]; [done|]. unfold works in *. rewrite filter_cons_True.
    - f_equal. apply IH. set_solver.
    - destruct (Hx (t, e)) as [p ->]; [set_solver|done]. }
  unfold groups_ok in co_groups0. rewrite Hst, Hw in co_groups0. simpl in co_groups0.
  assert (live_pgs s' = g_poll_groups s) as Hlive.
  { unfold live_pgs. rewrite Hw', Hpg, Hs'. simpl. apply app_nil_r. }
  split; rewrite ?Hw', ?Hst'; try done.
  - split; rewrite ?Hlive, ?Hst'; try done; try by rewrite Hs'.
    + unfold groups_ok. rewrite Hst', Hw', Hs'. simpl. lia.
    + rewrite Hs'. simpl. intros Hp. destruct (co_poller0 Hp); congruence.
    + rewrite Hev, Hs'. simpl. intros _. left. done.
  - intros x Hin. by destruct (Hx x Hin) as [p ->].
  - unfold quota. rewrite Hst', Hs'. simpl. lia.
  - rewrite Hs'. simpl. congruence.
Qed.

(** Going round once more changes nothing. *)
Lemma destroying_again th s : destroying s →
  twp (λ n, advance n th) (λ _, destroying) (λ _ _, False) s.
Proof.
  intros (Hl&Hst&Hg). eapply advance_round; [done|done|].
  apply twp_wp. unfold nvmf_poll_groups_destroy.
  apply wp_bind, wp_modify, wp_bind, wp_get. simpl. rewrite Hg. apply wp_skip. simpl.
  rewrite decide_True by done. split; [|done]. destruct Hl as [[] ? ? ? ? ?].
  split; try done.
Qed.

Lemma destroying_advanced s : destroying s → advanced NVMF_FINI_POLL_GROUPS s.
Proof. intros (?&Hst&_). split; [done|by rewrite Hst]. Qed.

(** Leaving the subsystems for the poll groups. *)
Lemma leave_stop s : entering NVMF_FINI_STOP_SUBSYSTEMS s → g_migrate_pg_poller s = None →
  entering NVMF_FINI_POLL_GROUPS (set_state NVMF_FINI_POLL_GROUPS s).
Proof.
  intros He Hp. destruct (id He) as ([]&Hst&Hw&Hex).
  eapply move; [exact He|keep|done..| | | |done].
  - unfold groups_ok, work in *. simpl. rewrite Hst, Hw in *. simpl. lia.
  - done.
  - simpl. rewrite Hp. by intros [].
Qed.

Lemma entering_lib st w s : entering st s → entering st (set_lib w s).
Proof. intros ([]&?&?&?). by split. Qed.

(** A state with one callback. *)
Lemma settle_one st th e s s' : entering st s → s' = set_events (events s ++ [(th, e)]) s →
  allowed st e = true → pg_of e = None → quota s' = 1 →
  st ≠ NVMF_INIT_TARGET → st ≠ NVMF_FINI_POLL_GROUPS →
  (is_Some (g_migrate_pg_poller s) → st = NVMF_RUNNING) → life s'.
Proof.
  intros He -> Hal Hpg Hq H1 H2 Hp. destruct (id He) as (_&Hst&_).
  eapply (settle st [(th, e)]); try done.
  - unfold pgs_of. simpl. by rewrite Hpg.
  - by intros x ->%list_elem_of_singleton.
Qed.

(** What is left to do in a state. *)
Definition weight (w : W) (e : event) : nat :=
  match e with
  | AppStart | CreatePollGroup | PollGroupDestroyed _ => 2
  | InitDone | CreatePollGroupDone _ | DestroyPollGroupsDone | TgtDestroyed | FiniDone => 1
  | DestroyPollGroup _ => 3
  | StartNext x | StopNext x => S (rank w x)
  | Shutdown | Migrate => 0
  end.
Definition load s : nat := sum_list_with (λ x, weight (lib s) x.2) (work s).

(** The outcome of looking for the next subsystem to stop. *)
Definition stopping n s : Prop :=
  destroying s ∨
  life s ∧ g_target_state s = NVMF_FINI_STOP_SUBSYSTEMS ∧ (load s ≤ n)%nat.

Lemma wait_stop th x n s : entering NVMF_FINI_STOP_SUBSYSTEMS s →
  g_migrate_pg_poller s = None → (rank (lib s) x < n)%nat →
  wp (call_back th (StopNext x)) (λ _, stopping n) (λ _ _, False) s.
Proof.
  intros He Hp Hn. destruct (id He) as (_&Hst&Hw&_). apply wp_modify. right.
  split; [|split; [done|]].
  - eapply (settle_one _ th (StopNext x)); try done.
    + unfold quota. simpl. by rewrite Hst.
    + rewrite Hp. by intros [].
  - unfold load, work in *. simpl. rewrite works_app, Hw. simpl. lia.
Qed.

Lemma twp_shift {A} (f : nat → M (nvmf W) A) Q X s :
  twp f Q X s → twp (λ n, f (S n)) Q X s.
Proof. intros (n&r&Hr&Hw). exists n, r. split; [|done]. intros m ?. apply Hr. lia. Qed.

Lemma stop_next_spec (f : nat → M (nvmf W) ()) th x s :
  (∀ s', entering NVMF_FINI_POLL_GROUPS s' → twp f (λ _, destroying) (λ _ _, False) s') →
  entering NVMF_FINI_STOP_SUBSYSTEMS s → g_migrate_pg_poller s = None →
  twp (λ n, stop_next_with (f n) n th x) (λ _, stopping (rank (lib s) x)) (λ _ _, False) s.
Proof.
  assert (∀ n m s', (n ≤ m)%nat → stopping n s' → stopping m s') as Hmono.
  { intros n m s' Hnm [?|(?&?&?)]; [by left|right]. split_and!; [done|done|lia]. }
  remember (rank (lib s) x) as k eqn:Hk. revert f x s Hk.
  induction (lt_wf k) as [k _ IH]; intros f x s -> Hf He Hp.
  eapply twp_S; [intros n; reflexivity|]. apply twp_bind_wp, wp_get.
  destruct (subsystem_get_next x (lib s)) as [y|] eqn:Hy.
  - apply twp_bind_wp. unfold lib_call, wp. simpl.
    set (s1 := set_lib _ s). assert (entering NVMF_FINI_STOP_SUBSYSTEMS s1) as He1
      by (by apply entering_lib).
    assert (rank (lib s1) y < rank (lib s) x)%nat as Hlt
      by (unfold s1; simpl; rewrite stop_rank; by apply next_rank).
    case_decide.
    + eapply twp_weaken.
      * apply (IH (rank (lib s1) y)) with (f := λ n, f (S n)); try done.
        intros s' Hs'. by apply twp_shift, Hf.
      * intros [] s'. apply Hmono. lia.
    + by apply twp_wp, wait_stop.
  - apply twp_bind_wp, wp_modify. eapply twp_weaken; [apply twp_shift, Hf, leave_stop; done|].
    intros [] s' ?. by left.
Qed.

Lemma enter_stop th s : entering NVMF_FINI_STOP_SUBSYSTEMS s →
  twp (λ n, advance n th) (λ _ s', ∃ n, stopping n s') (λ _ _, False) s.
Proof.
  intros He. destruct (id He) as ([]&Hst&Hw&Hex). eapply advance_round; [done|done|].
  apply twp_bind_wp, wp_bind, wp_get, wp_bind, wp_modify, wp_modify. simpl.
  set (s1 := set_poller None _).
  assert (entering NVMF_FINI_STOP_SUBSYSTEMS s1) as He1.
  { eapply move; [exact He|keep|done..| | | |done].
    - unfold groups_ok in *. simpl. by rewrite Hst in *.
    - intros _. apply co_tgt0. by rewrite Hst.
    - by intros []. }
  destruct co_tgt0 as [t Ht]; [by rewrite Hst|].
  apply twp_bind_wp, wp_get, twp_bind_wp. eapply wp_of_option; [exact Ht|].
  assert (∀ n s', stopping n s' → if decide (g_target_state s' = NVMF_FINI_STOP_SUBSYSTEMS)
    then ∃ n, stopping n s'
    else twp (λ n, advance n th) (λ _ s', ∃ n, stopping n s') (λ _ _, False) s') as Hend.
  { intros n s' Hs'. case_decide as Hd; [by exists n|]. destruct Hs' as [Hs'|(_&?&_)]; [|done].
    eapply twp_weaken; [by apply destroying_again|]. intros [] s'' ?. exists O. by left. }
  destruct (subsystem_get_first t (lib s1)) as [x|].
  - apply twp_bind_wp. unfold lib_call, wp. simpl. set (s2 := set_lib _ s1).
    assert (entering NVMF_FINI_STOP_SUBSYSTEMS s2) as He2 by (by apply entering_lib).
    case_decide.
    + eapply twp_weaken; [apply stop_next_spec; [|done..]|intros [] ?; apply Hend].
      apply enter_fini_poll_groups.
    + apply twp_wp. eapply wp_weaken; [apply (wait_stop _ _ (S (rank (lib s2) x))); [done|done|lia]|
        intros [] ?; apply Hend].
  - apply twp_wp, wp_modify. simpl. eapply twp_weaken; [apply enter_fini_poll_groups|].
    + by apply leave_stop.
    + intros [] s' ?. exists O. by left.
Qed.

Lemma stopping_advanced s : (∃ n, stopping n s) → advanced NVMF_FINI_STOP_SUBSYSTEMS s.
Proof.
  intros [n [Hs|(?&Hst&_)]]; [|split; [done|by rewrite Hst]].
  apply (advanced_le _ NVMF_FINI_POLL_GROUPS); [done|]. by apply destroying_advanced.
Qed.

Lemma enter_running th s : entering NVMF_RUNNING s →
  twp (λ n, advance n th) (λ _, advanced NVMF_RUNNING) (λ _ _, False) s.
Proof.
  intros He. destruct (id He) as (_&Hst&_). eapply advance_round; [done|done|].
  apply twp_wp, wp_bind, wp_get.
  assert (∀ s', keeps s s' → g_target_state s' = NVMF_RUNNING → events s' = events s →
    tgt s' = tgt s → advanced NVMF_RUNNING s') as Hend.
  { intros s' Hk Hs' Hev Ht. split; [|by rewrite Hs'].
    eapply (settle _ []); try done; [by rewrite Hev, app_nil_r|set_solver|].
    unfold quota. by rewrite Hs'. }
  case_decide.
  - apply wp_bind. unfold lib_call, wp. simpl. rewrite decide_True by done.
    apply Hend; [keep|done..].
  - apply wp_skip. rewrite decide_True by done. apply Hend; [keep|done..].
Qed.

(** Going on to a state of the same poll groups and target. *)
Lemma go_on st st' s : entering st s →
  (st = NVMF_INIT_START_SUBSYSTEMS ∧ (st' = NVMF_RUNNING ∨ st' = NVMF_FINI_STOP_SUBSYSTEMS)) ∨
  (st = NVMF_RUNNING ∧ st' = NVMF_FINI_STOP_SUBSYSTEMS) →
  entering st' (set_state st' s).
Proof.
  intros He Hst'. destruct (id He) as ([]&Hst&_).
  eapply move; [exact He|keep|done..| | | |].
  - unfold groups_ok in *. simpl. rewrite Hst in *. by destruct Hst' as [[-> [-> | ->]]|[-> ->]].
  - intros _. apply co_tgt0. rewrite Hst. by destruct Hst' as [[-> _]|[-> _]].
  - intros _. naive_solver.
  - destruct Hst' as [[-> [-> | ->]]|[-> ->]]; done.
Qed.

Lemma enter_start th s : entering NVMF_INIT_START_SUBSYSTEMS s →
  twp (λ n, advance n th) (λ _, advanced NVMF_INIT_START_SUBSYSTEMS) (λ _ _, False) s.
Proof.
  intros He. destruct (id He) as ([]&Hst&_). eapply advance_round; [done|done|].
  destruct co_tgt0 as [t Ht]; [by rewrite Hst|].
  apply twp_wp, wp_bind, wp_get, wp_bind. eapply wp_of_option; [exact Ht|].
  destruct (subsystem_get_first t (lib s)) as [x|].
  - apply wp_bind. unfold lib_call, wp at 1. simpl. set (s1 := set_lib _ s).
    assert (entering NVMF_INIT_START_SUBSYSTEMS s1) as He1 by (by apply entering_lib).
    case_decide; apply wp_modify.
    + simpl. eapply twp_weaken; [apply enter_stop|].
      * eapply go_on; [exact He1|]. naive_solver.
      * intros [] s' Hs'. eapply advanced_le; [|by apply stopping_advanced]. done.
    + simpl. rewrite decide_True by done. split; [|simpl; by rewrite Hst].
      eapply (settle_one _ th (StartNext x)); [exact He1|done..| |done|done|].
      * unfold quota. simpl. by rewrite Hst.
      * intros Hp. destruct (co_poller0 Hp); congruence.
  - apply wp_modify. simpl. eapply twp_weaken; [apply enter_running|].
    + eapply go_on; [exact He|]. naive_solver.
    + intros [] s' Hadv. eapply advanced_le; [|exact Hadv]. done.
Qed.

(** From here on nothing that the set-up needs fails. *)
Context (Hhealthy : healthy W).

Lemma assert_true b Q X s : b = true → Q tt s → wp (assert asserts b) Q X s.
Proof. intros -> HQ. unfold assert. rewrite andb_false_r. by apply wp_skip. Qed.

Lemma poll_groups_create_spec s :
  wp (nvmf_poll_groups_create asserts) (λ _ s', ∃ ev, events s' = events s ++ ev ∧
      length ev = cores s ∧ (∀ x, x ∈ ev → x.2 = CreatePollGroup) ∧
      s' = set_events (events s') (set_lib (lib s') s)) (λ _ _, False) s.
Proof.
  apply wp_bind, wp_get.
  apply (wp_foreach _ (λ pre s', ∃ ev, events s' = events s ++ ev ∧
      length ev = length pre ∧ (∀ x, x ∈ ev → x.2 = CreatePollGroup) ∧
      s' = set_events (events s') (set_lib (lib s') s))).
  - intros pre i rest s' _ (ev&Hev&Hlen&Hx&Hs').
    apply wp_bind. unfold lib_call, wp at 1. simpl.
    destruct (he_thread _ Hhealthy i (lib s')) as [t Ht]. rewrite Ht.
    apply wp_bind, assert_true; [done|]. apply wp_bind. eapply wp_of_option; [done|].
    apply wp_modify. simpl. exists (ev ++ [(t, CreatePollGroup)]). split_and!.
    + by rewrite Hev, app_assoc.
    + by rewrite !length_app, Hlen.
    + intros x [?| ->%list_elem_of_singleton]%elem_of_app; [by apply Hx|done].
    + by rewrite Hs'.
  - exists []. split_and!; [by rewrite app_nil_r|done|set_solver|by destruct s].
Qed.

Lemma enter_poll_groups th s : entering NVMF_INIT_POLL_GROUPS s → g_num_poll_groups s = 0 →
  twp (λ n, advance n th) (λ _, advanced NVMF_INIT_POLL_GROUPS) (λ _ _, False) s.
Proof.
  intros He Hnum. destruct (id He) as ([]&Hst&Hw&_). eapply advance_round; [done|done|].
  apply twp_wp. eapply wp_weaken; [apply poll_groups_create_spec|].
  intros [] s' (ev&Hev&Hlen&Hx&Hs').
  assert (g_target_state s' = NVMF_INIT_POLL_GROUPS) as Hst' by (by rewrite Hs').
  rewrite decide_True by done. split; [|by rewrite Hst'].
  eapply (settle _ ev); [exact He|rewrite Hs'; keep|done|done|by rewrite Hs'|..].
  - unfold pgs_of. clear -Hx. induction ev as [|x ev IH]; [done|]. simpl.
    rewrite (Hx x) by set_solver. apply IH. set_solver.
  - intros x Hin. by rewrite (Hx x Hin).
  - unfold quota. rewrite Hst', Hs'. simpl. lia.
  - done.
  - done.
  - rewrite Hs'. simpl. intros Hp. destruct (co_poller0 Hp); congruence.
Qed.

Lemma enter_target th s : entering NVMF_INIT_TARGET s →
  twp (λ n, advance n th) (λ _, advanced NVMF_INIT_TARGET) (λ _ _, False) s.
Proof.
  intros He. destruct (id He) as ([]&Hst&_). eapply advance_round; [done|done|].
  assert (∀ s', keeps s s' → events s' = events s → g_migrate_pg_poller s' =
    g_migrate_pg_poller s → g_target_state s' = NVMF_FINI_TARGET →
    twp (λ n, advance n th) (λ _, advanced NVMF_INIT_TARGET) (λ _ _, False) s') as Hfail.
  { intros s' Hk Hev Hp Hs'. eapply twp_weaken; [apply enter_fini_target|].
    - eapply move; [exact He|done..| | | |done].
      + unfold groups_ok in *. rewrite Hs', (ke_num _ _ Hk), (ke_groups _ _ Hk).
        by rewrite Hst in *.
      + done.
      + rewrite Hp. intros Hs. destruct (co_poller0 Hs); congruence.
    - intros [] s'' Hadv. eapply advanced_le; [|exact Hadv]. done. }
  apply twp_wp, wp_bind, wp_get, wp_bind. unfold lib_call, wp at 1. simpl.
  apply wp_bind, wp_modify. destruct (tgt_create _ _) as [[t|] w]; simpl.
  - apply wp_bind. unfold lib_call, wp at 1. simpl.
    destruct (discovery_create _ _) as [[x|] w']; simpl.
    + apply wp_bind, wp_modify, wp_modify. simpl.
      unfold groups_ok in co_groups0. rewrite Hst in co_groups0.
      eapply twp_weaken; [apply enter_poll_groups|].
      * eapply move; [exact He|keep|done..| | | |done].
        -- unfold groups_ok. simpl. lia.
        -- intros _. by eexists.
        -- simpl. intros Hs. destruct (co_poller0 Hs); congruence.
      * simpl. lia.
      * intros [] s'' Hadv. eapply advanced_le; [|exact Hadv]. done.
    + apply wp_modify. simpl. apply Hfail; [keep|done..].
  - apply wp_modify. simpl. apply Hfail; [keep|done..].
Qed.

(** ** Events *)
Local Abbreviation without pre post s := (set_events (pre ++ post) s).

Lemma ambient_kept th e pre post (t : Z) (x : event) : ambient e = false → ambient x = true →
  (t, x) ∈ pre ++ (th, e) :: post → (t, x) ∈ pre ++ post.
Proof.
  intros He Hx. rewrite !elem_of_app, elem_of_cons. intros [?|[[= -> ->]|?]]; [by left| |by right].
  congruence.
Qed.

Lemma work_take s pre th e post : events s = pre ++ (th, e) :: post → ambient e = false →
  work s ≡ₚ (th, e) :: work (without pre post s).
Proof.
  intros Hev He. unfold work. simpl. rewrite Hev, works_take, He, works_app.
  by rewrite Permutation_middle.
Qed.

Lemma live_take s pre th e post : events s = pre ++ (th, e) :: post → ambient e = false →
  live_pgs s ≡ₚ option_list (pg_of e) ++ live_pgs (without pre post s).
Proof.
  intros Hev He. unfold live_pgs. rewrite app_assoc. apply Permutation_app_tail.
  unfold pgs_of. rewrite (work_take _ _ _ _ _ Hev He). simpl. by destruct (pg_of e).
Qed.

Lemma live_send s th e : ambient e = false →
  live_pgs (set_events (events s ++ [(th, e)]) s) ≡ₚ option_list (pg_of e) ++ live_pgs s.
Proof.
  intros He. unfold live_pgs, work. simpl. rewrite works_app, works_one, He, pgs_of_app.
  rewrite app_assoc. apply Permutation_app_tail. rewrite Permutation_app_comm.
  apply Permutation_app_tail. unfold pgs_of. simpl. by destruct (pg_of e).
Qed.

(** The last event of a state is taken. *)
Lemma take_last s pre th e post : life s → events s = pre ++ (th, e) :: post →
  ambient e = false → pg_of e = None → quota s = 1 → g_target_state s ≠ NVMF_FINI_POLL_GROUPS →
  entering (g_target_state s) (without pre post s).
Proof.
  intros [[] Hal Hq Hr Hpo Hx] Hev He Hpg Hq1 Hst.
  assert (work (without pre post s) = []) as Hw.
  { pose proof (Permutation_length (work_take _ _ _ _ _ Hev He)) as Hlen. simpl in Hlen.
    apply length_zero_iff_nil. lia. }
  pose proof (live_take _ _ _ _ _ Hev He) as Hlive. rewrite Hpg in Hlive. simpl in Hlive.
  split_and!; [|done|done|].
  - split; simpl; try done.
    + unfold groups_ok in *. simpl. by destruct (g_target_state s).
    + by rewrite <-Hlive.
    + intros p. by rewrite <-Hlive.
    + intros Hi. destruct (co_intr0 Hi) as [?|[t Ht]]; [by left|]. right. exists t.
      rewrite Hev in Ht. by eapply ambient_kept.
  - simpl. destruct (g_reactors_exit s) eqn:E; [|done]. specialize (Hx eq_refl).
    unfold quota in Hq1. by rewrite Hx, E in Hq1.
Qed.

(** An event is taken and another one is queued instead. *)
Lemma swap s s' pre th e post th' e' : life s → events s = pre ++ (th, e) :: post →
  ambient e = false → ambient e' = false → events s' = (pre ++ post) ++ [(th', e')] →
  allowed (g_target_state s) e' = true →
  core_ids s' = core_ids s → g_target_state s' = g_target_state s →
  g_num_poll_groups s' = g_num_poll_groups s → g_poll_groups s' = g_poll_groups s →
  g_intr_received s' = g_intr_received s → g_reactors_exit s' = g_reactors_exit s →
  tgt s' = tgt s → g_migrate_pg_poller s' = g_migrate_pg_poller s →
  (g_target_state s = NVMF_FINI_POLL_GROUPS → is_Some (g_fini_thread s')) →
  NoDup (option_list (pg_of e') ++ live_pgs (without pre post s)) →
  (∀ p, p ∈ option_list (pg_of e') ++ live_pgs (without pre post s) ↔
    is_Some (poll_groups s' !! p)) → life s'.
Proof.
  intros [[] Hal Hq Hr Hpo Hx] Hev He He' Hev' Hal' Hco Hst Hnum Hg Hi Hex Ht Hp Hf Hnd Hheap.
  pose proof (work_take _ _ _ _ _ Hev He) as Hw.
  assert (work s' ≡ₚ (th', e') :: work (without pre post s)) as Hw'.
  { unfold work. rewrite Hev', works_app, works_one, He'. simpl.
    by rewrite Permutation_app_comm. }
  pose proof (Permutation_length Hw) as Hlen. pose proof (Permutation_length Hw') as Hlen'.
  simpl in Hlen, Hlen'.
  assert (live_pgs s' ≡ₚ option_list (pg_of e') ++ live_pgs (without pre post s)) as Hlive.
  { unfold live_pgs. rewrite app_assoc, Hg. simpl. apply Permutation_app_tail.
    unfold pgs_of. rewrite Hw'. simpl. by destruct (pg_of e'). }
  assert (quota s' = quota s) as Hquota by (unfold quota; by rewrite Hst, Hco, Hnum, Hex).
  split; rewrite ?Hst, ?Hp, ?Hex, ?Hquota, ?Hlen'; try done; [|intros x|congruence].
  - split; rewrite ?Hst, ?Hco, ?Ht, ?Hp, ?Hi, ?Hlive; try done.
    + unfold groups_ok in *. rewrite Hst, Hnum, Hg, Hco, Hlen'. rewrite Hlen in *.
      by destruct (g_target_state s).
    + intros p. by rewrite Hlive.
    + intros ? _. by apply Hf.
    + intros Hin. destruct (co_intr0 Hin) as [?|[t Htt]]; [by left|]. right. exists t.
      rewrite Hev'. apply elem_of_app. left. rewrite Hev in Htt.
      eapply ambient_kept; [exact He|done|exact Htt].
  - rewrite Hw', elem_of_cons. intros [->|Hin]; [done|]. apply Hal. rewrite Hw. by right.
Qed.

(** [s'] is later in the life of the target than [s]. *)
Definition later s s' : Prop :=
  state_num (g_target_state s) < state_num (g_target_state s') ∨
  g_target_state s' = g_target_state s ∧ (load s' < load s)%nat.

Lemma load_perm s l : work s ≡ₚ l → load s = sum_list_with (λ x, weight (lib s) x.2) l.
Proof.
  intros Hl. unfold load. induction Hl; simpl; lia.
Qed.

(** Only the callbacks of single subsystems depend on the library. *)
Lemma weight_indep st w w' e : allowed st e = true → st ≠ NVMF_INIT_START_SUBSYSTEMS →
  st ≠ NVMF_FINI_STOP_SUBSYSTEMS → weight w' e = weight w e.
Proof. by destruct st, e. Qed.

Lemma later_swap s s' x x' l : g_target_state s' = g_target_state s →
  work s ≡ₚ x :: l → work s' ≡ₚ x' :: l →
  (∀ y, y ∈ l → weight (lib s') y.2 = weight (lib s) y.2) →
  (weight (lib s') x'.2 < weight (lib s) x.2)%nat → later s s'.
Proof.
  intros Hst Hw Hw' Hl Hlt. right. split; [done|].
  rewrite (load_perm _ _ Hw), (load_perm _ _ Hw'). simpl.
  assert (sum_list_with (λ x, weight (lib s') x.2) l = sum_list_with (λ x, weight (lib s) x.2) l)
    as ->; [|lia].
  clear -Hl. induction l as [|y l IH]; simpl; [done|].
  rewrite Hl by set_solver. f_equal. apply IH. set_solver.
Qed.

Lemma later_advanced st s s' : state_num (g_target_state s) < state_num st →
  advanced st s' → later s s' ∧ life s'.
Proof. intros Hlt [? Hle]. split; [left; lia|done]. Qed.

Local Abbreviation Handled s := (λ (_ : ()) s', later s s' ∧ life s').

(** The state in which an event is handled. *)
Lemma allowed_state st e : allowed st e = true → st = match e with
  | AppStart | InitDone => NVMF_INIT_SUBSYSTEM
  | CreatePollGroup | CreatePollGroupDone _ => NVMF_INIT_POLL_GROUPS
  | StartNext _ => NVMF_INIT_START_SUBSYSTEMS
  | StopNext _ => NVMF_FINI_STOP_SUBSYSTEMS
  | DestroyPollGroup _ | PollGroupDestroyed _ | DestroyPollGroupsDone => NVMF_FINI_POLL_GROUPS
  | TgtDestroyed => NVMF_FINI_TARGET
  | FiniDone => NVMF_FINI_SUBSYSTEM
  | Shutdown | Migrate => NVMF_RUNNING
  end.
Proof. by destruct st, e. Qed.

Lemma event_state s pre th e post : life s → events s = pre ++ (th, e) :: post →
  ambient e = false → allowed (g_target_state s) e = true.
Proof.
  intros Hl Hev He. apply (li_allowed _ Hl (th, e)). rewrite (work_take _ _ _ _ _ Hev He). by left.
Qed.

(** The event is the only one, and the state is left for another one. *)
Lemma single s pre th e post : life s → events s = pre ++ (th, e) :: post →
  ambient e = false → pg_of e = None → g_target_state s ≠ NVMF_FINI_POLL_GROUPS →
  g_target_state s ≠ NVMF_INIT_POLL_GROUPS → entering (g_target_state s) (without pre post s).
Proof.
  intros Hl Hev He Hpg H1 H2. eapply take_last; try done.
  pose proof (event_state _ _ _ _ _ Hl Hev He) as Hal.
  pose proof (li_quota _ Hl) as Hq.
  pose proof (Permutation_length (work_take _ _ _ _ _ Hev He)) as Hlen. simpl in Hlen.
  unfold quota in *. destruct (g_target_state s); try done; try lia.
  destruct (g_reactors_exit s); [lia|done].
Qed.

Lemma handle_AppStart s pre th post : life s → events s = pre ++ (th, AppStart) :: post →
  twp (λ n, nvmf_target_app_start asserts n th) (Handled s) (λ _ _, False) (without pre post s).
Proof.
  intros Hl Hev. pose proof (event_state _ _ _ _ _ Hl Hev eq_refl) as Hst.
  apply allowed_state in Hst.
  assert (set_state NVMF_INIT_SUBSYSTEM (without pre post s) = without pre post s) as Hid
    by (destruct s; simpl in *; by rewrite Hst).
  apply twp_bind_wp, wp_modify. rewrite Hid.
  eapply twp_S; [intros n; reflexivity|]. apply twp_bind_wp, wp_get. simpl. rewrite Hst.
  apply twp_bind_wp, wp_modify. simpl. apply twp_wp, wp_skip.
  pose proof (work_take _ _ _ _ _ Hev eq_refl) as Hw. split.
  - eapply (later_swap _ _ (th, AppStart) (th, InitDone)); [done|exact Hw| |done|simpl; lia].
    unfold work. simpl. rewrite works_app, works_one. simpl. by rewrite Permutation_app_comm.
  - pose proof (live_take _ _ _ _ _ Hev eq_refl) as Hlive. simpl in Hlive.
    eapply (swap s _ pre th AppStart post th InitDone); try done.
    + by rewrite Hst.
    + by rewrite Hst.
    + simpl. rewrite <-Hlive. apply Hl.
    + intros p. simpl. rewrite <-Hlive. apply Hl.
Qed.

Lemma handle_InitDone s pre th post rc : life s → events s = pre ++ (th, InitDone) :: post →
  twp (λ n, nvmf_subsystem_init_done asserts n th rc) (Handled s) (λ _ _, False)
    (without pre post s).
Proof.
  intros Hl Hev. pose proof (event_state _ _ _ _ _ Hl Hev eq_refl) as Hst.
  apply allowed_state in Hst.
  pose proof (single _ _ _ _ _ Hl Hev eq_refl eq_refl) as He. rewrite Hst in He.
  specialize (He ltac:(done) ltac:(done)).
  apply twp_bind_wp. unfold lib_call, wp. simpl. rewrite (he_rpc _ Hhealthy). simpl.
  apply twp_bind_wp, wp_modify, twp_bind_wp, wp_modify. simpl.
  eapply twp_weaken; [apply enter_target|].
  - destruct (id He) as ([]&_). eapply move; [exact He|keep|done..| |done| |done].
    + unfold groups_ok in *. simpl in *. by rewrite Hst in *.
    + simpl. intros Hp. destruct (co_poller0 Hp) as [E|E]; simpl in E; congruence.
  - intros [] s'. apply later_advanced. by rewrite Hst.
Qed.

Lemma handle_StartNext s pre th post x : life s → events s = pre ++ (th, StartNext x) :: post →
  twp (λ n, nvmf_tgt_subsystem_start_next asserts n th x) (Handled s) (λ _ _, False)
    (without pre post s).
Proof.
  intros Hl Hev. pose proof (event_state _ _ _ _ _ Hl Hev eq_refl) as Hst.
  apply allowed_state in Hst.
  pose proof (single _ _ _ _ _ Hl Hev eq_refl eq_refl) as He. rewrite Hst in He.
  specialize (He ltac:(done) ltac:(done)). set (s0 := without pre post s) in *.
  apply twp_bind_wp, wp_get. destruct (subsystem_get_next x (lib s0)) as [y|] eqn:Hy.
  - apply twp_bind_wp. unfold lib_call, wp at 1. simpl.
    pose proof (entering_lib _ (subsystem_start y (lib s)).2 _ He) as He1.
    set (s1 := set_lib _ s0) in *. case_decide.
    + apply twp_bind_wp, wp_modify. eapply twp_weaken; [apply enter_stop|].
      * eapply go_on; [exact He1|]. naive_solver.
      * intros [] s' Hs'. apply (later_advanced NVMF_FINI_STOP_SUBSYSTEMS);
          [by rewrite Hst|by apply stopping_advanced].
    + apply twp_wp, wp_modify. split.
      * eapply (later_swap _ _ (th, StartNext x) (th, StartNext y) []).
        -- done.
        -- rewrite (work_take _ _ _ _ _ Hev eq_refl). fold s0. by destruct He as (_&_&->&_).
        -- unfold work. simpl. rewrite works_app. destruct He as (_&_&Hw&_).
           unfold work in Hw. simpl in Hw. by rewrite Hw.
        -- set_solver.
        -- simpl. rewrite start_rank. apply next_rank in Hy. simpl in Hy. lia.
      * destruct (id He) as ([]&_).
        eapply (settle_one _ th (StartNext y)); [exact He1|done..| |done|done|].
        -- unfold quota. simpl. by rewrite Hst.
        -- intros Hp. destruct (co_poller0 Hp) as [E|E]; simpl in E; congruence.
  - apply twp_bind_wp, wp_modify. eapply twp_weaken; [apply enter_running|].
    + eapply go_on; [exact He|]. naive_solver.
    + intros [] s'. apply later_advanced. by rewrite Hst.
Qed.

Lemma handle_StopNext s pre th post x : life s → events s = pre ++ (th, StopNext x) :: post →
  twp (λ n, nvmf_tgt_subsystem_stop_next asserts n th x) (Handled s) (λ _ _, False)
    (without pre post s).
Proof.
  intros Hl Hev. pose proof (event_state _ _ _ _ _ Hl Hev eq_refl) as Hst.
  apply allowed_state in Hst.
  pose proof (single _ _ _ _ _ Hl Hev eq_refl eq_refl) as He. rewrite Hst in He.
  specialize (He ltac:(done) ltac:(done)).
  pose proof (li_poller _ Hl Hst) as Hp.
  eapply twp_weaken; [apply stop_next_spec; [apply enter_fini_poll_groups|done|done]|].
  intros [] s' [Hs'|(Hs'&Hst'&Hload)].
  - apply (later_advanced NVMF_FINI_POLL_GROUPS); [by rewrite Hst|].
    by apply destroying_advanced.
  - split; [|done]. right. split; [by rewrite Hst'|].
    rewrite (load_perm _ _ (work_take _ _ _ _ _ Hev eq_refl)). simpl in *. lia.
Qed.

Lemma handle_CreatePollGroup s pre th post : life s →
  events s = pre ++ (th, CreatePollGroup) :: post →
  wp (nvmf_tgt_create_poll_group asserts th) (Handled s) (λ _ _, False) (without pre post s).
Proof.
  intros Hl Hev. pose proof (event_state _ _ _ _ _ Hl Hev eq_refl) as Hal.
  pose proof (allowed_state _ _ Hal) as Hst.
  apply wp_bind, wp_get, wp_bind. unfold lib_call, wp at 1. simpl.
  destruct (he_calloc _ Hhealthy (dom (poll_groups s)) (lib s)) as [p Hp]. rewrite Hp.
  apply calloc_fresh in Hp. apply wp_bind, wp_get.
  destruct (co_tgt _ (li_common _ Hl)) as [t Ht]; [by rewrite Hst|].
  apply wp_bind. eapply wp_of_option; [exact Ht|].
  apply wp_bind. unfold lib_call, wp at 1. simpl.
  destruct (he_group _ Hhealthy t (calloc_pg (dom (poll_groups s)) (lib s)).2) as [g Hg].
  rewrite Hg. apply wp_bind, wp_modify, wp_bind, wp_get, wp_modify. simpl.
  pose proof (live_take _ _ _ _ _ Hev eq_refl) as Hlive. simpl in Hlive.
  pose proof (co_heap _ (li_common _ Hl)) as Hheap.
  assert (p ∉ live_pgs (without pre post s)) as Hfresh.
  { rewrite <-Hlive, Hheap, <-elem_of_dom. done. }
  split.
  - eapply (later_swap _ _ (th, CreatePollGroup) (g_init_thread s, CreatePollGroupDone p)).
    + done.
    + exact (work_take _ _ _ _ _ Hev eq_refl).
    + unfold work. simpl. rewrite works_app, works_one. simpl. by rewrite Permutation_app_comm.
    + intros y Hy. apply (weight_indep (g_target_state s)); rewrite ?Hst; try done.
      rewrite <-Hst. apply (li_allowed _ Hl). rewrite (work_take _ _ _ _ _ Hev eq_refl).
      by right.
    + simpl. lia.
  - eapply (swap s _ pre th CreatePollGroup post (g_init_thread s) (CreatePollGroupDone p));
      try done.
    + by rewrite Hst.
    + simpl. apply NoDup_cons. split; [done|]. rewrite <-Hlive. apply Hl.
    + intros q. simpl. rewrite elem_of_cons, <-Hlive, Hheap, lookup_insert_is_Some. destruct (decide (p = q)); naive_solver.
Qed.

(** An event is taken and nothing is queued: what is left of the state, and what
    the next state finds. *)
Lemma drop s s' pre th e post st' : life s → events s = pre ++ (th, e) :: post →
  ambient e = false → events s' = pre ++ post → g_target_state s' = st' →
  core_ids s' = core_ids s → poll_groups s' = poll_groups s →
  g_intr_received s' = g_intr_received s → g_reactors_exit s' = g_reactors_exit s →
  g_migrate_pg_poller s' = g_migrate_pg_poller s → tgt s' = tgt s →
  g_fini_thread s' = g_fini_thread s → live_pgs s' ≡ₚ live_pgs s → groups_ok s' →
  state_num (g_target_state s) ≤ state_num st' →
  (has_target st' = true → has_target (g_target_state s) = true) →
  (st' = NVMF_FINI_POLL_GROUPS → g_target_state s = NVMF_FINI_POLL_GROUPS) →
  (is_Some (g_migrate_pg_poller s) → False) → common s'.
Proof.
  intros Hl Hev He Hev' Hst' Hco Hhp Hi Hex Hp Ht Hf Hlive Hg Hle Htg Hfi Hpo.
  destruct (li_common _ Hl). split.
  - by rewrite Hco.
  - done.
  - by rewrite Hlive.
  - intros q. by rewrite Hlive, Hhp.
  - rewrite Hst', Ht. intros ?. by apply co_tgt0, Htg.
  - rewrite Hst', Hf. intros Hs _. apply co_fini0; [by apply Hfi|].
    intros Hw. pose proof (work_take _ _ _ _ _ Hev He) as Hw'. rewrite Hw in Hw'.
    by apply Permutation_nil_cons in Hw'.
  - rewrite Hp. by intros.
  - rewrite Hi, Hst', Hev'. intros Hin. destruct (co_intr0 Hin) as [?|[t Htt]]; [left; lia|].
    right. exists t. rewrite Hev in Htt. eapply ambient_kept; [exact He|done|exact Htt].
Qed.

(** The rest of the events of the state stays. *)
Lemma drop_life s s' pre th e post : life s → events s = pre ++ (th, e) :: post →
  ambient e = false → events s' = pre ++ post → g_target_state s' = g_target_state s →
  g_reactors_exit s' = g_reactors_exit s → quota s' = quota s - 1 →
  g_migrate_pg_poller s' = g_migrate_pg_poller s → common s' → life s'.
Proof.
  intros Hl Hev He Hev' Hst Hex Hq Hp Hc.
  pose proof (work_take _ _ _ _ _ Hev He) as Hw. unfold work in Hw at 2. simpl in Hw.
  rewrite <-Hev' in Hw. fold (work s') in Hw.
  pose proof (Permutation_length Hw) as Hlen. simpl in Hlen.
  destruct Hl as [_ Hal Hqs Hr Hpo Hx]. split; rewrite ?Hst, ?Hp, ?Hex; try done.
  - intros x Hin. apply Hal. rewrite Hw. by right.
  - lia.
Qed.

Lemma drop_later s s' pre th e post : life s → events s = pre ++ (th, e) :: post →
  ambient e = false → events s' = pre ++ post → g_target_state s' = g_target_state s →
  lib s' = lib s → (0 < weight (lib s) e)%nat → later s s'.
Proof.
  intros Hl Hev He Hev' Hst Hlib Hwt. right. split; [done|].
  rewrite (load_perm _ _ (work_take _ _ _ _ _ Hev He)). simpl.
  unfold load, work. rewrite Hev', Hlib. simpl. lia.
Qed.

Lemma no_poller s : life s → g_target_state s ≠ NVMF_RUNNING →
  is_Some (g_migrate_pg_poller s) → False.
Proof.
  intros Hl Hst Hp. destruct (co_poller _ (li_common _ Hl) Hp) as [?|E]; [done|].
  rewrite (li_poller _ Hl E) in Hp. by destruct Hp.
Qed.

Lemma handle_CreatePollGroupDone s pre th post p : life s →
  events s = pre ++ (th, CreatePollGroupDone p) :: post →
  twp (λ n, nvmf_tgt_create_poll_groups_done asserts n th p) (Handled s) (λ _ _, False)
    (without pre post s).
Proof.
  intros Hl Hev. pose proof (event_state _ _ _ _ _ Hl Hev eq_refl) as Hal.
  pose proof (allowed_state _ _ Hal) as Hst. destruct (id (li_common _ Hl)).
  pose proof (li_quota _ Hl) as Hq. unfold quota in Hq. rewrite Hst in Hq.
  pose proof (work_take _ _ _ _ _ Hev eq_refl) as Hw. apply Permutation_length in Hw.
  simpl in Hw. unfold groups_ok in co_groups0. rewrite Hst in co_groups0.
  apply twp_bind_wp, wp_modify, twp_bind_wp, wp_modify, twp_bind_wp, wp_get. simpl.
  apply twp_bind_wp, assert_true; [apply bool_decide_eq_true; simpl; lia|].
  apply twp_bind_wp, wp_modify. simpl. apply twp_bind_wp, wp_get. simpl.
  rewrite u32_small by lia. set (s1 := set_num _ _).
  assert (live_pgs s1 ≡ₚ live_pgs s) as Hlive.
  { rewrite (live_take _ _ _ _ _ Hev eq_refl). unfold live_pgs. simpl.
    by rewrite app_assoc, Permutation_app_comm. }
  pose proof (no_poller _ Hl ltac:(by rewrite Hst)) as Hnp.
  case_decide as Hn.
  - apply twp_bind_wp, wp_modify. eapply twp_weaken; [apply enter_start|].
    + split_and!; [|done| |].
      * eapply (drop s _ pre th (CreatePollGroupDone p) post); try done; [..|by rewrite Hst|by rewrite Hst].
        unfold groups_ok. simpl. rewrite length_app. simpl. lia.
      * apply length_zero_iff_nil. unfold s1. unfold work in *. simpl in *. lia.
      * simpl. destruct (g_reactors_exit s) eqn:E; [|done]. apply (li_exit _ Hl) in E. congruence.
    + intros [] s'. apply later_advanced. by rewrite Hst.
  - apply twp_wp, wp_skip. split;
    [apply (drop_later s _ pre th (CreatePollGroupDone p) post); try done; simpl; lia|].
    apply (drop_life s _ pre th (CreatePollGroupDone p) post); try done.
    + unfold quota. simpl. rewrite Hst. lia.
    + apply (drop s _ pre th (CreatePollGroupDone p) post (g_target_state s)); try done. unfold groups_ok. simpl. rewrite Hst, length_app. simpl. lia.
Qed.

Lemma handle_DestroyPollGroup s pre th post p : life s →
  events s = pre ++ (th, DestroyPollGroup p) :: post →
  wp (nvmf_tgt_destroy_poll_group th p) (Handled s) (λ _ _, False) (without pre post s).
Proof.
  intros Hl Hev. pose proof (event_state _ _ _ _ _ Hl Hev eq_refl) as Hal.
  pose proof (allowed_state _ _ Hal) as Hst. destruct (id (li_common _ Hl)).
  pose proof (live_take _ _ _ _ _ Hev eq_refl) as Hlive. simpl in Hlive.
  pose proof (work_take _ _ _ _ _ Hev eq_refl) as Hw.
  destruct (proj1 (co_heap0 p)) as [pg Hp]; [rewrite Hlive; by left|].
  apply wp_bind, wp_get, wp_bind. eapply wp_of_option; [exact Hp|]. apply wp_modify. split.
  - eapply (later_swap _ _ (th, DestroyPollGroup p) (th, PollGroupDestroyed p));
      [done|exact Hw| |done|simpl; lia].
    unfold work. simpl. rewrite works_app, works_one. simpl. by rewrite Permutation_app_comm.
  - eapply (swap s _ pre th (DestroyPollGroup p) post th (PollGroupDestroyed p)); try done.
    + intros _. apply co_fini0; [done|]. intros E. rewrite E in Hw.
      by apply Permutation_nil_cons in Hw.
    + simpl. by rewrite <-Hlive.
    + intros q. simpl. by rewrite <-Hlive.
Qed.

Lemma handle_PollGroupDestroyed s pre th post p : life s →
  events s = pre ++ (th, PollGroupDestroyed p) :: post →
  wp (nvmf_tgt_destroy_poll_groups_done th p) (Handled s) (λ _ _, False) (without pre post s).
Proof.
  intros Hl Hev. pose proof (event_state _ _ _ _ _ Hl Hev eq_refl) as Hal.
  pose proof (allowed_state _ _ Hal) as Hst. destruct (id (li_common _ Hl)).
  pose proof (live_take _ _ _ _ _ Hev eq_refl) as Hlive. simpl in Hlive.
  pose proof (work_take _ _ _ _ _ Hev eq_refl) as Hw.
  destruct (co_fini0 Hst) as [f Hf].
  { intros E. rewrite E in Hw. by apply Permutation_nil_cons in Hw. }
  apply wp_bind, wp_modify, wp_bind, wp_modify, wp_bind, wp_get, wp_bind.
  eapply wp_of_option; [exact Hf|]. apply wp_bind, wp_modify, wp_modify. simpl. split.
  - eapply (later_swap _ _ (th, PollGroupDestroyed p) (f, DestroyPollGroupsDone));
      [done|exact Hw| | |simpl; lia].
    + unfold work. simpl. rewrite works_app, works_one. simpl. by rewrite Permutation_app_comm.
    + intros y Hy. apply (weight_indep (g_target_state s)); rewrite ?Hst; try done.
      rewrite <-Hst. apply (li_allowed _ Hl). rewrite Hw. by right.
  - rewrite Hlive in co_nodup0. apply NoDup_cons in co_nodup0 as [Hni Hnd].
    eapply (swap s _ pre th (PollGroupDestroyed p) post f DestroyPollGroupsDone); try done.
    intros q. simpl. rewrite lookup_delete_is_Some, <-co_heap0, Hlive, elem_of_cons.
    naive_solver.
Qed.

Lemma handle_DestroyPollGroupsDone s pre th post : life s →
  events s = pre ++ (th, DestroyPollGroupsDone) :: post →
  twp (λ n, destroy_poll_groups_done asserts n th) (Handled s) (λ _ _, False)
    (without pre post s).
Proof.
  intros Hl Hev. pose proof (event_state _ _ _ _ _ Hl Hev eq_refl) as Hal.
  pose proof (allowed_state _ _ Hal) as Hst. destruct (id (li_common _ Hl)).
  pose proof (li_quota _ Hl) as Hq. unfold quota in Hq. rewrite Hst in Hq.
  pose proof (work_take _ _ _ _ _ Hev eq_refl) as Hw. apply Permutation_length in Hw.
  simpl in Hw. unfold groups_ok in co_groups0. rewrite Hst in co_groups0.
  apply twp_bind_wp, wp_get.
  apply twp_bind_wp, assert_true; [apply bool_decide_eq_true; simpl; lia|].
  apply twp_bind_wp, wp_modify. simpl. apply twp_bind_wp, wp_get. simpl.
  rewrite u32_small by lia. set (s1 := set_num _ _).
  assert (live_pgs s1 ≡ₚ live_pgs s) as Hlive
    by by rewrite (live_take _ _ _ _ _ Hev eq_refl).
  pose proof (no_poller _ Hl ltac:(by rewrite Hst)) as Hnp.
  case_decide as Hn.
  - apply twp_bind_wp, wp_modify. eapply twp_weaken; [apply enter_fini_target|].
    + split_and!; [|done| |].
      * eapply (drop s _ pre th DestroyPollGroupsDone post); try done; [..|by rewrite Hst].
        unfold groups_ok. simpl. lia.
      * apply length_zero_iff_nil. unfold s1. unfold work in *. simpl in *. lia.
      * simpl. destruct (g_reactors_exit s) eqn:E; [|done]. apply (li_exit _ Hl) in E. congruence.
    + intros [] s'. apply later_advanced. by rewrite Hst.
  - apply twp_wp, wp_skip. split;
    [apply (drop_later s _ pre th DestroyPollGroupsDone post); try done; simpl; lia|].
    apply (drop_life s _ pre th DestroyPollGroupsDone post); try done.
    + unfold quota. simpl. rewrite Hst. lia.
    + apply (drop s _ pre th DestroyPollGroupsDone post (g_target_state s)); try done. unfold groups_ok. simpl. rewrite Hst. unfold work in *. simpl in *.
      lia.
Qed.

Lemma handle_TgtDestroyed s pre th post : life s → events s = pre ++ (th, TgtDestroyed) :: post →
  twp (λ n, nvmf_tgt_destroy_done asserts n th) (Handled s) (λ _ _, False)
    (without pre post s).
Proof.
  intros Hl Hev. pose proof (event_state _ _ _ _ _ Hl Hev eq_refl) as Hst.
  apply allowed_state in Hst.
  pose proof (single _ _ _ _ _ Hl Hev eq_refl eq_refl) as He. rewrite Hst in He.
  specialize (He ltac:(done) ltac:(done)). destruct (id He) as ([]&_).
  apply twp_bind_wp, wp_modify. eapply twp_weaken; [apply enter_fini_subsystem|].
  - eapply move; [exact He|keep|done..| |done| |done].
    + unfold groups_ok in *. simpl in *. by rewrite Hst in *.
    + simpl. intros Hp. destruct (co_poller0 Hp) as [E|E]; simpl in E; congruence.
  - intros [] s'. apply later_advanced. by rewrite Hst.
Qed.

Lemma handle_FiniDone s pre th post : life s → events s = pre ++ (th, FiniDone) :: post →
  wp nvmf_subsystem_fini_done (λ _ s', (later s s' ∧ life s') ∧ g_reactors_exit s' = true)
    (λ _ _, False) (without pre post s).
Proof.
  intros Hl Hev. pose proof (event_state _ _ _ _ _ Hl Hev eq_refl) as Hst.
  apply allowed_state in Hst.
  pose proof (single _ _ _ _ _ Hl Hev eq_refl eq_refl) as He. rewrite Hst in He.
  specialize (He ltac:(done) ltac:(done)).
  pose proof (work_take _ _ _ _ _ Hev eq_refl) as Hw.
  apply wp_bind, wp_modify, wp_modify. simpl. split; [|done].
  destruct He as (Hc&_&Hw0&_). split.
  - right. split; [done|]. rewrite (load_perm _ _ Hw). simpl.
    unfold load, work in *. simpl in *. rewrite Hw0. simpl. lia.
  - split; simpl; try done; rewrite ?Hst; try done.
    + destruct Hc. by split.
    + unfold work in *. simpl in *. rewrite Hw0. by intros ? ?%elem_of_nil.
    + unfold work, quota in *. simpl in *. by rewrite Hw0, Hst.
Qed.

(** Ambient messages leave the work alone. *)
Lemma life_ambient s s' pre th e post : life s → events s = pre ++ (th, e) :: post →
  ambient e = true → s' = set_lib (lib s') (set_events (events s') s) →
  works (events s') = works (pre ++ post) →
  (g_intr_received s = true → 4 < state_num (g_target_state s) ∨
     ∃ th, (th, Shutdown) ∈ events s') → life s'.
Proof.
  intros Hl Hev He Hs' Hw Hi.
  assert (work s' = work s) as Hwork.
  { unfold work. rewrite Hw, Hev, works_take. by rewrite He. }
  rewrite Hs'. rewrite Hs' in Hwork, Hi. unfold work in Hwork. simpl in Hwork, Hi.
  destruct Hl as [[] Hal Hq Hr Hpo Hx].
  split; unfold work; simpl; rewrite ?Hwork; try done.
  split; simpl; unfold live_pgs, groups_ok, work in *; simpl; rewrite ?Hwork; try done.
Qed.

Lemma handle_Shutdown s pre th post : life s → events s = pre ++ (th, Shutdown) :: post →
  twp (λ n, shutdown_cb asserts n th) (λ _ s', life s' ∧
      (g_target_state s = NVMF_RUNNING → later s s') ∧
      (g_target_state s ≠ NVMF_RUNNING → g_target_state s' = g_target_state s))
    (λ _ _, False) (without pre post s).
Proof.
  intros Hl Hev. apply twp_bind_wp, wp_get. simpl. case_decide as H1; [|case_decide as H2].
  - apply twp_wp, wp_modify. simpl. split_and!.
    + eapply (life_ambient s); [exact Hl|exact Hev|done|done| |].
      * simpl. rewrite works_app, works_one. simpl. by rewrite app_nil_r.
      * intros _. right. exists th. simpl. set_solver.
    + intros Hr. rewrite Hr in H1. simpl in H1. lia.
    + done.
  - apply twp_wp, wp_skip. split_and!.
    + eapply (life_ambient s); [exact Hl|exact Hev|done|by destruct s|done|].
      intros _. left. simpl in *. lia.
    + intros Hr. rewrite Hr in H2. simpl in H2. lia.
    + done.
  - assert (g_target_state s = NVMF_RUNNING) as Hst
      by (destruct (g_target_state s); simpl in *; lia || done).
    apply twp_bind_wp, wp_modify. eapply twp_weaken; [apply enter_stop|].
    + destruct Hl as [[] Hal Hq Hr Hpo Hx]. unfold quota in Hq. rewrite Hst in Hq.
      assert (works (pre ++ post) = []) as Hw.
      { apply length_zero_iff_nil. unfold work in Hq. rewrite Hev, works_take in Hq.
        simpl in Hq. lia. }
      assert (work s = []) as Hws by (unfold work; by rewrite Hev, works_take).
      split_and!; [|done|done|].
      * split; simpl; try done.
        -- unfold groups_ok in *. simpl. by rewrite Hst in *.
        -- unfold live_pgs, work in *. simpl. by rewrite Hw, Hws in *.
        -- intros p. rewrite <-co_heap0. unfold live_pgs, work in *. simpl. by rewrite Hw, Hws.
        -- intros _. apply co_tgt0. by rewrite Hst.
        -- intros _. by right.
        -- intros _. by left.
      * simpl. destruct (g_reactors_exit s) eqn:E; [|done]. rewrite Hx in Hst by done. done.
    + intros [] s' Hs'. split_and!; [by apply stopping_advanced in Hs' as []| |done].
      intros _. apply (later_advanced NVMF_FINI_STOP_SUBSYSTEMS); [by rewrite Hst|].
      by apply stopping_advanced.
Qed.

Lemma handle_Migrate s pre th post : life s → events s = pre ++ (th, Migrate) :: post →
  wp (migrate_poll_group_by_rr th) (λ _ s', life s' ∧ g_target_state s' = g_target_state s)
    (λ _ _, False) (without pre post s).
Proof.
  intros Hl Hev. apply wp_bind, wp_get, wp_modify. split; [|done].
  eapply (life_ambient s); [exact Hl|exact Hev|done|by destruct s|done|].
  intros Hi. destruct (co_intr _ (li_common _ Hl) Hi) as [?|[t Ht]]; [by left|].
  right. exists t. simpl. rewrite Hev in Ht. apply elem_of_app.
  apply elem_of_app in Ht as [?|[?|?]%elem_of_cons]; [by left|discriminate|by right].
Qed.

(** ** Every event, and every step *)
Lemma handle_spec s pre th e post status : life s → events s = pre ++ (th, e) :: post →
  twp (λ n, handle asserts n th status e) (λ _ s', life s' ∧
      (ambient e = false ∨ e = Shutdown ∧ g_target_state s = NVMF_RUNNING → later s s'))
    (λ _ _, False) (without pre post s).
Proof.
  intros Hl Hev.
  assert (∀ (P : Prop) s', later s s' ∧ life s' → life s' ∧ (P → later s s')) as HH
    by (intros; naive_solver).
  destruct e; simpl.
  - eapply twp_weaken; [by eapply handle_AppStart|]. intros [] s'. apply HH.
  - eapply twp_weaken; [by eapply handle_InitDone|]. intros [] s'. apply HH.
  - eapply twp_wp, wp_weaken; [by eapply handle_CreatePollGroup|]. intros [] s'. apply HH.
  - eapply twp_weaken; [by eapply handle_CreatePollGroupDone|]. intros [] s'. apply HH.
  - eapply twp_weaken; [by eapply handle_StartNext|]. intros [] s'. apply HH.
  - eapply twp_weaken; [by eapply handle_StopNext|]. intros [] s'. apply HH.
  - eapply twp_wp, wp_weaken; [by eapply handle_DestroyPollGroup|]. intros [] s'. apply HH.
  - eapply twp_wp, wp_weaken; [by eapply handle_PollGroupDestroyed|]. intros [] s'. apply HH.
  - eapply twp_weaken; [by eapply handle_DestroyPollGroupsDone|]. intros [] s'. apply HH.
  - eapply twp_weaken; [by eapply handle_TgtDestroyed|]. intros [] s'. apply HH.
  - eapply twp_wp, wp_weaken; [by eapply handle_FiniDone|]. intros [] s' [? _]. by apply HH.
  - eapply twp_weaken; [by eapply handle_Shutdown|]. intros [] s' (?&Hs&_). naive_solver.
  - eapply twp_wp, wp_weaken; [by eapply handle_Migrate|]. intros [] s' (?&_). naive_solver.
Qed.

(** More ambient messages. *)
Lemma life_more s ev b : life s → works ev = [] →
  (b = true → 4 < state_num (g_target_state s) ∨ ∃ th, (th, Shutdown) ∈ events s ++ ev) →
  life (set_events (events s ++ ev) (set_intr b s)).
Proof.
  intros [[] Hal Hq Hr Hpo Hx] Hw Hi.
  assert (works (events s ++ ev) = work s) as Hwork
    by (by rewrite works_app, Hw, app_nil_r).
  split; unfold work; simpl; rewrite ?Hwork; try done.
  split; simpl; unfold live_pgs, groups_ok, work in *; simpl; rewrite ?Hwork; try done.
Qed.

Lemma migrations_spec s : life s →
  wp migrate_poll_groups_by_rr (λ _, life) (λ _ _, False) s.
Proof.
  intros Hl. apply wp_bind, wp_get.
  eapply wp_weaken; [apply (wp_foreach_inv _ (λ s', ∃ ev, works ev = [] ∧
    s' = set_events (events s ++ ev) s))|].
  - intros p s' Hp (ev&Hw&->).
    destruct (proj1 (co_heap _ (li_common _ Hl) p)) as [pg Hpg].
    { unfold live_pgs. set_solver. }
    apply wp_bind, wp_get, wp_bind. eapply wp_of_option; [exact Hpg|]. apply wp_modify. simpl.
    exists (ev ++ [(thread pg, Migrate)]). split; [|by rewrite app_assoc].
    by rewrite works_app, Hw.
  - exists []. split; [done|]. rewrite app_nil_r. by destruct s.
  - intros [] s' (ev&Hw&->).
    replace (set_events (events s ++ ev) s) with
      (set_events (events s ++ ev) (set_intr (g_intr_received s) s)) by (by destruct s).
    apply life_more; [done|done|]. intros Hi.
    destruct (co_intr _ (li_common _ Hl) Hi) as [?|[th ?]]; [by left|right]. exists th. set_solver.
Qed.

Lemma signal_spec s : life s → wp nvmf_shutdown_cb (λ _ s', life s' ∧
    g_target_state s' = g_target_state s ∧
    (g_target_state s = NVMF_RUNNING → ∃ th, (th, Shutdown) ∈ events s')) (λ _ _, False) s.
Proof.
  intros Hl. apply wp_bind, wp_get. destruct (g_intr_received s) eqn:Hi.
  - apply wp_skip. split_and!; [done|done|]. intros Hr.
    destruct (co_intr _ (li_common _ Hl) Hi) as [H|?]; [|done]. rewrite Hr in H. simpl in H. lia.
  - apply wp_bind, wp_modify, wp_modify. simpl. split_and!; [|done|].
    + apply life_more; [done|done|]. intros _. right. exists (g_init_thread s). set_solver.
    + intros _. exists (g_init_thread s). simpl. set_solver.
Qed.

Lemma step_life s s' : life s → step asserts s s' → life s'.
Proof.
  intros Hl Hs. destruct Hs as [s s' (pre&th&e&post&status&fuel&Hev&Hr)|s s' p Hp Hm|s s' Hm|s w].
  - destruct (twp_elim _ _ _ _ (handle_spec _ _ _ _ _ status Hl Hev)) as [n Hn].
    specialize (Hn (n `max` fuel)%nat ltac:(lia)).
    by destruct (wp_done _ _ _ _ _ _ Hn (Hr (n `max` fuel)%nat ltac:(lia))).
  - exact (wp_done _ _ _ _ _ _ (migrations_spec _ Hl) Hm).
  - exact (proj1 (wp_done _ _ _ _ _ _ (signal_spec _ Hl) Hm)).
  - destruct Hl as [[] ? ? ? ? ?]. split; try done.
Qed.

Lemma steps_life s s' : rtc (step asserts) s s' → life s → life s'.
Proof. induction 1; intros Hl; [done|]. eauto using step_life. Qed.

Lemma boot_life w cores period max_subs init : 0 < Z.of_nat (length cores) < 2 ^ 32 →
  life (nvmf_boot w cores period max_subs init).
Proof.
  intros Hc. split; try done.
  - split; try done.
    + apply NoDup_nil_2.
    + intros p. split; [by intros ?%elem_of_nil|by intros [? [=]]].
    + by intros [].
  - by intros x ->%list_elem_of_singleton.
Qed.

(** ** Going on to the end *)
Lemma event_runs s pre th e post : life s → events s = pre ++ (th, e) :: post →
  ∃ s', runs asserts s s' ∧ life s' ∧
    (ambient e = false ∨ e = Shutdown ∧ g_target_state s = NVMF_RUNNING → later s s').
Proof.
  intros Hl Hev. destruct (handle_spec _ _ _ _ _ 0 Hl Hev) as (n&r&Hr&Hw).
  unfold wp in Hw. destruct r as [[] s'|? ?| |]; [|done..].
  exists s'. split; [|done]. by exists pre, th, e, post, 0, n.
Qed.

(** A state that waits has something to wait for. *)
Lemma work_waiting s : life s → g_target_state s ≠ NVMF_RUNNING → g_reactors_exit s = false →
  ∃ pre th e post, events s = pre ++ (th, e) :: post ∧ ambient e = false.
Proof.
  intros [[_ Hg _ _ _ _ _ _] Hal Hq Hr Hpo Hx] Hrun Hex.
  assert (0 < quota s) as Hpos.
  { unfold quota, groups_ok in *. rewrite Hex. destruct (g_target_state s); try done; lia. }
  destruct (work s) as [|[th e] l] eqn:Hw; [simpl in Hq; lia|].
  assert ((th, e) ∈ work s) as [He Hin]%list_elem_of_filter by (rewrite Hw; by left).
  apply list_elem_of_split in Hin as (pre&post&Hev). by exists pre, th, e, post.
Qed.

Lemma later_finish s : life s →
  (∀ s', life s' → later s s' → ∃ s'', rtc (step asserts) s' s'' ∧ g_reactors_exit s'' = true) →
  ∃ s', rtc (step asserts) s s' ∧ g_reactors_exit s' = true.
Proof.
  intros Hl IH. destruct (g_reactors_exit s) eqn:Hex; [by exists s|].
  assert (∀ s1 pre th e post, rtc (step asserts) s s1 → life s1 → (∀ s', later s1 s' → later s s') →
    events s1 = pre ++ (th, e) :: post →
    ambient e = false ∨ e = Shutdown ∧ g_target_state s1 = NVMF_RUNNING →
    ∃ s', rtc (step asserts) s s' ∧ g_reactors_exit s' = true) as Hgo.
  { intros s1 pre th e post Hs1 Hl1 Hlat Hev He.
    destruct (event_runs _ _ _ _ _ Hl1 Hev) as (s'&Hrun&Hl'&Hlater).
    destruct (IH s' Hl' (Hlat _ (Hlater He))) as (s''&Hs''&?).
    exists s''. split; [|done]. etransitivity; [exact Hs1|].
    eapply rtc_l; [by apply step_event|exact Hs'']. }
  destruct (decide (g_target_state s = NVMF_RUNNING)) as [Hrun|Hrun].
  - pose proof (signal_spec s Hl) as Hsig. unfold wp in Hsig.
    destruct (nvmf_shutdown_cb s) as [[] s1| | |] eqn:E; [|done..].
    destruct Hsig as (Hl1&Hst&Hsd). destruct (Hsd Hrun) as [th Hin].
    apply list_elem_of_split in Hin as (pre&post&Hev).
    eapply (Hgo s1); [by apply rtc_once, step_signal|done| |exact Hev|right; by rewrite Hst].
    intros s' [Hlt|[Hst' Hlt]]; [left; by rewrite <-Hst|].
    right. split; [congruence|].
    assert (load s1 = load s); [|lia].
    pose proof (li_quota _ Hl) as Hq. pose proof (li_quota _ Hl1) as Hq1.
    unfold quota in Hq, Hq1. rewrite Hst, Hrun in Hq1. rewrite Hrun in Hq.
    unfold load. destruct (work s), (work s1); simpl in *; lia || done.
  - destruct (work_waiting s Hl Hrun Hex) as (pre&th&e&post&Hev&He).
    eapply (Hgo s); [done|done|done|exact Hev|by left].
Qed.

Lemma can_finish s : life s →
  ∃ s', rtc (step asserts) s s' ∧ g_reactors_exit s' = true.
Proof.
  remember (Z.to_nat (9 - state_num (g_target_state s))) as k eqn:Hk.
  revert s Hk. induction (lt_wf k) as [k _ IHk]. intros s Hk.
  remember (load s) as m eqn:Hm. revert s Hk Hm.
  induction (lt_wf m) as [m _ IHm]. intros s Hk Hm Hl.
  apply later_finish; [done|]. intros s' Hl' [Hlt|[Hst Hlt]].
  - assert (state_num (g_target_state s') ≤ 8) by (by destruct (g_target_state s')).
    eapply IHk; [|reflexivity|done]. lia.
  - eapply IHm; [|by rewrite Hst|reflexivity|done]. lia.
Qed.

(** ** What the invariant says *)
Lemma heap_size s : common s → size (poll_groups s) = length (live_pgs s).
Proof.
  intros []. rewrite <-size_dom, <-(size_list_to_set (C := gset Z)) by done.
  f_equal. apply set_eq. intros p. by rewrite elem_of_dom, elem_of_list_to_set, co_heap0.
Qed.

Lemma life_running s : life s → g_target_state s = NVMF_RUNNING →
  g_num_poll_groups s = Z.of_nat (cores s) ∧ size (poll_groups s) = cores s.
Proof.
  intros Hl Hst. pose proof (li_quota _ Hl) as Hq. unfold quota in Hq. rewrite Hst in Hq.
  pose proof (co_groups _ (li_common _ Hl)) as Hg. unfold groups_ok in Hg. rewrite Hst in Hg.
  rewrite heap_size by apply Hl. unfold live_pgs. destruct (work s); simpl in *; lia.
Qed.

Lemma life_torn_down s : life s → 7 ≤ state_num (g_target_state s) → poll_groups s = ∅.
Proof.
  intros Hl Hst. apply map_size_empty_iff. rewrite heap_size by apply Hl. unfold live_pgs.
  pose proof (co_groups _ (li_common _ Hl)) as Hg. unfold groups_ok in Hg.
  assert (pgs_of (work s) = []) as ->.
  { pose proof (li_allowed _ Hl) as Hal. clear -Hal Hst. unfold pgs_of.
    induction (work s) as [|x l IH]; [done|]. simpl.
    specialize (Hal x ltac:(by left)) as Hx. destruct x as [th e]. simpl in *.
    destruct (g_target_state s); simpl in *; try lia; destruct e; try done;
      (apply IH; intros y Hy; apply Hal; by right). }
  destruct (g_target_state s); simpl in *; lia.
Qed.

Lemma life_exited s : life s → g_reactors_exit s = true →
  ∀ th e, (th, e) ∈ events s → e = Shutdown ∨ e = Migrate.
Proof.
  intros Hl Hex th e Hin. pose proof (li_quota _ Hl) as Hq. unfold quota in Hq.
  rewrite (li_exit _ Hl Hex), Hex in Hq.
  destruct (ambient e) eqn:He; [destruct e; naive_solver|].
  assert ((th, e) ∈ work s) as Hw by (by apply list_elem_of_filter).
  destruct (work s); [by apply elem_of_nil in Hw|simpl in Hq; lia].
Qed.
End spec.
