(* ===== verification/NvmfProps.v ===== *)
(** * Properties of the NVMe-oF target

    The target never touches a poll group that is gone, tears down in order,
    can always be brought to its end, and hangs when the RPC server does not
    start. *)
From S2P Require Import Prelude Nvmf NvmfSpec.

(** ** A library with two subsystems and a list of results *)
#[local] Instance demo_lib : NvmfLib (list Z) := {|
  tgt_create _ w := (Some 1, w);
  discovery_create _ w := (Some 2, w);
  subsystem_get_first _ _ := Some 10;
  subsystem_get_next x _ := if decide (x = 10) then Some 11 else None;
  subsystem_start _ w := (default 0 (head w), tail w);
  subsystem_stop _ w := (default 0 (head w), tail w);
  poll_group_create _ w := (Some 5, w);
  calloc_pg L w := (Some (fresh L), w);
  free_pg _ w := w;
  thread_create i w := (Some i, w);
  rpc_initialize w := (0, w);
  app_stop _ w := w;
  poller_register _ w := (Some 3, w);
  current_core th _ := th;
  thread_set_cpumask _ _ w := w;
  thread_exit _ w := w;
  allow_any_host _ w := w;
  poller_unregister _ w := w;
  rpc_set_runtime w := w;
  rpc_finish w := w;
|}.

#[local] Instance demo_laws : NvmfLaws (list Z).
Proof.
  unshelve econstructor; [exact (λ _ x, if decide (x = 10) then 1%nat else 0%nat)|..].
  - intros x y w. simpl. intros Hy. destruct (decide (x = 10)); [|done].
    injection Hy as <-. simpl. lia.
  - done.
  - done.
  - intros L p w [= <-]. apply is_fresh.
Defined.

Lemma demo_healthy : healthy (list Z).
Proof. by split; intros; try eexists. Qed.

Definition demo_boot : nvmf (list Z) := nvmf_boot [] [0; 1] 0 32 0.

Section props.
Context {W : Type} `{!NvmfLib W} `{!NvmfLaws W}.
Implicit Types (s : nvmf W).

(** (C21) In every state that the target of [nvmf.cc] can reach (on a machine with memory,
    and whatever the library answers to the target, the subsystems and their start and stop):
    every queued message and callback, with enough fuel for the loops, ends without a failed
    assertion, a null pointer or a freed poll group; while the target runs there is exactly
    one live poll group per core; once the target is being destroyed no poll group is alive;
    and nothing but a shutdown or migration message is left when the reactors end. *)
Theorem target_safe asserts (w : W) core_list period max_subs init s :
  healthy W → 0 < Z.of_nat (length core_list) < 2 ^ 32 →
  rtc (step asserts) (nvmf_boot w core_list period max_subs init) s →
  (∀ pre th e post status, events s = pre ++ (th, e) :: post → ∃ n, ∀ fuel, (n ≤ fuel)%nat →
     wp (handle asserts fuel th status e) (λ _ _, True) (λ _ _, False)
       (set_events (pre ++ post) s)) ∧
  (g_target_state s = NVMF_RUNNING →
     g_num_poll_groups s = Z.of_nat (length (core_ids s)) ∧
     size (poll_groups s) = length (core_ids s)) ∧
  (state_num NVMF_FINI_TARGET ≤ state_num (g_target_state s) → poll_groups s = ∅) ∧
  (g_reactors_exit s = true → ∀ th e, (th, e) ∈ events s → e = Shutdown ∨ e = Migrate).
Proof.
  intros Hh Hc Hs. pose proof (steps_life _ Hh _ _ Hs (boot_life w _ _ _ _ Hc)) as Hl.
  split_and!.
  - intros pre th e post status Hev. apply twp_elim.
    eapply twp_weaken; [by eapply (handle_spec asserts Hh)|]. done.
  - apply (life_running _ Hl).
  - apply (life_torn_down _ Hl).
  - apply (life_exited _ Hl).
Qed.

(** (C22) From every state that the target can reach, signals and the queued messages and
    callbacks can bring it to the end of its reactors: no shutdown, and no failure of the
    target or of a subsystem, leaves it waiting for something that never comes. *)
Theorem target_can_finish asserts (w : W) core_list period max_subs init s :
  healthy W → 0 < Z.of_nat (length core_list) < 2 ^ 32 →
  rtc (step asserts) (nvmf_boot w core_list period max_subs init) s →
  ∃ s', rtc (step asserts) s s' ∧ g_reactors_exit s' = true.
Proof.
  intros Hh Hc Hs. apply (can_finish _ Hh).
  exact (steps_life _ Hh _ _ Hs (boot_life w _ _ _ _ Hc)).
Qed.

(** What a failed start of the RPC server leaves. *)
Definition stuck s : Prop :=
  g_target_state s = NVMF_INIT_SUBSYSTEM ∧ works (events s) = [] ∧
  g_reactors_exit s = false ∧ g_poll_groups s = [].

Lemma stuck_more s ev b : stuck s → works ev = [] →
  stuck (set_events (events s ++ ev) (set_intr b s)).
Proof. intros (?&Hw&?&?) Hev. split_and!; try done. simpl. by rewrite works_app, Hw, Hev. Qed.

Lemma stuck_step asserts s s' : stuck s → step asserts s s' → stuck s'.
Proof.
  intros Hs Hstep. destruct (id Hs) as (Hst&Hw&Hex&Hg).
  destruct Hstep as [s s' (pre&th&e&post&status&fuel&Hev&Hr)|s s' p Hp Hm|s s' Hm|s w].
  - specialize (Hr fuel ltac:(lia)). rewrite Hev, works_take in Hw.
    destruct (ambient e) eqn:He; [|by destruct (works pre)].
    assert (stuck (set_events (pre ++ post) s)) as Hs0 by done.
    destruct e; try done; simpl in Hr.
    + unfold shutdown_cb, mbind, M_bind, get in Hr. simpl in Hr. rewrite Hst in Hr. simpl in Hr.
      injection Hr as <-.
      apply (stuck_more _ [(th, Shutdown)] (g_intr_received s)) in Hs0; [|done]. by destruct s.
    + injection Hr as <-. done.
  - unfold migrate_poll_groups_by_rr, mbind, M_bind, get in Hm. simpl in Hm. rewrite Hg in Hm.
    by injection Hm as <-.
  - unfold nvmf_shutdown_cb, mbind, M_bind, get in Hm. simpl in Hm.
    destruct (g_intr_received s); injection Hm as <-; [done|].
    by apply (stuck_more _ [(g_init_thread s, Shutdown)] true).
  - done.
Qed.

(** When the RPC server does not start, [nvmf_subsystem_init_done] calls
    [spdk_app_stop], which is no part of this program: the target stays in its first state
    for ever, the reactors never end, and a signal does not help. *)
Theorem rpc_failure_hangs asserts s s1 s2 pre th post status n :
  events s = pre ++ (th, InitDone) :: post → works (pre ++ post) = [] →
  g_target_state s = NVMF_INIT_SUBSYSTEM → g_reactors_exit s = false → g_poll_groups s = [] →
  (rpc_initialize (lib s)).1 ≠ 0 →
  handle asserts n th status InitDone (set_events (pre ++ post) s) = Done tt s1 →
  rtc (step asserts) s1 s2 →
  g_target_state s2 = NVMF_INIT_SUBSYSTEM ∧ g_reactors_exit s2 = false.
Proof.
  intros Hev Hw Hst Hex Hg Hrc Hr Hs2.
  assert (stuck s1) as Hs1.
  { simpl in Hr. unfold nvmf_subsystem_init_done, mbind, M_bind, lib_call in Hr. simpl in Hr.
    rewrite decide_True in Hr by done. by injection Hr as <-. }
  assert (stuck s2) as (?&_&?&_); [|done].
  clear -Hs2 Hs1. induction Hs2; [done|]. eauto using stuck_step.
Qed.
End props.

(** ** Runs of the small library *)
Lemma demo_started : rtc (step true) demo_boot (set_events [(0, InitDone)] demo_boot).
Proof.
  apply rtc_once, step_event. exists [], 0, AppStart, [], 0, 1%nat. split; [reflexivity|].
  intros [|k] Hk; [lia|reflexivity].
Qed.

Lemma target_safe_witness : ∃ n, ∀ fuel, (n ≤ fuel)%nat →
  wp (handle true fuel 0 0 InitDone) (λ _ _, True) (λ _ _, False) (set_events [] demo_boot).
Proof.
  destruct (target_safe true [] [0; 1] 0 32 0 (set_events [(0, InitDone)] demo_boot)
    demo_healthy) as [H _]; [simpl; lia|exact demo_started|].
  exact (H [] 0 InitDone [] 0 eq_refl).
Defined.

Lemma target_can_finish_witness : ∃ s',
  rtc (step true) (set_events [(0, InitDone)] demo_boot) s' ∧ g_reactors_exit s' = true.
Proof.
  apply (target_can_finish true [] [0; 1] 0 32 0); [exact demo_healthy|simpl; lia|].
  exact demo_started.
Defined.

(** The same library with an RPC server that does not start. *)
Definition refusing_lib : NvmfLib (list Z) := {|
  tgt_create := tgt_create; discovery_create := discovery_create;
  subsystem_get_first := subsystem_get_first; subsystem_get_next := subsystem_get_next;
  subsystem_start := subsystem_start; subsystem_stop := subsystem_stop;
  poll_group_create := poll_group_create; calloc_pg := calloc_pg; free_pg := free_pg;
  thread_create := thread_create; rpc_initialize w := (-1, w); app_stop := app_stop;
  poller_register := poller_register; current_core := current_core;
  thread_set_cpumask := thread_set_cpumask; thread_exit := thread_exit;
  allow_any_host := allow_any_host; poller_unregister := poller_unregister;
  rpc_set_runtime := rpc_set_runtime; rpc_finish := rpc_finish;
|}.

Lemma rpc_failure_hangs_witness :
  g_target_state (set_events [] demo_boot) = NVMF_INIT_SUBSYSTEM ∧
  g_reactors_exit (set_events [] demo_boot) = false.
Proof.
  apply (@rpc_failure_hangs _ refusing_lib true (set_events [(0, InitDone)] demo_boot)
    (set_events [] demo_boot) _ [] 0 [] 0 0); try reflexivity.
  discriminate.
Defined.
