(* ===== verification/Reactor.v ===== *)
(** * The reactors of the NVMe-oF target

    [nvmf.cc]: its command line, the set-up of one reactor per core, the
    round-robin placement of lightweight threads and the loop in which a
    reactor polls its threads in turn. *)
From S2P Require Import Prelude.
Local Open Scope string_scope.
Local Open Scope Z_scope.

(** ** The command line *)

(** What [getopt_long] returns: a short option, or [--no-huge]. *)
Inductive nvmf_option := Short (op : ascii) | NVMF_NO_HUGE.

Record nvmf_options := NvmfOptions {
  opt_period_us : Z;
  opt_shm_id : Z;
  opt_core_mask : string;
  opt_max_subsystems : Z;
  opt_rpc_addr : string;
  opt_mem_size : Z;
  opt_no_pci : bool;
  opt_no_huge : bool;
}.

Section command_line.
Context (spdk_strtol : string → Z).

(** One option: [inl] leaves [parse_args] with that status. *)
Definition nvmf_parse_opt (op : nvmf_option) (optarg : string) : M nvmf_options (option Z) :=
  let value := spdk_strtol optarg in
  let number (f : nvmf_options → nvmf_options) : M nvmf_options (option Z) :=
    if decide (value < 0) then mret (Some (- 22)) else modify f;; mret None in
  match op with
  | Short "g" => number (λ o, NvmfOptions (u32 value) (opt_shm_id o) (opt_core_mask o)
      (opt_max_subsystems o) (opt_rpc_addr o) (opt_mem_size o) (opt_no_pci o) (opt_no_huge o))
  | Short "i" => number (λ o, NvmfOptions (opt_period_us o) (i32 value) (opt_core_mask o)
      (opt_max_subsystems o) (opt_rpc_addr o) (opt_mem_size o) (opt_no_pci o) (opt_no_huge o))
  | Short "m" => modify (λ o, NvmfOptions (opt_period_us o) (opt_shm_id o) optarg
      (opt_max_subsystems o) (opt_rpc_addr o) (opt_mem_size o) (opt_no_pci o) (opt_no_huge o));;
      mret None
  | Short "n" =>
      modify (λ o, NvmfOptions (opt_period_us o) (opt_shm_id o) (opt_core_mask o) (i32 value)
        (opt_rpc_addr o) (opt_mem_size o) (opt_no_pci o) (opt_no_huge o));;
      mret (if decide (i32 value < 0) then Some (- 22) else None)
  | Short "r" => modify (λ o, NvmfOptions (opt_period_us o) (opt_shm_id o) (opt_core_mask o)
      (opt_max_subsystems o) optarg (opt_mem_size o) (opt_no_pci o) (opt_no_huge o));;
      mret None
  | Short "s" => number (λ o, NvmfOptions (opt_period_us o) (opt_shm_id o) (opt_core_mask o)
      (opt_max_subsystems o) (opt_rpc_addr o) (i32 value) (opt_no_pci o) (opt_no_huge o))
  | Short "u" => modify (λ o, NvmfOptions (opt_period_us o) (opt_shm_id o) (opt_core_mask o)
      (opt_max_subsystems o) (opt_rpc_addr o) (opt_mem_size o) true (opt_no_huge o));; mret None
  | Short "h" => exit 0
  | NVMF_NO_HUGE => modify (λ o, NvmfOptions (opt_period_us o) (opt_shm_id o) (opt_core_mask o)
      (opt_max_subsystems o) (opt_rpc_addr o) (opt_mem_size o) (opt_no_pci o) true);; mret None
  | Short _ => mret (Some 1)
  end.

Fixpoint nvmf_parse_args (ops : list (nvmf_option * string)) : M nvmf_options Z :=
  match ops with
  | [] => mret 0
  | (op, optarg) :: ops' =>
      r ← nvmf_parse_opt op optarg;
      match r with Some rc => mret rc | None => nvmf_parse_args ops' end
  end.
End command_line.

(** ** Reactors and lightweight threads *)
Record nvmf_reactor := NvmfReactor { core : Z; threads : list Z }.

(** SPDK's threads and rings, DPDK's cores.  Polling a thread runs its messages:
    it may ask to be moved ([true]) and make new threads (the list). *)
Class ThreadLib (W : Type) := {
  cpuset_get_cpu : Z → Z → W → bool;
  thread_poll : Z → W → (bool * list Z) * W;
  thread_is_exited : Z → W → bool;
  thread_is_idle : Z → W → bool;
  thread_exit : Z → W → W;
  thread_destroy : Z → W → W;
  exit_requested : W → bool;
  reactor_alloc : Z → W → bool * W;
  ring_create : Z → W → bool * W;
  launch_pinned : Z → W → Z * W;
  main_thread_create : W → option Z * W;
}.

(** [g_next_reactor] is a position in the list [g_reactors]. *)
Record sched (W : Type) := Sched {
  tlib : W;
  g_reactors : list nvmf_reactor;
  g_next_reactor : option nat;
  g_main_reactor : option nat;
  resched : gmap Z bool;
}.
Arguments Sched {W} _ _ _ _ _.
Arguments tlib {W} _.
Arguments g_reactors {W} _.
Arguments g_next_reactor {W} _.
Arguments g_main_reactor {W} _.
Arguments resched {W} _.

Section reactor.
Context {W : Type} `{!ThreadLib W}.
(** The size of a ring: 1024 in the code. *)
Context (ring_size : nat).
Implicit Types (s : sched W) (t : Z) (r : nat).

Definition set_tlib (w : W) s : sched W :=
  Sched w (g_reactors s) (g_next_reactor s) (g_main_reactor s) (resched s).
Definition set_reactors (l : list nvmf_reactor) s : sched W :=
  Sched (tlib s) l (g_next_reactor s) (g_main_reactor s) (resched s).
Definition set_next (n : option nat) s : sched W :=
  Sched (tlib s) (g_reactors s) n (g_main_reactor s) (resched s).
Definition set_main (n : option nat) s : sched W :=
  Sched (tlib s) (g_reactors s) (g_next_reactor s) n (resched s).
Definition set_resched (m : gmap Z bool) s : sched W :=
  Sched (tlib s) (g_reactors s) (g_next_reactor s) (g_main_reactor s) m.

Definition tcall {A} (f : W → A * W) : M (sched W) A := λ s,
  Done (f (tlib s)).1 (set_tlib (f (tlib s)).2 s).
Definition teffect (f : W → W) : M (sched W) () := modify (λ s, set_tlib (f (tlib s)) s).

(** [spdk_ring_enqueue]: a full ring takes nothing; no caller looks. *)
Definition enqueue (r : nat) t : M (sched W) () := modify (λ s,
  set_reactors (alter (λ x, NvmfReactor (core x)
    (if decide (length (threads x) < ring_size)%nat then threads x ++ [t] else threads x)) r
    (g_reactors s)) s).

Definition dequeue (r : nat) : M (sched W) (option Z) := λ s,
  match threads <$> g_reactors s !! r with
  | Some (t :: l) =>
      Done (Some t) (set_reactors (alter (λ x, NvmfReactor (core x) l) r (g_reactors s)) s)
  | _ => Done None s
  end.

(** The loop of [nvmf_schedule_spdk_thread], [n] turns of it. *)
Fixpoint place (n : nat) t : M (sched W) Z :=
  match n with
  | O => mret (-1)
  | S n' =>
      s ← get;
      let k := match g_next_reactor s with None => O | Some k => k end in
      x ← of_option (g_reactors s !! k);
      modify (set_next (if decide (S k < length (g_reactors s))%nat then Some (S k) else None));;
      if cpuset_get_cpu t (core x) (tlib s) then enqueue k t;; mret 0
      else place n' t
  end.

Definition nvmf_schedule_spdk_thread t : M (sched W) Z :=
  modify (λ s, set_resched (<[t := false]> (resched s)) s);;
  s ← get;
  place (length (g_reactors s)) t.

Definition nvmf_request_spdk_thread_reschedule t : M (sched W) () :=
  modify (λ s, set_resched (<[t := true]> (resched s)) s).

(** The operations SPDK asks for. *)
Inductive thread_op := SPDK_THREAD_OP_NEW | SPDK_THREAD_OP_RESCHED | other_op.

Definition ENOTSUP : Z := 95.

Definition nvmf_reactor_thread_op t (op : thread_op) : M (sched W) Z :=
  match op with
  | SPDK_THREAD_OP_NEW => nvmf_schedule_spdk_thread t
  | SPDK_THREAD_OP_RESCHED => nvmf_request_spdk_thread_reschedule t;; mret 0
  | other_op => mret (- ENOTSUP)
  end.

Definition nvmf_reactor_thread_op_supported (op : thread_op) : bool :=
  match op with SPDK_THREAD_OP_NEW | SPDK_THREAD_OP_RESCHED => true | other_op => false end.

(** [spdk_thread_poll]: what the thread asks for goes through the operations. *)
Definition poll t : M (sched W) () :=
  r ← tcall (thread_poll t);
  foreach r.2 (λ t', _ ← nvmf_reactor_thread_op t' SPDK_THREAD_OP_NEW; skip);;
  if r.1 : bool then _ ← nvmf_reactor_thread_op t SPDK_THREAD_OP_RESCHED; skip else skip.

(** One turn of the first loop of [nvmf_reactor_run]. *)
Definition reactor_turn (r : nat) : M (sched W) () :=
  t ← dequeue r;
  match t with
  | None => skip
  | Some t =>
      poll t;;
      s ← get;
      if thread_is_exited t (tlib s) && thread_is_idle t (tlib s) then
        teffect (thread_destroy t)
      else if default false (resched s !! t) then
        modify (λ s, set_resched (<[t := false]> (resched s)) s);;
        _ ← nvmf_schedule_spdk_thread t;
        skip
      else enqueue r t
  end.

(** One turn of the second loop: [false] when the ring is empty. *)
Definition drain_turn (r : nat) : M (sched W) bool :=
  t ← dequeue r;
  match t with
  | None => mret false
  | Some t =>
      s ← get;
      (if thread_is_exited t (tlib s) then teffect (thread_destroy t)
       else teffect (thread_exit t);; poll t;; enqueue r t);;
      mret true
  end.

Fixpoint drain (fuel : nat) (r : nat) : M (sched W) () :=
  match fuel with
  | O => λ _, Spin
  | S fuel' => more ← drain_turn r; if more : bool then drain fuel' r else skip
  end.

Fixpoint nvmf_reactor_run (fuel : nat) (r : nat) : M (sched W) Z :=
  match fuel with
  | O => λ _, Spin
  | S fuel' =>
      reactor_turn r;;
      s ← get;
      if exit_requested (tlib s) then drain fuel' r;; mret 0 else nvmf_reactor_run fuel' r
  end.

(** ** The set-up *)
Definition ENOMEM : Z := 12.

Fixpoint init_reactors (cores : list Z) (main_core : Z) : M (sched W) Z :=
  match cores with
  | [] => mret 0
  | i :: cores' =>
      ok ← tcall (reactor_alloc i);
      if negb ok then mret (- ENOMEM) else
      ok ← tcall (ring_create i);
      if negb ok then mret (- ENOMEM) else
      modify (λ s, set_reactors (g_reactors s ++ [NvmfReactor i []]) s);;
      s ← get;
      let k := (length (g_reactors s) - 1)%nat in
      rc ← (if decide (i = main_core) then
              modify (set_main (Some k));; modify (set_next (Some k));; mret 0
            else tcall (launch_pinned i));
      if decide (rc ≠ 0) then mret rc else init_reactors cores' main_core
  end.

(** [spdk_thread_create] asks the program to place the new thread and fails when
    it does not. *)
Definition spdk_thread_create : M (sched W) (option Z) :=
  t ← tcall main_thread_create;
  match t with
  | None => mret None
  | Some t =>
      rc ← nvmf_reactor_thread_op t SPDK_THREAD_OP_NEW;
      mret (if decide (rc = 0) then Some t else None)
  end.

Definition nvmf_init_threads (cores : list Z) (main_core : Z) : M (sched W) Z :=
  rc ← init_reactors cores main_core;
  if decide (rc ≠ 0) then mret rc else
  t ← spdk_thread_create;
  mret (match t with None => -1 | Some _ => 0 end).
End reactor.
