(* ===== verification/ReactorProps.v ===== *)
(** * Properties of the reactors

    Lightweight threads are placed round robin on the reactors of their CPU
    mask, and a turn of a reactor neither loses nor doubles a thread. *)
From S2P Require Import Prelude Reactor.

Section props.
Context {W : Type} `{!ThreadLib W}.
Context (ring_size : nat).
Implicit Types (s : sched W) (t : Z) (r k i : nat).

(** ** Placing a thread *)
Definition position s : nat := match g_next_reactor s with None => O | Some k => k end.

(** The reactors in the order in which the scheduler asks them. *)
Definition visits (len k n : nat) : list nat := (λ j, (k + j) `mod` len)%nat <$> seq 0 n.

(** Whether reactor [i] is in the CPU mask of the thread. *)
Definition fits t s i : bool :=
  match g_reactors s !! i with Some x => cpuset_get_cpu t (core x) (tlib s) | None => false end.

Definition placed_at t i s : sched W :=
  set_reactors (alter (λ x, NvmfReactor (core x)
    (if decide (length (threads x) < ring_size)%nat then threads x ++ [t] else threads x)) i
    (g_reactors s))
    (set_next (if decide (S i < length (g_reactors s))%nat then Some (S i) else None) s).

Lemma visits_cons len k n : (k < len)%nat →
  visits len k (S n) = k :: visits len (if decide (S k < len)%nat then S k else O) n.
Proof.
  intros Hk. unfold visits. simpl. rewrite Nat.add_0_r, Nat.mod_small by done. f_equal.
  rewrite <-fmap_S_seq, <-list_fmap_compose. apply list_fmap_ext. intros _ j _. simpl.
  case_decide.
  - f_equal. lia.
  - replace (k + S j)%nat with (j + 1 * len)%nat by lia. by rewrite Nat.Div0.mod_add.
Qed.

(** Every reactor is asked once. *)
Lemma visits_all len k : (k < len)%nat → visits len k len = seq k (len - k) ++ seq 0 k.
Proof.
  intros Hk. unfold visits.
  assert (seq 0 len = seq 0 (len - k) ++ seq (0 + (len - k)) k) as ->
    by (rewrite <-seq_app; f_equal; lia).
  rewrite fmap_app. f_equal.
  - rewrite <-(Nat.add_0_r k) at 2. rewrite <-fmap_add_seq. apply list_fmap_ext.
    intros _ j [_ ?]%list_elem_of_lookup_2%elem_of_seq. rewrite Nat.mod_small; lia.
  - rewrite <-(Nat.add_0_r (0 + (len - k))), <-fmap_add_seq, <-list_fmap_compose.
    rewrite <-(list_fmap_id (seq 0 k)) at 2. apply list_fmap_ext.
    intros _ j [_ ?]%list_elem_of_lookup_2%elem_of_seq. simpl.
    replace (k + (len - k + j))%nat with (j + 1 * len)%nat by lia.
    rewrite Nat.Div0.mod_add, Nat.mod_small; lia.
Qed.

Lemma visits_nodup len k : (k < len)%nat → NoDup (visits len k len).
Proof.
  intros Hk. rewrite visits_all by done. apply NoDup_app. split_and!; try apply NoDup_seq.
  intros i [??]%elem_of_seq [??]%elem_of_seq. lia.
Qed.

Lemma elem_of_visits len k i : (k < len)%nat → i ∈ visits len k len ↔ (i < len)%nat.
Proof. intros Hk. rewrite visits_all, elem_of_app, !elem_of_seq by done. lia. Qed.

Lemma place_spec n t s E : (position s < length (g_reactors s))%nat →
  wp (place ring_size n t) (λ rc s',
    match head (filter (λ i, fits t s i = true) (visits (length (g_reactors s)) (position s) n)) with
    | Some i => rc = 0 ∧ s' = placed_at t i s
    | None => rc = -1 ∧ ∃ q, s' = set_next q s ∧ (position s' < length (g_reactors s))%nat
    end) E s.
Proof.
  revert s. induction n as [|n IH]; intros s Hpos.
  { simpl. apply wp_ret. split; [done|]. exists (g_next_reactor s). split; [by destruct s|done]. }
  rewrite visits_cons by done.
  destruct (lookup_lt_is_Some_2 (g_reactors s) (position s) Hpos) as [x Hx].
  simpl. apply wp_bind, wp_get, wp_bind. eapply wp_of_option; [exact Hx|].
  apply wp_bind, wp_modify. fold (position s).
  set (s1 := set_next _ s).
  assert (fits t s (position s) = cpuset_get_cpu t (core x) (tlib s)) as Hfit
    by (unfold fits; by rewrite Hx).
  destruct (cpuset_get_cpu t (core x) (tlib s)) eqn:Hc.
  - rewrite filter_cons_True by done. simpl. apply wp_bind, wp_modify, wp_ret. by split.
  - rewrite filter_cons_False by (rewrite Hfit; done).
    assert (position s1 = if decide (S (position s) < length (g_reactors s))%nat
      then S (position s) else O) as Hp1 by (unfold position at 1, s1; simpl; by case_decide).
    assert (position s1 < length (g_reactors s1))%nat as Hlt1
      by (rewrite Hp1; simpl; case_decide; lia).
    specialize (IH s1 Hlt1). simpl in IH. rewrite <-Hp1.
    eapply wp_weaken; [exact IH|]. intros rc s' Hs'.
    change (λ i, fits t s1 i = true) with (λ i, fits t s i = true) in Hs'.
    destruct (head _); destruct Hs' as [-> Hs']; (split; [done|]); [by rewrite Hs'|].
    destruct Hs' as (q&->&?). exists q. by split.
Qed.

(** (C23) [nvmf_schedule_spdk_thread] asks every reactor once, round robin from the one after
    the last placement, and puts the thread at the end of the ring of the first one that is
    in its CPU mask; when no reactor is in the mask it returns -1 and the thread is in no
    ring. *)
Theorem schedule_round_robin t s : (position s < length (g_reactors s))%nat →
  wp (nvmf_schedule_spdk_thread ring_size t) (λ rc s',
    let order := visits (length (g_reactors s)) (position s) (length (g_reactors s)) in
    NoDup order ∧ (∀ i, i ∈ order ↔ (i < length (g_reactors s))%nat) ∧
    match head (filter (λ i, fits t s i = true) order) with
    | Some i => rc = 0 ∧ position s' = (S i `mod` length (g_reactors s))%nat ∧
        (∀ x, g_reactors s !! i = Some x → (length (threads x) < ring_size)%nat →
           g_reactors s' !! i = Some (NvmfReactor (core x) (threads x ++ [t]))) ∧
        ∀ j, j ≠ i → g_reactors s' !! j = g_reactors s !! j
    | None => rc = -1 ∧ g_reactors s' = g_reactors s
    end) (λ _ _, False) s.
Proof.
  intros Hpos. unfold nvmf_schedule_spdk_thread. apply wp_bind, wp_modify, wp_bind, wp_get.
  set (s1 := set_resched _ s). eapply wp_weaken; [by apply (place_spec _ t s1)|].
  intros rc s' Hs'. cbv zeta. split; [by apply visits_nodup|].
  split; [intros i; by apply elem_of_visits|].
  change (λ i, fits t s1 i = true) with (λ i, fits t s i = true) in Hs'.
  change (position s1) with (position s) in Hs'.
  change (g_reactors s1) with (g_reactors s) in Hs'.
  simpl in Hs'. destruct (head _) as [i|] eqn:Hi; destruct Hs' as [-> Hs']; (split; [done|]).
  - assert (i < length (g_reactors s))%nat as Hlt.
    { apply head_Some_elem_of, list_elem_of_filter in Hi as [_ Hi].
      by apply elem_of_visits in Hi. }
    subst s'. split_and!.
    + unfold position, placed_at. simpl. case_decide; [by rewrite Nat.mod_small|].
      replace (S i) with (length (g_reactors s)) by lia. by rewrite Nat.Div0.mod_same.
    + intros x Hx Hroom. simpl. rewrite list_lookup_alter_eq, Hx. simpl.
      by rewrite decide_True.
    + intros j Hj. simpl. by rewrite list_lookup_alter_ne.
  - by destruct Hs' as (q&->&_).
Qed.

(** ** A turn of a reactor *)
Definition all_threads s : list Z := mjoin (threads <$> g_reactors s).

(** The pointer is in the list, and every mask holds the core of a reactor. *)
Definition schedulable s : Prop :=
  (position s < length (g_reactors s))%nat ∧
  ∀ t (w : W), ∃ c, c ∈ core <$> g_reactors s ∧ cpuset_get_cpu t c w = true.

Lemma alter_core (f : nvmf_reactor → nvmf_reactor) i (l : list nvmf_reactor) : (∀ x, core (f x) = core x) →
  core <$> alter f i l = core <$> l.
Proof.
  intros Hf. apply list_eq. intros j. rewrite !list_lookup_fmap.
  destruct (decide (j = i)) as [->|]; [|by rewrite list_lookup_alter_ne].
  rewrite list_lookup_alter_eq. destruct (l !! i); simpl; [by rewrite Hf|done].
Qed.

Lemma schedulable_alter f i s q : schedulable s → (∀ x, core (f x) = core x) →
  (match q with None => O | Some k => k end < length (g_reactors s))%nat →
  schedulable (set_reactors (alter f i (g_reactors s)) (set_next q s)).
Proof.
  intros [Hp Hm] Hf Hq. split; unfold position; simpl; [by rewrite length_alter|].
  rewrite alter_core by done. exact Hm.
Qed.

Lemma ring_room s i x : g_reactors s !! i = Some x →
  (length (threads x) ≤ length (all_threads s))%nat.
Proof.
  intros Hx. apply take_drop_middle in Hx. unfold all_threads. rewrite <-Hx.
  rewrite fmap_app, join_app, length_app. simpl. rewrite length_app. lia.
Qed.

Lemma all_alter s i x f : g_reactors s !! i = Some x →
  mjoin (threads <$> alter f i (g_reactors s)) ++ threads x ≡ₚ threads (f x) ++ all_threads s.
Proof.
  intros Hx. unfold all_threads. rewrite <-(take_drop_middle _ _ _ Hx) at 2.
  assert (alter f i (g_reactors s) = <[i := f x]> (g_reactors s)) as ->.
  { apply list_eq. intros j. destruct (decide (j = i)) as [->|].
    - rewrite list_lookup_alter_eq, Hx. simpl. rewrite list_lookup_insert_eq; [done|].
      by eapply lookup_lt_Some.
    - by rewrite list_lookup_alter_ne, list_lookup_insert_ne. }
  rewrite insert_take_drop by (by eapply lookup_lt_Some).
  rewrite !fmap_app, !join_app. simpl. solve_Permutation.
Qed.

Lemma all_enqueue s i x t : g_reactors s !! i = Some x →
  (length (all_threads s) < ring_size)%nat →
  mjoin (threads <$> alter (λ x, NvmfReactor (core x)
    (if decide (length (threads x) < ring_size)%nat then threads x ++ [t] else threads x)) i
    (g_reactors s)) ≡ₚ t :: all_threads s.
Proof.
  intros Hx Hroom. pose proof (ring_room _ _ _ Hx).
  apply (Permutation_app_inv_r (threads x)). rewrite (all_alter _ _ _ _ Hx). simpl.
  rewrite decide_True by lia. solve_Permutation.
Qed.

Lemma schedule_keeps t s E : schedulable s → (length (all_threads s) < ring_size)%nat →
  wp (nvmf_schedule_spdk_thread ring_size t) (λ _ s',
    all_threads s' ≡ₚ t :: all_threads s ∧ schedulable s' ∧ tlib s' = tlib s ∧
    length (g_reactors s') = length (g_reactors s)) E s.
Proof.
  intros Hs Hroom. unfold nvmf_schedule_spdk_thread. apply wp_bind, wp_modify, wp_bind, wp_get.
  set (s1 := set_resched _ s). destruct (id Hs) as [Hpos Hm].
  eapply wp_weaken; [by apply (place_spec _ t s1)|].
  intros rc s' Hs'. simpl in Hs'. destruct (head _) as [i|] eqn:Hi.
  - apply head_Some_elem_of, list_elem_of_filter in Hi as [_ Hi].
    apply elem_of_visits in Hi; [|done].
    destruct (lookup_lt_is_Some_2 _ _ Hi) as [x Hx]. destruct Hs' as [_ ->].
    split_and!; [| |done|simpl; by rewrite length_alter].
    + by apply (all_enqueue s1 i x).
    + apply (schedulable_alter _ _ s1); [done|done|]. simpl. case_decide; simpl in *; lia.
  - exfalso. destruct (Hm t (tlib s)) as (c&Hc&Hfit).
    apply list_elem_of_fmap in Hc as (x&->&Hx). apply list_elem_of_lookup in Hx as [i Hx].
    assert (i ∈ filter (λ i, fits t s1 i = true)
      (visits (length (g_reactors s)) (position s) (length (g_reactors s)))) as Hin.
    { apply list_elem_of_filter. split; [unfold fits; simpl; by rewrite Hx|].
      apply elem_of_visits; [done|]. by eapply lookup_lt_Some. }
    change (position s1) with (position s) in Hi.
    destruct (filter _ _); [by apply elem_of_nil in Hin|done].
Qed.

Lemma poll_keeps t s : schedulable s →
  (length (all_threads s) + length (thread_poll t (tlib s)).1.2 ≤ ring_size)%nat →
  wp (poll ring_size t) (λ _ s', all_threads s' ≡ₚ (thread_poll t (tlib s)).1.2 ++ all_threads s ∧
    schedulable s' ∧ tlib s' = (thread_poll t (tlib s)).2 ∧
    length (g_reactors s') = length (g_reactors s)) (λ _ _, False) s.
Proof.
  intros Hs Hroom. unfold poll. apply wp_bind. unfold tcall, wp at 1. simpl.
  destruct (thread_poll t (tlib s)) as [[ask ns] w]. simpl in *.
  apply wp_bind. eapply wp_weaken; [apply (wp_foreach _ (λ pre s',
    all_threads s' ≡ₚ pre ++ all_threads s ∧ schedulable s' ∧ tlib s' = w ∧
    length (g_reactors s') = length (g_reactors s)))|].
  - intros pre t' rest s' Hns (Hall&Hs'&Hw&Hln). simpl. apply wp_bind.
    eapply wp_weaken; [apply schedule_keeps; [done|]|].
    { rewrite Hall, length_app. rewrite Hns, !length_app in Hroom. simpl in Hroom. lia. }
    intros rc s'' (Hall'&Hs''&Hw'&Hln'). apply wp_skip. split_and!; [|done|congruence..].
    rewrite Hall', Hall. solve_Permutation.
  - done.
  - intros [] s' (Hall&Hs'&Hw&Hln). destruct ask; [|by apply wp_skip].
    apply wp_bind, wp_bind, wp_modify, wp_ret, wp_skip. done.
Qed.

(** (C24) A turn of a reactor of [nvmf.cc] takes the oldest thread of its ring, polls it, and
    neither loses nor doubles a thread: afterwards the rings hold the same threads, the new
    ones that the poll has made, and the polled one unless it has exited and is idle
    (provided every CPU mask holds the core of a reactor and the rings have room). *)
Theorem turn_keeps_threads r x t l s :
  schedulable s → g_reactors s !! r = Some x → threads x = t :: l →
  (length (all_threads s) + length (thread_poll t (tlib s)).1.2 ≤ ring_size)%nat →
  wp (reactor_turn ring_size r) (λ _ s',
    let made := (thread_poll t (tlib s)).1.2 in let w := (thread_poll t (tlib s)).2 in
    ∃ others, all_threads s ≡ₚ t :: others ∧
      all_threads s' ≡ₚ made ++ (if thread_is_exited t w && thread_is_idle t w
                                  then others else t :: others) ∧
      schedulable s') (λ _ _, False) s.
Proof.
  intros Hs Hx Ht Hroom. unfold reactor_turn. apply wp_bind. unfold dequeue, wp at 1.
  rewrite Hx. simpl. rewrite Ht. set (s1 := set_reactors _ s).
  assert (all_threads s ≡ₚ t :: all_threads s1) as Hall.
  { symmetry. apply (Permutation_app_inv_r l).
    change (t :: all_threads s1) with ([t] ++ all_threads s1).
    assert (all_threads s1 ++ threads x ≡ₚ l ++ all_threads s) as Ha by (by apply all_alter).
    rewrite Ht in Ha. rewrite (Permutation_app_comm (all_threads s)), <-Ha. solve_Permutation. }
  assert (schedulable s1) as Hs1.
  { destruct Hs as [Hp Hm]. split; unfold position in *; simpl; [by rewrite length_alter|].
    by rewrite alter_core. }
  assert (length (all_threads s) = S (length (all_threads s1))) as Hlen
    by (by rewrite Hall).
  apply wp_bind. eapply wp_weaken; [apply poll_keeps; [done|simpl; lia]|].
  intros [] s2 (Hall2&Hs2&Hw2&Hln2). simpl in Hall2, Hw2, Hln2. apply wp_bind, wp_get. rewrite Hw2.
  set (made := (thread_poll t (tlib s)).1.2) in *. set (w := (thread_poll t (tlib s)).2) in *.
  assert (length (all_threads s2) < ring_size)%nat as Hroom2
    by (rewrite Hall2, length_app; lia).
  destruct (thread_is_exited t w && thread_is_idle t w); [|destruct (default false _)].
  - apply wp_modify. exists (all_threads s1). split_and!; [done|exact Hall2|exact Hs2].
  - apply wp_bind, wp_modify, wp_bind. eapply wp_weaken; [apply schedule_keeps; [done|done]|].
    intros rc s3 (Hall3&Hs3&_). apply wp_skip. exists (all_threads s1). split_and!; [done| |done].
    rewrite Hall3. change (all_threads (set_resched _ s2)) with (all_threads s2).
    rewrite Hall2. solve_Permutation.
  - apply wp_modify. exists (all_threads s1).
    destruct (lookup_lt_is_Some_2 (g_reactors s2) r) as [y Hy].
    { rewrite Hln2, length_alter. by eapply lookup_lt_Some. }
    split_and!; [done| |].
    + unfold all_threads at 1. simpl. rewrite (all_enqueue s2 r y) by done. rewrite Hall2.
      solve_Permutation.
    + destruct Hs2 as [Hp Hm]. split; unfold position in *; simpl; [by rewrite length_alter|].
      by rewrite alter_core.
Qed.
End props.

(** ** Two reactors: even threads belong to core 0, odd ones to core 1 *)
#[local] Instance demo_threads : ThreadLib () := {|
  cpuset_get_cpu t c _ := bool_decide (t mod 2 = c);
  thread_poll t w := ((false, [t + 10]), w);
  thread_is_exited _ _ := false;
  thread_is_idle _ _ := true;
  thread_exit _ w := w;
  thread_destroy _ w := w;
  exit_requested _ := true;
  reactor_alloc _ w := (true, w);
  ring_create _ w := (true, w);
  launch_pinned _ w := (0, w);
  main_thread_create w := (Some 2, w);
|}.

Definition demo_sched : sched () :=
  Sched () [NvmfReactor 0 [4; 6]; NvmfReactor 1 [3]] (Some 1%nat) (Some O) ∅.

Lemma demo_schedulable : schedulable demo_sched.
Proof.
  split; [vm_compute; lia|]. intros t w. exists (t mod 2). split; [|by apply bool_decide_eq_true].
  pose proof (Z.mod_pos_bound t 2 ltac:(lia)). simpl. rewrite !elem_of_cons. lia.
Qed.

Definition demo_placed : sched () :=
  Sched () [NvmfReactor 0 [4; 6; 8]; NvmfReactor 1 [3]] (Some 1%nat) (Some O) {[ 8 := false ]}.
Definition demo_turned : sched () :=
  Sched () [NvmfReactor 0 [6; 14; 4]; NvmfReactor 1 [3]] (Some 1%nat) (Some O) {[ 14 := false ]}.

Lemma demo_placed_run : nvmf_schedule_spdk_thread 1024 8 demo_sched = Done 0 demo_placed.
Proof. vm_compute. reflexivity. Qed.
Lemma demo_turned_run : reactor_turn 1024 0 demo_sched = Done tt demo_turned.
Proof. vm_compute. reflexivity. Qed.

Lemma schedule_round_robin_witness :
  nvmf_schedule_spdk_thread 1024 8 demo_sched = Done 0 demo_placed ∧
  position demo_placed = 1%nat ∧
  g_reactors demo_placed !! 0%nat = Some (NvmfReactor 0 [4; 6; 8]).
Proof.
  pose proof (schedule_round_robin 1024 8 demo_sched ltac:(vm_compute; lia)) as H.
  split; [exact demo_placed_run|].
  destruct (wp_done _ _ _ _ _ _ H demo_placed_run) as (_&_&_&Hp&Hx&_).
  split; [exact Hp|]. apply (Hx (NvmfReactor 0 [4; 6])); [reflexivity|simpl; lia].
Defined.

Lemma turn_keeps_threads_witness : ∃ others,
  reactor_turn 1024 0 demo_sched = Done tt demo_turned ∧
  all_threads demo_sched ≡ₚ 4 :: others ∧ all_threads demo_turned ≡ₚ [14] ++ 4 :: others.
Proof.
  pose proof (turn_keeps_threads 1024 0 (NvmfReactor 0 [4; 6]) 4 [6] demo_sched
    demo_schedulable eq_refl eq_refl ltac:(simpl; lia)) as H.
  destruct (wp_done _ _ _ _ _ _ H demo_turned_run) as (others&H1&H2&_). exists others.
  split; [exact demo_turned_run|]. split; [exact H1|exact H2].
Defined.
