(* ===== verification/Rdma.v ===== *)
(** * The RDMA client and server

    [rdma/rdma_client.cc] and [rdma/rdma_server.cc]: each side sets up its
    connection, they exchange the descriptions of their buffers, the client
    writes its buffer to the server's, reads it back into another one and
    compares.  The verbs, the connection manager and [rdma_common] are a
    library; what a program allocates is a handle of it.  The memory of the client
    is a map from the address of a block to its bytes, into which the library
    may write. *)
From S2P Require Import Prelude.
From Stdlib Require Import Ascii.
Local Open Scope Z_scope.

(** [struct sockaddr_in], the address in host order and the port in network order. *)
Record sockaddr := Sockaddr { sin_addr : Z; sin_port : Z }.

(** A registered buffer; [local_stag] and [remote_stag] of a description are the
    same word. *)
Record mr := Mr { lkey : Z; mr_addr : Z; mr_length : Z }.
Record buffer_attr := Attr { a_address : Z; a_length : Z; a_stag : Z }.

(** The work requests that are sent: a description, a write or a read of the
    remote buffer. *)
Inductive send_wr :=
  | wr_send (a : buffer_attr)
  | wr_write (sge : mr) (rkey remote_addr : Z)
  | wr_read (sge : mr) (rkey remote_addr : Z).

Inductive cm_event :=
  | ADDR_RESOLVED | ROUTE_RESOLVED | CONNECT_REQUEST | ESTABLISHED | DISCONNECTED.

(** What [process_work_completion_events] leaves: its result, the description that
    the posted receive has got, and the local memory. *)
Record completions := Wc {
  wc_ret : Z;
  wc_recv : option buffer_attr;
  wc_mem : gmap Z (list Z);
}.

Definition IBV_ACCESS_LOCAL_WRITE : Z := 1.
Definition IBV_ACCESS_REMOTE_WRITE : Z := 2.
Definition IBV_ACCESS_REMOTE_READ : Z := 4.
Definition ENOMEM : Z := 12.
Definition EINVAL : Z := 22.

(** The library.  A call that gives a handle gives none when it fails; the
    result of [process_rdma_cm_event] is its status and the event, which has the id
    of a connection.  [client_attr_addr] and [server_attr_addr] are where the
    descriptions are stored, [attr_size] is their size. *)
Class RdmaLib (W : Type) := {
  errno : W → Z;
  create_event_channel : W → option Z * W;
  create_id : Z → W → option Z * W;
  resolve_addr : Z → sockaddr → W → Z * W;
  resolve_route : Z → W → Z * W;
  bind_addr : Z → sockaddr → W → Z * W;
  listen : Z → W → Z * W;
  process_rdma_cm_event : Z → cm_event → W → (Z * option Z) * W;
  ack_cm_event : option Z → W → Z * W;
  alloc_pd : Z → W → option Z * W;
  create_comp_channel : Z → W → option Z * W;
  create_cq : Z → Z → W → option Z * W;
  req_notify_cq : Z → W → Z * W;
  create_qp : Z → option Z → Z → W → option Z * W;
  buffer_register : option Z → Z → Z → Z → W → option mr * W;
  buffer_alloc : option Z → Z → Z → W → option mr * W;
  post_recv : Z → mr → W → Z * W;
  post_send : Z → send_wr → W → Z * W;
  connect : Z → W → Z * W;
  accept : Z → W → Z * W;
  disconnect : Z → W → Z * W;
  process_work_completion_events : Z → Z → gmap Z (list Z) → W → completions * W;
  destroy_qp : Z → W → W;
  destroy_id : Z → W → Z * W;
  destroy_cq : Z → W → Z * W;
  destroy_comp_channel : Z → W → Z * W;
  buffer_deregister : option mr → W → W;
  buffer_free : option mr → W → W;
  dealloc_pd : option Z → W → Z * W;
  destroy_event_channel : Z → W → W;
  calloc : Z → W → option Z * W;
  free : option Z → W → W;
  get_addr : string → Z * sockaddr;
  DEFAULT_RDMA_PORT : Z;
  client_attr_addr : Z;
  server_attr_addr : Z;
  attr_size : Z;
}.

(** [strlen] of a block: none when the block has no NUL, and [strlen] runs out
    of it. *)
Fixpoint strlen (b : list Z) : option Z :=
  match b with
  | [] => None
  | c :: b' => if decide (c = 0) then Some 0 else Z.succ <$> strlen b'
  end.

(** ** Calls that may end a function

    [inl rc]: the function has returned [rc]; [inr a]: it goes on with [a]. *)
Definition early {S A B} (m : M S (Z + A)) (k : A → M S (Z + B)) : M S (Z + B) :=
  r ← m; match r with inl rc => mret (inl rc) | inr a => k a end.
Notation "x ←! m ; k" := (early m (λ x, k))
  (at level 20, m at level 100, k at level 200, only parsing).
Notation "m ;! k" := (early m (λ _, k)) (at level 100, right associativity, only parsing).

(** The result of a function whose body runs to its end. *)
Definition function {S} (m : M S (Z + ())) : M S Z :=
  r ← m; mret (match r with inl rc => rc | inr _ => 0 end).

Section calls.
Context {W S : Type} `{!RdmaLib W} (lib : S → W) (set_lib : W → S → S).

Definition call {A} (f : W → A * W) : M S A := λ s,
  Done (f (lib s)).1 (set_lib (f (lib s)).2 s).
Definition effect (f : W → W) : M S () := modify (λ s, set_lib (f (lib s)) s).

Definition goes_on {A} (a : A) : M S (Z + A) := mret (inr a).
Definition returns {A} (rc : Z) : M S (Z + A) := mret (inl rc).
(** [return -errno;] *)
Definition returns_errno {A} : M S (Z + A) := s ← get; returns (i32 (- errno (lib s))).

(** A global is set to the handle, which must not be null. *)
Definition need {A} (set : option A → S → S) (f : W → option A * W) : M S (Z + A) :=
  o ← call f;
  modify (set o);;
  match o with Some a => goes_on a | None => returns_errno end.
(** A status that must be 0. *)
Definition zero (f : W → Z * W) : M S (Z + ()) :=
  rc ← call f; if decide (rc ≠ 0) then returns_errno else goes_on tt.
(** Waiting for one event; its failure is returned as it is. *)
Definition wait_event (channel : Z) (e : cm_event) : M S (Z + option Z) :=
  ev ← call (process_rdma_cm_event channel e);
  if decide (ev.1 ≠ 0) then returns ev.1 else goes_on ev.2.
Definition await (channel : Z) (e : cm_event) : M S (Z + ()) :=
  ev ←! wait_event channel e; zero (ack_cm_event ev).
(** [if (ret) return ret;] *)
Definition must (m : M S Z) : M S (Z + ()) :=
  rc ← m; if decide (rc ≠ 0) then returns rc else goes_on tt.
(** A global is set to a registered buffer; a failure returns [rc]. *)
Definition need_mr (set : option mr → S → S) (f : W → option mr * W) (rc : Z) : M S (Z + mr) :=
  o ← call f;
  modify (set o);;
  match o with Some m => goes_on m | None => returns rc end.
(** A pointer that is used: null is undefined. *)
Definition deref {A} (o : option A) : M S (Z + A) := a ← of_option o; goes_on a.
(** A result that must be [n]. *)
Definition exactly (n : Z) (m : M S Z) : M S (Z + ()) :=
  ret ← m; if decide (ret ≠ n) then returns ret else goes_on tt.
End calls.

(** ** The C library *)
Definition space (c : ascii) : bool :=
  let n := nat_of_ascii c in bool_decide (n = 32%nat ∨ (9 ≤ n ≤ 13)%nat).
Definition digit_value (c : ascii) : option Z :=
  let n := Z.of_nat (nat_of_ascii c) in
  if decide (48 ≤ n ≤ 57) then Some (n - 48)
  else if decide (97 ≤ n ≤ 102) then Some (n - 87)
  else if decide (65 ≤ n ≤ 70) then Some (n - 55)
  else None.
Fixpoint strtol_digits (base acc : Z) (s : string) : Z :=
  match s with
  | String c s' =>
      match digit_value c with
      | Some d => if decide (d < base) then strtol_digits base (acc * base + d) s' else acc
      | None => acc
      end
  | EmptyString => acc
  end.
Definition strtol_unsigned (s : string) : Z :=
  match s with
  | String "0" (String ("x" | "X") (String c _ as s')) =>
      if digit_value c is Some _ then strtol_digits 16 0 s' else 0
  | String "0" s' => strtol_digits 8 0 s'
  | _ => strtol_digits 10 0 s
  end.
(** [strtol] in base 0: blanks, a sign, and digits of base 16, 8 or 10; a value
    out of range gives the nearest one. *)
Fixpoint strtol0 (s : string) : Z :=
  match s with
  | String c s' =>
      if space c then strtol0 s'
      else Z.max (- 2 ^ 63) (Z.min (2 ^ 63 - 1)
        (if decide (c = "-"%char) then - strtol_unsigned s'
         else if decide (c = "+"%char) then strtol_unsigned s'
         else strtol_unsigned s))
  | EmptyString => 0
  end.
Definition htons (z : Z) : Z := let v := z mod 2 ^ 16 in (v mod 256) * 256 + v / 256.
Definition bytes_of (s : string) : list Z :=
  (λ c, Z.of_nat (nat_of_ascii c)) <$> String.list_ascii_of_string s.

(** [sha256] of [rdma_client.cc]: the digest is OpenSSL's, its bytes are printed as
    two digits each. *)
Definition hex_digit (n : Z) : Z := if decide (n < 10) then 48 + n else 87 + n.
Definition hex_byte (b : Z) : list Z := [hex_digit (b / 16); hex_digit (b mod 16)].
Definition sha256 (digest : list Z → list Z) (input : list Z) : list Z :=
  concat (hex_byte <$> digest input).
Definition hash_size : nat := 4096.
Definition input_str (digest : list Z → list Z) : list Z :=
  concat (replicate hash_size (sha256 digest (bytes_of "Hello, World!"))).

(** ** The client *)
Record client (W : Type) := Client {
  c_lib : W;
  c_channel : option Z;
  c_id : option Z;
  c_pd : option Z;
  c_comp : option Z;
  c_cq : option Z;
  c_qp : option Z;
  c_server_metadata_mr : option mr;
  c_metadata_mr : option mr;
  c_src_mr : option mr;
  c_dst_mr : option mr;
  c_server_attr : buffer_attr;
  c_src : option Z;
  c_dst : option Z;
  c_mem : gmap Z (list Z);
}.
Arguments Client {W} _ _ _ _ _ _ _ _ _ _ _ _ _ _ _.
Arguments c_lib {W} _.
Arguments c_channel {W} _.
Arguments c_id {W} _.
Arguments c_pd {W} _.
Arguments c_comp {W} _.
Arguments c_cq {W} _.
Arguments c_qp {W} _.
Arguments c_server_metadata_mr {W} _.
Arguments c_metadata_mr {W} _.
Arguments c_src_mr {W} _.
Arguments c_dst_mr {W} _.
Arguments c_server_attr {W} _.
Arguments c_src {W} _.
Arguments c_dst {W} _.
Arguments c_mem {W} _.

Section client_updates.
Context {W : Type}.
Implicit Types (s : client W).
Definition set_c_lib (x : W) s : client W :=
  Client x (c_channel s) (c_id s) (c_pd s) (c_comp s) (c_cq s) (c_qp s) (c_server_metadata_mr s)
    (c_metadata_mr s) (c_src_mr s) (c_dst_mr s) (c_server_attr s) (c_src s) (c_dst s) (c_mem s).
Definition set_c_channel (x : option Z) s : client W :=
  Client (c_lib s) x (c_id s) (c_pd s) (c_comp s) (c_cq s) (c_qp s) (c_server_metadata_mr s)
    (c_metadata_mr s) (c_src_mr s) (c_dst_mr s) (c_server_attr s) (c_src s) (c_dst s) (c_mem s).
Definition set_c_id (x : option Z) s : client W :=
  Client (c_lib s) (c_channel s) x (c_pd s) (c_comp s) (c_cq s) (c_qp s) (c_server_metadata_mr
    s) (c_metadata_mr s) (c_src_mr s) (c_dst_mr s) (c_server_attr s) (c_src s) (c_dst s) (c_mem
    s).
Definition set_c_pd (x : option Z) s : client W :=
  Client (c_lib s) (c_channel s) (c_id s) x (c_comp s) (c_cq s) (c_qp s) (c_server_metadata_mr
    s) (c_metadata_mr s) (c_src_mr s) (c_dst_mr s) (c_server_attr s) (c_src s) (c_dst s) (c_mem
    s).
Definition set_c_comp (x : option Z) s : client W :=
  Client (c_lib s) (c_channel s) (c_id s) (c_pd s) x (c_cq s) (c_qp s) (c_server_metadata_mr s)
    (c_metadata_mr s) (c_src_mr s) (c_dst_mr s) (c_server_attr s) (c_src s) (c_dst s) (c_mem s).
Definition set_c_cq (x : option Z) s : client W :=
  Client (c_lib s) (c_channel s) (c_id s) (c_pd s) (c_comp s) x (c_qp s) (c_server_metadata_mr
    s) (c_metadata_mr s) (c_src_mr s) (c_dst_mr s) (c_server_attr s) (c_src s) (c_dst s) (c_mem
    s).
Definition set_c_qp (x : option Z) s : client W :=
  Client (c_lib s) (c_channel s) (c_id s) (c_pd s) (c_comp s) (c_cq s) x (c_server_metadata_mr
    s) (c_metadata_mr s) (c_src_mr s) (c_dst_mr s) (c_server_attr s) (c_src s) (c_dst s) (c_mem
    s).
Definition set_c_server_metadata_mr (x : option mr) s : client W :=
  Client (c_lib s) (c_channel s) (c_id s) (c_pd s) (c_comp s) (c_cq s) (c_qp s) x (c_metadata_mr
    s) (c_src_mr s) (c_dst_mr s) (c_server_attr s) (c_src s) (c_dst s) (c_mem s).
Definition set_c_metadata_mr (x : option mr) s : client W :=
  Client (c_lib s) (c_channel s) (c_id s) (c_pd s) (c_comp s) (c_cq s) (c_qp s)
    (c_server_metadata_mr s) x (c_src_mr s) (c_dst_mr s) (c_server_attr s) (c_src s) (c_dst s)
    (c_mem s).
Definition set_c_src_mr (x : option mr) s : client W :=
  Client (c_lib s) (c_channel s) (c_id s) (c_pd s) (c_comp s) (c_cq s) (c_qp s)
    (c_server_metadata_mr s) (c_metadata_mr s) x (c_dst_mr s) (c_server_attr s) (c_src s) (c_dst
    s) (c_mem s).
Definition set_c_dst_mr (x : option mr) s : client W :=
  Client (c_lib s) (c_channel s) (c_id s) (c_pd s) (c_comp s) (c_cq s) (c_qp s)
    (c_server_metadata_mr s) (c_metadata_mr s) (c_src_mr s) x (c_server_attr s) (c_src s) (c_dst
    s) (c_mem s).
Definition set_c_server_attr (x : buffer_attr) s : client W :=
  Client (c_lib s) (c_channel s) (c_id s) (c_pd s) (c_comp s) (c_cq s) (c_qp s)
    (c_server_metadata_mr s) (c_metadata_mr s) (c_src_mr s) (c_dst_mr s) x (c_src s) (c_dst s)
    (c_mem s).
Definition set_c_src (x : option Z) s : client W :=
  Client (c_lib s) (c_channel s) (c_id s) (c_pd s) (c_comp s) (c_cq s) (c_qp s)
    (c_server_metadata_mr s) (c_metadata_mr s) (c_src_mr s) (c_dst_mr s) (c_server_attr s) x
    (c_dst s) (c_mem s).
Definition set_c_dst (x : option Z) s : client W :=
  Client (c_lib s) (c_channel s) (c_id s) (c_pd s) (c_comp s) (c_cq s) (c_qp s)
    (c_server_metadata_mr s) (c_metadata_mr s) (c_src_mr s) (c_dst_mr s) (c_server_attr s)
    (c_src s) x (c_mem s).
Definition set_c_mem (x : gmap Z (list Z)) s : client W :=
  Client (c_lib s) (c_channel s) (c_id s) (c_pd s) (c_comp s) (c_cq s) (c_qp s)
    (c_server_metadata_mr s) (c_metadata_mr s) (c_src_mr s) (c_dst_mr s) (c_server_attr s)
    (c_src s) (c_dst s) x.
End client_updates.

Definition client_start {W} (w : W) : client W :=
  Client w None None None None None None None None None None (Attr 0 0 0) None None ∅.

Section client.
Context {W : Type} `{!RdmaLib W}.
Implicit Types (s : client W).

Local Abbreviation c_call := (call c_lib set_c_lib).
Local Abbreviation c_effect := (effect c_lib set_c_lib).
Local Abbreviation c_need := (need c_lib set_c_lib).
Local Abbreviation c_zero := (zero c_lib set_c_lib).
Local Abbreviation c_await := (await c_lib set_c_lib).
Local Abbreviation c_need_mr := (need_mr c_lib set_c_lib).

Definition client_prepare_connection (s_addr : sockaddr) : M (client W) Z := function (
  ch ←! c_need set_c_channel create_event_channel;
  id ←! c_need set_c_id (create_id ch);
  c_zero (resolve_addr id s_addr) ;!
  c_await ch ADDR_RESOLVED ;!
  c_zero (resolve_route id) ;!
  c_await ch ROUTE_RESOLVED ;!
  pd ←! c_need set_c_pd (alloc_pd id);
  comp ←! c_need set_c_comp (create_comp_channel id);
  cq ←! c_need set_c_cq (create_cq id comp);
  c_zero (req_notify_cq cq) ;!
  qp ←! c_need set_c_qp (create_qp id (Some pd) cq);
  goes_on tt).

Definition client_pre_post_recv_buffer : M (client W) Z := function (
  s ← get;
  m ←! c_need_mr set_c_server_metadata_mr
    (buffer_register (c_pd s) server_attr_addr attr_size IBV_ACCESS_LOCAL_WRITE) (- ENOMEM);
  qp ←! deref (c_qp s);
  must (c_call (post_recv qp m))).

Definition client_connect_to_server : M (client W) Z := function (
  s ← get;
  id ←! deref (c_id s);
  ch ←! deref (c_channel s);
  c_zero (connect id) ;!
  c_await ch ESTABLISHED).

(** [strlen(src)]: of a null pointer it is undefined, too. *)
Definition strlen_src : M (client W) Z :=
  s ← get;
  src ← of_option (c_src s);
  b ← of_option (c_mem s !! src);
  of_option (strlen b).

(** [process_work_completion_events] on [io_completion_channel]. *)
Definition c_completions (n : Z) : M (client W) Z :=
  s ← get;
  comp ← of_option (c_comp s);
  r ← c_call (process_work_completion_events comp n (c_mem s));
  modify (set_c_mem (wc_mem r));;
  (match wc_recv r with Some a => modify (set_c_server_attr a) | None => skip end);;
  mret (wc_ret r).

Definition all_access : Z :=
  Z.lor IBV_ACCESS_LOCAL_WRITE (Z.lor IBV_ACCESS_REMOTE_READ IBV_ACCESS_REMOTE_WRITE).

Definition client_xchange_metadata_with_server : M (client W) Z := function (
  n ← strlen_src;
  s ← get;
  src ←! deref (c_src s);
  m ←! c_need_mr set_c_src_mr (buffer_register (c_pd s) src n all_access) (-1);
  let client_metadata_attr := Attr (mr_addr m) (u32 (mr_length m)) (lkey m) in
  _ ←! c_need_mr set_c_metadata_mr
    (buffer_register (c_pd s) client_attr_addr attr_size IBV_ACCESS_LOCAL_WRITE) (-1);
  qp ←! deref (c_qp s);
  c_zero (post_send qp (wr_send client_metadata_attr)) ;!
  exactly 2 (c_completions 2)).

Definition client_remote_memory_ops : M (client W) Z := function (
  n ← strlen_src;
  s ← get;
  dst ←! deref (c_dst s);
  m ←! c_need_mr set_c_dst_mr (buffer_register (c_pd s) dst n all_access) (- ENOMEM);
  src_mr ←! deref (c_src_mr s);
  let a := c_server_attr s in
  qp ←! deref (c_qp s);
  c_zero (post_send qp (wr_write src_mr (a_stag a) (a_address a))) ;!
  exactly 1 (c_completions 1) ;!
  c_zero (post_send qp (wr_read m (a_stag a) (a_address a))) ;!
  exactly 1 (c_completions 1)).

(** [memcmp(src, dst, strlen(src))]: whether the bytes are different. *)
Definition check_src_dst : M (client W) bool :=
  n ← strlen_src;
  s ← get;
  src ← of_option (c_src s);
  dst ← of_option (c_dst s);
  a ← of_option (c_mem s !! src);
  b ← of_option (c_mem s !! dst);
  if decide (n ≤ Z.of_nat (length b)) then
    mret (bool_decide (take (Z.to_nat n) a ≠ take (Z.to_nat n) b))
  else undef.

(** No failure stops the clean-up. *)
Definition client_disconnect_and_clean : M (client W) Z :=
  s ← get;
  id ← of_option (c_id s);
  ch ← of_option (c_channel s);
  cq ← of_option (c_cq s);
  comp ← of_option (c_comp s);
  _ ← c_call (disconnect id);
  ev ← c_call (process_rdma_cm_event ch DISCONNECTED);
  _ ← c_call (ack_cm_event (if decide (ev.1 = 0) then ev.2 else None));
  c_effect (destroy_qp id);;
  _ ← c_call (destroy_id id);
  _ ← c_call (destroy_cq cq);
  _ ← c_call (destroy_comp_channel comp);
  c_effect (buffer_deregister (c_server_metadata_mr s));;
  c_effect (buffer_deregister (c_metadata_mr s));;
  c_effect (buffer_deregister (c_src_mr s));;
  c_effect (buffer_deregister (c_dst_mr s));;
  c_effect (free (c_src s));;
  c_effect (free (c_dst s));;
  _ ← c_call (dealloc_pd (c_pd s));
  c_effect (destroy_event_channel ch);;
  mret 0.

(** [main] after the command line: its result, and whether the buffers were found
    to match. *)
Definition client_session (s_addr : sockaddr) : M (client W) (Z * option bool) :=
  r ← (must (client_prepare_connection s_addr) ;!
       must client_pre_post_recv_buffer ;!
       must client_connect_to_server ;!
       must client_xchange_metadata_with_server ;!
       must client_remote_memory_ops);
  match r with
  | inl rc => mret (rc, None)
  | inr _ =>
      differ ← check_src_dst;
      rc ← client_disconnect_and_clean;
      mret (rc, Some (negb differ))
  end.

(** [main]: [opts] is what [getopt] returns, with [optarg]. *)
Context (digest : list Z → list Z).

Definition client_option (opt : ascii) (optarg : string) (a : sockaddr)
    : M (client W) (Z + sockaddr) :=
  let n := Z.of_nat (length (input_str digest)) in
  if decide (opt = "s"%char) then
    src ← c_call (calloc n);
    modify (set_c_src src);;
    match src with
    | None => returns (- ENOMEM)
    | Some p =>
        modify (λ s, set_c_mem (<[p := input_str digest]> (c_mem s)) s);;
        dst ← c_call (calloc n);
        modify (set_c_dst dst);;
        match dst with
        | None => c_effect (free src);; returns (- ENOMEM)
        | Some d =>
            modify (λ s, set_c_mem (<[d := replicate (Z.to_nat n) 0]> (c_mem s)) s);;
            goes_on a
        end
    end
  else if decide (opt = "a"%char) then
    let r := get_addr optarg in if decide (r.1 ≠ 0) then returns r.1 else goes_on r.2
  else if decide (opt = "p"%char) then goes_on (Sockaddr (sin_addr a) (htons (strtol0 optarg)))
  else exit 1.

Fixpoint client_options (opts : list (ascii * string)) (a : sockaddr)
    : M (client W) (Z + sockaddr) :=
  match opts with
  | [] => goes_on a
  | (opt, optarg) :: opts' => a ←! client_option opt optarg a; client_options opts' a
  end.

(** The port that is used. *)
Definition with_port (a : sockaddr) : sockaddr :=
  if decide (sin_port a = 0) then Sockaddr (sin_addr a) (htons DEFAULT_RDMA_PORT) else a.

Definition INADDR_LOOPBACK : Z := 2130706433.

Definition client_main (opts : list (ascii * string)) : M (client W) (Z * option bool) :=
  r ← client_options opts (Sockaddr INADDR_LOOPBACK 0);
  match r with
  | inl rc => mret (rc, None)
  | inr a =>
      s ← get;
      match c_src s with None => exit 1 | Some _ => client_session (with_port a) end
  end.
End client.

(** ** The server *)
Record server (W : Type) := Server {
  s_lib : W;
  s_channel : option Z;
  s_server_id : option Z;
  s_client_id : option Z;
  s_pd : option Z;
  s_comp : option Z;
  s_cq : option Z;
  s_qp : option Z;
  s_client_metadata_mr : option mr;
  s_buffer_mr : option mr;
  s_metadata_mr : option mr;
  s_client_attr : buffer_attr;
  s_server_attr : buffer_attr;
}.
Arguments Server {W} _ _ _ _ _ _ _ _ _ _ _ _ _.
Arguments s_lib {W} _.
Arguments s_channel {W} _.
Arguments s_server_id {W} _.
Arguments s_client_id {W} _.
Arguments s_pd {W} _.
Arguments s_comp {W} _.
Arguments s_cq {W} _.
Arguments s_qp {W} _.
Arguments s_client_metadata_mr {W} _.
Arguments s_buffer_mr {W} _.
Arguments s_metadata_mr {W} _.
Arguments s_client_attr {W} _.
Arguments s_server_attr {W} _.

Section server_updates.
Context {W : Type}.
Implicit Types (s : server W).
Definition set_s_lib (x : W) s : server W :=
  Server x (s_channel s) (s_server_id s) (s_client_id s) (s_pd s) (s_comp s) (s_cq s) (s_qp s)
    (s_client_metadata_mr s) (s_buffer_mr s) (s_metadata_mr s) (s_client_attr s) (s_server_attr
    s).
Definition set_s_channel (x : option Z) s : server W :=
  Server (s_lib s) x (s_server_id s) (s_client_id s) (s_pd s) (s_comp s) (s_cq s) (s_qp s)
    (s_client_metadata_mr s) (s_buffer_mr s) (s_metadata_mr s) (s_client_attr s) (s_server_attr
    s).
Definition set_s_server_id (x : option Z) s : server W :=
  Server (s_lib s) (s_channel s) x (s_client_id s) (s_pd s) (s_comp s) (s_cq s) (s_qp s)
    (s_client_metadata_mr s) (s_buffer_mr s) (s_metadata_mr s) (s_client_attr s) (s_server_attr
    s).
Definition set_s_client_id (x : option Z) s : server W :=
  Server (s_lib s) (s_channel s) (s_server_id s) x (s_pd s) (s_comp s) (s_cq s) (s_qp s)
    (s_client_metadata_mr s) (s_buffer_mr s) (s_metadata_mr s) (s_client_attr s) (s_server_attr
    s).
Definition set_s_pd (x : option Z) s : server W :=
  Server (s_lib s) (s_channel s) (s_server_id s) (s_client_id s) x (s_comp s) (s_cq s) (s_qp s)
    (s_client_metadata_mr s) (s_buffer_mr s) (s_metadata_mr s) (s_client_attr s) (s_server_attr
    s).
Definition set_s_comp (x : option Z) s : server W :=
  Server (s_lib s) (s_channel s) (s_server_id s) (s_client_id s) (s_pd s) x (s_cq s) (s_qp s)
    (s_client_metadata_mr s) (s_buffer_mr s) (s_metadata_mr s) (s_client_attr s) (s_server_attr
    s).
Definition set_s_cq (x : option Z) s : server W :=
  Server (s_lib s) (s_channel s) (s_server_id s) (s_client_id s) (s_pd s) (s_comp s) x (s_qp s)
    (s_client_metadata_mr s) (s_buffer_mr s) (s_metadata_mr s) (s_client_attr s) (s_server_attr
    s).
Definition set_s_qp (x : option Z) s : server W :=
  Server (s_lib s) (s_channel s) (s_server_id s) (s_client_id s) (s_pd s) (s_comp s) (s_cq s) x
    (s_client_metadata_mr s) (s_buffer_mr s) (s_metadata_mr s) (s_client_attr s) (s_server_attr
    s).
Definition set_s_client_metadata_mr (x : option mr) s : server W :=
  Server (s_lib s) (s_channel s) (s_server_id s) (s_client_id s) (s_pd s) (s_comp s) (s_cq s)
    (s_qp s) x (s_buffer_mr s) (s_metadata_mr s) (s_client_attr s) (s_server_attr s).
Definition set_s_buffer_mr (x : option mr) s : server W :=
  Server (s_lib s) (s_channel s) (s_server_id s) (s_client_id s) (s_pd s) (s_comp s) (s_cq s)
    (s_qp s) (s_client_metadata_mr s) x (s_metadata_mr s) (s_client_attr s) (s_server_attr s).
Definition set_s_metadata_mr (x : option mr) s : server W :=
  Server (s_lib s) (s_channel s) (s_server_id s) (s_client_id s) (s_pd s) (s_comp s) (s_cq s)
    (s_qp s) (s_client_metadata_mr s) (s_buffer_mr s) x (s_client_attr s) (s_server_attr s).
Definition set_s_client_attr (x : buffer_attr) s : server W :=
  Server (s_lib s) (s_channel s) (s_server_id s) (s_client_id s) (s_pd s) (s_comp s) (s_cq s)
    (s_qp s) (s_client_metadata_mr s) (s_buffer_mr s) (s_metadata_mr s) x (s_server_attr s).
Definition set_s_server_attr (x : buffer_attr) s : server W :=
  Server (s_lib s) (s_channel s) (s_server_id s) (s_client_id s) (s_pd s) (s_comp s) (s_cq s)
    (s_qp s) (s_client_metadata_mr s) (s_buffer_mr s) (s_metadata_mr s) (s_client_attr s) x.
End server_updates.

Definition server_start {W} (w : W) : server W :=
  Server w None None None None None None None None None None (Attr 0 0 0) (Attr 0 0 0).

Section server.
Context {W : Type} `{!RdmaLib W}.
Implicit Types (s : server W).

Local Abbreviation s_call := (call s_lib set_s_lib).
Local Abbreviation s_effect := (effect s_lib set_s_lib).
Local Abbreviation s_need := (need s_lib set_s_lib).
Local Abbreviation s_zero := (zero s_lib set_s_lib).
Local Abbreviation s_await := (await s_lib set_s_lib).
Local Abbreviation s_need_mr := (need_mr s_lib set_s_lib).

Definition setup_client_resources : M (server W) Z := function (
  s ← get;
  match s_client_id s with
  | None => returns (- EINVAL)
  | Some id =>
      pd ←! s_need set_s_pd (alloc_pd id);
      comp ←! s_need set_s_comp (create_comp_channel id);
      cq ←! s_need set_s_cq (create_cq id comp);
      s_zero (req_notify_cq cq) ;!
      qp ←! s_need set_s_qp (create_qp id (Some pd) cq);
      goes_on tt
  end).

Definition start_rdma_server (server_addr : sockaddr) : M (server W) Z := function (
  ch ←! s_need set_s_channel create_event_channel;
  id ←! s_need set_s_server_id (create_id ch);
  s_zero (bind_addr id server_addr) ;!
  s_zero (listen id) ;!
  ev ←! wait_event s_lib set_s_lib ch CONNECT_REQUEST;
  modify (set_s_client_id ev);;
  s_zero (ack_cm_event ev)).

(** Here a failure to get the event is returned as [-errno]. *)
Definition accept_client_connection : M (server W) Z := function (
  s ← get;
  match s_client_id s, s_qp s with
  | Some id, Some qp =>
      m ←! s_need_mr set_s_client_metadata_mr
        (buffer_register (s_pd s) client_attr_addr attr_size IBV_ACCESS_LOCAL_WRITE) (- ENOMEM);
      must (s_call (post_recv qp m)) ;!
      s_zero (accept id) ;!
      ch ←! deref (s_channel s);
      ev ← s_call (process_rdma_cm_event ch ESTABLISHED);
      if decide (ev.1 ≠ 0) then returns_errno s_lib else s_zero (ack_cm_event ev.2)
  | _, _ => returns (- EINVAL)
  end).

Definition s_completions (n : Z) : M (server W) Z :=
  s ← get;
  comp ← of_option (s_comp s);
  r ← s_call (process_work_completion_events comp n ∅);
  (match wc_recv r with Some a => modify (set_s_client_attr a) | None => skip end);;
  mret (wc_ret r).

Definition send_server_metadata_to_client : M (server W) Z := function (
  exactly 1 (s_completions 1) ;!
  s ← get;
  m ←! s_need_mr set_s_buffer_mr
    (buffer_alloc (s_pd s) (a_length (s_client_attr s)) all_access) (- ENOMEM);
  let server_metadata_attr := Attr (mr_addr m) (u32 (mr_length m)) (lkey m) in
  modify (set_s_server_attr server_metadata_attr);;
  _ ←! s_need_mr set_s_metadata_mr
    (buffer_register (s_pd s) server_attr_addr attr_size IBV_ACCESS_LOCAL_WRITE) (- ENOMEM);
  qp ←! deref (s_qp s);
  s_zero (post_send qp (wr_send server_metadata_attr)) ;!
  exactly 1 (s_completions 1)).

Definition disconnect_and_cleanup : M (server W) Z := function (
  s ← get;
  ch ←! deref (s_channel s);
  s_await ch DISCONNECTED ;!
  id ←! deref (s_client_id s);
  cq ←! deref (s_cq s);
  comp ←! deref (s_comp s);
  sid ←! deref (s_server_id s);
  s_effect (destroy_qp id);;
  _ ← s_call (destroy_id id);
  _ ← s_call (destroy_cq cq);
  _ ← s_call (destroy_comp_channel comp);
  s_effect (buffer_free (s_buffer_mr s));;
  s_effect (buffer_deregister (s_metadata_mr s));;
  s_effect (buffer_deregister (s_client_metadata_mr s));;
  _ ← s_call (dealloc_pd (s_pd s));
  _ ← s_call (destroy_id sid);
  s_effect (destroy_event_channel ch);;
  goes_on tt).

Definition server_session (a : sockaddr) : M (server W) Z := function (
  must (start_rdma_server a) ;!
  must setup_client_resources ;!
  must accept_client_connection ;!
  must send_server_metadata_to_client ;!
  must disconnect_and_cleanup).

Definition server_option (opt : ascii) (optarg : string) (a : sockaddr)
    : M (server W) (Z + sockaddr) :=
  if decide (opt = "a"%char) then
    let r := get_addr optarg in if decide (r.1 ≠ 0) then returns r.1 else goes_on r.2
  else if decide (opt = "p"%char) then goes_on (Sockaddr (sin_addr a) (htons (strtol0 optarg)))
  else exit 1.

Fixpoint server_options (opts : list (ascii * string)) (a : sockaddr)
    : M (server W) (Z + sockaddr) :=
  match opts with
  | [] => goes_on a
  | (opt, optarg) :: opts' => a ←! server_option opt optarg a; server_options opts' a
  end.

Definition server_main (opts : list (ascii * string)) : M (server W) Z :=
  r ← server_options opts (Sockaddr 0 0);
  match r with
  | inl rc => mret rc
  | inr a => server_session (with_port a)
  end.
End server.
