(* ===== verification/RdmaSpec.v ===== *)
(** * Specifications of the RDMA client and server

    What is assumed of the library, the state each side holds, function by
    function, and the block of the client that is never terminated. *)
From S2P Require Import Prelude Rdma.
Local Open Scope Z_scope.

(** ** Handles *)
Inductive handle :=
  | HChannel (c : Z) | HId (i : Z) | HPd (p : Z) | HComp (c : Z) | HCq (q : Z) | HQp (i : Z)
  | HMr (k : Z) | HBlock (b : Z).

#[export] Instance handle_eq_dec : EqDecision handle.
Proof. solve_decision. Defined.
#[export] Instance handle_countable : Countable handle.
Proof.
  refine (inj_countable'
    (λ h, match h with
      | HChannel z => (0, z) | HId z => (1, z) | HPd z => (2, z) | HComp z => (3, z)
      | HCq z => (4, z) | HQp z => (5, z) | HMr z => (6, z) | HBlock z => (7, z) end)
    (λ p, match p.1 with
      | 0 => HChannel p.2 | 1 => HId p.2 | 2 => HPd p.2 | 3 => HComp p.2
      | 4 => HCq p.2 | 5 => HQp p.2 | 6 => HMr p.2 | _ => HBlock p.2 end) _).
  by intros [].
Qed.

(** ** A library that works

    [live] are the handles that are allocated (a queue pair has the name of its
    connection), [remote] the buffers of the other side with their keys,
    [posted] the requests that have been sent and not completed, [sent] all that
    have ever been. *)
Class RdmaView (W : Type) := {
  live : W → gset handle;
  remote : W → gmap Z (Z * list Z);
  posted : W → list send_wr;
  sent : W → list send_wr;
}.

Section laws.
Context {W : Type} `{!RdmaLib W} `{!RdmaView W}.
Implicit Types (w : W).

Record steady w w' : Prop := {
  st_live : live w' = live w;
  st_remote : remote w' = remote w;
  st_posted : posted w' = posted w;
  st_sent : sent w' = sent w;
}.
Record grows (h : handle) w w' : Prop := {
  gr_fresh : h ∉ live w;
  gr_live : live w' = {[h]} ∪ live w;
  gr_remote : remote w' = remote w;
  gr_posted : posted w' = posted w;
  gr_sent : sent w' = sent w;
}.
Record shrinks (h : handle) w w' : Prop := {
  sh_live : live w' = live w ∖ {[h]};
  sh_remote : remote w' = remote w;
  sh_posted : posted w' = posted w;
  sh_sent : sent w' = sent w;
}.

(** A call that succeeds. *)
Definition gives {A} (f : W → option A * W) (h : A → handle) w : Prop :=
  ∃ a w', f w = (Some a, w') ∧ grows (h a) w w'.
Definition succeeds (f : W → Z * W) w : Prop := ∃ w', f w = (0, w') ∧ steady w w'.
(** A handle that is released; nothing that depends on it may be left. *)
Definition releases (f : W → Z * W) (h : handle) w : Prop :=
  ∃ w', f w = (0, w') ∧ shrinks h w w'.
End laws.

Class RdmaLaws (W : Type) `{!RdmaLib W} `{!RdmaView W} : Prop := {
  create_event_channel_law w : gives create_event_channel HChannel w;
  create_id_law c w : gives (create_id c) HId w;
  resolve_addr_law i a w : succeeds (resolve_addr i a) w;
  resolve_route_law i w : succeeds (resolve_route i) w;
  bind_addr_law i a w : succeeds (bind_addr i a) w;
  listen_law i w : succeeds (listen i) w;
  cm_event_law c e w : e ≠ CONNECT_REQUEST →
    ∃ ev w', process_rdma_cm_event c e w = ((0, ev), w') ∧ steady w w';
  connect_request_law c w :
    ∃ i w', process_rdma_cm_event c CONNECT_REQUEST w = ((0, Some i), w') ∧ grows (HId i) w w';
  ack_law ev w : succeeds (ack_cm_event ev) w;
  alloc_pd_law i w : gives (alloc_pd i) HPd w;
  create_comp_channel_law i w : gives (create_comp_channel i) HComp w;
  create_cq_law i c w : gives (create_cq i c) HCq w;
  req_notify_cq_law q w : succeeds (req_notify_cq q) w;
  create_qp_law i p q w : HQp i ∉ live w → gives (create_qp i (Some p) q) (λ _, HQp i) w;
  register_law p a n f w : ∃ m w', buffer_register (Some p) a n f w = (Some m, w') ∧
    mr_addr m = a ∧ mr_length m = n ∧ grows (HMr (lkey m)) w w';
  alloc_law p n f w : ∃ m w', buffer_alloc (Some p) n f w = (Some m, w') ∧
    mr_length m = n ∧ grows (HMr (lkey m)) w w';
  post_recv_law q m w : succeeds (post_recv q m) w;
  connect_law i w : succeeds (connect i) w;
  accept_law i w : succeeds (accept i) w;
  disconnect_law i w : succeeds (disconnect i) w;
  post_send_law q r w : ∃ w', post_send q r w = (0, w') ∧ live w' = live w ∧
    remote w' = remote w ∧ posted w' = posted w ++ [r] ∧ sent w' = sent w ++ [r];
  destroy_qp_law i w : HQp i ∈ live w → shrinks (HQp i) w (destroy_qp i w);
  destroy_id_law i w : HId i ∈ live w → HQp i ∉ live w → releases (destroy_id i) (HId i) w;
  destroy_cq_law q w : HCq q ∈ live w → (∀ i, HQp i ∉ live w) →
    releases (destroy_cq q) (HCq q) w;
  destroy_comp_law c w : HComp c ∈ live w → (∀ q, HCq q ∉ live w) →
    releases (destroy_comp_channel c) (HComp c) w;
  deregister_law m w : HMr (lkey m) ∈ live w →
    shrinks (HMr (lkey m)) w (buffer_deregister (Some m) w);
  buffer_free_law m w : HMr (lkey m) ∈ live w →
    shrinks (HMr (lkey m)) w (buffer_free (Some m) w);
  free_law b w : HBlock b ∈ live w → shrinks (HBlock b) w (free (Some b) w);
  dealloc_pd_law p w : HPd p ∈ live w → (∀ i, HQp i ∉ live w) → (∀ k, HMr k ∉ live w) →
    releases (dealloc_pd (Some p)) (HPd p) w;
  destroy_channel_law c w : HChannel c ∈ live w → (∀ i, HId i ∉ live w) →
    shrinks (HChannel c) w (destroy_event_channel c w);
}.

(** The completions of the client.  The server answers the description of the
    client's buffer with one of a buffer of that length. *)
Class ClientLaws (W : Type) `{!RdmaLib W} `{!RdmaView W} : Prop := {
  exchange_law c mem w a : posted w = [wr_send a] → 0 ≤ a_length a → ∃ b data w',
    process_work_completion_events c 2 mem w = (Wc 2 (Some b) mem, w') ∧
    live w' = live w ∧ posted w' = [] ∧
    remote w' !! a_address b = Some (a_stag b, data) ∧ a_length a = Z.of_nat (length data);
  write_law c mem w m k r blk data : posted w = [wr_write m k r] →
    remote w !! r = Some (k, data) → mem !! mr_addr m = Some blk →
    mr_length m ≤ Z.of_nat (length blk) → mr_length m ≤ Z.of_nat (length data) → ∃ w',
    process_work_completion_events c 1 mem w = (Wc 1 None mem, w') ∧
    live w' = live w ∧ posted w' = [] ∧
    remote w' !! r = Some (k, take (Z.to_nat (mr_length m)) blk ++
                              drop (Z.to_nat (mr_length m)) data);
  read_law c mem w m k r blk data : posted w = [wr_read m k r] →
    remote w !! r = Some (k, data) → mem !! mr_addr m = Some blk →
    mr_length m ≤ Z.of_nat (length blk) → mr_length m ≤ Z.of_nat (length data) → ∃ w',
    process_work_completion_events c 1 mem w =
      (Wc 1 None (<[mr_addr m := take (Z.to_nat (mr_length m)) data ++
                                 drop (Z.to_nat (mr_length m)) blk]> mem), w') ∧
    live w' = live w ∧ posted w' = [];
}.

(** The completions of the server: first the client's description comes, then the
    answer has been sent. *)
Class ServerLaws (W : Type) `{!RdmaLib W} `{!RdmaView W} : Prop := {
  received_law c mem w : posted w = [] → ∃ a w',
    process_work_completion_events c 1 mem w = (Wc 1 (Some a) mem, w') ∧ steady w w' ∧
    0 ≤ a_length a < 2 ^ 32;
  answered_law c mem w a : posted w = [wr_send a] → ∃ w',
    process_work_completion_events c 1 mem w = (Wc 1 None mem, w') ∧
    live w' = live w ∧ posted w' = [] ∧ sent w' = sent w;
}.

(** ** Rules for the calls *)
Section rules.
Context {W S : Type} `{!RdmaLib W} (lib : S → W) (set_lib : W → S → S).
Implicit Types (s : S) (X : Z → S → Prop).

Lemma wp_early {A B} (m : M S (Z + A)) (k : A → M S (Z + B)) Q X s :
  wp m (λ r, match r with inl rc => Q (inl rc) | inr a => wp (k a) Q X end) X s →
  wp (early m k) Q X s.
Proof.
  intros Hm. apply wp_bind. eapply wp_weaken; [exact Hm|]. by intros [].
Qed.

Lemma wp_function (m : M S (Z + ())) Q X s :
  wp m (λ r, Q (match r with inl rc => rc | inr _ => 0 end)) X s → wp (function m) Q X s.
Proof. intros Hm. by apply wp_bind. Qed.

Lemma wp_need {A} (set : option A → S → S) f a w' Q X s : f (lib s) = (Some a, w') →
  Q (inr a) (set (Some a) (set_lib w' s)) → wp (need lib set_lib set f) Q X s.
Proof. intros Hf HQ. unfold wp, need, call, mbind, M_bind. by rewrite Hf. Qed.

Lemma wp_zero (f : W → Z * W) w' Q X s : f (lib s) = (0, w') →
  Q (inr tt) (set_lib w' s) → wp (zero lib set_lib f) Q X s.
Proof. intros Hf HQ. unfold wp, zero, call, mbind, M_bind. by rewrite Hf. Qed.

Lemma wp_need_mr (set : option mr → S → S) f rc m w' Q X s : f (lib s) = (Some m, w') →
  Q (inr m) (set (Some m) (set_lib w' s)) → wp (need_mr lib set_lib set f rc) Q X s.
Proof. intros Hf HQ. unfold wp, need_mr, call, mbind, M_bind. by rewrite Hf. Qed.

Lemma wp_lib_call {A} (f : W → A * W) a w' Q X s : f (lib s) = (a, w') →
  Q a (set_lib w' s) → wp (call lib set_lib f) Q X s.
Proof. intros Hf HQ. unfold wp, call. by rewrite Hf. Qed.

Lemma wp_must (m : M S Z) Q X s : wp m (λ rc s', rc = 0 ∧ Q (inr tt) s') X s →
  wp (must m) Q X s.
Proof. intros Hm. apply wp_bind. eapply wp_weaken; [exact Hm|]. by intros rc s' [-> ?]. Qed.

Lemma wp_exactly n (m : M S Z) Q X s : wp m (λ rc s', rc = n ∧ Q (inr tt) s') X s →
  wp (exactly n m) Q X s.
Proof.
  intros Hm. apply wp_bind. eapply wp_weaken; [exact Hm|]. intros rc s' [-> ?].
  rewrite decide_False; [done|]. by intros [].
Qed.

Lemma wp_await ch e ev w1 w2 Q X s : (∀ w s', lib (set_lib w s') = w) →
  process_rdma_cm_event ch e (lib s) = ((0, ev), w1) → ack_cm_event ev w1 = (0, w2) →
  Q (inr tt) (set_lib w2 (set_lib w1 s)) → wp (await lib set_lib ch e) Q X s.
Proof.
  intros Hl He Ha HQ. unfold await. apply wp_early. unfold wait_event. apply wp_bind.
  eapply wp_lib_call; [exact He|]. simpl. eapply wp_zero; [by rewrite Hl|done].
Qed.

Lemma wp_deref {A} (o : option A) a Q X s : o = Some a → Q (inr a) s → wp (deref o) Q X s.
Proof. by intros -> HQ. Qed.
End rules.

(** ** Releasing *)
Section releasing.
Context {W S : Type} `{!RdmaLib W} `{!RdmaView W} (lib : S → W) (set_lib : W → S → S).
Implicit Types (s : S) (w : W).

(** Handles that are released in the order of a list. *)
Definition holds (l : list handle) w : Prop := live w = list_to_set l ∧ NoDup l.

Lemma holds_member h l w : holds (h :: l) w → h ∈ live w.
Proof. intros [-> _]. set_solver. Qed.

Lemma holds_none (f : Z → handle) l w i : holds l w → Forall (λ h, h ≠ f i) l →
  f i ∉ live w.
Proof.
  intros [-> _] Hf Hi%elem_of_list_to_set. rewrite Forall_forall in Hf. by eapply Hf.
Qed.

Lemma holds_next h l w w' : holds (h :: l) w → shrinks h w w' → holds l w'.
Proof.
  intros [Hl [Hh Hn]%NoDup_cons] []. split; [|done]. rewrite sh_live0, Hl. set_solver.
Qed.

Lemma wp_effect_release {B} h l (f : W → W) (k : M S B) Q X s :
  holds (h :: l) (lib s) → (h ∈ live (lib s) → shrinks h (lib s) (f (lib s))) →
  (∀ w', holds l w' → sent w' = sent (lib s) → wp k Q X (set_lib w' s)) →
  wp (effect lib set_lib f;; k) Q X s.
Proof.
  intros Hh Hf Hk. assert (shrinks h (lib s) (f (lib s))) as Hs
    by (apply Hf; by eapply holds_member).
  apply wp_seq, wp_modify, Hk; [by eapply holds_next|apply Hs].
Qed.

Lemma wp_call_release {B} h l (f : W → Z * W) (k : Z → M S B) Q X s :
  holds (h :: l) (lib s) → (h ∈ live (lib s) → releases f h (lib s)) →
  (∀ w', holds l w' → sent w' = sent (lib s) → wp (k 0) Q X (set_lib w' s)) →
  wp (call lib set_lib f ≫= k) Q X s.
Proof.
  intros Hh Hf Hk. destruct Hf as (w'&E&Hs); [by eapply holds_member|].
  apply wp_bind. eapply wp_lib_call; [exact E|]. apply Hk; [by eapply holds_next|apply Hs].
Qed.
End releasing.

Ltac none H :=
  try (lazymatch goal with |- forall _ : Z, _ => intros ? end);
  eapply holds_none; [exact H|]; by repeat constructor.

(** What is known about the views of the library's states. *)
Ltac views := repeat match goal with
  | E : live ?w = _ |- context [live ?w] => rewrite E
  | E : posted ?w = _ |- context [posted ?w] => rewrite E
  | E : remote ?w = _ |- context [remote ?w] => rewrite E
  | E : sent ?w = _ |- context [sent ?w] => rewrite E
  end.

(** One call of the library that works, as [x] in state [w]. *)
Ltac env :=
  lazymatch goal with |- wp _ _ _ ?s =>
    lazymatch type of s with
    | client _ => eval simpl in (c_lib s)
    | server _ => eval simpl in (s_lib s)
    end
  end.
Tactic Notation "r_need" uconstr(law) ident(x) :=
  let w := env in let w' := fresh "w" in let E := fresh "E" in
  destruct (law w) as (x & w' & E & []);
  eapply wp_early, wp_need; [exact E|]; simpl.
Tactic Notation "r_zero" uconstr(law) :=
  let w := env in let w' := fresh "w" in let E := fresh "E" in
  destruct (law w) as (w' & E & []);
  eapply wp_early, wp_zero; [exact E|]; simpl.
Tactic Notation "r_await" constr(ch) constr(e) :=
  let w := env in let w' := fresh "w" in let w'' := fresh "w" in
  let E := fresh "E" in let E' := fresh "E" in let ev := fresh "ev" in
  destruct (cm_event_law ch e w) as (ev & w' & E & []); [done|];
  destruct (ack_law ev w') as (w'' & E' & []);
  eapply wp_early, wp_await; [done|exact E|exact E'|]; simpl.


(** ** The client *)
Record conn := Conn { k_ch : Z; k_id : Z; k_pd : Z; k_comp : Z; k_cq : Z; k_qp : Z }.

(** What a session holds: its connection, the buffers it has registered and its
    two blocks. *)
Definition of_conn (k : conn) : gset handle :=
  {[HQp (k_id k)]} ∪ ({[HCq (k_cq k)]} ∪ ({[HComp (k_comp k)]} ∪ ({[HPd (k_pd k)]} ∪
    ({[HId (k_id k)]} ∪ {[HChannel (k_ch k)]})))).
Definition of_mrs (ms : list mr) : gset handle := list_to_set ((λ m, HMr (lkey m)) <$> ms).

Section client.
Context {W : Type} `{!RdmaLib W} `{!RdmaView W} `{!RdmaLaws W} `{!ClientLaws W}.
Context (src dst : Z).
Implicit Types (s : client W) (w : W).

Abbreviation never := (λ _ _, False).
Abbreviation blocks := ({[HBlock src; HBlock dst]} : gset handle).

Record stage (k : conn) (ms : list mr) s : Prop := {
  sg_channel : c_channel s = Some (k_ch k);
  sg_id : c_id s = Some (k_id k);
  sg_pd : c_pd s = Some (k_pd k);
  sg_comp : c_comp s = Some (k_comp k);
  sg_cq : c_cq s = Some (k_cq k);
  sg_qp : c_qp s = Some (k_qp k);
  sg_src : c_src s = Some src;
  sg_dst : c_dst s = Some dst;
  sg_live : live (c_lib s) = of_mrs ms ∪ (of_conn k ∪ blocks);
  sg_nodup : NoDup (lkey <$> ms);
  sg_posted : posted (c_lib s) = [];
}.

(** What has not been touched since the state [s0]. *)
Record kept s0 s : Prop := {
  kp_mem : c_mem s = c_mem s0;
  kp_src : c_src_mr s = c_src_mr s0;
  kp_meta : c_metadata_mr s = c_metadata_mr s0;
  kp_server : c_server_metadata_mr s = c_server_metadata_mr s0;
}.

Lemma prepare_spec a s : c_src s = Some src → c_dst s = Some dst →
  live (c_lib s) = blocks → posted (c_lib s) = [] →
  wp (client_prepare_connection a) (λ rc s', rc = 0 ∧ ∃ k, stage k [] s' ∧ kept s s') never s.
Proof.
  intros Hsrc Hdst Hl Hp. unfold client_prepare_connection. apply wp_function.
  r_need create_event_channel_law ch. r_need (create_id_law ch) id.
  r_zero (resolve_addr_law id a). r_await ch ADDR_RESOLVED.
  r_zero (resolve_route_law id). r_await ch ROUTE_RESOLVED.
  r_need (alloc_pd_law id) pd. r_need (create_comp_channel_law id) comp.
  r_need (create_cq_law id comp) cq. r_zero (req_notify_cq_law cq).
  match goal with E : req_notify_cq cq _ = (0, ?w) |- _ =>
    destruct (create_qp_law id pd cq w) as (qp&w'&E'&[]) end.
  { views. set_solver. }
  eapply wp_early, wp_need; [exact E'|]. apply wp_ret. split; [done|].
  exists (Conn ch id pd comp cq qp). split; [|done].
  split; simpl; try done; views; [|by apply NoDup_nil|done].
  change (of_mrs []) with (∅ : gset handle). unfold of_conn. simpl.
  by rewrite union_empty_l_L, <-!union_assoc_L.
Qed.

Lemma of_mrs_cons m ms : of_mrs (m :: ms) = {[HMr (lkey m)]} ∪ of_mrs ms.
Proof. done. Qed.

Lemma fresh_mr m ms k : HMr (lkey m) ∉ of_mrs ms ∪ (of_conn k ∪ blocks) →
  NoDup (lkey <$> ms) → NoDup (lkey <$> m :: ms).
Proof.
  intros Hf Hn. apply NoDup_cons. split; [|done]. contradict Hf.
  apply list_elem_of_fmap in Hf as (m'&He&Hm). apply elem_of_union_l, elem_of_list_to_set,
    list_elem_of_fmap. exists m'. by rewrite He.
Qed.

(** A state in which one more buffer is registered. *)
Lemma stage_mr m k ms s s' : stage k ms s → grows (HMr (lkey m)) (c_lib s) (c_lib s') →
  c_channel s' = c_channel s → c_id s' = c_id s → c_pd s' = c_pd s → c_comp s' = c_comp s →
  c_cq s' = c_cq s → c_qp s' = c_qp s → c_src s' = c_src s → c_dst s' = c_dst s →
  stage k (m :: ms) s'.
Proof.
  intros [] [] Hch Hid Hpd Hco Hcq Hqp Hsr Hds. split; try congruence.
  - rewrite gr_live0, sg_live0, of_mrs_cons. by rewrite <-union_assoc_L.
  - rewrite sg_live0 in gr_fresh0. by eapply fresh_mr.
Qed.

(** A state in which only the library has moved on. *)
Lemma stage_steady k ms s s' : stage k ms s → steady (c_lib s) (c_lib s') →
  c_channel s' = c_channel s → c_id s' = c_id s → c_pd s' = c_pd s → c_comp s' = c_comp s →
  c_cq s' = c_cq s → c_qp s' = c_qp s → c_src s' = c_src s → c_dst s' = c_dst s →
  stage k ms s'.
Proof. intros [] [] Hch Hid Hpd Hco Hcq Hqp Hsr Hds. split; congruence. Qed.

Lemma pre_post_spec k s : stage k [] s →
  wp client_pre_post_recv_buffer (λ rc s', rc = 0 ∧ ∃ m1, stage k [m1] s' ∧
    c_mem s' = c_mem s ∧ c_server_metadata_mr s' = Some m1) never s.
Proof.
  intros Hs. unfold client_pre_post_recv_buffer. apply wp_function, wp_bind, wp_get.
  rewrite (sg_pd _ _ _ Hs).
  destruct (register_law (k_pd k) server_attr_addr attr_size IBV_ACCESS_LOCAL_WRITE (c_lib s))
    as (m&w1&E&Ha&Hn&Hg).
  eapply wp_early, wp_need_mr; [exact E|]. eapply wp_early, wp_deref; [apply Hs|].
  destruct (post_recv_law (k_qp k) m w1) as (w2&E2&Hst).
  apply wp_must. eapply wp_lib_call; [exact E2|]. do 2 (split; [done|]).
  exists m. split_and!; [|done|done].
  eapply stage_steady; [by eapply (stage_mr m _ _ s (set_c_server_metadata_mr (Some m) (set_c_lib w1 s)))|done..].
Qed.

Lemma client_connect_spec k ms s : stage k ms s →
  wp client_connect_to_server (λ rc s', rc = 0 ∧ stage k ms s' ∧ kept s s') never s.
Proof.
  intros Hs. unfold client_connect_to_server. apply wp_function, wp_bind, wp_get.
  eapply wp_early, wp_deref; [apply Hs|]. eapply wp_early, wp_deref; [apply Hs|].
  r_zero (connect_law (k_id k)).
  destruct (cm_event_law (k_ch k) ESTABLISHED w) as (ev&w1&E1&[]); [done|].
  destruct (ack_law ev w1) as (w2&E2&[]).
  eapply wp_await; [done|exact E1|exact E2|]. split; [done|]. split; [|done].
  eapply stage_steady; [exact Hs| |done..]. split; simpl; by views.
Qed.

Lemma strlen_range b n : strlen b = Some n → 0 ≤ n < Z.of_nat (length b).
Proof.
  revert n. induction b as [|c b IH]; intros n; simpl; [done|].
  case_decide; [intros [= <-]; lia|]. intros (m&Hm&->)%fmap_Some. specialize (IH m Hm). lia.
Qed.

Lemma strlen_src_spec b n s (Q : Z → client W → Prop) : c_src s = Some src →
  c_mem s !! src = Some b → strlen b = Some n → Q n s → wp strlen_src Q never s.
Proof.
  intros Hs Hm Hn HQ. unfold strlen_src. apply wp_bind, wp_get, wp_bind.
  eapply wp_of_option; [done|]. apply wp_bind. eapply wp_of_option; [done|].
  by eapply wp_of_option.
Qed.

Lemma completions_spec comp n mem w' a s (Q : Z → client W → Prop) : c_comp s = Some comp →
  process_work_completion_events comp n (c_mem s) (c_lib s) = (Wc n a mem, w') →
  Q n (set_c_server_attr (default (c_server_attr s) a) (set_c_mem mem (set_c_lib w' s))) →
  wp (c_completions n) Q never s.
Proof.
  intros Hs E HQ. unfold c_completions. apply wp_bind, wp_get, wp_bind.
  eapply wp_of_option; [done|]. apply wp_bind. eapply wp_lib_call; [exact E|]. simpl.
  apply wp_seq, wp_modify, wp_seq. by destruct a, s; apply wp_modify || apply wp_skip.
Qed.

(** After a post and its completion the library holds what it held. *)
Lemma stage_done k ms w w1 w' s s' : stage k ms s → c_lib s = w →
  live w1 = live w → live w' = live w1 → posted w' = [] → c_lib s' = w' →
  c_channel s' = c_channel s → c_id s' = c_id s → c_pd s' = c_pd s → c_comp s' = c_comp s →
  c_cq s' = c_cq s → c_qp s' = c_qp s → c_src s' = c_src s → c_dst s' = c_dst s →
  stage k ms s'.
Proof. intros [] <- ??? Hl Hch Hid Hpd Hco Hcq Hqp Hsr Hds. split; congruence. Qed.

Record exchanged (n : Z) (m1 m2 m3 : mr) s : Prop := {
  ex_server : c_server_metadata_mr s = Some m1;
  ex_src : c_src_mr s = Some m2;
  ex_meta : c_metadata_mr s = Some m3;
  ex_src_mr : mr_addr m2 = src ∧ mr_length m2 = n;
  ex_remote : ∃ data, remote (c_lib s) !! a_address (c_server_attr s) =
    Some (a_stag (c_server_attr s), data) ∧ n = Z.of_nat (length data);
}.

Lemma exchange_spec k m1 b n s : stage k [m1] s → c_server_metadata_mr s = Some m1 →
  c_mem s !! src = Some b → strlen b = Some n → n < 2 ^ 32 →
  wp client_xchange_metadata_with_server (λ rc s', rc = 0 ∧ ∃ m2 m3,
    stage k [m3; m2; m1] s' ∧ exchanged n m1 m2 m3 s' ∧ c_mem s' = c_mem s) never s.
Proof.
  intros Hs H1 Hb Hn Hlt. pose proof (strlen_range _ _ Hn) as Hr.
  unfold client_xchange_metadata_with_server. apply wp_function, wp_bind.
  eapply strlen_src_spec; [apply Hs|done|done|]. apply wp_bind, wp_get.
  eapply wp_early, wp_deref; [apply Hs|]. rewrite (sg_pd _ _ _ Hs).
  destruct (register_law (k_pd k) src n all_access (c_lib s)) as (m2&w2&E2&Ha2&Hn2&Hg2).
  eapply wp_early, wp_need_mr; [exact E2|].
  pose proof (stage_mr m2 _ _ s (set_c_src_mr (Some m2) (set_c_lib w2 s)) Hs Hg2
    eq_refl eq_refl eq_refl eq_refl eq_refl eq_refl eq_refl eq_refl) as Hs2.
  set (s2 := set_c_src_mr _ _) in *.
  destruct (register_law (k_pd k) client_attr_addr attr_size IBV_ACCESS_LOCAL_WRITE (c_lib s2))
    as (m3&w3&E3&_&_&Hg3).
  eapply wp_early, wp_need_mr; [exact E3|].
  pose proof (stage_mr m3 _ _ s2 (set_c_metadata_mr (Some m3) (set_c_lib w3 s2)) Hs2 Hg3
    eq_refl eq_refl eq_refl eq_refl eq_refl eq_refl eq_refl eq_refl) as Hs3.
  set (s3 := set_c_metadata_mr _ _) in *.
  eapply wp_early, wp_deref; [apply Hs|].
  destruct (post_send_law (k_qp k) (wr_send (Attr (mr_addr m2) (u32 (mr_length m2)) (lkey m2)))
    (c_lib s3)) as (w4&E4&Hl4&_&Hp4&_).
  eapply wp_early, wp_zero; [exact E4|]. apply wp_exactly.
  rewrite (sg_posted _ _ _ Hs3) in Hp4. simpl in Hp4.
  destruct (exchange_law (k_comp k) (c_mem s3) w4 _ Hp4) as (a&data&w5&E5&Hl5&Hp5&Hr5&Hd).
  { simpl. apply u32_range. }
  eapply completions_spec; [apply Hs3|exact E5|]. do 2 (split; [done|]).
  exists m2, m3. split_and!; [|split; try done|done].
  - eapply stage_done; [exact Hs3|done|exact Hl4|exact Hl5|exact Hp5|done..].
  - exists data. split; [done|]. simpl in Hd. rewrite Hn2, u32_small in Hd by lia. done.
Qed.

(** The bytes of the string, and the rest of the destination. *)
Lemma remote_ops_spec k m1 m2 m3 b d n s : stage k [m3; m2; m1] s → exchanged n m1 m2 m3 s →
  c_mem s !! src = Some b → strlen b = Some n → c_mem s !! dst = Some d →
  n ≤ Z.of_nat (length d) → src ≠ dst →
  wp client_remote_memory_ops (λ rc s', rc = 0 ∧ ∃ m4,
    stage k [m4; m3; m2; m1] s' ∧
    (c_server_metadata_mr s' = Some m1 ∧ c_src_mr s' = Some m2 ∧ c_metadata_mr s' = Some m3 ∧
     c_dst_mr s' = Some m4) ∧
    c_mem s' = <[dst := take (Z.to_nat n) b ++ drop (Z.to_nat n) d]> (c_mem s)) never s.
Proof.
  intros Hs [? ? ? [Ha2 Hn2] (data&Hrem&Hdata)] Hb Hn Hd Hlen Hne.
  pose proof (strlen_range _ _ Hn) as Hr.
  unfold client_remote_memory_ops. apply wp_function, wp_bind.
  eapply strlen_src_spec; [apply Hs|done|done|]. apply wp_bind, wp_get.
  eapply wp_early, wp_deref; [apply Hs|]. rewrite (sg_pd _ _ _ Hs).
  destruct (register_law (k_pd k) dst n all_access (c_lib s)) as (m4&w4&E4&Ha4&Hn4&Hg4).
  eapply wp_early, wp_need_mr; [exact E4|].
  pose proof (stage_mr m4 _ _ s (set_c_dst_mr (Some m4) (set_c_lib w4 s)) Hs Hg4
    eq_refl eq_refl eq_refl eq_refl eq_refl eq_refl eq_refl eq_refl) as Hs4.
  set (s4 := set_c_dst_mr _ _) in *. set (a := c_server_attr s) in *.
  eapply wp_early, wp_deref; [done|]. eapply wp_early, wp_deref; [apply Hs|].
  destruct (post_send_law (k_qp k) (wr_write m2 (a_stag a) (a_address a)) (c_lib s4))
    as (w5&E5&Hl5&Hr5&Hp5&_).
  eapply wp_early, wp_zero; [exact E5|].
  rewrite (sg_posted _ _ _ Hs4) in Hp5. simpl in Hp5.
  destruct (write_law (k_comp k) (c_mem s4) w5 m2 (a_stag a) (a_address a) b data Hp5)
    as (w6&E6&Hl6&Hp6&Hr6); [| |lia|lia|].
  { rewrite Hr5. simpl. by rewrite (gr_remote _ _ _ Hg4). }
  { by rewrite Ha2. }
  eapply wp_early, wp_exactly, completions_spec; [apply Hs|exact E6|]. split; [done|].
  destruct (post_send_law (k_qp k) (wr_read m4 (a_stag a) (a_address a)) w6)
    as (w7&E7&Hl7&Hr7&Hp7&_).
  eapply wp_early, wp_zero; [exact E7|]. rewrite Hp6 in Hp7. simpl in Hp7.
  destruct (read_law (k_comp k) (c_mem s4) w7 m4 (a_stag a) (a_address a) d
    (take (Z.to_nat n) b ++ drop (Z.to_nat n) data) Hp7) as (w8&E8&Hl8&Hp8).
  { rewrite Hr7. rewrite Hn2 in Hr6. exact Hr6. }
  { by rewrite Ha4. }
  { lia. }
  { rewrite length_app, length_take, length_drop. lia. }
  eapply wp_exactly, completions_spec; [apply Hs|exact E8|]. do 2 (split; [done|]).
  exists m4. split_and!; try done.
  - eapply (stage_done k _ w4 w4); [exact Hs4|done|done| |exact Hp8|done..].
    change w4 with (c_lib s4). congruence.
  - simpl. rewrite Ha4, Hn4. f_equal.
    rewrite take_app_length' by (rewrite length_take; lia). done.
Qed.

Lemma check_spec b d n s (Q : bool → client W → Prop) : c_src s = Some src → c_dst s = Some dst →
  c_mem s !! src = Some b → strlen b = Some n → c_mem s !! dst = Some d →
  n ≤ Z.of_nat (length d) →
  Q (bool_decide (take (Z.to_nat n) b ≠ take (Z.to_nat n) d)) s → wp check_src_dst Q never s.
Proof.
  intros Hs Hd Hb Hn Hbd Hlen HQ. unfold check_src_dst. apply wp_bind.
  eapply strlen_src_spec; [done..|]. apply wp_bind, wp_get.
  do 4 (apply wp_bind; eapply wp_of_option; [done|]). by rewrite decide_True.
Qed.

(** The order in which a session releases what it holds. *)
Definition release_order (k : conn) (ms : list mr) : list handle :=
  [HQp (k_id k); HId (k_id k); HCq (k_cq k); HComp (k_comp k)] ++
  ((λ m, HMr (lkey m)) <$> ms) ++ [HBlock src; HBlock dst; HPd (k_pd k); HChannel (k_ch k)].

Lemma release_order_holds k m1 m2 m3 m4 w : NoDup (lkey <$> [m4; m3; m2; m1]) → src ≠ dst →
  live w = of_mrs [m4; m3; m2; m1] ∪ (of_conn k ∪ blocks) →
  holds (release_order k [m1; m3; m2; m4]) w.
Proof.
  intros Hnd Hne Hl. split.
  - rewrite Hl. apply set_eq. intros h. unfold of_mrs, of_conn, release_order. simpl.
    rewrite !elem_of_union, !elem_of_singleton, !elem_of_empty. tauto.
  - unfold release_order. simpl in *. rewrite !NoDup_cons, !not_elem_of_cons in *.
    destruct_and?. split_and!; try done; try apply not_elem_of_nil; try apply NoDup_nil_2;
      intros [= ?]; congruence.
Qed.

Lemma cleanup_mem_spec k m1 m2 m3 m4 s : stage k [m4; m3; m2; m1] s → src ≠ dst →
  c_server_metadata_mr s = Some m1 → c_src_mr s = Some m2 → c_metadata_mr s = Some m3 →
  c_dst_mr s = Some m4 →
  wp client_disconnect_and_clean (λ rc s', rc = 0 ∧ live (c_lib s') = ∅ ∧
    c_mem s' = c_mem s) never s.
Proof.
  intros Hs Hne H1 H2 H3 H4. unfold client_disconnect_and_clean.
  apply wp_bind, wp_get. rewrite H1, H2, H3, H4, (sg_src _ _ _ Hs), (sg_dst _ _ _ Hs),
    (sg_pd _ _ _ Hs).
  do 4 (apply wp_bind; eapply wp_of_option; [apply Hs|]).
  destruct (disconnect_law (k_id k) (c_lib s)) as (w1&E1&[]).
  apply wp_bind. eapply wp_lib_call; [exact E1|].
  destruct (cm_event_law (k_ch k) DISCONNECTED w1) as (ev&w2&E2&[]); [done|].
  apply wp_bind. eapply wp_lib_call; [exact E2|].
  destruct (ack_law ev w2) as (w3&E3&[]).
  apply wp_bind. eapply wp_lib_call; [exact E3|].
  assert (holds (release_order k [m1; m3; m2; m4]) w3) as Hh0.
  { apply release_order_holds; [apply (sg_nodup _ _ _ Hs)|done|].
    transitivity (live (c_lib s)); [congruence|apply (sg_live _ _ _ Hs)]. }
  unfold release_order in Hh0. simpl in Hh0.
  eapply wp_effect_release; [exact Hh0|apply destroy_qp_law|]. intros w4 Hh1 _.
  eapply wp_call_release; [exact Hh1|intros; apply destroy_id_law; [done|none Hh1]|].
  intros w5 Hh2 _.
  eapply wp_call_release; [exact Hh2|intros; apply destroy_cq_law; [done|none Hh2]|].
  intros w6 Hh3 _.
  eapply wp_call_release; [exact Hh3|intros; apply destroy_comp_law; [done|none Hh3]|].
  intros w7 Hh4 _.
  eapply wp_effect_release; [exact Hh4|apply deregister_law|]. intros w8 Hh5 _.
  eapply wp_effect_release; [exact Hh5|apply deregister_law|]. intros w9 Hh6 _.
  eapply wp_effect_release; [exact Hh6|apply deregister_law|]. intros w10 Hh7 _.
  eapply wp_effect_release; [exact Hh7|apply deregister_law|]. intros w11 Hh8 _.
  eapply wp_effect_release; [exact Hh8|apply free_law|]. intros w12 Hh9 _.
  eapply wp_effect_release; [exact Hh9|apply free_law|]. intros w13 Hh10 _.
  eapply wp_call_release; [exact Hh10|intros; apply dealloc_pd_law;
    [done|none Hh10|none Hh10]|].
  intros w14 Hh11 _.
  eapply wp_effect_release; [exact Hh11|intros; apply destroy_channel_law; [done|none Hh11]|].
  intros w15 [Hl _] _. by apply wp_ret.
Qed.

End client.

(** ** The server *)
Section server.
Context {W : Type} `{!RdmaLib W} `{!RdmaView W} `{!RdmaLaws W} `{!ServerLaws W}.
Implicit Types (s : server W) (w : W).

Abbreviation never := (λ _ _, False).

Record serving (k : conn) (sid : Z) (ms : list mr) s : Prop := {
  sv_channel : s_channel s = Some (k_ch k);
  sv_server_id : s_server_id s = Some sid;
  sv_client_id : s_client_id s = Some (k_id k);
  sv_pd : s_pd s = Some (k_pd k);
  sv_comp : s_comp s = Some (k_comp k);
  sv_cq : s_cq s = Some (k_cq k);
  sv_qp : s_qp s = Some (k_qp k);
  sv_live : live (s_lib s) = of_mrs ms ∪ (of_conn k ∪ {[HId sid]});
  sv_ids : sid ≠ k_id k;
  sv_nodup : NoDup (lkey <$> ms);
  sv_posted : posted (s_lib s) = [];
}.

Record listening ch id sid s : Prop := {
  li_channel : s_channel s = Some ch;
  li_server_id : s_server_id s = Some sid;
  li_client_id : s_client_id s = Some id;
  li_live : live (s_lib s) = {[HId id]} ∪ ({[HId sid]} ∪ {[HChannel ch]});
  li_ids : sid ≠ id;
  li_posted : posted (s_lib s) = [];
}.

Lemma start_spec a s : live (s_lib s) = ∅ → posted (s_lib s) = [] →
  wp (start_rdma_server a) (λ rc s', rc = 0 ∧ sent (s_lib s') = sent (s_lib s) ∧
    ∃ ch id sid, listening ch id sid s') never s.
Proof.
  intros Hl Hp. unfold start_rdma_server. apply wp_function.
  r_need create_event_channel_law ch. r_need (create_id_law ch) sid.
  r_zero (bind_addr_law sid a). r_zero (listen_law sid).
  match goal with E : listen sid _ = (0, ?w) |- _ =>
    destruct (connect_request_law ch w) as (id&w'&E'&[]) end.
  apply wp_early, wp_bind. eapply wp_lib_call; [exact E'|]. simpl.
  apply wp_seq, wp_modify. destruct (ack_law (Some id) w') as (wa&Ea&[]).
  eapply wp_zero; [exact Ea|]. do 2 (split; [done || (simpl; by views)|]).
  exists ch, id, sid. split; simpl; try done; views; rewrite ?Hl.
  - by rewrite union_empty_r_L.
  - intros ->. destruct gr_fresh1. views. set_solver.
  - done.
Qed.

Lemma setup_spec ch id sid s : listening ch id sid s →
  wp setup_client_resources (λ rc s', rc = 0 ∧ sent (s_lib s') = sent (s_lib s) ∧
    ∃ k, serving k sid [] s') never s.
Proof.
  intros []. unfold setup_client_resources. apply wp_function, wp_bind, wp_get.
  rewrite li_client_id0. r_need (alloc_pd_law id) pd. r_need (create_comp_channel_law id) comp.
  r_need (create_cq_law id comp) cq. r_zero (req_notify_cq_law cq).
  match goal with E : req_notify_cq cq _ = (0, ?w) |- _ =>
    destruct (create_qp_law id pd cq w) as (qp&w'&E'&[]) end.
  { views. set_solver. }
  eapply wp_early, wp_need; [exact E'|]. apply wp_ret. split; [done|].
  split; [simpl; by views|]. exists (Conn ch id pd comp cq qp).
  split; simpl; try done; views; [|by apply NoDup_nil|done].
  change (of_mrs []) with (∅ : gset handle). unfold of_conn. simpl.
  clear. set_solver.
Qed.

(** One more buffer is registered. *)
Lemma serving_mr m k sid ms s s' : serving k sid ms s →
  grows (HMr (lkey m)) (s_lib s) (s_lib s') →
  s_channel s' = s_channel s → s_server_id s' = s_server_id s → s_client_id s' = s_client_id s →
  s_pd s' = s_pd s → s_comp s' = s_comp s → s_cq s' = s_cq s → s_qp s' = s_qp s →
  serving k sid (m :: ms) s'.
Proof.
  intros [] [] Hch Hsi Hci Hpd Hco Hcq Hqp. split; try congruence.
  - rewrite gr_live0, sv_live0, of_mrs_cons. by rewrite <-union_assoc_L.
  - apply NoDup_cons. split; [|done]. contradict gr_fresh0. rewrite sv_live0.
    apply list_elem_of_fmap in gr_fresh0 as (m'&He&Hm). apply elem_of_union_l,
      elem_of_list_to_set, list_elem_of_fmap. exists m'. by rewrite He.
Qed.

(** The library has moved on and holds what it held. *)
Lemma serving_moved k sid ms s s' : serving k sid ms s →
  live (s_lib s') = live (s_lib s) → posted (s_lib s') = [] →
  s_channel s' = s_channel s → s_server_id s' = s_server_id s → s_client_id s' = s_client_id s →
  s_pd s' = s_pd s → s_comp s' = s_comp s → s_cq s' = s_cq s → s_qp s' = s_qp s →
  serving k sid ms s'.
Proof. intros [] Hl Hp Hch Hsi Hci Hpd Hco Hcq Hqp. split; congruence. Qed.

Lemma accept_spec k sid s : serving k sid [] s →
  wp accept_client_connection (λ rc s', rc = 0 ∧ sent (s_lib s') = sent (s_lib s) ∧
    ∃ m1, serving k sid [m1] s' ∧ s_client_metadata_mr s' = Some m1) never s.
Proof.
  intros Hs. unfold accept_client_connection. apply wp_function, wp_bind, wp_get.
  rewrite (sv_client_id _ _ _ _ Hs), (sv_qp _ _ _ _ Hs), (sv_pd _ _ _ _ Hs).
  destruct (register_law (k_pd k) client_attr_addr attr_size IBV_ACCESS_LOCAL_WRITE (s_lib s))
    as (m&w1&E1&_&_&Hg).
  eapply wp_early, wp_need_mr; [exact E1|].
  pose proof (serving_mr m _ _ _ s (set_s_client_metadata_mr (Some m) (set_s_lib w1 s)) Hs Hg
    eq_refl eq_refl eq_refl eq_refl eq_refl eq_refl eq_refl) as Hs1.
  destruct (post_recv_law (k_qp k) m w1) as (w2&E2&[]).
  eapply wp_early, wp_must, wp_lib_call; [exact E2|]. split; [done|]. simpl.
  r_zero (accept_law (k_id k)). eapply wp_early, wp_deref; [apply Hs|].
  destruct (cm_event_law (k_ch k) ESTABLISHED w) as (ev&w3&E3&[]); [done|].
  apply wp_bind. eapply wp_lib_call; [exact E3|]. simpl.
  destruct (ack_law ev w3) as (w4&E4&[]). eapply wp_zero; [exact E4|].
  destruct Hg. do 2 (split; [done || (simpl; by views)|]). exists m. split; [|done].
  eapply serving_moved; [exact Hs1| | |done..]; simpl; views; [done|].
  apply (sv_posted _ _ _ _ Hs).
Qed.

Lemma s_completions_spec comp n w' a mem s (Q : Z → server W → Prop) : s_comp s = Some comp →
  process_work_completion_events comp n ∅ (s_lib s) = (Wc n a mem, w') →
  Q n (set_s_client_attr (default (s_client_attr s) a) (set_s_lib w' s)) →
  wp (s_completions n) Q never s.
Proof.
  intros Hs E HQ. unfold s_completions. apply wp_bind, wp_get, wp_bind.
  eapply wp_of_option; [done|]. apply wp_bind. eapply wp_lib_call; [exact E|]. simpl.
  apply wp_seq. by destruct a, s; apply wp_modify || apply wp_skip.
Qed.

(** The description that is sent is that of a registered buffer of the length that
    the client has asked for. *)
Record offered (m1 mb mm : mr) (l : list send_wr) s : Prop := {
  of_client : s_client_metadata_mr s = Some m1;
  of_buffer : s_buffer_mr s = Some mb;
  of_meta : s_metadata_mr s = Some mm;
  of_attr : s_server_attr s = Attr (mr_addr mb) (a_length (s_client_attr s)) (lkey mb);
  of_sent : sent (s_lib s) = l ++ [wr_send (s_server_attr s)];
}.

Lemma server_send_spec k sid m1 s : serving k sid [m1] s → s_client_metadata_mr s = Some m1 →
  wp send_server_metadata_to_client (λ rc s', rc = 0 ∧ ∃ mb mm,
    serving k sid [mm; mb; m1] s' ∧ offered m1 mb mm (sent (s_lib s)) s') never s.
Proof.
  intros Hs H1. unfold send_server_metadata_to_client. apply wp_function.
  destruct (received_law (k_comp k) ∅ (s_lib s) (sv_posted _ _ _ _ Hs)) as (a&w1&E1&[]&Ha).
  eapply wp_early, wp_exactly, s_completions_spec; [apply Hs|exact E1|]. split; [done|].
  apply wp_bind, wp_get. simpl. rewrite (sv_pd _ _ _ _ Hs).
  pose proof (serving_moved k sid [m1] s (set_s_client_attr a (set_s_lib w1 s)) Hs st_live0
    (eq_trans st_posted0 (sv_posted _ _ _ _ Hs)) eq_refl eq_refl eq_refl eq_refl eq_refl eq_refl
    eq_refl) as Hs1.
  destruct (alloc_law (k_pd k) (a_length a) all_access w1) as (mb&w2&E2&Hn2&Hg2).
  eapply wp_early, wp_need_mr; [exact E2|].
  pose proof (serving_mr mb _ _ _ _ (set_s_buffer_mr (Some mb) (set_s_lib w2
    (set_s_client_attr a (set_s_lib w1 s)))) Hs1 Hg2
    eq_refl eq_refl eq_refl eq_refl eq_refl eq_refl eq_refl) as Hs2.
  apply wp_seq, wp_modify. set (attr := Attr _ _ _).
  destruct (register_law (k_pd k) server_attr_addr attr_size IBV_ACCESS_LOCAL_WRITE w2)
    as (mm&w3&E3&_&_&Hg3).
  eapply wp_early, wp_need_mr; [exact E3|].
  set (s2 := set_s_buffer_mr _ _) in *.
  pose proof (serving_mr mm _ _ _ s2 (set_s_metadata_mr (Some mm) (set_s_lib w3
    (set_s_server_attr attr s2))) Hs2 Hg3
    eq_refl eq_refl eq_refl eq_refl eq_refl eq_refl eq_refl) as Hs3.
  eapply wp_early, wp_deref; [apply Hs|].
  destruct (post_send_law (k_qp k) (wr_send attr) w3) as (w4&E4&Hl4&_&Hp4&Hse4).
  eapply wp_early, wp_zero; [exact E4|].
  pose proof (sv_posted _ _ _ _ Hs3) as Hp3. simpl in Hp3. rewrite Hp3 in Hp4.
  destruct (answered_law (k_comp k) ∅ w4 attr Hp4) as (w5&E5&Hl5&Hp5&Hse5).
  eapply wp_exactly, s_completions_spec; [apply Hs|exact E5|]. do 2 (split; [done|]).
  exists mb, mm. split.
  - eapply serving_moved; [exact Hs3| |exact Hp5|done..]. simpl. congruence.
  - split; try done; simpl.
    + unfold attr. by rewrite Hn2, u32_small.
    + rewrite Hse5, Hse4. f_equal. rewrite (gr_sent _ _ _ Hg3), (gr_sent _ _ _ Hg2). done.
Qed.

Definition server_order (k : conn) (sid : Z) (ms : list mr) : list handle :=
  [HQp (k_id k); HId (k_id k); HCq (k_cq k); HComp (k_comp k)] ++
  ((λ m, HMr (lkey m)) <$> ms) ++ [HPd (k_pd k); HId sid; HChannel (k_ch k)].

Lemma server_order_holds k sid m1 mb mm w : NoDup (lkey <$> [mm; mb; m1]) → sid ≠ k_id k →
  live w = of_mrs [mm; mb; m1] ∪ (of_conn k ∪ {[HId sid]}) →
  holds (server_order k sid [mb; mm; m1]) w.
Proof.
  intros Hnd Hne Hl. split.
  - rewrite Hl. apply set_eq. intros h. unfold of_mrs, of_conn, server_order. simpl.
    rewrite !elem_of_union, !elem_of_singleton, !elem_of_empty. tauto.
  - unfold server_order. simpl in *. rewrite !NoDup_cons, !not_elem_of_cons in *.
    destruct_and?. split_and!; try done; try apply not_elem_of_nil; try apply NoDup_nil_2;
      intros [= ?]; congruence.
Qed.

Lemma server_cleanup_spec k sid m1 mb mm l s : serving k sid [mm; mb; m1] s →
  offered m1 mb mm l s →
  wp disconnect_and_cleanup (λ rc s', rc = 0 ∧ live (s_lib s') = ∅ ∧
    sent (s_lib s') = sent (s_lib s) ∧ s_client_attr s' = s_client_attr s ∧
    s_server_attr s' = s_server_attr s ∧ s_buffer_mr s' = s_buffer_mr s) never s.
Proof.
  intros Hs [H1 Hb Hm _ _]. unfold disconnect_and_cleanup.
  apply wp_function, wp_bind, wp_get. rewrite H1, Hb, Hm, (sv_pd _ _ _ _ Hs).
  eapply wp_early, wp_deref; [apply Hs|].
  destruct (cm_event_law (k_ch k) DISCONNECTED (s_lib s)) as (ev&w1&E1&[]); [done|].
  destruct (ack_law ev w1) as (w2&E2&[]).
  eapply wp_early, wp_await; [done|exact E1|exact E2|]. simpl.
  do 4 (eapply wp_early, wp_deref; [apply Hs|]).
  assert (holds (server_order k sid [mb; mm; m1]) w2) as Hh0.
  { apply server_order_holds; [apply (sv_nodup _ _ _ _ Hs)|apply (sv_ids _ _ _ _ Hs)|].
    transitivity (live (s_lib s)); [congruence|apply (sv_live _ _ _ _ Hs)]. }
  unfold server_order in Hh0. simpl in Hh0.
  eapply wp_effect_release; [exact Hh0|apply destroy_qp_law|]. intros w4 Hh1 Hs4.
  eapply wp_call_release; [exact Hh1|intros; apply destroy_id_law; [done|none Hh1]|].
  intros w5 Hh2 Hs5.
  eapply wp_call_release; [exact Hh2|intros; apply destroy_cq_law; [done|none Hh2]|].
  intros w6 Hh3 Hs6.
  eapply wp_call_release; [exact Hh3|intros; apply destroy_comp_law; [done|none Hh3]|].
  intros w7 Hh4 Hs7.
  eapply wp_effect_release; [exact Hh4|apply buffer_free_law|]. intros w8 Hh5 Hs8.
  eapply wp_effect_release; [exact Hh5|apply deregister_law|]. intros w9 Hh6 Hs9.
  eapply wp_effect_release; [exact Hh6|apply deregister_law|]. intros w10 Hh7 Hs10.
  eapply wp_call_release; [exact Hh7|intros; apply dealloc_pd_law; [done|none Hh7|none Hh7]|].
  intros w11 Hh8 Hs11.
  eapply wp_call_release; [exact Hh8|intros; apply destroy_id_law; [done|none Hh8]|].
  intros w12 Hh9 Hs12.
  eapply wp_effect_release; [exact Hh9|intros; apply destroy_channel_law; [done|none Hh9]|].
  intros w13 [Hl _] Hs13. simpl in *. apply wp_ret. split_and!; try done. simpl. congruence.
Qed.

End server.

(** ** The string that the client never terminates *)
Section unterminated.
Context {W : Type} `{!RdmaLib W} (digest : list Z → list Z).
Implicit Types (s : client W).

(** The source block, if there is one, holds no NUL. *)
Definition no_nul s : Prop :=
  ∀ p, c_src s = Some p → ∃ b, c_mem s !! p = Some b ∧ strlen b = None.

(** Code that leaves the blocks alone. *)
Definition keeps {A} (m : M (client W) A) : Prop :=
  ∀ s a s', m s = Done a s' → c_src s' = c_src s ∧ c_mem s' = c_mem s.

Lemma keeps_ret {A} (a : A) : keeps (mret a).
Proof. by intros s a' s' [= _ <-]. Qed.
Lemma keeps_get : keeps get.
Proof. by intros s a' s' [= _ <-]. Qed.
Lemma keeps_bind {A B} (m : M (client W) A) (k : A → M (client W) B) :
  keeps m → (∀ a, keeps (k a)) → keeps (m ≫= k).
Proof.
  intros Hm Hk s b s' (a&s1&H1&H2)%bind_done. apply Hm in H1 as [??].
  apply Hk in H2 as [??]. split; congruence.
Qed.
Lemma keeps_modify f : (∀ s, c_src (f s) = c_src s ∧ c_mem (f s) = c_mem s) →
  keeps (modify f).
Proof. by intros Hf s a' s' [= _ <-]. Qed.
Lemma keeps_call {A} (f : W → A * W) : keeps (call c_lib set_c_lib f).
Proof. by intros s a' s' [= _ <-]. Qed.
Lemma keeps_of_option {A} (o : option A) : keeps (of_option o).
Proof. destruct o; [apply keeps_ret|]. by intros s a s'. Qed.

Ltac keep := repeat first
  [ apply keeps_ret | apply keeps_get | apply keeps_call | apply keeps_of_option
  | apply keeps_modify; done | apply keeps_bind; intros
  | match goal with
    | |- keeps (match ?x with _ => _ end) => destruct x
    end
  | progress unfold function, early, need, zero, await, wait_event, must, need_mr, deref,
      returns_errno, returns, goes_on ].

Lemma prepare_keeps a : keeps (client_prepare_connection a).
Proof. unfold client_prepare_connection. keep. Qed.
Lemma pre_post_keeps : keeps client_pre_post_recv_buffer.
Proof. unfold client_pre_post_recv_buffer. keep. Qed.
Lemma connect_keeps : keeps client_connect_to_server.
Proof. unfold client_connect_to_server. keep. Qed.

Lemma no_nul_keeps {A} (m : M (client W) A) s a s' : keeps m → no_nul s → m s = Done a s' →
  no_nul s'.
Proof. intros Hm Hs [H1 H2]%Hm. unfold no_nul. by rewrite H1, H2. Qed.

Lemma exchange_no_nul s : no_nul s → client_xchange_metadata_with_server s = Undef.
Proof.
  intros Hs. unfold client_xchange_metadata_with_server, function, strlen_src, mbind, M_bind, get.
  destruct (c_src s) as [p|] eqn:Hp; [|done]. destruct (Hs p Hp) as (b&Hb&Hn).
  simpl. rewrite Hb. simpl. by rewrite Hn.
Qed.

Lemma must_done (m : M (client W) Z) s r s' : must m s = Done r s' →
  ∃ rc, m s = Done rc s' ∧ ((r = inl rc ∧ rc ≠ 0) ∨ r = inr tt).
Proof.
  intros (rc&s1&H1&H2)%bind_done. exists rc. destruct (decide (rc ≠ 0)) in H2;
    injection H2 as <- <-; eauto.
Qed.

(** One function of the sequence: it ends [main], or the next one runs. *)
Lemma must_then {B} (m : M (client W) Z) (k : () → M (client W) (Z + B)) s r s' :
  early (must m) k s = Done r s' →
  (∃ rc, r = inl rc ∧ rc ≠ 0) ∨ (∃ rc s1, m s = Done rc s1 ∧ k tt s1 = Done r s').
Proof.
  intros (r1&s1&(rc&H1&Hr)%must_done&H2)%bind_done.
  destruct Hr as [[-> Hrc]| ->]; [left|right; eauto].
  injection H2 as <- _. eauto.
Qed.

Lemma session_no_nul a s out s' : no_nul s → client_session a s = Done out s' →
  out.1 ≠ 0 ∧ out.2 = None.
Proof.
  intros Hs (r&s1&H1&H2)%bind_done. apply must_then in H1 as [(rc&->&Hrc)|(rc&s2&E2&H1)].
  { by injection H2 as <- _. }
  apply (no_nul_keeps _ _ _ _ (prepare_keeps a) Hs) in E2 as Hs2.
  apply must_then in H1 as [(rc'&->&Hrc)|(rc'&s3&E3&H1)]; [by injection H2 as <- _|].
  apply (no_nul_keeps _ _ _ _ pre_post_keeps Hs2) in E3 as Hs3.
  apply must_then in H1 as [(rc''&->&Hrc)|(rc''&s4&E4&H1)]; [by injection H2 as <- _|].
  apply (no_nul_keeps _ _ _ _ connect_keeps Hs3) in E4 as Hs4.
  apply must_then in H1 as [(rc3&->&Hrc)|(rc3&s5&E5&_)]; [by injection H2 as <- _|].
  by rewrite exchange_no_nul in E5.
Qed.

Lemma strlen_none b : Forall (λ c, c ≠ 0) b → strlen b = None.
Proof. induction 1 as [|c b Hc _ IH]; simpl; [done|]. rewrite decide_False by done. by rewrite IH. Qed.

Context (Hdigest : ∀ x, Forall (λ b, 0 ≤ b) (digest x)).
Context (Hcalloc : ∀ n (w : W) p w1 d w2,
  calloc n w = (Some p, w1) → calloc n w1 = (Some d, w2) → d ≠ p).

Lemma input_no_nul : strlen (input_str digest) = None.
Proof.
  apply strlen_none, Forall_concat, Forall_replicate, Forall_concat, Forall_fmap.
  eapply Forall_impl; [apply Hdigest|]. intros b Hb. unfold hex_byte, hex_digit. simpl.
  pose proof (Z.div_pos b 16 Hb ltac:(lia)). pose proof (Z.mod_pos_bound b 16 ltac:(lia)).
  repeat constructor; case_decide; lia.
Qed.

Lemma option_no_nul opt optarg a s r s' : no_nul s →
  client_option digest opt optarg a s = Done r s' →
  match r with inl rc => rc ≠ 0 | inr _ => no_nul s' end.
Proof.
  intros Hs. unfold client_option. destruct (decide (opt = "s"%char)).
  - intros (src&s1&E1&(?&s2&[= _ <-]&H2)%bind_done)%bind_done. injection E1 as <- <-.
    destruct (calloc _ (c_lib s)) as [[p|] w1] eqn:Ec; simpl in H2; [|by injection H2 as <- _].
    apply bind_done in H2 as (?&s3&[= _ <-]&H3).
    apply bind_done in H3 as (dst&s4&E4&(?&s5&[= _ <-]&H5)%bind_done). injection E4 as <- <-.
    simpl in H5.
    destruct (calloc _ w1) as [[d|] w2] eqn:Ed; simpl in H5.
    + apply bind_done in H5 as (?&s6&[= _ <-]&H6). injection H6 as <- <-.
      intros p' [= <-]. exists (input_str digest). split; [|apply input_no_nul]. simpl.
      rewrite lookup_insert_ne by (eapply Hcalloc; [exact Ec|exact Ed]).
      by rewrite lookup_insert_eq.
    + apply bind_done in H5 as (?&s6&_&H6). by injection H6 as <- _.
  - destruct (decide (opt = "a"%char)).
    + case_decide; intros [= <- <-]; done.
    + destruct (decide (opt = "p"%char)); [|done]. by intros [= <- <-].
Qed.

Lemma options_no_nul opts a s r s' : no_nul s →
  client_options digest opts a s = Done r s' →
  match r with inl rc => rc ≠ 0 | inr _ => no_nul s' end.
Proof.
  revert a s. induction opts as [|[opt optarg] opts IH]; intros a s Hs; simpl.
  - by intros [= <- <-].
  - intros (r1&s1&H1%option_no_nul&H2)%bind_done; [|done]. destruct r1 as [rc|a1].
    + by injection H2 as <- _.
    + by eapply IH.
Qed.

End unterminated.
