(* ===== verification/RdmaProps.v ===== *)
(** * Properties of the RDMA client and server

    With a library that works the server runs to its end, offers the buffer it was asked
    for and releases what it has allocated in an order the library accepts.  The client
    never makes its source a terminated string, and so never succeeds; if it did, it would
    find the two buffers equal. *)
From S2P Require Import Prelude Rdma RdmaSpec.
Local Open Scope Z_scope.

Section client.
Context {W : Type} `{!RdmaLib W} `{!RdmaView W} `{!RdmaLaws W} `{!ClientLaws W}.
Context (src dst : Z).
Implicit Types (s : client W).

(** A client that would leave room for the NUL.  With a library that works, a source block that holds a terminated string of [n]
    bytes and a destination block of at least [n]: [main] of [rdma_client.cc] after its
    options returns 0 and reports that the buffers match, because what the server's buffer
    was made to hold has been read back; and it releases its connection, its four
    registrations and both blocks, each after what depends on it.  The program as it is
    never has such a source block ([client_never_succeeds]). *)
Lemma client_copies a b d n s :
  c_src s = Some src → c_dst s = Some dst → src ≠ dst →
  c_mem s !! src = Some b → strlen b = Some n → n < 2 ^ 32 →
  c_mem s !! dst = Some d → n ≤ Z.of_nat (length d) →
  live (c_lib s) = {[HBlock src; HBlock dst]} → posted (c_lib s) = [] →
  wp (client_session a) (λ r s', r = (0, Some true) ∧ live (c_lib s') = ∅ ∧
    ∃ d', c_mem s' !! dst = Some d' ∧ take (Z.to_nat n) d' = take (Z.to_nat n) b) (λ _ _, False) s.
Proof.
  intros Hsrc Hdst Hne Hb Hn Hlt Hd Hlen Hl Hp. unfold client_session. apply wp_bind.
  pose proof (strlen_range _ _ Hn) as Hr.
  apply wp_early, wp_must. eapply wp_weaken; [by apply prepare_spec|].
  intros rc s1 (->&k&Hs1&[Hm1 _ _ _]). split; [done|].
  apply wp_early, wp_must. eapply wp_weaken; [by eapply pre_post_spec|].
  intros rc s2 (->&m1&Hs2&Hm2&Hmr1). split; [done|].
  apply wp_early, wp_must. eapply wp_weaken; [by eapply client_connect_spec|].
  intros rc s3 (->&Hs3&[Hm3 _ _ Hmr2]). split; [done|].
  apply wp_early, wp_must. eapply wp_weaken.
  { eapply (exchange_spec src dst k m1 b n); [done|congruence|congruence|done|done]. }
  intros rc s4 (->&m2&m3&Hs4&Hex&Hm4). split; [done|].
  apply wp_must. eapply wp_weaken.
  { eapply (remote_ops_spec src dst k m1 m2 m3 b d n); [done|done|congruence|done|congruence|done|done]. }
  intros rc s5 (->&m4&Hs5&(?&?&?&?)&Hm5). split; [done|].
  assert (c_mem s5 = <[dst := take (Z.to_nat n) b ++ drop (Z.to_nat n) d]> (c_mem s)) as Hmem
    by congruence.
  assert (take (Z.to_nat n) (take (Z.to_nat n) b ++ drop (Z.to_nat n) d) = take (Z.to_nat n) b)
    as Htake by (rewrite take_app_le, take_take, Nat.min_id; [done|rewrite length_take; lia]).
  apply wp_bind. eapply (check_spec src dst b (take (Z.to_nat n) b ++ drop (Z.to_nat n) d) n);
    [apply Hs5|apply Hs5| |done| | |].
  { rewrite Hmem. by rewrite lookup_insert_ne. }
  { rewrite Hmem. by rewrite lookup_insert_eq. }
  { rewrite length_app, length_take, length_drop. lia. }
  rewrite Htake, bool_decide_false by auto.
  apply wp_bind. eapply wp_weaken; [by eapply cleanup_mem_spec|].
  intros rc s6 (->&Hl6&Hm6). apply wp_ret. split_and!; [done|done|].
  eexists. rewrite Hm6, Hmem, lookup_insert_eq. done.
Qed.
End client.

Section server.
Context {W : Type} `{!RdmaLib W} `{!RdmaView W} `{!RdmaLaws W} `{!ServerLaws W}.
Implicit Types (s : server W).

(** (C30) With a library that works, [rdma_server.cc] after its options returns 0; it has sent
    one message, the description of a buffer that it had registered, as long as the client's
    description asked for; and when the client has disconnected it releases
    all that it has allocated, each after what depends on it. *)
Theorem server_offers a s : live (s_lib s) = ∅ → posted (s_lib s) = [] →
  wp (server_session a) (λ rc s', rc = 0 ∧ live (s_lib s') = ∅ ∧ ∃ mb,
    s_buffer_mr s' = Some mb ∧
    s_server_attr s' = Attr (mr_addr mb) (a_length (s_client_attr s')) (lkey mb) ∧
    sent (s_lib s') = sent (s_lib s) ++ [wr_send (s_server_attr s')]) (λ _ _, False) s.
Proof.
  intros Hl Hp. unfold server_session. apply wp_function.
  apply wp_early, wp_must. eapply wp_weaken; [by apply start_spec|].
  intros rc s1 (->&Hs1&ch&id&sid&Hli). split; [done|].
  apply wp_early, wp_must. eapply wp_weaken; [by eapply setup_spec|].
  intros rc s2 (->&Hs2&k&Hse). split; [done|].
  apply wp_early, wp_must. eapply wp_weaken; [by eapply accept_spec|].
  intros rc s3 (->&Hs3&m1&Hm1&Hmr). split; [done|].
  apply wp_early, wp_must. eapply wp_weaken; [by eapply server_send_spec|].
  intros rc s4 (->&mb&mm&Hm&Ho). split; [done|].
  apply wp_must. eapply wp_weaken; [by eapply server_cleanup_spec|].
  intros rc s5 (->&Hl5&Hse5&Hca&Hsa&Hb5). do 2 (split; [done|]). split; [done|].
  destruct Ho. exists mb. split_and!; congruence.
Qed.
End server.

Section unterminated.
Context {W : Type} `{!RdmaLib W} (digest : list Z → list Z).
Context (Hdigest : ∀ x, Forall (λ b, 0 ≤ b) (digest x)).
Context (Hcalloc : ∀ n (w : W) p w1 d w2,
  calloc n w = (Some p, w1) → calloc n w1 = (Some d, w2) → d ≠ p).

(** (C31) Whatever its options are and whatever the library answers, [rdma_client.cc] never
    returns 0 and never compares its buffers: it copies its text with [strncpy] into a
    block that has no room for the terminating NUL, and [strlen] of that block, which
    the exchange of the descriptions starts with, is undefined. *)
Theorem client_never_succeeds opts (w : W) out s' :
  client_main digest opts (client_start w) = Done out s' → out.1 ≠ 0 ∧ out.2 = None.
Proof.
  intros (r&s1&H1%options_no_nul&H2)%bind_done; [|done|done|by intros p]. destruct r as [rc|a].
  - by injection H2 as <- _.
  - apply bind_done in H2 as (s2&s3&[= <- <-]&H3). destruct (c_src s1); [|done].
    by eapply session_no_nul.
Qed.
End unterminated.

(** ** A simulated library

    The other side is part of it: it answers a description with a buffer of that
    length, and to a server it is a client that asks for 16 bytes. *)
Record rdma_sim := RdmaSim {
  v_live : gset handle;
  v_remote : gmap Z (Z * list Z);
  v_posted : list send_wr;
  v_sent : list send_wr;
}.

Definition sim_fresh (proj : handle → option Z) (w : rdma_sim) : Z :=
  fresh (list_to_set (omap proj (elements (v_live w))) : gset Z).
Definition sim_add (h : handle) (w : rdma_sim) : rdma_sim :=
  RdmaSim ({[h]} ∪ v_live w) (v_remote w) (v_posted w) (v_sent w).
Definition sim_remove (h : handle) (w : rdma_sim) : rdma_sim :=
  RdmaSim (v_live w ∖ {[h]}) (v_remote w) (v_posted w) (v_sent w).
Definition sim_new (f : Z → handle) (proj : handle → option Z) (w : rdma_sim)
    : option Z * rdma_sim :=
  (Some (sim_fresh proj w), sim_add (f (sim_fresh proj w)) w).

Definition is_channel h := match h with HChannel z => Some z | _ => None end.
Definition is_id h := match h with HId z => Some z | _ => None end.
Definition is_pd h := match h with HPd z => Some z | _ => None end.
Definition is_comp h := match h with HComp z => Some z | _ => None end.
Definition is_cq h := match h with HCq z => Some z | _ => None end.
Definition is_mr h := match h with HMr z => Some z | _ => None end.
Definition is_block h := match h with HBlock z => Some z | _ => None end.

Definition sim_register (p : option Z) (a n : Z) (w : rdma_sim) : option mr * rdma_sim :=
  match p with
  | None => (None, w)
  | Some _ => let k := sim_fresh is_mr w in (Some (Mr k a n), sim_add (HMr k) w)
  end.
Definition sim_done (r : gmap Z (Z * list Z)) (w : rdma_sim) : rdma_sim :=
  RdmaSim (v_live w) r [] (v_sent w).

Definition sim_completions (n : Z) (mem : gmap Z (list Z)) (w : rdma_sim)
    : completions * rdma_sim :=
  match v_posted w with
  | [wr_send a] =>
      if decide (n = 2) then
        (Wc 2 (Some (Attr 1 (a_length a) 7)) mem,
         sim_done (<[1 := (7, replicate (Z.to_nat (a_length a)) 0)]> (v_remote w)) w)
      else (Wc n None mem, sim_done (v_remote w) w)
  | [wr_write m k r] =>
      match v_remote w !! r, mem !! mr_addr m with
      | Some (_, data), Some blk =>
          let l := Z.to_nat (mr_length m) in
          (Wc n None mem, sim_done (<[r := (k, take l blk ++ drop l data)]> (v_remote w)) w)
      | _, _ => (Wc (-1) None mem, w)
      end
  | [wr_read m k r] =>
      match v_remote w !! r, mem !! mr_addr m with
      | Some (_, data), Some blk =>
          let l := Z.to_nat (mr_length m) in
          (Wc n None (<[mr_addr m := take l data ++ drop l blk]> mem), sim_done (v_remote w) w)
      | _, _ => (Wc (-1) None mem, w)
      end
  | _ => (Wc n (Some (Attr 5 16 3)) mem, w)
  end.

#[local] Instance rdma_sim_lib : RdmaLib rdma_sim := {|
  errno _ := 5;
  create_event_channel := sim_new HChannel is_channel;
  create_id _ := sim_new HId is_id;
  resolve_addr _ _ w := (0, w);
  resolve_route _ w := (0, w);
  bind_addr _ _ w := (0, w);
  listen _ w := (0, w);
  process_rdma_cm_event _ e w :=
    match e with
    | CONNECT_REQUEST => let r := sim_new HId is_id w in ((0, r.1), r.2)
    | _ => ((0, Some 0), w)
    end;
  ack_cm_event _ w := (0, w);
  alloc_pd _ := sim_new HPd is_pd;
  create_comp_channel _ := sim_new HComp is_comp;
  create_cq _ _ := sim_new HCq is_cq;
  req_notify_cq _ w := (0, w);
  create_qp i _ _ w := (Some 1, sim_add (HQp i) w);
  buffer_register p a n _ := sim_register p a n;
  buffer_alloc p n _ := sim_register p 4096 n;
  post_recv _ _ w := (0, w);
  post_send _ r w := (0, RdmaSim (v_live w) (v_remote w) (v_posted w ++ [r]) (v_sent w ++ [r]));
  connect _ w := (0, w);
  accept _ w := (0, w);
  disconnect _ w := (0, w);
  process_work_completion_events _ := sim_completions;
  destroy_qp i := sim_remove (HQp i);
  destroy_id i w := (0, sim_remove (HId i) w);
  destroy_cq q w := (0, sim_remove (HCq q) w);
  destroy_comp_channel c w := (0, sim_remove (HComp c) w);
  buffer_deregister m w := match m with Some m => sim_remove (HMr (lkey m)) w | None => w end;
  buffer_free m w := match m with Some m => sim_remove (HMr (lkey m)) w | None => w end;
  dealloc_pd p w := (0, match p with Some p => sim_remove (HPd p) w | None => w end);
  destroy_event_channel c := sim_remove (HChannel c);
  calloc _ := sim_new HBlock is_block;
  free b w := match b with Some b => sim_remove (HBlock b) w | None => w end;
  get_addr s := (-1, Sockaddr 0 0);
  DEFAULT_RDMA_PORT := 20886;
  client_attr_addr := 64;
  server_attr_addr := 128;
  attr_size := 16;
|}.

#[local] Instance rdma_sim_view : RdmaView rdma_sim := {|
  live := v_live; remote := v_remote; posted := v_posted; sent := v_sent |}.

Lemma sim_fresh_law (f : Z → handle) proj w : (∀ z, proj (f z) = Some z) →
  f (sim_fresh proj w) ∉ v_live w.
Proof.
  intros Hp Hin. destruct (is_fresh (list_to_set (omap proj (elements (v_live w))) : gset Z)).
  apply elem_of_list_to_set, list_elem_of_omap. exists (f (sim_fresh proj w)).
  split; [by apply elem_of_elements|apply Hp].
Qed.

Lemma sim_grows h w : h ∉ v_live w → grows h w (sim_add h w).
Proof. by split. Qed.
Lemma sim_gives f proj w : (∀ z, proj (f z) = Some z) → gives (sim_new f proj) f w.
Proof.
  intros Hp. do 2 eexists. split; [done|]. by apply sim_grows, sim_fresh_law.
Qed.
Lemma sim_succeeds w : succeeds (λ w, (0, w)) w.
Proof. by exists w. Qed.
Lemma sim_releases h w : releases (λ w, (0, sim_remove h w)) h w.
Proof. eexists. by split. Qed.
Lemma sim_registers p a n w : ∃ m w', sim_register (Some p) a n w = (Some m, w') ∧
  mr_addr m = a ∧ mr_length m = n ∧ grows (HMr (lkey m)) w w'.
Proof. do 2 eexists. do 3 (split; [done|]). by apply sim_grows, sim_fresh_law. Qed.

#[local] Instance rdma_sim_laws : RdmaLaws rdma_sim.
Proof.
  split; intros; try (by apply sim_gives); try (by apply sim_succeeds);
    try (by apply sim_releases); try (by apply sim_registers); try (by split).
  - exists (Some 0), w. by destruct e.
  - do 2 eexists. split; [done|]. by apply sim_grows, sim_fresh_law.
  - do 2 eexists. split; [done|]. by apply sim_grows.
  - destruct (sim_registers p 4096 n w) as (m&w'&?&_&?&?). by exists m, w'.
  - by eexists.
Qed.

#[local] Instance rdma_sim_client : ClientLaws rdma_sim.
Proof.
  split; simpl; unfold sim_completions.
  - intros c mem w a -> Ha. do 3 eexists. rewrite decide_True by done.
    do 3 (split; [done|]). split; [apply lookup_insert_eq|].
    rewrite length_replicate. lia.
  - intros c mem w m k r blk data -> Hr Hm _ _. rewrite Hr, Hm. eexists.
    do 3 (split; [done|]). apply lookup_insert_eq.
  - intros c mem w m k r blk data -> Hr Hm _ _. rewrite Hr, Hm. by eexists.
Qed.

#[local] Instance rdma_sim_server : ServerLaws rdma_sim.
Proof.
  split; simpl; unfold sim_completions.
  - intros c mem w ->. do 2 eexists. split; [done|]. split; [done|]. simpl. lia.
  - intros c mem w a ->. eexists. by rewrite decide_False by done.
Qed.

(** A client that has "hi" to send. *)
Definition hi_client : client rdma_sim :=
  set_c_src (Some 1) (set_c_dst (Some 2)
    (set_c_mem {[1 := [104; 105; 0; 9]; 2 := [0; 0; 0; 0]]}
      (client_start (RdmaSim {[HBlock 1; HBlock 2]} ∅ [] [])))).

Lemma client_copies_witness :
  wp (client_session (Sockaddr INADDR_LOOPBACK 20886))
    (λ r s', r = (0, Some true) ∧ live (c_lib s') = ∅ ∧
      ∃ d', c_mem s' !! 2 = Some d' ∧ take 2 d' = [104; 105]) (λ _ _, False) hi_client.
Proof.
  refine (client_copies 1 2 _ [104; 105; 0; 9] [0; 0; 0; 0] 2 hi_client
    eq_refl eq_refl _ _ eq_refl _ _ _ eq_refl eq_refl); [lia| |lia| |simpl; lia].
  - reflexivity.
  - reflexivity.
Defined.

Lemma server_offers_witness :
  wp (server_session (Sockaddr 0 20886)) (λ rc s', rc = 0 ∧ live (s_lib s') = ∅ ∧ ∃ mb,
    s_buffer_mr s' = Some mb ∧
    s_server_attr s' = Attr (mr_addr mb) (a_length (s_client_attr s')) (lkey mb) ∧
    sent (s_lib s') = [wr_send (s_server_attr s')]) (λ _ _, False)
    (server_start (RdmaSim ∅ ∅ [] [])).
Proof. exact (server_offers (Sockaddr 0 20886) (server_start (RdmaSim ∅ ∅ [] [])) eq_refl eq_refl). Defined.

Lemma sim_calloc n (w : rdma_sim) p w1 d w2 :
  calloc n w = (Some p, w1) → calloc n w1 = (Some d, w2) → d ≠ p.
Proof.
  intros [= <- <-] [= <- _] He. simpl in *.
  assert (HBlock (sim_fresh is_block (sim_add (HBlock (sim_fresh is_block w)) w)) ∉
    v_live (sim_add (HBlock (sim_fresh is_block w)) w)) as Hf by by apply sim_fresh_law.
  destruct Hf. rewrite He. simpl. set_solver.
Qed.

(** An address that is not one. *)
Lemma client_never_succeeds_witness : ∃ out s',
  client_main (λ _, replicate 32 171) [("a"%char, "nowhere"%string)]
    (client_start (RdmaSim ∅ ∅ [] [])) = Done out s' ∧ out.1 ≠ 0 ∧ out.2 = None.
Proof.
  do 2 eexists. split; [reflexivity|].
  eapply (client_never_succeeds (λ _, replicate 32 171) ltac:(intros; by apply Forall_replicate)
    sim_calloc [("a"%char, "nowhere"%string)] (RdmaSim ∅ ∅ [] [])). reflexivity.
Defined.
