(* ===== verification/BdevTest.v ===== *)
(** * The zone test on a bdev

    [rw_test.cc] and its copy [zns_bdev_test.cc]: the first zones are reset, a
    number of blocks is appended to each of the first of them, and all of them
    are read back one after the other and compared with what was written.
    Requests that SPDK has accepted are pending; any pending request may be the
    next one to complete, and its callback runs then. *)
From S2P Require Import Prelude.
Local Open Scope Z_scope.

(** A request, as the device gets it.  An append takes the data of [write_buff],
    a read goes to [read_buff]. *)
Inductive bdev_io :=
  | zone_reset (slba : Z)
  | append_block (slba : Z)
  | read_block (lba : Z).

#[export] Instance bdev_io_eq_dec : EqDecision bdev_io.
Proof. solve_decision. Defined.

(** SPDK's block device layer.  [bdev_submit] is told the request and
    returns 0 when it has been accepted; [bdev_exec] is what the device does
    with an accepted request and one block of data: success and the block that was
    read. *)
Class BdevLib (W : Type) := {
  bdev_open : string → W → bool * W;
  get_io_channel : W → bool * W;
  get_block_size : W → Z;
  get_write_unit_size : W → Z;
  get_zone_size : W → Z;
  is_zoned : W → bool;
  dma_buffer : Z → W → bool * W;
  bdev_submit : bdev_io → W → Z * W;
  bdev_exec : bdev_io → list Z → W → (bool * list Z) * W;
  queue_io_wait : W → W;
}.

(** The function that [bdev_io_wait] will call. *)
Inductive wait_fn := wait_reset_zone | wait_read_zone.

(** [rwtest_context_t]; the descriptor and the channel are open or not.  The
    last two members are the requests that SPDK holds and the arguments of the
    calls of [spdk_app_stop]. *)
Record rwtest_context (W : Type) := Rwtest {
  bdev : W;
  bdev_desc : bool;
  bdev_io_channel : bool;
  write_buff : option (list Z);
  read_buff : option (list Z);
  buff_size : Z;
  bdev_io_wait : option wait_fn;
  count : Z;
  pending : list bdev_io;
  stops : list Z;
}.
Arguments Rwtest {W} _ _ _ _ _ _ _ _ _ _.
Arguments bdev {W} _.
Arguments bdev_desc {W} _.
Arguments bdev_io_channel {W} _.
Arguments write_buff {W} _.
Arguments read_buff {W} _.
Arguments buff_size {W} _.
Arguments bdev_io_wait {W} _.
Arguments count {W} _.
Arguments pending {W} _.
Arguments stops {W} _.

Section updates.
Context {W : Type}.
Implicit Types (s : rwtest_context W).
Definition set_bdev (x : W) s : rwtest_context W :=
  Rwtest x (bdev_desc s) (bdev_io_channel s) (write_buff s) (read_buff s) (buff_size s)
    (bdev_io_wait s) (count s) (pending s) (stops s).
Definition set_desc (x : bool) s : rwtest_context W :=
  Rwtest (bdev s) x (bdev_io_channel s) (write_buff s) (read_buff s) (buff_size s)
    (bdev_io_wait s) (count s) (pending s) (stops s).
Definition set_channel (x : bool) s : rwtest_context W :=
  Rwtest (bdev s) (bdev_desc s) x (write_buff s) (read_buff s) (buff_size s)
    (bdev_io_wait s) (count s) (pending s) (stops s).
Definition set_write_buff (x : option (list Z)) s : rwtest_context W :=
  Rwtest (bdev s) (bdev_desc s) (bdev_io_channel s) x (read_buff s) (buff_size s)
    (bdev_io_wait s) (count s) (pending s) (stops s).
Definition set_read_buff (x : option (list Z)) s : rwtest_context W :=
  Rwtest (bdev s) (bdev_desc s) (bdev_io_channel s) (write_buff s) x (buff_size s)
    (bdev_io_wait s) (count s) (pending s) (stops s).
Definition set_buff_size (x : Z) s : rwtest_context W :=
  Rwtest (bdev s) (bdev_desc s) (bdev_io_channel s) (write_buff s) (read_buff s) x
    (bdev_io_wait s) (count s) (pending s) (stops s).
Definition set_io_wait (x : option wait_fn) s : rwtest_context W :=
  Rwtest (bdev s) (bdev_desc s) (bdev_io_channel s) (write_buff s) (read_buff s) (buff_size s)
    x (count s) (pending s) (stops s).
Definition set_count (x : Z) s : rwtest_context W :=
  Rwtest (bdev s) (bdev_desc s) (bdev_io_channel s) (write_buff s) (read_buff s) (buff_size s)
    (bdev_io_wait s) x (pending s) (stops s).
Definition set_pending (x : list bdev_io) s : rwtest_context W :=
  Rwtest (bdev s) (bdev_desc s) (bdev_io_channel s) (write_buff s) (read_buff s) (buff_size s)
    (bdev_io_wait s) (count s) x (stops s).
Definition set_stops (x : list Z) s : rwtest_context W :=
  Rwtest (bdev s) (bdev_desc s) (bdev_io_channel s) (write_buff s) (read_buff s) (buff_size s)
    (bdev_io_wait s) (count s) (pending s) x.
End updates.

Definition ENOMEM : Z := 12.

(** The zones that are reset, the zones that are written and the blocks that are
    appended to each: 10, 4 and 0x100. *)
Record extent := Extent { reset_num : Z; zone_num : Z; append_times : Z }.
Definition rw_extent : extent := Extent 10 4 256.

Section rwtest.
Context {W : Type} `{!BdevLib W}.
Context (x : extent).
Implicit Types (s : rwtest_context W).

Definition dev_call {A} (f : W → A * W) : M (rwtest_context W) A := λ s,
  Done (f (bdev s)).1 (set_bdev (f (bdev s)).2 s).

(** [spdk_app_stop]. *)
Definition app_stop (rc : Z) : M (rwtest_context W) () :=
  modify (λ s, set_stops (stops s ++ [rc]) s).

(** Closing what is not open is undefined. *)
Definition put_io_channel : M (rwtest_context W) () :=
  s ← get; if bdev_io_channel s then modify (set_channel false) else undef.
Definition bdev_close : M (rwtest_context W) () :=
  s ← get; if bdev_desc s then modify (set_desc false) else undef.

(** The three calls that end the test. *)
Definition end_test (rc : Z) : M (rwtest_context W) () :=
  put_io_channel;; bdev_close;; app_stop rc.

(** A submission through an open channel. *)
Definition submit_io (io : bdev_io) : M (rwtest_context W) Z :=
  s ← get;
  if bdev_io_channel s && bdev_desc s then
    rc ← dev_call (bdev_submit io);
    (if decide (rc = 0) then modify (λ s, set_pending (pending s ++ [io]) s) else skip);;
    mret rc
  else undef.

(** An entry that waits already must not be queued again. *)
Definition wait_for (f : wait_fn) : M (rwtest_context W) () :=
  s ← get;
  match bdev_io_wait s with
  | Some _ => undef
  | None => modify (set_io_wait (Some f));; modify (λ s, set_bdev (queue_io_wait (bdev s)) s)
  end.

(** [memset] of the whole buffer. *)
Definition fill (v n : Z) (b : option (list Z)) : M (rwtest_context W) (option (list Z)) :=
  _ ← of_option b; mret (Some (replicate (Z.to_nat n) v)).
Definition memset_read : M (rwtest_context W) () :=
  s ← get; b ← fill 52 (buff_size s) (read_buff s); modify (set_read_buff b).
Definition memset_write : M (rwtest_context W) () :=
  s ← get; b ← fill 18 (buff_size s) (write_buff s); modify (set_write_buff b).

Definition read_zone_complete (success : bool) : M (rwtest_context W) () :=
  if negb success then end_test (-1) else
  s ← get;
  w ← of_option (write_buff s);
  r ← of_option (read_buff s);
  if decide (w ≠ r) then end_test (-1) else
  modify (λ s, set_count (i32 (count s + 1)) s);;
  s ← get;
  if decide (count s = zone_num x * append_times x) then end_test 0 else
  memset_read;;
  s ← get;
  let lba := u64 (u64 (Z.quot (count s) (append_times x)) * get_zone_size (bdev s) +
                  u64 (Z.rem (count s) (append_times x))) in
  rc ← submit_io (read_block lba);
  if decide (rc ≠ 0) then end_test (-1) else skip.

Definition read_zone : M (rwtest_context W) () :=
  modify (set_count 0);;
  memset_read;;
  rc ← submit_io (read_block 0);
  if decide (rc = - ENOMEM) then wait_for wait_read_zone
  else if decide (rc ≠ 0) then end_test (-1) else skip.

Definition write_zone_complete (success : bool) : M (rwtest_context W) () :=
  if negb success then end_test (-1) else
  modify (λ s, set_count (i32 (count s - 1)) s);;
  s ← get;
  if decide (count s = 0) then read_zone else skip.

(** [for (slba = 0; slba < limit; slba += size)]. *)
Fixpoint zones (fuel : nat) (slba limit size : Z) (body : Z → M (rwtest_context W) ())
    : M (rwtest_context W) () :=
  if decide (slba < limit) then
    match fuel with
    | O => λ _, Spin
    | S fuel' => body slba;; zones fuel' (u64 (slba + size)) limit size body
    end
  else skip.

(** A refused submission ends the test and goes on with the loop. *)
Definition append_one (slba : Z) : M (rwtest_context W) () :=
  rc ← submit_io (append_block slba);
  if decide (rc ≠ 0) then end_test (-1) else skip.

Definition write_zone (fuel : nat) : M (rwtest_context W) () :=
  s ← get;
  let zone_size := get_zone_size (bdev s) in
  modify (set_count (zone_num x * append_times x));;
  memset_write;;
  zones fuel 0 (u64 (zone_num x * zone_size)) zone_size (λ slba,
    repeat_m (Z.to_nat (append_times x)) (append_one slba)).

Definition reset_zone_complete (fuel : nat) (success : bool) : M (rwtest_context W) () :=
  if negb success then end_test (-1) else
  modify (λ s, set_count (i32 (count s - 1)) s);;
  s ← get;
  if decide (count s = 0) then write_zone fuel else skip.

Definition reset_one (slba : Z) : M (rwtest_context W) () :=
  rc ← submit_io (zone_reset slba);
  if decide (rc = - ENOMEM) then wait_for wait_reset_zone
  else if decide (rc ≠ 0) then end_test (-1) else skip.

Definition reset_zone (fuel : nat) : M (rwtest_context W) () :=
  modify (set_count (reset_num x));;
  s ← get;
  let zone_size := get_zone_size (bdev s) in
  zones fuel 0 (u64 (reset_num x * zone_size)) zone_size reset_one.

Definition test_start (bdev_name : string) (fuel : nat) : M (rwtest_context W) () :=
  opened ← dev_call (bdev_open bdev_name);
  if negb opened then app_stop (-1) else
  modify (set_desc true);;
  ok ← dev_call get_io_channel;
  if negb ok then bdev_close;; app_stop (-1) else
  modify (set_channel true);;
  modify (λ s, set_buff_size (u32 (get_block_size (bdev s) * get_write_unit_size (bdev s))) s);;
  s ← get;
  let zeros := replicate (Z.to_nat (buff_size s)) 0 in
  ok ← dev_call (dma_buffer (buff_size s));
  if negb ok then end_test (-1) else
  modify (set_write_buff (Some zeros));;
  ok ← dev_call (dma_buffer (buff_size s));
  if negb ok then end_test (-1) else
  modify (set_read_buff (Some zeros));;
  s ← get;
  if negb (is_zoned (bdev s)) then end_test (-1) else
  reset_zone fuel.

(** ** Events *)

(** The device executes a request that was accepted, and its callback runs. *)
Definition complete (fuel : nat) (io : bdev_io) : M (rwtest_context W) () :=
  s ← get;
  w ← of_option (write_buff s);
  r ← dev_call (bdev_exec io (take (Z.to_nat (get_block_size (bdev s))) w));
  match io with
  | zone_reset _ => reset_zone_complete fuel r.1
  | append_block _ => write_zone_complete r.1
  | read_block _ =>
      b ← of_option (read_buff s);
      (if r.1 : bool then modify (set_read_buff (Some (r.2 ++ drop (length r.2) b))) else skip);;
      read_zone_complete r.1
  end.

(** The entry of [bdev_io_wait] is called. *)
Definition wake (fuel : nat) (f : wait_fn) : M (rwtest_context W) () :=
  modify (set_io_wait None);;
  match f with wait_reset_zone => reset_zone fuel | wait_read_zone => read_zone end.

(** One completion, or the waiting entry. *)
Inductive step : rwtest_context W → rwtest_context W → Prop :=
  | step_complete s s' pre io post fuel :
      pending s = pre ++ io :: post →
      (∀ k, (fuel ≤ k)%nat → complete k io (set_pending (pre ++ post) s) = Done tt s') →
      step s s'
  | step_wake s s' f fuel :
      bdev_io_wait s = Some f →
      (∀ k, (fuel ≤ k)%nat → wake k f s = Done tt s') →
      step s s'.

(** [struct rwtest_context_t test_context = {};] *)
Definition test_context (w : W) : rwtest_context W :=
  Rwtest w false false None None 0 None 0 [] [].
End rwtest.

(** The device that each program opens. *)
Definition g_bdev_name_rw_test : string := "Nvme0n1"%string.
Definition g_bdev_name_zns_bdev_test : string := "Nvme1n2"%string.
Definition start_rw_test {W} `{!BdevLib W} (fuel : nat) : M (rwtest_context W) () :=
  test_start rw_extent g_bdev_name_rw_test fuel.

(** ** The functions of [zns_bdev_test.cc]

    It repeats those of [rw_test.cc]; only comments, the name of the device and what is
    logged differ. *)
Section zns_bdev_test.
Context {W : Type} `{!BdevLib W}.

Definition read_zone_complete_zns (success : bool) : M (rwtest_context W) () :=
  read_zone_complete rw_extent success.
Definition read_zone_zns : M (rwtest_context W) () := read_zone.
Definition write_zone_complete_zns (success : bool) : M (rwtest_context W) () :=
  write_zone_complete success.
Definition write_zone_zns (fuel : nat) : M (rwtest_context W) () := write_zone rw_extent fuel.
Definition reset_zone_complete_zns (fuel : nat) (success : bool) : M (rwtest_context W) () :=
  reset_zone_complete rw_extent fuel success.
Definition reset_zone_zns (fuel : nat) : M (rwtest_context W) () := reset_zone rw_extent fuel.
Definition test_start_zns (name : string) (fuel : nat) : M (rwtest_context W) () :=
  test_start rw_extent name fuel.
End zns_bdev_test.

Definition start_zns_bdev_test {W} `{!BdevLib W} (fuel : nat) : M (rwtest_context W) () :=
  test_start_zns g_bdev_name_zns_bdev_test fuel.
