(* ===== verification/BdevTestProps.v ===== *)
(** * Properties of the zone test

    On a zoned device that works, the test ends after exactly as many
    completions as it needs, in whatever order the device completes its
    requests, and with success; a block that is larger than the write unit, or a
    request that fails, makes it end otherwise. *)
From S2P Require Import Prelude BdevTest.

(** ** A zoned device that works

    Zone [z] starts at [z * zs]; its first [cap] blocks can be written.  [wptr] is
    how many blocks of a zone are written, [block] what was written to a block. *)
Class ZonedDevice (W : Type) `{!BdevLib W} := {
  bs : Z; zs : Z; cap : Z; nzones : Z;
  wptr : W → Z → Z;
  block : W → Z → list Z;
  geometry w : get_block_size w = bs ∧ get_write_unit_size w = 1 ∧ get_zone_size w = zs ∧
    is_zoned w = true;
  sizes : 0 < bs < 2 ^ 32 ∧ 0 < cap ≤ zs ∧ 0 < nzones ∧ nzones * zs < 2 ^ 64;
  opens name w : (bdev_open name w).1 = true;
  channels w : (get_io_channel w).1 = true;
  buffers n w : (dma_buffer n w).1 = true;
  accepts io w : (bdev_submit io w).1 = 0 ∧
    (∀ z, wptr (bdev_submit io w).2 z = wptr w z) ∧
    (∀ l, block (bdev_submit io w).2 l = block w l);
  resets z d w : 0 ≤ z < nzones → let r := bdev_exec (zone_reset (z * zs)) d w in
    r.1.1 = true ∧ ∀ z', wptr r.2 z' = if decide (z' = z) then 0 else wptr w z';
  appends z d w : 0 ≤ z < nzones → 0 ≤ wptr w z < cap →
    let r := bdev_exec (append_block (z * zs)) d w in
    r.1.1 = true ∧
    (∀ z', wptr r.2 z' = if decide (z' = z) then wptr w z + 1 else wptr w z') ∧
    (∀ l, block r.2 l = if decide (l = z * zs + wptr w z) then d else block w l);
  reads z i d w : 0 ≤ z < nzones → 0 ≤ i < wptr w z →
    let r := bdev_exec (read_block (z * zs + i)) d w in
    r.1 = (true, block w (z * zs + i)) ∧ (∀ z', wptr r.2 z' = wptr w z') ∧
    (∀ l, block r.2 l = block w l);
}.

Section test.
Context {W : Type} `{!BdevLib W} `{!ZonedDevice W}.
Context (x : extent).
Implicit Types (s : rwtest_context W) (w : W) (z i c : Z) (P : list Z).

(** The number of blocks that are written and read. *)
Definition total : Z := zone_num x * append_times x.

Record fits : Prop := {
  fit_zones : 0 < zone_num x ≤ reset_num x;
  fit_resets : reset_num x ≤ nzones ∧ reset_num x < 2 ^ 31;
  fit_times : 0 < append_times x ≤ cap;
  fit_total : total < 2 ^ 31;
}.

(** The pattern of one block. *)
Definition pattern : list Z := replicate (Z.to_nat bs) 18.

(** What holds while the test runs. *)
Record running s : Prop := {
  ru_desc : bdev_desc s = true;
  ru_channel : bdev_io_channel s = true;
  ru_write : ∃ b, write_buff s = Some b ∧ length b = Z.to_nat bs;
  ru_read : ∃ b, read_buff s = Some b ∧ length b = Z.to_nat bs;
  ru_size : buff_size s = bs;
  ru_wait : bdev_io_wait s = None;
  ru_stops : stops s = [];
}.

Record resetting P s : Prop := {
  re_running : running s;
  re_pending : pending s = (λ z, zone_reset (z * zs)) <$> P;
  re_zones : ∀ z, z ∈ P → 0 ≤ z < reset_num x;
  re_empty : ∀ z, 0 ≤ z < reset_num x → z ∉ P → wptr (bdev s) z = 0;
}.

Definition times z P : Z := Z.of_nat (length (filter (λ z', z' = z) P)).

(** [z] has all its blocks but for the appends that are pending. *)
Definition filled P w z : Prop :=
  0 ≤ wptr w z ∧ wptr w z + times z P = append_times x ∧
  ∀ i, 0 ≤ i < wptr w z → block w (z * zs + i) = pattern.

Record appending P s : Prop := {
  ap_running : running s;
  ap_pending : pending s = (λ z, append_block (z * zs)) <$> P;
  ap_zones : ∀ z, z ∈ P → 0 ≤ z < zone_num x;
  ap_filled : ∀ z, 0 ≤ z < zone_num x → filled P (bdev s) z;
  ap_write : write_buff s = Some pattern;
}.

(** Where block number [c] of the test is. *)
Definition lba_of c : Z := c / append_times x * zs + c mod append_times x.

Record reading c s : Prop := {
  rd_running : running s;
  rd_pending : pending s = [read_block (lba_of c)];
  rd_filled : ∀ z, 0 ≤ z < zone_num x → filled [] (bdev s) z;
  rd_write : write_buff s = Some pattern;
}.

Record passed s : Prop := {
  pa_stops : stops s = [0];
  pa_pending : pending s = [];
  pa_closed : bdev_desc s = false ∧ bdev_io_channel s = false;
  pa_wait : bdev_io_wait s = None;
}.

(** The state when [n] more completions are needed. *)
Inductive remaining : Z → rwtest_context W → Prop :=
  | rem_resetting P s : resetting P s → count s = Z.of_nat (length P) → P ≠ [] →
      count s < 2 ^ 31 → remaining (Z.of_nat (length P) + 2 * total) s
  | rem_appending P s : appending P s → count s = Z.of_nat (length P) → P ≠ [] →
      count s < 2 ^ 31 → remaining (Z.of_nat (length P) + total) s
  | rem_reading c s : reading c s → count s = c → 0 ≤ c < total → remaining (total - c) s
  | rem_passed s : passed s → remaining 0 s.

(** ** Loops and submissions *)
Lemma zones_spec (body : Z → M (rwtest_context W) ()) (I : Z → rwtest_context W → Prop) X n s :
  0 ≤ n ≤ nzones →
  (∀ k s', 0 ≤ k < n → I k s' → wp (body (k * zs)) (λ _, I (k + 1)) X s') →
  I 0 s → twp (λ fuel, zones fuel 0 (u64 (n * zs)) zs body) (λ _, I n) X s.
Proof.
  intros Hn Hb H0. destruct (sizes (W := W)) as (_&Hz&_&Hmax).
  rewrite u64_small by nia.
  assert (∀ m k s', Z.of_nat m = n - k → 0 ≤ k → I k s' →
    twp (λ fuel, zones fuel (k * zs) (n * zs) zs body) (λ _, I n) X s') as Hgen.
  { induction m as [|m IH]; intros k s' Hm Hk HI.
    - replace k with n in * by lia. exists O, (Done tt s'). split; [|done].
      intros [|f] _; cbn [zones]; by rewrite decide_False by lia.
    - eapply (twp_S _ (λ f, body (k * zs);; zones f ((k + 1) * zs) (n * zs) zs body)).
      { intros f. cbn [zones]. rewrite decide_True by nia.
        replace (u64 (k * zs + zs)) with ((k + 1) * zs); [done|]. rewrite u64_small; nia. }
      apply twp_bind_wp. eapply wp_weaken; [by apply Hb; [lia|]|].
      intros [] s'' HI'. apply IH; [lia..|done]. }
  apply (Hgen (Z.to_nat n) 0); [lia..|done].
Qed.

Lemma wp_dev_call {A} (f : W → A * W) (Q : A → rwtest_context W → Prop) X s :
  Q (f (bdev s)).1 (set_bdev (f (bdev s)).2 s) → wp (dev_call f) Q X s.
Proof. done. Qed.

Definition submitted io s : rwtest_context W :=
  set_pending (pending s ++ [io]) (set_bdev (bdev_submit io (bdev s)).2 s).

Lemma submit_bdev_spec io s (Q : Z → rwtest_context W → Prop) X : running s →
  Q 0 (submitted io s) → wp (submit_io io) Q X s.
Proof.
  intros [] HQ. unfold submit_io. repeat wp_step. rewrite ru_channel0, ru_desc0. simpl.
  apply wp_bind, wp_dev_call. destruct (accepts io (bdev s)) as [-> _].
  rewrite decide_True by done. by repeat wp_step.
Qed.

Lemma submitted_running io s : running s → running (submitted io s).
Proof. intros []. by split. Qed.
Lemma submitted_wptr io s z : wptr (bdev (submitted io s)) z = wptr (bdev s) z.
Proof. apply (accepts io (bdev s)). Qed.
Lemma submitted_block io s l : block (bdev (submitted io s)) l = block (bdev s) l.
Proof. apply (accepts io (bdev s)). Qed.

Lemma end_test_spec rc s X : running s → wp (end_test rc) (λ _ s',
  bdev_desc s' = false ∧ bdev_io_channel s' = false ∧ stops s' = [rc] ∧
  pending s' = pending s ∧ bdev_io_wait s' = None) X s.
Proof.
  intros []. unfold end_test, put_io_channel, bdev_close, app_stop. repeat wp_step.
  rewrite ru_channel0. repeat wp_step. rewrite ru_desc0. repeat wp_step.
  by rewrite ru_stops0, ru_wait0.
Qed.

Lemma memset_read_spec s X : running s → wp memset_read (λ _ s', running s' ∧
  pending s' = pending s ∧ bdev s' = bdev s ∧ write_buff s' = write_buff s ∧
  count s' = count s) X s.
Proof.
  intros []. destruct ru_read0 as (b&Hb&_). unfold memset_read, fill. repeat wp_step.
  split; [|done].
  split; simpl; try done. eexists. split; [done|]. by rewrite length_replicate, ru_size0.
Qed.

Lemma times_app z P P' : times z (P ++ P') = times z P + times z P'.
Proof. unfold times. rewrite filter_app, length_app. lia. Qed.
Lemma times_replicate z z' n : times z (replicate n z') = if decide (z = z') then Z.of_nat n else 0.
Proof.
  unfold times. induction n as [|n IH]; [by destruct (decide _)|]. simpl.
  rewrite filter_cons. destruct (decide (z' = z)) as [->|]; simpl.
  - rewrite decide_True in * by done. lia.
  - rewrite decide_False in * by done. lia.
Qed.
Lemma times_none z P : z ∉ P → times z P = 0.
Proof.
  intros Hz. unfold times. rewrite list_filter_none; [done|]. by intros z' ? ->.
Qed.
Lemma times_cons z z' P : times z (z' :: P) = times z [z'] + times z P.
Proof. apply (times_app z [z']). Qed.
Lemma times_nonneg z P : 0 ≤ times z P.
Proof. unfold times. lia. Qed.

(** ** The three phases begin *)
Context (Hx : fits).
Let Hzones := fit_zones Hx.
Let Hresets := fit_resets Hx.
Let Htimes := fit_times Hx.
Let Htotal := fit_total Hx.

Lemma total_pos : 0 < total.
Proof. unfold total. nia. Qed.

Abbreviation never := (λ _ _, False).

Lemma filled_same P w w' z : (∀ z, wptr w' z = wptr w z) → (∀ l, block w' l = block w l) →
  filled P w z → filled P w' z.
Proof.
  intros Hw Hb (?&?&Hf). unfold filled. rewrite Hw. split_and!; [done..|].
  intros i Hi. rewrite Hb. by apply Hf.
Qed.

Lemma lba_of_0 : lba_of 0 = 0.
Proof. unfold lba_of. rewrite Z.div_0_l, Z.mod_0_l by lia. lia. Qed.

Lemma read_zone_spec s : running s → pending s = [] → write_buff s = Some pattern →
  (∀ z, 0 ≤ z < zone_num x → filled [] (bdev s) z) →
  wp read_zone (λ _ s', reading 0 s' ∧ count s' = 0) never s.
Proof.
  intros Hr Hp Hw Hf. unfold read_zone. apply wp_seq, wp_modify.
  assert (running (set_count 0 s)) as Hr1 by (destruct Hr; by split).
  apply wp_seq. eapply wp_weaken; [by apply memset_read_spec|].
  intros [] s1 (Hr2&Hp1&Hd1&Hw1&Hc1). simpl in *. apply wp_bind, submit_bdev_spec; [done|].
  rewrite decide_False, decide_False by (unfold ENOMEM; lia). apply wp_skip.
  split; [|simpl; by rewrite Hc1]. split.
  - by apply submitted_running.
  - simpl. by rewrite Hp1, lba_of_0, Hp.
  - intros z Hz. eapply filled_same; [intros; apply submitted_wptr|
      intros; apply submitted_block|]. rewrite Hd1. by apply Hf.
  - simpl. by rewrite Hw1.
Qed.

(** What the loop of [write_zone] has queued. *)
Record writing P s : Prop := {
  wr_running : running s;
  wr_pending : pending s = (λ z, append_block (z * zs)) <$> P;
  wr_write : write_buff s = Some pattern;
  wr_count : count s = total;
  wr_empty : ∀ z, 0 ≤ z < zone_num x → wptr (bdev s) z = 0;
}.

Lemma append_one_spec P z s : writing P s →
  wp (append_one (z * zs)) (λ _, writing (P ++ [z])) never s.
Proof.
  intros []. unfold append_one. apply wp_bind, submit_bdev_spec; [done|].
  rewrite decide_False by lia. apply wp_skip. split; try done.
  - by apply submitted_running.
  - simpl. by rewrite wr_pending0, fmap_app.
  - intros z' Hz. rewrite submitted_wptr. by apply wr_empty0.
Qed.

Definition zones_queued (k : Z) s : Prop := ∃ P, writing P s ∧
  Z.of_nat (length P) = k * append_times x ∧ (∀ z, z ∈ P → 0 ≤ z < k) ∧
  ∀ z, 0 ≤ z < k → times z P = append_times x.

Lemma append_zone_spec k s : 0 ≤ k → zones_queued k s →
  wp (repeat_m (Z.to_nat (append_times x)) (append_one (k * zs)))
    (λ _, zones_queued (k + 1)) never s.
Proof.
  intros Hk (P&Hw&Hlen&Hin&Ht). eapply wp_weaken.
  - apply (wp_repeat _ (λ j, writing (P ++ replicate j k))).
    + intros j s' _ Hs'. replace (replicate (S j) k) with (replicate j k ++ [k])
        by (symmetry; apply replicate_S_end).
      rewrite app_assoc. by apply append_one_spec.
    + by rewrite app_nil_r.
  - intros [] s' Hs'. eexists. split; [exact Hs'|]. split_and!.
    + rewrite length_app, length_replicate. lia.
    + intros z [Hz|[-> _]%elem_of_replicate]%elem_of_app; [specialize (Hin z Hz)|]; lia.
    + intros z Hz. rewrite times_app, times_replicate. destruct (decide _) as [->|].
      * rewrite times_none; [lia|]. intros Hz'. specialize (Hin _ Hz'). lia.
      * rewrite Ht; lia.
Qed.

Lemma memset_write_spec s (Q : () → rwtest_context W → Prop) : running s →
  Q tt (set_write_buff (Some pattern) s) → wp memset_write Q never s.
Proof.
  intros [] HQ. destruct ru_write0 as (b&Hb&_). unfold memset_write, fill.
  repeat wp_step. by rewrite ru_size0.
Qed.

Lemma write_zone_spec s : running s → pending s = [] →
  (∀ z, 0 ≤ z < zone_num x → wptr (bdev s) z = 0) →
  twp (write_zone x) (λ _, remaining (2 * total)) never s.
Proof.
  intros Hr Hp He. unfold write_zone. apply twp_bind_wp, wp_get, twp_bind_wp, wp_modify.
  assert (running (set_count (zone_num x * append_times x) s)) as Hr1 by (destruct Hr; by split).
  apply twp_bind_wp, memset_write_spec; [done|].
  destruct (geometry (bdev s)) as (_&_&->&_).
  eapply twp_weaken.
  - apply (zones_spec _ zones_queued); [lia| |].
    + intros k s' [Hk _]. by apply append_zone_spec.
    + exists []. split_and!; try done; [|set_solver|lia].
      split; try done. destruct Hr1. split; try done. simpl.
      eexists. split; [done|]. apply length_replicate.
  - intros [] s' (P&[]&Hlen&Hin&Ht). replace (2 * total) with (Z.of_nat (length P) + total)
      by (unfold total; lia).
    pose proof total_pos. unfold total in *.
    apply rem_appending; [|lia| |lia].
    + split; try done. intros z Hz. unfold filled. rewrite wr_empty0, Ht by done.
      split_and!; [done|done|lia].
    + intros ->. simpl in Hlen. lia.
Qed.

(** ** The resets *)
Record queued_resets (k : Z) s : Prop := {
  qr_running : running s;
  qr_pending : pending s = (λ z, zone_reset (z * zs)) <$> seqZ 0 k;
  qr_count : count s = reset_num x;
}.

Lemma reset_one_spec k s : 0 ≤ k → queued_resets k s →
  wp (reset_one (k * zs)) (λ _, queued_resets (k + 1)) never s.
Proof.
  intros Hk []. unfold reset_one. apply wp_bind, submit_bdev_spec; [done|].
  rewrite decide_False, decide_False by (unfold ENOMEM; lia). apply wp_skip. split; try done.
  - by apply submitted_running.
  - simpl. rewrite qr_pending0, seqZ_app, fmap_app by lia. by rewrite Z.add_0_l.
Qed.

Lemma reset_zone_spec s : running s → pending s = [] →
  twp (reset_zone x) (λ _, remaining (reset_num x + 2 * total)) never s.
Proof.
  intros Hr Hp. unfold reset_zone. apply twp_bind_wp, wp_modify, twp_bind_wp, wp_get.
  destruct (geometry (bdev (set_count (reset_num x) s))) as (_&_&->&_).
  eapply twp_weaken.
  - apply (zones_spec _ queued_resets); [lia|by intros; apply reset_one_spec; [lia|]|].
    split; try done. destruct Hr. by split.
  - intros [] s' []. replace (reset_num x) with (Z.of_nat (length (seqZ 0 (reset_num x))))
      by (rewrite length_seqZ; lia).
    apply rem_resetting.
    + split; try done.
      * intros z ?%elem_of_seqZ. lia.
      * intros z Hz Hn. destruct Hn. apply elem_of_seqZ. lia.
    + rewrite length_seqZ. lia.
    + intros Hn%(f_equal length). rewrite length_seqZ in Hn. simpl in Hn. lia.
    + lia.
Qed.

(** ** One completion *)
Local Abbreviation without pre post s := (set_pending (pre ++ post) s).

Lemma split_pending (f : Z → bdev_io) P pre io post s : pending s = f <$> P →
  pending s = pre ++ io :: post → ∃ P1 z P2, P = P1 ++ z :: P2 ∧ io = f z ∧
  pre ++ post = f <$> (P1 ++ P2).
Proof.
  intros -> (P1&P'&->&Hc&->)%fmap_app_inv. symmetry in Hc.
  apply fmap_cons_inv in Hc as (z&P2&->&->&->). exists P1, z, P2. by rewrite fmap_app.
Qed.

(** The device executes [io]. *)
Lemma complete_exec io s b 
    (k : nat → rwtest_context W → bool * list Z → M (rwtest_context W) ()) Q :
  write_buff s = Some b → length b = Z.to_nat bs →
  (let r := bdev_exec io b (bdev s) in twp (λ n, k n s r.1) Q never (set_bdev r.2 s)) →
  twp (λ n, s ← get; w ← of_option (write_buff s);
    r ← dev_call (bdev_exec io (take (Z.to_nat (get_block_size (bdev s))) w)); k n s r) Q never s.
Proof.
  intros Hw Hl Hk. apply twp_bind_wp, wp_get, twp_bind_wp. eapply wp_of_option; [done|].
  destruct (geometry (bdev s)) as (->&_). rewrite take_ge by lia.
  apply twp_bind_wp, wp_dev_call, Hk.
Qed.

Lemma without_running pre post s : running s → running (without pre post s).
Proof. intros []. by split. Qed.
Lemma set_bdev_running w s : running s → running (set_bdev w s).
Proof. intros []. by split. Qed.
Lemma set_count_running c s : running s → running (set_count c s).
Proof. intros []. by split. Qed.
Hint Resolve without_running set_bdev_running set_count_running : core.

Lemma complete_reset P pre io post s : resetting P s → count s = Z.of_nat (length P) →
  count s < 2 ^ 31 → pending s = pre ++ io :: post →
  twp (λ n, complete x n io) (λ _, remaining (Z.of_nat (length P) + 2 * total - 1)) never
    (without pre post s).
Proof.
  intros [Hr Hp Hz He] Hc Hb Hpend.
  destruct (split_pending _ _ _ _ _ _ Hp Hpend) as (P1&z&P2&->&->&Hpp).
  destruct (ru_write _ Hr) as (b&Hw&Hl). unfold complete.
  apply (complete_exec _ _ b (λ n _ r, reset_zone_complete x n r.1)); [done|done|].
  intros r. specialize (Hz z ltac:(set_solver)) as Hzr.
  destruct (resets z b (bdev s)) as [Hok Hwp]; [lia|].
  simpl in r. subst r. simpl. rewrite Hok. unfold reset_zone_complete. simpl.
  rewrite length_app in *. simpl in *.
  apply twp_bind_wp, wp_modify, twp_bind_wp, wp_get. simpl.
  rewrite i32_small by lia.
  assert (∀ z', 0 ≤ z' < reset_num x → z' ∉ P1 ++ P2 →
    wptr (bdev_exec (zone_reset (z * zs)) b (bdev s)).2 z' = 0) as He'.
  { intros z' Hz' Hn. rewrite Hwp. destruct (decide _); [done|]. apply He; set_solver. }
  destruct (decide (count s - 1 = 0)) as [H0|H0].
  - assert (P1 = [] ∧ P2 = []) as [-> ->] by (destruct P1, P2; simpl in *; split; [done|done|lia..]).
    replace (_ - 1) with (2 * total) by (simpl; lia).
    apply write_zone_spec; [by auto|done|]. intros z' Hz'. apply He'; [lia|set_solver].
  - apply twp_wp, wp_skip.
    replace (_ - 1) with (Z.of_nat (length (P1 ++ P2)) + 2 * total) by (rewrite length_app; lia).
    apply rem_resetting.
    + split; simpl; [by auto|done| |done]. intros z' Hz'. apply Hz. set_solver.
    + simpl. rewrite length_app. lia.
    + intros [-> ->]%app_eq_nil. simpl in *. lia.
    + simpl. lia.
Qed.

Lemma zone_disjoint z z' i j : 0 ≤ i < zs → 0 ≤ j < zs → z * zs + i = z' * zs + j →
  z = z' ∧ i = j.
Proof. intros Hi Hj He. assert (z = z') as -> by nia. lia. Qed.

Lemma times_split z' P1 z P2 :
  times z' (P1 ++ z :: P2) = times z' (P1 ++ P2) + if decide (z' = z) then 1 else 0.
Proof.
  rewrite !times_app, (times_cons _ z P2).
  rewrite (times_replicate z' z 1 : times z' [z] = _). simpl. destruct (decide _); lia.
Qed.

(** One append brings its zone one block further. *)
Lemma filled_append P1 z P2 w b : 0 ≤ z < zone_num x → b = pattern →
  (∀ z', 0 ≤ z' < zone_num x → filled (P1 ++ z :: P2) w z') →
  let r := bdev_exec (append_block (z * zs)) b w in
  r.1.1 = true ∧ ∀ z', 0 ≤ z' < zone_num x → filled (P1 ++ P2) r.2 z'.
Proof.
  intros Hz -> Hf r. destruct (Hf z Hz) as (Hw&Ht&_).
  rewrite times_split, decide_True in Ht by done.
  pose proof (times_nonneg z (P1 ++ P2)). pose proof (sizes (W := W)) as (_&Hcap&_).
  destruct (appends z pattern w) as (Hok&Hwp&Hbl); [lia..|]. subst r. split; [done|].
  intros z' Hz'. destruct (Hf z' Hz') as (Hw'&Ht'&Hb').
  rewrite times_split in Ht'. pose proof (times_nonneg z' (P1 ++ P2)).
  unfold filled. rewrite Hwp. split_and!.
  - destruct (decide _); lia.
  - destruct (decide _) as [->|]; lia.
  - intros i Hi. rewrite Hbl. destruct (decide (_ = _ + _)); [done|]. apply Hb'. revert Hi.
    destruct (decide (z' = z)) as [->|]; [|done]. intros Hi.
    destruct (decide (i = wptr w z)) as [->|]; [done|lia].
Qed.

Lemma complete_append P pre io post s : appending P s → count s = Z.of_nat (length P) →
  count s < 2 ^ 31 → pending s = pre ++ io :: post →
  twp (λ n, complete x n io) (λ _, remaining (Z.of_nat (length P) + total - 1)) never
    (without pre post s).
Proof.
  intros [Hr Hp Hz Hf Hw] Hc Hb Hpend.
  destruct (split_pending _ _ _ _ _ _ Hp Hpend) as (P1&z&P2&->&->&Hpp). unfold complete.
  apply (complete_exec _ _ pattern (λ n _ r, write_zone_complete r.1));
    [done|apply length_replicate|].
  destruct (filled_append P1 z P2 (bdev s) pattern) as [Hok Hf'];
    [apply Hz; set_solver|done|done|].
  intros r. subst r. simpl. rewrite Hok. unfold write_zone_complete. simpl.
  rewrite length_app in *. simpl in *. pose proof total_pos.
  apply twp_wp, wp_seq, wp_modify, wp_bind, wp_get. simpl. rewrite i32_small by lia.
  destruct (decide (count s - 1 = 0)) as [H0|H0].
  - assert (P1 = [] ∧ P2 = []) as [-> ->] by (destruct P1, P2; simpl in *; split; [done|done|lia..]).
    eapply wp_weaken; [by apply read_zone_spec; auto|].
    intros [] s' [Hs' Hc']. replace (_ - 1) with (total - 0) by (simpl; lia).
    by apply rem_reading; [|done|lia].
  - apply wp_skip.
    replace (_ - 1) with (Z.of_nat (length (P1 ++ P2)) + total) by (rewrite length_app; lia).
    apply rem_appending.
    + split; simpl; [by auto|done| |done|done]. intros z' Hz'. apply Hz. set_solver.
    + simpl. rewrite length_app. lia.
    + intros [-> ->]%app_eq_nil. simpl in *. lia.
    + simpl. lia.
Qed.

(** ** The reads *)
Lemma lba_of_parts c : 0 ≤ c < total → 0 ≤ c / append_times x < zone_num x ∧
  0 ≤ c mod append_times x < append_times x.
Proof.
  intros Hc. split.
  - split; [apply Z.div_pos; lia|apply Z.div_lt_upper_bound; [lia|]]. unfold total in Hc. lia.
  - apply Z.mod_pos_bound. lia.
Qed.

Lemma lba_of_range c : 0 ≤ c < total → 0 ≤ lba_of c < 2 ^ 64.
Proof.
  intros [? ?]%lba_of_parts. destruct (sizes (W := W)) as (_&?&?&?). unfold lba_of. nia.
Qed.

(** The address that [read_zone_complete] computes. *)
Lemma lba_computed c : 0 ≤ c < total →
  u64 (u64 (Z.quot c (append_times x)) * zs + u64 (Z.rem c (append_times x))) = lba_of c.
Proof.
  intros Hc. destruct (lba_of_parts c Hc) as [? ?]. pose proof (lba_of_range c Hc) as Hl.
  destruct (sizes (W := W)) as (_&?&?&?).
  assert (zs < 2 ^ 64 ∧ nzones < 2 ^ 64) as [? ?] by nia.
  rewrite Z.quot_div_nonneg, Z.rem_mod_nonneg by lia. unfold lba_of in *.
  rewrite (u64_small (c / _)), (u64_small (c mod _)) by lia. by rewrite u64_small.
Qed.

Lemma read_next c s : 0 ≤ c < total → running s → count s = c → pending s = [] →
  write_buff s = read_buff s → write_buff s = Some pattern →
  (∀ z, 0 ≤ z < zone_num x → filled [] (bdev s) z) →
  wp (read_zone_complete x true) (λ _, remaining (total - c - 1)) never s.
Proof.
  intros Hc Hr Hcount Hp Hwr Hw Hf. unfold read_zone_complete. simpl.
  apply wp_bind, wp_get, wp_bind. eapply wp_of_option; [done|].
  apply wp_bind. rewrite Hwr in Hw. eapply wp_of_option; [done|].
  rewrite decide_False by auto. apply wp_seq, wp_modify, wp_bind, wp_get. simpl.
  fold total. rewrite Hcount, i32_small by lia. case_decide as Hlast.
  - eapply wp_weaken; [by apply end_test_spec; auto|].
    intros [] s' (Hd&Hch&Hst&Hp'&Hwt). replace (_ - 1) with 0 by lia.
    apply rem_passed. split; try done. by rewrite Hp'.
  - apply wp_seq. eapply wp_weaken; [by apply memset_read_spec; auto|].
    intros [] s1 (Hr1&Hp1&Hd1&Hw1&Hc1). simpl in *. apply wp_bind, wp_get.
    destruct (geometry (bdev s1)) as (_&_&->&_). rewrite Hc1, lba_computed by lia.
    apply wp_bind, submit_bdev_spec; [done|]. rewrite decide_False by lia. apply wp_skip.
    replace (_ - 1) with (total - (c + 1)) by lia. apply rem_reading; [|done|lia].
    split; [by apply submitted_running|by simpl; rewrite Hp1, Hp| |by simpl; rewrite Hw1, Hwr].
    intros z Hz. eapply filled_same; [intros; apply submitted_wptr|
      intros; apply submitted_block|]. rewrite Hd1. by apply Hf.
Qed.

Lemma complete_read c pre io post s : reading c s → count s = c → 0 ≤ c < total →
  pending s = pre ++ io :: post →
  twp (λ n, complete x n io) (λ _, remaining (total - c - 1)) never (without pre post s).
Proof.
  intros [Hr Hp Hf Hw] Hc Hct Hpend. rewrite Hp in Hpend.
  destruct pre as [|? [|]]; simplify_eq/=. destruct (lba_of_parts (count s) Hct) as [Hz Hi].
  destruct (Hf _ Hz) as (Hw0&Ht&Hb). unfold times in Ht. simpl in Ht.
  pose proof (sizes (W := W)) as (_&?&_).
  destruct (reads (count s / append_times x) (count s mod append_times x) pattern (bdev s))
    as (Hok&Hwp&Hbl); [lia..|]. rewrite Hb in Hok by lia. fold (lba_of (count s)) in *.
  unfold complete. destruct (ru_read _ Hr) as (rb&Hrb&Hrl).
  apply (complete_exec _ _ pattern (λ n s r, b ← of_option (read_buff s);
      (if r.1 : bool then modify (set_read_buff (Some (r.2 ++ drop (length r.2) b))) else skip);;
      read_zone_complete x r.1)); [done|apply length_replicate|].
  intros r. subst r. apply twp_wp, wp_bind. eapply wp_of_option; [done|].
  change (bdev (set_pending [] s)) with (bdev s). rewrite Hok. apply wp_seq, wp_modify. simpl.
  replace (pattern ++ drop (length pattern) rb) with pattern.
  2: { symmetry. rewrite drop_ge, app_nil_r; [done|]. unfold pattern. rewrite length_replicate. lia. }
  apply read_next; try done.
  - destruct Hr. split; try done. eexists. split; [done|]. apply length_replicate.
  - intros z Hz'. eapply filled_same; [exact Hwp|exact Hbl|]. by apply Hf.
Qed.

(** ** Whole runs *)

(** Any pending request can complete, and then one completion less is needed. *)
Lemma remaining_complete n s pre io post : remaining n s → pending s = pre ++ io :: post →
  twp (λ k, complete x k io) (λ _, remaining (n - 1)) never (without pre post s).
Proof.
  intros [P s' Hs Hc _ Hb|P s' Hs Hc _ Hb|c s' Hs Hc Hct|s' []] Hp.
  - by apply complete_reset.
  - by apply complete_append.
  - by apply complete_read.
  - rewrite pa_pending0 in Hp. by destruct pre.
Qed.

Lemma remaining_wait n s : remaining n s → bdev_io_wait s = None.
Proof. by intros [P s' [[]] | P s' [[]] | c s' [[]] | s' []]. Qed.

Lemma remaining_pending n s : remaining n s → 0 ≤ n ∧ (pending s = [] ↔ n = 0) ∧
  (n = 0 → passed s).
Proof.
  pose proof total_pos. intros [P s' [] _ HP _|P s' [] _ HP _|c s' [] ? ?|s' Hs].
  - destruct P; [done|]. simpl in *. split; [lia|]. split; [|lia]. rewrite re_pending0. split; [done|lia].
  - destruct P; [done|]. simpl in *. split; [lia|]. split; [|lia]. rewrite ap_pending0. split; [done|lia].
  - split; [lia|]. split; [|lia]. rewrite rd_pending0. split; [done|lia].
  - split; [lia|]. split; [|done]. by destruct Hs.
Qed.

Lemma remaining_step n s s' : remaining n s → step x s s' → remaining (n - 1) s'.
Proof.
  intros Hn Hs. destruct Hs as [s s' pre io post fuel Hp Hrun|s s' f fuel Hw _].
  - destruct (twp_elim _ _ _ _ (remaining_complete _ _ _ _ _ Hn Hp)) as (k&Hk).
    specialize (Hk (k `max` fuel)%nat ltac:(lia)). 
    exact (wp_done _ (λ _, remaining (n - 1)) never _ tt s' Hk (Hrun (k `max` fuel)%nat ltac:(lia))).
  - by rewrite (remaining_wait _ _ Hn) in Hw.
Qed.

Lemma remaining_steps k n s s' : remaining n s → nsteps (step x) k s s' →
  remaining (n - Z.of_nat k) s'.
Proof.
  intros Hn Hs. revert n Hn. induction Hs as [s|k s s1 s' Hs _ IH]; intros n Hn.
  - by rewrite Z.sub_0_r.
  - replace (n - Z.of_nat (S k)) with (n - 1 - Z.of_nat k) by lia.
    apply IH. by eapply remaining_step.
Qed.

Lemma remaining_enabled n s pre io post : remaining n s → pending s = pre ++ io :: post →
  ∃ s' fuel, ∀ k, (fuel ≤ k)%nat → complete x k io (without pre post s) = Done tt s'.
Proof.
  intros Hn Hp. destruct (remaining_complete _ _ _ _ _ Hn Hp) as (k&r&Hk&Hr).
  unfold wp in Hr. destruct r as [[] s'| | |]; [|done..]. by exists s', k.
Qed.

Lemma start_running name w :
  twp (test_start x name) (λ _, remaining (reset_num x + 2 * total)) never (test_context w).
Proof.
  unfold test_start. apply twp_bind_wp, wp_dev_call. rewrite opens. simpl.
  apply twp_bind_wp, wp_modify, twp_bind_wp, wp_dev_call. rewrite channels. simpl.
  apply twp_bind_wp, wp_modify, twp_bind_wp, wp_modify, twp_bind_wp, wp_get. simpl.
  set (w1 := (get_io_channel _).2). destruct (geometry w1) as (->&->&_).
  destruct (sizes (W := W)) as (?&_). rewrite Z.mul_1_r, u32_small by lia.
  apply twp_bind_wp, wp_dev_call. rewrite buffers. simpl.
  apply twp_bind_wp, wp_modify, twp_bind_wp, wp_dev_call. rewrite buffers. simpl.
  apply twp_bind_wp, wp_modify, twp_bind_wp, wp_get. simpl.
  set (w2 := (dma_buffer _ _).2). destruct (geometry w2) as (_&_&_&->). simpl.
  apply reset_zone_spec; [|done].
  split; try done; simpl; (eexists; split; [done|]; apply length_replicate).
Qed.
End test.

(** ** A simulated zoned device

    Ten zones of 256 blocks of two bytes. *)
Record zoned_sim := ZonedSim { zw : gmap Z Z; zb : gmap Z (list Z) }.

Definition sim_wptr (w : zoned_sim) (z : Z) : Z := default 0 (zw w !! z).
Definition sim_block (w : zoned_sim) (l : Z) : list Z := default [] (zb w !! l).

Definition sim_exec (io : bdev_io) (d : list Z) (w : zoned_sim) : (bool * list Z) * zoned_sim :=
  match io with
  | zone_reset slba => ((true, []), ZonedSim (<[slba / 256 := 0]> (zw w)) (zb w))
  | append_block slba =>
      let z := slba / 256 in
      ((true, []), ZonedSim (<[z := sim_wptr w z + 1]> (zw w)) (<[slba + sim_wptr w z := d]> (zb w)))
  | read_block l => ((true, sim_block w l), w)
  end.

#[local] Instance zoned_sim_lib : BdevLib zoned_sim := {|
  bdev_open _ w := (true, w);
  get_io_channel w := (true, w);
  get_block_size _ := 2;
  get_write_unit_size _ := 1;
  get_zone_size _ := 256;
  is_zoned _ := true;
  dma_buffer _ w := (true, w);
  bdev_submit _ w := (0, w);
  bdev_exec := sim_exec;
  queue_io_wait w := w;
|}.

Lemma default_insert {A} (d v : A) (m : gmap Z A) i j :
  default d (<[i := v]> m !! j) = if decide (j = i) then v else default d (m !! j).
Proof. case_decide; [subst; by rewrite lookup_insert_eq|by rewrite lookup_insert_ne]. Qed.

#[local] Instance zoned_sim_device : ZonedDevice zoned_sim.
Proof.
  refine {| bs := 2; zs := 256; cap := 256; nzones := 10; wptr := sim_wptr; block := sim_block |};
    try done.
  - intros z d w Hz. simpl. split; [done|]. intros z'. unfold sim_wptr. simpl.
    rewrite Z.div_mul by lia. apply default_insert.
  - intros z d w Hz Hw. simpl. split; [done|]. unfold sim_wptr, sim_block. simpl.
    rewrite Z.div_mul by lia. split; intros; apply default_insert.
Defined.

(** ** The programs *)
Section programs.
Context {W : Type} `{!BdevLib W} `{!ZonedDevice W}.

(** (C25) On a zoned device that works, with a write unit of one block, ten zones and room for
    256 blocks in each, the test of [rw_test.cc] and [zns_bdev_test.cc] passes: in whatever
    order the device completes the requests that it holds, every completion can be handled,
    exactly 2058 of them (10 resets, 1024 appends, 1024 reads) leave nothing pending, and then
    the program has stopped once, with status 0, having closed the channel and the bdev. *)
Theorem zone_test_passes name (w : W) : 10 ≤ nzones → 256 ≤ cap →
  twp (test_start rw_extent name) (λ _ s, ∀ k s', nsteps (step rw_extent) k s s' →
    (k ≤ 2058)%nat ∧ (pending s' = [] ↔ k = 2058%nat) ∧
    (k = 2058%nat → stops s' = [0] ∧ bdev_desc s' = false ∧ bdev_io_channel s' = false) ∧
    (∀ pre io post, pending s' = pre ++ io :: post → ∃ s'' fuel, ∀ f, (fuel ≤ f)%nat →
       complete rw_extent f io (set_pending (pre ++ post) s') = Done tt s''))
    (λ _ _, False) (test_context w).
Proof.
  intros Hn Hc. assert (fits rw_extent) as Hx by (split; unfold total; simpl; lia).
  eapply twp_weaken; [by eapply (start_running _ Hx)|].
  intros [] s Hs k s' Hk. apply (remaining_steps _ Hx k _ _ _ Hs) in Hk.
  replace (reset_num rw_extent + 2 * total rw_extent) with 2058 in Hk by done.
  destruct (remaining_pending _ Hx _ _ Hk) as (H0&Hp&Hd). split_and!.
  - lia.
  - rewrite Hp. lia.
  - intros ->. by destruct (Hd ltac:(lia)) as [? _ [] _].
  - intros pre io post Hpend. by eapply (remaining_enabled _ Hx).
Qed.
End programs.

Definition sim_start : zoned_sim := ZonedSim ∅ ∅.

Lemma zone_test_passes_witness : 10 ≤ nzones (W := zoned_sim) ∧
  twp (start_rw_test (W := zoned_sim)) (λ _ s, ∀ k s', nsteps (step rw_extent) k s s' →
    (k ≤ 2058)%nat ∧ (pending s' = [] ↔ k = 2058%nat) ∧
    (k = 2058%nat → stops s' = [0] ∧ bdev_desc s' = false ∧ bdev_io_channel s' = false) ∧
    (∀ pre io post, pending s' = pre ++ io :: post → ∃ s'' fuel, ∀ f, (fuel ≤ f)%nat →
       complete rw_extent f io (set_pending (pre ++ post) s') = Done tt s''))
    (λ _ _, False) (test_context sim_start).
Proof. split; [done|]. by apply (zone_test_passes g_bdev_name_rw_test sim_start). Defined.

(** ** When something fails *)
Section failures.
Context {W : Type} `{!BdevLib W}.
Context (x : extent).
Implicit Types (s : rwtest_context W).

Lemma append_one_refused slba s :
  bdev_io_channel s = true → bdev_desc s = true →
  (bdev_submit (append_block slba) (bdev s)).1 ≠ 0 →
  ∃ s', append_one slba s = Done tt s' ∧ bdev_io_channel s' = false.
Proof.
  intros Hc Hd Hrc. unfold append_one, submit_io, mbind, M_bind, get. rewrite Hc, Hd. simpl.
  unfold mret, M_ret. rewrite !decide_False by done. simpl.
  unfold end_test, put_io_channel, bdev_close, mbind, M_bind, get. simpl.
  rewrite decide_True by done. simpl. rewrite Hc. simpl. rewrite Hd. by eexists.
Qed.

(** After a refused append the loop of [write_zone] uses the channel that it has closed. *)
Lemma refused_append_undefined n slba s :
  bdev_io_channel s = true → bdev_desc s = true →
  (bdev_submit (append_block slba) (bdev s)).1 ≠ 0 →
  repeat_m (S (S n)) (append_one slba) s = Undef.
Proof.
  intros Hc Hd Hrc. cbn [repeat_m]. destruct (append_one_refused slba s Hc Hd Hrc) as (s'&Hs&Hc').
  unfold mbind at 1, M_bind at 1. rewrite Hs. unfold mbind at 1, M_bind at 1.
  unfold append_one, submit_io, mbind, M_bind, get. by rewrite Hc'.
Qed.

(** A second failure closes what is closed. *)
Lemma second_failure_undefined fuel s : bdev_io_channel s = false →
  reset_zone_complete x fuel false s = Undef ∧ write_zone_complete false s = Undef ∧
  read_zone_complete x false s = Undef.
Proof.
  intros Hc. unfold reset_zone_complete, write_zone_complete, read_zone_complete, end_test,
    put_io_channel, mbind, M_bind, get. simpl. by rewrite Hc.
Qed.

(** One block is read into a buffer of several: the comparison fails. *)
Lemma larger_write_unit_fails s n m d :
  bdev_io_channel s = true → bdev_desc s = true → stops s = [] →
  (0 < m)%nat → write_buff s = Some (replicate (n + m) 18) →
  length d = n → read_buff s = Some (d ++ replicate m 52) →
  wp (read_zone_complete x true) (λ _ s', stops s' = [-1]) (λ _ _, False) s.
Proof.
  intros Hc Hd Hst Hm Hw Hl Hr. unfold read_zone_complete. simpl.
  apply wp_bind, wp_get, wp_bind. eapply wp_of_option; [done|].
  apply wp_bind. eapply wp_of_option; [done|]. rewrite decide_True.
  - unfold end_test, put_io_channel, bdev_close, app_stop. repeat wp_step. rewrite Hc.
    repeat wp_step. rewrite Hd. repeat wp_step. by rewrite Hst.
  - intros He%(f_equal last). destruct m as [|m]; [lia|].
    rewrite Nat.add_succ_r, !replicate_S_end, app_assoc, !last_snoc in He. done.
Qed.
End failures.
