(* ===== verification/Hello.v ===== *)
(** * The hello-world programs

    [hello-world.cc] writes a greeting to the first block of every namespace of the
    local controllers, reads it back and prints it; [remote-hello-world.cc] does the
    same over the network.  A sequence goes from callback to callback: the
    completion of the write submits the read. *)
From S2P Require Import Prelude.
From Stdlib Require Import Ascii.
Local Open Scope Z_scope.

(** A command, which also tells its callback. *)
Inductive hw_cmd :=
  | hw_reset (ns lba : Z)
  | hw_write (ns : Z) (buf : option Z) (lba nlb : Z)
  | hw_read (ns : Z) (buf : option Z) (lba nlb : Z).

(** The NVMe driver and the memory it can use; [hw_poll] gives one completion and
    whether it is an error.  [probe] gives its status and the controllers that it
    attaches; [hw_detaching] tells that [hw_detach_async] has made a context to be polled,
    and [hw_detach_poll] gives whether the answer is [-EAGAIN]. *)
Class HelloLib (W : Type) := {
  hw_alloc_qpair : Z → W → option Z * W;
  hw_free_qpair : Z → W → W;
  map_cmb : Z → W → option (Z * Z) * W;
  unmap_cmb : Z → W → W;
  hw_zmalloc : Z → W → option Z * W;
  hw_free : option Z → W → W;
  hw_store : Z → string → W → W;
  hw_string : Z → W → option string;
  hw_is_zns : Z → W → bool;
  hw_submit : Z → hw_cmd → W → Z * W;
  hw_budget : Z → W → nat;
  hw_poll : Z → W → option (hw_cmd * bool) * W;
  hw_malloc : W → bool * W;
  ns_is_active : Z → W → bool;
  get_num_ns : Z → W → Z;
  hw_get_ns : Z → Z → W → option Z;
  hw_env_init : W → Z * W;
  hw_probe : W → (Z * list Z) * W;
  hw_connect : W → option Z * W;
  hw_detach_async : Z → W → W;
  hw_detaching : W → bool;
  hw_detach_poll : W → bool * W;
}.

(** [struct ns_entry] and the sequence. *)
Record hw_entry := HwEntry { hw_ctrlr : Z; hw_ns : Z; hw_qpair : option Z }.
Record hello_world_sequence := HwSequence {
  sq_ns : hw_entry;
  sq_buf : option Z;
  using_cmb_io : bool;
  is_completed : Z;
}.

(** The library, the two queues, the sequence on the stack of [hello_world] and
    what has been printed of the buffers. *)
Record hello (W : Type) := Hello {
  hw_lib : W;
  hw_namespaces : list hw_entry;
  hw_controllers : list Z;
  sequence : hello_world_sequence;
  printed : list string;
}.
Arguments Hello {W} _ _ _ _ _.
Arguments hw_lib {W} _.
Arguments hw_namespaces {W} _.
Arguments hw_controllers {W} _.
Arguments sequence {W} _.
Arguments printed {W} _.

Section hello.
Context {W : Type} `{!HelloLib W}.
Implicit Types (s : hello W).

Definition set_hw_lib (x : W) s : hello W :=
  Hello x (hw_namespaces s) (hw_controllers s) (sequence s) (printed s).
Definition set_hw_namespaces (x : list hw_entry) s : hello W :=
  Hello (hw_lib s) x (hw_controllers s) (sequence s) (printed s).
Definition set_hw_controllers (x : list Z) s : hello W :=
  Hello (hw_lib s) (hw_namespaces s) x (sequence s) (printed s).
Definition set_sequence (x : hello_world_sequence) s : hello W :=
  Hello (hw_lib s) (hw_namespaces s) (hw_controllers s) x (printed s).
Definition set_printed (x : list string) s : hello W :=
  Hello (hw_lib s) (hw_namespaces s) (hw_controllers s) (sequence s) x.

Definition hw_call {A} (f : W → A * W) : M (hello W) A := λ s,
  Done (f (hw_lib s)).1 (set_hw_lib (f (hw_lib s)).2 s).
Definition hw_effect (f : W → W) : M (hello W) () := modify (λ s, set_hw_lib (f (hw_lib s)) s).

Definition set_completed (z : Z) : M (hello W) () := modify (λ s,
  let q := sequence s in
  set_sequence (HwSequence (sq_ns q) (sq_buf q) (using_cmb_io q) z) s).
Definition set_buf (b : option Z) : M (hello W) () := modify (λ s,
  let q := sequence s in
  set_sequence (HwSequence (sq_ns q) b (using_cmb_io q) (is_completed q)) s).

(** A failed command ends the program. *)
Definition read_complete (error : bool) : M (hello W) () :=
  set_completed 1;;
  if error then set_completed 2;; exit 1 else
  s ← get;
  b ← of_option (sq_buf (sequence s));
  text ← of_option (hw_string b (hw_lib s));
  modify (λ s, set_printed (printed s ++ [text]) s);;
  hw_effect (hw_free (Some b)).

Definition write_complete (error : bool) : M (hello W) () :=
  if error then set_completed 2;; exit 1 else
  s ← get;
  let q := sequence s in
  (if using_cmb_io q then hw_effect (unmap_cmb (hw_ctrlr (sq_ns q)))
   else hw_effect (hw_free (sq_buf q)));;
  b ← hw_call (hw_zmalloc 4096);
  set_buf b;;
  qp ← of_option (hw_qpair (sq_ns q));
  rc ← hw_call (hw_submit qp (hw_read (hw_ns (sq_ns q)) b 0 1));
  if decide (rc ≠ 0) then exit 1 else skip.

Definition hw_reset_complete (error : bool) : M (hello W) () :=
  set_completed 1;;
  if error then set_completed 2;; exit 1 else skip.

Definition hw_callback (c : hw_cmd) (error : bool) : M (hello W) () :=
  match c with
  | hw_reset _ _ => hw_reset_complete error
  | hw_write _ _ _ _ => write_complete error
  | hw_read _ _ _ _ => read_complete error
  end.

Fixpoint hw_deliver (n : nat) (q : Z) : M (hello W) () :=
  match n with
  | O => skip
  | S n' =>
      r ← hw_call (hw_poll q);
      match r with
      | None => skip
      | Some (c, error) => hw_callback c error;; hw_deliver n' q
      end
  end.

Definition hw_process (q : Z) : M (hello W) () :=
  s ← get; hw_deliver (hw_budget q (hw_lib s)) q.

Definition not_completed s : bool := bool_decide (is_completed (sequence s) = 0).

Definition reset_zone_and_wait_for_completion (fuel : nat) : M (hello W) () :=
  s ← get;
  let e := sq_ns (sequence s) in
  q ← of_option (hw_qpair e);
  rc ← hw_call (hw_submit q (hw_reset (hw_ns e) 0));
  if decide (rc ≠ 0) then exit 1 else
  while fuel not_completed (hw_process q);;
  set_completed 0.

Definition greeting : string := ("Hello world!" +:+ String "010" EmptyString)%string.

(** The buffer of the write: the controller's memory if there is enough. *)
Definition get_buffer (e : hw_entry) : M (hello W) (option Z) :=
  cmb ← hw_call (map_cmb (hw_ctrlr e));
  match cmb with
  | Some (b, sz) =>
      if decide (sz < 4096) then
        b ← hw_call (hw_zmalloc 4096);
        modify (set_sequence (HwSequence e b false 0));; mret b
      else modify (set_sequence (HwSequence e (Some b) true 0));; mret (Some b)
  | None =>
      b ← hw_call (hw_zmalloc 4096);
      modify (set_sequence (HwSequence e b false 0));; mret b
  end.

(** One namespace: [false] when [hello_world] returns early. *)
Definition hello_one (fuel : nat) (e : hw_entry) : M (hello W) bool :=
  qp ← hw_call (hw_alloc_qpair (hw_ctrlr e));
  match qp with
  | None => mret false
  | Some q =>
      let e := HwEntry (hw_ctrlr e) (hw_ns e) (Some q) in
      b ← get_buffer e;
      match b with
      | None => mret false
      | Some b =>
          s ← get;
          (if hw_is_zns (hw_ns e) (hw_lib s) then reset_zone_and_wait_for_completion fuel
           else skip);;
          hw_effect (hw_store b greeting);;
          rc ← hw_call (hw_submit q (hw_write (hw_ns e) (Some b) 0 1));
          if decide (rc ≠ 0) then exit 1 else
          while fuel not_completed (hw_process q);;
          hw_effect (hw_free_qpair q);;
          mret true
      end
  end.

Fixpoint hello_all (fuel : nat) (l : list hw_entry) : M (hello W) () :=
  match l with
  | [] => skip
  | e :: l' => ok ← hello_one fuel e; if ok : bool then hello_all fuel l' else skip
  end.

Definition hello_world (fuel : nat) : M (hello W) () :=
  s ← get; hello_all fuel (hw_namespaces s).

(** ** Set-up and clean-up *)
Definition hw_register_ns (ctrlr ns : Z) : M (hello W) () :=
  s ← get;
  if negb (ns_is_active ns (hw_lib s)) then skip else
  ok ← hw_call hw_malloc;
  if negb ok then exit 1 else
  modify (λ s, set_hw_namespaces (hw_namespaces s ++ [HwEntry ctrlr ns None]) s).

(** The loop over the namespaces [nsid], ..., of which [n] are left. *)
Fixpoint register_from (n : nat) (ctrlr nsid : Z) : M (hello W) () :=
  match n with
  | O => skip
  | S n' =>
      s ← get;
      (match hw_get_ns ctrlr nsid (hw_lib s) with
       | None => skip
       | Some ns => hw_register_ns ctrlr ns
       end);;
      register_from n' ctrlr (nsid + 1)
  end.

Definition attach_cb (ctrlr : Z) : M (hello W) () :=
  ok ← hw_call hw_malloc;
  if negb ok then exit 1 else
  modify (λ s, set_hw_controllers (hw_controllers s ++ [ctrlr]) s);;
  s ← get;
  register_from (Z.to_nat (get_num_ns ctrlr (hw_lib s))) ctrlr 1.

Definition hw_cleanup (fuel : nat) : M (hello W) () :=
  modify (set_hw_namespaces []);;
  s ← get;
  foreach (hw_controllers s) (λ c,
    modify (λ s, set_hw_controllers (tail (hw_controllers s)) s);;
    hw_effect (hw_detach_async c));;
  s ← get;
  if hw_detaching (hw_lib s) then poll_while fuel (hw_call hw_detach_poll) else skip.

(** [main] after [parse_args]; the controllers are attached from within [probe]. *)
Definition hello_main (fuel : nat) : M (hello W) Z :=
  rc ← hw_call hw_env_init;
  if decide (rc < 0) then mret 1 else
  r ← hw_call hw_probe;
  foreach r.2 attach_cb;;
  if decide (r.1 ≠ 0) then hw_cleanup fuel;; mret 1 else
  s ← get;
  if decide (hw_controllers s = []) then hw_cleanup fuel;; mret 1 else
  hello_world fuel;; hw_cleanup fuel;; mret 0.

(** ** [remote-hello-world.cc]

    It repeats every function of [hello-world.cc] but [main], which connects to the target
    itself and has the loop of [attach_cb] in its body. *)
Definition remote_register_ns : Z → Z → M (hello W) () := hw_register_ns.
Definition remote_read_complete : bool → M (hello W) () := read_complete.
Definition remote_write_complete : bool → M (hello W) () := write_complete.
Definition remote_reset_zone_complete : bool → M (hello W) () := hw_reset_complete.
Definition remote_reset_zone : nat → M (hello W) () := reset_zone_and_wait_for_completion.
Definition remote_hello_world : nat → M (hello W) () := hello_world.
Definition remote_attach_cb : Z → M (hello W) () := attach_cb.
Definition remote_cleanup : nat → M (hello W) () := hw_cleanup.

(** The host name is copied with [memcpy] into an array of [SPDK_NVMF_NQN_MAX_LEN + 1]
    bytes.  A connection that fails is used. *)
Definition remote_hostnqn : string := "nqn.2024-04.io.zstore:cnode1".
Definition remote_hostnqn_size : Z := 224.

Definition remote_hello_main `{!Image} (fuel : nat) : M (hello W) Z :=
  rc ← hw_call hw_env_init;
  if decide (rc < 0) then mret 1 else
  memcpy_literal remote_hostnqn_size remote_hostnqn;;
  c ← hw_call hw_connect;
  ok ← hw_call hw_malloc;
  if negb ok then exit 1 else
  ctrlr ← of_option c;
  modify (λ s, set_hw_controllers (hw_controllers s ++ [ctrlr]) s);;
  s ← get;
  register_from (Z.to_nat (get_num_ns ctrlr (hw_lib s))) ctrlr 1;;
  s ← get;
  if decide (hw_controllers s = []) then remote_cleanup fuel;; mret 1 else
  remote_hello_world fuel;; remote_cleanup fuel;; mret 0.

(** Before [main]. *)
Definition hello_start (w : W) : hello W :=
  Hello w [] [] (HwSequence (HwEntry 0 0 None) None false 0) [].
End hello.
