(* ===== verification/HelloSpec.v ===== *)
(** * Specifications of the hello-world programs

    A device of which the first block of every namespace is visible, the functions
    of the programs in terms of it, and the loop that polls from one callback to
    the next. *)
From S2P Require Import Prelude Hello.
Local Open Scope Z_scope.

(** ** The device

    The command that is outstanding with its queue pair, the text of the first
    block of the namespaces that have one, the buffers with the controller that they
    are mapped from and their text, the queue pairs and the controllers in use. *)
Record device := Device {
  pending : option (Z * hw_cmd);
  media : gmap Z string;
  held : gmap Z (option Z * string);
  qpairs : gset Z;
  attached : gset Z;
}.
Definition with_pending p d := Device p (media d) (held d) (qpairs d) (attached d).
Definition with_media m d := Device (pending d) m (held d) (qpairs d) (attached d).
Definition with_held h d := Device (pending d) (media d) h (qpairs d) (attached d).
Definition with_qpairs q d := Device (pending d) (media d) (held d) q (attached d).
Definition with_attached a d := Device (pending d) (media d) (held d) (qpairs d) a.

Definition perform (c : hw_cmd) (d : device) : device :=
  match c with
  | hw_reset ns _ => with_media (delete ns (media d)) d
  | hw_write ns (Some b) _ _ =>
      with_media (<[ns := default ""%string (snd <$> held d !! b)]> (media d)) d
  | hw_read ns (Some b) _ _ =>
      with_held (alter (λ p, (p.1, default ""%string (media d !! ns))) b (held d)) d
  | _ => d
  end.

(** What the driver knows and the programs do not change, and what remains to wait
    for the outstanding command. *)
Class HelloView (W : Type) := {
  dev : W → device;
  lag : W → nat;
  max_lag : nat;
  zoned : Z → bool;
  present : list Z;
  target : Z;
  ns_count : Z → Z;
  ns_at : Z → Z → option Z;
  active : Z → bool;
  cmb_size : Z → Z;
  detach_lag : W → nat;
}.

(** A command the device executes: one on the first block, in a live buffer; a zone
    is written at its write pointer. *)
Definition executable `{!HelloView W} (c : hw_cmd) (d : device) : Prop :=
  match c with
  | hw_reset _ lba => lba = 0
  | hw_write ns b lba nlb => lba = 0 ∧ nlb = 1 ∧ (∃ b', b = Some b' ∧ is_Some (held d !! b')) ∧
      (zoned ns = true → media d !! ns = None)
  | hw_read _ b lba nlb => lba = 0 ∧ nlb = 1 ∧ ∃ b', b = Some b' ∧ is_Some (held d !! b')
  end.

(** The memory of the controller [c] is not mapped; only memory that is too small for the
    programs is. *)
Definition unmapped (c : Z) (h : gmap Z (option Z * string)) : Prop :=
  map_Forall (λ _ p, p.1 ≠ Some c) h.
Definition small_cmb `{!HelloView W} (h : gmap Z (option Z * string)) : Prop :=
  map_Forall (λ _ p, ∀ c, p.1 = Some c → cmb_size c < 4096) h.

(** What the programs leave behind of the buffers: all that were there, and mappings of
    memory that is too small, of the controllers [cs]. *)
Definition leaves `{!HelloView W} (cs : list Z) (h h' : gmap Z (option Z * string)) : Prop :=
  h ⊆ h' ∧ ∀ b p, h' !! b = Some p →
    h !! b = Some p ∨ ∃ c, c ∈ cs ∧ p.1 = Some c ∧ cmb_size c < 4096.

(** ** A driver that works *)
Class HelloLaws (W : Type) `{!HelloLib W} `{!HelloView W} : Prop := {
  alloc_qpair_law c w : ∃ q w', hw_alloc_qpair c w = (Some q, w') ∧ (q ∉ qpairs (dev w)) ∧
    dev w' = with_qpairs ({[q]} ∪ qpairs (dev w)) (dev w);
  free_qpair_law q w : q ∈ qpairs (dev w) → pending (dev w) = None →
    dev (hw_free_qpair q w) = with_qpairs (qpairs (dev w) ∖ {[q]}) (dev w);
  map_cmb_law c w : ∃ r w', map_cmb c w = (r, w') ∧
    match r with
    | None => dev w' = dev w
    | Some (b, sz) => sz = cmb_size c ∧ ∃ t,
        held (dev w) !! b = None ∧ unmapped c (held (dev w)) ∧
          dev w' = with_held (<[b := (Some c, t)]> (held (dev w))) (dev w) ∨
        held (dev w) !! b = Some (Some c, t) ∧ dev w' = dev w
    end;
  unmap_cmb_law c b t h w : held (dev w) = <[b := (Some c, t)]> h → h !! b = None →
    unmapped c h → dev (unmap_cmb c w) = with_held h (dev w);
  zmalloc_law n w : ∃ b w', hw_zmalloc n w = (Some b, w') ∧ held (dev w) !! b = None ∧
    dev w' = with_held (<[b := (None, ""%string)]> (held (dev w))) (dev w);
  free_law b t w : held (dev w) !! b = Some (None, t) →
    dev (hw_free (Some b) w) = with_held (delete b (held (dev w))) (dev w);
  store_law b t o t' w : held (dev w) !! b = Some (o, t') →
    dev (hw_store b t w) = with_held (<[b := (o, t)]> (held (dev w))) (dev w);
  string_law b w : hw_string b w = snd <$> held (dev w) !! b;
  submit_law q c w : q ∈ qpairs (dev w) → pending (dev w) = None → ∃ w',
    hw_submit q c w = (0, w') ∧ dev w' = with_pending (Some (q, c)) (dev w);
  budget_law q w : (0 < hw_budget q w)%nat;
  lag_law w : (lag w ≤ max_lag)%nat;
  idle_law q w : pending (dev w) = None → ∃ w', hw_poll q w = (None, w') ∧ dev w' = dev w;
  poll_law q c w : pending (dev w) = Some (q, c) → executable c (dev w) →
    (∃ w', hw_poll q w = (None, w') ∧ dev w' = dev w ∧ (lag w' < lag w)%nat) ∨
    (∃ w', hw_poll q w = (Some (c, false), w') ∧
      dev w' = with_pending None (perform c (dev w)));
  is_zns_law ns w : hw_is_zns ns w = zoned ns;
  malloc_law w : ∃ w', hw_malloc w = (true, w') ∧ dev w' = dev w;
  active_law ns w : ns_is_active ns w = active ns;
  get_num_ns_law c w : get_num_ns c w = ns_count c;
  get_ns_law c i w : hw_get_ns c i w = ns_at c i;
  env_init_law w : ∃ w', hw_env_init w = (0, w') ∧ dev w' = dev w;
  probe_law w : ∃ w', hw_probe w = ((0, present), w') ∧
    dev w' = with_attached (list_to_set present ∪ attached (dev w)) (dev w);
  connect_law w : ∃ w', hw_connect w = (Some target, w') ∧
    dev w' = with_attached ({[target]} ∪ attached (dev w)) (dev w);
  detach_law c w :
    dev (hw_detach_async c w) = with_attached (attached (dev w) ∖ {[c]}) (dev w);
  detach_poll_law w again w' : hw_detach_poll w = (again, w') →
    dev w' = dev w ∧ (again = true → (detach_lag w' < detach_lag w)%nat);
}.

(** ** Buffers that stay mapped *)
Section leaves.
Context {W : Type} `{!HelloView W} (cs : list Z).
Implicit Types (h : gmap Z (option Z * string)).

#[export] Instance leaves_preorder : PreOrder (leaves cs).
Proof.
  split; [by split; [|by left]|]. intros h1 h2 h3 [Hs1 Hl1] [Hs2 Hl2].
  split; [by etrans|]. intros b p [Hb|?]%Hl2; [by apply Hl1|by right].
Qed.

Lemma leaves_small h h' : leaves cs h h' → small_cmb h → small_cmb h'.
Proof.
  intros [_ Hl] Hs b p Hb c Hc.
  destruct (Hl b p Hb) as [Hb'|(c'&_&Hc'&?)]; [by eapply Hs|congruence].
Qed.

Lemma leaves_insert h b t c : c ∈ cs → cmb_size c < 4096 → h !! b = None →
  leaves cs h (<[b := (Some c, t)]> h).
Proof.
  intros Hc Hsz Hb. split; [by apply insert_subseteq|].
  intros b' p [[<- <-]|[_ ?]]%lookup_insert_Some; [right; by exists c|by left].
Qed.

(** Nothing is left when the memory of every controller is large enough. *)
Lemma leaves_nothing h h' : Forall (λ c, 4096 ≤ cmb_size c) cs → leaves cs h h' → h' = h.
Proof.
  intros Hcs [Hs Hl]. apply (anti_symm (⊆)); [|done]. apply map_subseteq_spec.
  intros b p [Hb|(c&Hc&_&Hsz)]%Hl; [done|].
  rewrite Forall_forall in Hcs. specialize (Hcs c Hc). simpl in Hcs. lia.
Qed.

(** A controller with enough memory has none mapped. *)
Lemma small_unmapped h c b t : small_cmb h → h !! b = Some (Some c, t) → cmb_size c < 4096.
Proof. intros Hs Hb. by apply (Hs b _ Hb). Qed.
End leaves.

(** ** Rules for the calls *)
Section rules.
Context {W : Type} `{!HelloLib W} `{!HelloView W} `{!HelloLaws W}.
Implicit Types (s : hello W) (X : Z → hello W → Prop).

Lemma wp_hw_call {A} (f : W → A * W) a w' Q X s : f (hw_lib s) = (a, w') →
  Q a (set_hw_lib w' s) → wp (hw_call f) Q X s.
Proof. intros E HQ. unfold wp, hw_call. by rewrite E. Qed.

Lemma wp_hw_submit {A} q c (k : M (hello W) A) Q X s :
  q ∈ qpairs (dev (hw_lib s)) → pending (dev (hw_lib s)) = None →
  (∀ w', dev w' = with_pending (Some (q, c)) (dev (hw_lib s)) → wp k Q X (set_hw_lib w' s)) →
  wp (rc ← hw_call (hw_submit q c); (if decide (rc ≠ 0) then exit 1 else k)) Q X s.
Proof.
  intros Hq Hp Hk. destruct (submit_law q c (hw_lib s) Hq Hp) as (w'&E&Hw).
  apply wp_bind. eapply wp_hw_call; [exact E|]. by apply Hk.
Qed.

(** ** Polling

    The commands that are still to complete when one is outstanding. *)
Definition rank s : nat :=
  match pending (dev (hw_lib s)) with
  | None => 0
  | Some (_, hw_write _ _ _ _) => 2
  | Some _ => 1
  end.
Definition to_wait s : nat :=
  match rank s with O => O | r => r * S max_lag + lag (hw_lib s) end.

Lemma rank_lower s s' : (rank s' < rank s)%nat → (to_wait s' < to_wait s)%nat.
Proof.
  unfold to_wait. pose proof (lag_law (hw_lib s')). destruct (rank s'), (rank s); nia.
Qed.

(** A phase of the sequence: nothing is outstanding, or a command that the device
    executes and whose callback leads to a later phase. *)
Definition phase_of (I : hello W → Prop) X q s : Prop :=
  pending (dev (hw_lib s)) = None ∨ ∃ c, pending (dev (hw_lib s)) = Some (q, c) ∧
    executable c (dev (hw_lib s)) ∧ ∀ w', dev w' = with_pending None (perform c (dev (hw_lib s))) →
    wp (hw_callback c false) (λ _ s', I s' ∧ (rank s' < rank s)%nat) X (set_hw_lib w' s).

Section polling.
Context (I : hello W → Prop) (X : Z → hello W → Prop) (q : Z).
Context (I_phase : ∀ s, I s → phase_of I X q s).
Context (I_dev : ∀ s w', I s → dev w' = dev (hw_lib s) → I (set_hw_lib w' s)).

Lemma hw_deliver_spec n s : I s → wp (hw_deliver n q) (λ _ s', I s' ∧ (to_wait s' ≤ to_wait s)%nat ∧
  ((0 < n)%nat → (0 < rank s)%nat → (to_wait s' < to_wait s)%nat)) X s.
Proof.
  revert s. induction n as [|n IH]; intros s HI; simpl.
  { apply wp_skip. split_and!; [done|lia|lia]. }
  apply wp_bind. destruct (I_phase s HI) as [Hp|(c&Hp&Hc&Hk)].
  - destruct (idle_law q (hw_lib s) Hp) as (w'&E&Hw). eapply wp_hw_call; [exact E|].
    apply wp_skip. unfold to_wait, rank. simpl. rewrite Hw, Hp.
    split_and!; [by apply I_dev|done|lia].
  - destruct (poll_law q c (hw_lib s) Hp Hc) as [(w'&E&Hw&Hl)|(w'&E&Hw)];
      (eapply wp_hw_call; [exact E|]).
    + apply wp_skip. assert (to_wait (set_hw_lib w' s) < to_wait s)%nat as Hlt.
      { unfold to_wait, rank. simpl. rewrite Hw, Hp. destruct c; lia. }
      split_and!; [by apply I_dev|lia|done].
    + apply wp_seq. eapply wp_weaken; [by apply Hk|]. intros _ s' [HI' Hr%rank_lower].
      eapply wp_weaken; [by apply IH|]. intros _ s'' (?&?&_). split_and!; [done|lia|lia].
Qed.

Lemma polling_spec s : (∀ s, I s → not_completed s = true → (0 < rank s)%nat) → I s →
  twp (λ n, while n not_completed (hw_process q)) (λ _ s', I s' ∧ not_completed s' = false) X s.
Proof.
  intros Hr HI. apply (twp_while _ _ _ to_wait); [|done]. intros s' HI' Hc.
  apply wp_bind, wp_get. eapply wp_weaken; [by apply hw_deliver_spec|].
  intros _ s'' (?&?&Hlt). split; [done|]. apply Hlt; [by apply budget_law|auto].
Qed.
End polling.
End rules.

(** ** The sequence of one namespace *)
Section sequence.
Context {W : Type} `{!HelloLib W} `{!HelloView W} `{!HelloLaws W}.
Implicit Types (s : hello W) (d : device).

Abbreviation never := (λ _ _, False).
Abbreviation dev_of s := (dev (hw_lib s)).

(** The queues are those of the state [s0] and the sequence is at [e] with the flags. *)
Record same_queues s0 s : Prop := {
  sq_namespaces : hw_namespaces s = hw_namespaces s0;
  sq_controllers : hw_controllers s = hw_controllers s0;
}.

(** The loop that waits for the reset. *)
Inductive resetting (q ns : Z) s0 d s : Prop :=
  | rs_wait : dev_of s = with_pending (Some (q, hw_reset ns 0)) d →
      sequence s = sequence s0 → is_completed (sequence s0) = 0 →
      resetting q ns s0 d s
  | rs_done : dev_of s = with_media (delete ns (media d)) d →
      sequence s = HwSequence (sq_ns (sequence s0)) (sq_buf (sequence s0))
        (using_cmb_io (sequence s0)) 1 → resetting q ns s0 d s.

Definition reset_inv q ns s0 d s : Prop :=
  resetting q ns s0 d s ∧ same_queues s0 s ∧ printed s = printed s0.

Lemma reset_spec q e s : sq_ns (sequence s) = e → hw_qpair e = Some q →
  is_completed (sequence s) = 0 → q ∈ qpairs (dev_of s) → pending (dev_of s) = None →
  twp (λ n, reset_zone_and_wait_for_completion n) (λ _ s', same_queues s s' ∧
    printed s' = printed s ∧ sequence s' = sequence s ∧
    dev_of s' = with_media (delete (hw_ns e) (media (dev_of s))) (dev_of s)) never s.
Proof.
  intros <- Hq Hc Hqp Hp. unfold reset_zone_and_wait_for_completion.
  apply twp_bind_wp, wp_get. rewrite Hq. apply twp_bind_wp, (wp_of_option _ q); [done|].
  destruct (submit_law q (hw_reset (hw_ns (sq_ns (sequence s))) 0) (hw_lib s) Hqp Hp)
    as (w'&E&Hw).
  apply twp_bind_wp. eapply wp_hw_call; [exact E|]. simpl.
  apply (twp_bind (λ n, while n not_completed (hw_process q)) (λ _ _, set_completed 0)).
  eapply twp_weaken.
  { apply (polling_spec (reset_inv q (hw_ns (sq_ns (sequence s))) s (dev_of s))).
    - intros s1 (Hr&Hs&Hpr). destruct Hr as [Hd Hsq Hcm|Hd Hsq].
      + right. eexists. rewrite Hd. split_and!; [done|done|]. intros w1 Hw1.
        apply wp_seq, wp_modify, wp_skip. split.
        { split_and!; [|by destruct Hs|done]. apply rs_done; simpl; [|by rewrite Hsq].
          rewrite Hw1. destruct (dev_of s). simpl in *. by subst. }
        unfold rank. simpl. rewrite Hw1, Hd. simpl. lia.
      + left. by rewrite Hd.
    - intros s1 w1 (Hr&Hs&Hpr) Hw1. split_and!; [|by destruct Hs|done].
      destruct Hr; [apply rs_wait|apply rs_done]; simpl; congruence.
    - intros s1 (Hr&_) Hn. destruct Hr as [Hd _ _|_ Hsq].
      + unfold rank. rewrite Hd. simpl. lia.
      + unfold not_completed in Hn. by rewrite Hsq in Hn.
    - split_and!; [|done|done]. by apply rs_wait. }
  intros _ s1 [(Hr&Hs&Hpr) Hn]. apply twp_wp, wp_modify. simpl.
  destruct Hr as [_ Hsq Hc'|Hd Hsq].
  { unfold not_completed in Hn. by rewrite Hsq, Hc' in Hn. }
  split_and!; [by destruct Hs|done| |done].
  rewrite Hsq. simpl. rewrite <-Hc. by destruct (sequence s).
Qed.

(** The write, the read that its callback submits, and the end.  [h] are the buffers
    without the one of the sequence. *)
Inductive greeting_phase (q : Z) (e : hw_entry) (h : gmap Z (option Z * string)) d s0 s : Prop :=
  | gp_write b (cmb : bool) : h !! b = None → (cmb = true → unmapped (hw_ctrlr e) h) →
      dev_of s = with_pending (Some (q, hw_write (hw_ns e) (Some b) 0 1))
        (with_held (<[b := (if cmb then Some (hw_ctrlr e) else None, greeting)]> h) d) →
      (zoned (hw_ns e) = true → media d !! hw_ns e = None) →
      sequence s = HwSequence e (Some b) cmb 0 → printed s = printed s0 →
      greeting_phase q e h d s0 s
  | gp_read b t : h !! b = None →
      dev_of s = with_pending (Some (q, hw_read (hw_ns e) (Some b) 0 1))
        (with_held (<[b := (None, t)]> h) (with_media (<[hw_ns e := greeting]> (media d)) d)) →
      sequence s = HwSequence e (Some b) (using_cmb_io (sequence s)) 0 →
      printed s = printed s0 → greeting_phase q e h d s0 s
  | gp_done :
      dev_of s = with_held h (with_media (<[hw_ns e := greeting]> (media d)) d) →
      is_completed (sequence s) = 1 → printed s = printed s0 ++ [greeting] →
      greeting_phase q e h d s0 s.

Definition greeting_inv q e h d s0 s : Prop := greeting_phase q e h d s0 s ∧ same_queues s0 s.

Lemma write_complete_spec q e h d s0 s b (cmb : bool) : pending d = None →
  (cmb = true → unmapped (hw_ctrlr e) h) → q ∈ qpairs d →
  hw_qpair e = Some q → h !! b = None → same_queues s0 s →
  dev_of s = with_held (<[b := (if cmb then Some (hw_ctrlr e) else None, greeting)]> h)
    (with_media (<[hw_ns e := greeting]> (media d)) d) →
  sequence s = HwSequence e (Some b) cmb 0 → printed s = printed s0 →
  wp (write_complete false) (λ _ s', greeting_inv q e h d s0 s' ∧ rank s' = 1%nat) never s.
Proof.
  intros Hp Hcmb Hq He Hb Hs Hd Hsq Hpr. unfold write_complete. apply wp_bind, wp_get.
  rewrite Hsq. simpl. apply wp_seq.
  assert (wp (if cmb then hw_effect (unmap_cmb (hw_ctrlr e)) else hw_effect (hw_free (Some b)))
    (λ _ s', ∃ w', s' = set_hw_lib w' s ∧
      dev w' = with_held h (with_media (<[hw_ns e := greeting]> (media d)) d)) never s) as Hfree.
  { destruct cmb; apply wp_modify; eexists; (split; [done|]).
    - erewrite (unmap_cmb_law _ b greeting h); [by rewrite Hd|by rewrite Hd|done|by apply Hcmb].
    - erewrite (free_law b greeting); [|by rewrite Hd; simpl; rewrite lookup_insert_eq].
      rewrite Hd. simpl. by rewrite delete_insert_id. }
  eapply wp_weaken; [exact Hfree|]. intros _ s1 (w1&->&Hw1).
  destruct (zmalloc_law 4096 w1) as (b'&w2&E&Hb'&Hw2). rewrite Hw1 in Hb', Hw2. simpl in Hb', Hw2.
  apply wp_bind. eapply wp_hw_call; [exact E|]. apply wp_seq, wp_modify.
  rewrite He. apply wp_bind, (wp_of_option _ q); [done|].
  apply wp_hw_submit; simpl; [by rewrite Hw2|by rewrite Hw2|]. intros w3 Hw3.
  apply wp_skip. rewrite Hw2 in Hw3. split.
  - split; [|by destruct Hs]. eapply gp_read; simpl; [exact Hb'|by rewrite Hw3| |done].
    by rewrite Hsq.
  - unfold rank. simpl. by rewrite Hw3.
Qed.

Lemma read_complete_spec q e h d s0 s b : h !! b = None → same_queues s0 s → pending d = None →
  dev_of s = with_held (<[b := (None, greeting)]> h)
    (with_media (<[hw_ns e := greeting]> (media d)) d) →
  sq_buf (sequence s) = Some b → printed s = printed s0 →
  wp (read_complete false) (λ _ s', greeting_inv q e h d s0 s' ∧ rank s' = 0%nat) never s.
Proof.
  intros Hb Hs Hp Hd Hbuf Hpr. unfold read_complete. apply wp_seq, wp_modify, wp_bind, wp_get.
  apply wp_bind, (wp_of_option _ b); [done|]. simpl.
  apply wp_bind, (wp_of_option _ greeting).
  { rewrite string_law, Hd. simpl. by rewrite lookup_insert_eq. }
  apply wp_seq, wp_modify, wp_modify. simpl.
  assert (dev (hw_free (Some b) (hw_lib s)) =
    with_held h (with_media (<[hw_ns e := greeting]> (media d)) d)) as Hf.
  { erewrite (free_law b greeting); [|by rewrite Hd; simpl; rewrite lookup_insert_eq].
    rewrite Hd. simpl. by rewrite delete_insert_id. }
  split.
  - split; [|by destruct Hs]. apply gp_done; simpl; [done|done|by rewrite Hpr].
  - unfold rank. simpl. rewrite Hf. simpl. by rewrite Hp.
Qed.

Lemma greeting_loop_spec q e h d s0 s : pending d = None → q ∈ qpairs d →
  hw_qpair e = Some q → greeting_inv q e h d s0 s →
  twp (λ n, while n not_completed (hw_process q)) (λ _ s', same_queues s0 s' ∧
    printed s' = printed s0 ++ [greeting] ∧
    dev_of s' = with_held h (with_media (<[hw_ns e := greeting]> (media d)) d)) never s.
Proof.
  intros Hp Hq He HI. eapply twp_weaken.
  { apply (polling_spec (greeting_inv q e h d s0)); [| | |exact HI].
    - intros s1 (Hg&Hs). destruct Hg as [b cmb Hb Hcmb Hd Hz Hsq Hpr|b t Hb Hd Hsq Hpr|Hd _ _].
      + right. eexists. rewrite Hd. split_and!; [done| |].
        { simpl. split_and!; [done|done| |done]. eexists. split; [done|].
          rewrite lookup_insert_eq. by eexists. }
        intros w1 Hw1. simpl in Hw1. rewrite lookup_insert_eq in Hw1. simpl in Hw1.
        eapply wp_weaken.
        { eapply (write_complete_spec q e h d s0 _ b cmb); [done..|by destruct Hs| |done|done].
          simpl. rewrite Hw1. destruct d. simpl in *. by subst. }
        intros _ s2 [? Hr]. split; [done|]. rewrite Hr. unfold rank. rewrite Hd. simpl. lia.
      + right. eexists. rewrite Hd. split_and!; [done| |].
        { simpl. split_and!; [done|done|]. eexists. split; [done|].
          rewrite lookup_insert_eq. by eexists. }
        intros w1 Hw1. simpl in Hw1. rewrite alter_insert_eq, lookup_insert_eq in Hw1.
        simpl in Hw1. eapply wp_weaken.
        { eapply (read_complete_spec q e h d s0 _ b); [done|by destruct Hs|done| | |done].
          - simpl. rewrite Hw1. destruct d. simpl in *. by subst.
          - simpl. by rewrite Hsq. }
        intros _ s2 [? Hr]. split; [done|]. rewrite Hr. unfold rank. rewrite Hd. simpl. lia.
      + left. by rewrite Hd.
    - intros s1 w1 (Hg&Hs) Hw1. split; [|by destruct Hs].
      destruct Hg; [eapply gp_write|eapply gp_read|eapply gp_done]; simpl; rewrite ?Hw1; eassumption.
    - intros s1 (Hg&_) Hn. unfold rank.
      destruct Hg as [b cmb Hb _ Hd _ _ _|b t Hb Hd _ _|_ Hc _]; [rewrite Hd; simpl; lia..|].
      unfold not_completed in Hn. by rewrite Hc in Hn. }
  intros _ s1 [[Hg Hs] Hn]. unfold not_completed in Hn.
  destruct Hg as [b cmb _ _ _ _ Hsq _|b t _ _ Hsq _|]; [by rewrite Hsq in Hn..|done].
Qed.

(** ** One namespace and all of them *)
Lemma get_buffer_spec cs e s : hw_ctrlr e ∈ cs → small_cmb (held (dev_of s)) →
  wp (get_buffer e) (λ r s', ∃ b t (cmb : bool) h, r = Some b ∧ h !! b = None ∧
    leaves cs (held (dev_of s)) h ∧ (cmb = true → unmapped (hw_ctrlr e) h) ∧
    sequence s' = HwSequence e (Some b) cmb 0 ∧
    dev_of s' = with_held (<[b := (if cmb then Some (hw_ctrlr e) else None, t)]> h) (dev_of s) ∧
    same_queues s s' ∧ printed s' = printed s) never s.
Proof.
  intros He Hsm. unfold get_buffer.
  destruct (map_cmb_law (hw_ctrlr e) (hw_lib s)) as (r&w1&E&Hr).
  apply wp_bind. eapply wp_hw_call; [exact E|].
  assert (∀ h w1, leaves cs (held (dev_of s)) h → dev w1 = with_held h (dev_of s) →
    wp (b ← hw_call (hw_zmalloc 4096); modify (set_sequence (HwSequence e b false 0));; mret b)
      (λ r s', ∃ b t (cmb : bool) h, r = Some b ∧ h !! b = None ∧
        leaves cs (held (dev_of s)) h ∧ (cmb = true → unmapped (hw_ctrlr e) h) ∧
        sequence s' = HwSequence e (Some b) cmb 0 ∧
        dev_of s' = with_held (<[b := (if cmb then Some (hw_ctrlr e) else None, t)]> h) (dev_of s) ∧
        same_queues s s' ∧ printed s' = printed s) never (set_hw_lib w1 s)) as Hz.
  { intros h w2 Hl Hw. destruct (zmalloc_law 4096 w2) as (b&w3&E2&Hb&Hw3). rewrite Hw in Hb, Hw3.
    apply wp_bind. eapply wp_hw_call; [exact E2|]. apply wp_seq, wp_modify, wp_ret.
    exists b, ""%string, false, h. by split_and!. }
  destruct r as [[b sz]|]; [|apply (Hz (held (dev_of s))); [done|rewrite Hr; by destruct (dev_of s)]].
  destruct Hr as (->&t&[(Hb&Hu&Hw)|[Hb Hw]]); case_decide as Hsz.
  - eapply Hz; [by eapply leaves_insert|exact Hw].
  - apply wp_seq, wp_modify, wp_ret. exists b, t, true, (held (dev_of s)). by split_and!.
  - apply (Hz (held (dev_of s))); [done|rewrite Hw; by destruct (dev_of s)].
  - exfalso. apply Hsz. by eapply small_unmapped.
Qed.

(** The zone is empty before the write. *)
Lemma reset_if_zoned_spec q e s : sq_ns (sequence s) = e → hw_qpair e = Some q →
  is_completed (sequence s) = 0 → q ∈ qpairs (dev_of s) → pending (dev_of s) = None →
  twp (λ n, if zoned (hw_ns e) then reset_zone_and_wait_for_completion n else skip)
    (λ _ s', same_queues s s' ∧ printed s' = printed s ∧ sequence s' = sequence s ∧ ∃ m,
      dev_of s' = with_media m (dev_of s) ∧ (zoned (hw_ns e) = true → m !! hw_ns e = None) ∧
      <[hw_ns e := greeting]> m = <[hw_ns e := greeting]> (media (dev_of s))) never s.
Proof.
  intros He Hq Hc Hqp Hp. destruct (zoned (hw_ns e)) eqn:Hz.
  - eapply twp_weaken; [by apply (reset_spec q e)|]. intros _ s1 (?&?&?&Hd). split_and!; [done..|].
    eexists. split; [exact Hd|]. split; [by rewrite lookup_delete_eq|].
    by rewrite insert_delete_eq.
  - apply twp_wp, wp_skip. split_and!; [done..|]. exists (media (dev_of s)).
    split_and!; [by destruct (dev_of s)|done|done].
Qed.

Lemma hello_one_spec cs e s : hw_ctrlr e ∈ cs → pending (dev_of s) = None →
  small_cmb (held (dev_of s)) →
  twp (λ n, hello_one n e) (λ ok s', ok = true ∧ same_queues s s' ∧
    printed s' = printed s ++ [greeting] ∧ ∃ h, leaves cs (held (dev_of s)) h ∧
    dev_of s' = with_held h (with_media (<[hw_ns e := greeting]> (media (dev_of s))) (dev_of s)))
    never s.
Proof.
  intros He Hp Hsm. unfold hello_one.
  destruct (alloc_qpair_law (hw_ctrlr e) (hw_lib s)) as (q&w1&E&Hq&Hw1).
  apply twp_bind_wp. eapply wp_hw_call; [exact E|].
  set (e' := HwEntry (hw_ctrlr e) (hw_ns e) (Some q)).
  apply twp_bind_wp. eapply wp_weaken; [apply (get_buffer_spec cs e'); [done|simpl; by rewrite Hw1]|].
  intros r s2 (b&t&cmb&h&->&Hb&Hl&Hcmb&Hsq2&Hd2&Hs2&Hp2). simpl in Hl, Hd2, Hp2, Hcmb.
  rewrite Hw1 in Hl, Hd2.
  simpl in Hl, Hd2. apply twp_bind_wp, wp_get. rewrite is_zns_law. apply twp_bind.
  eapply twp_weaken.
  { apply (reset_if_zoned_spec q e'); rewrite ?Hsq2, ?Hd2; simpl; [done..|set_solver|done]. }
  intros _ s3 (Hs3&Hp3&Hsq3&m&Hd3&Hz&Hm). rewrite Hd2 in Hd3, Hm. simpl in Hd3, Hm, Hz.
  apply twp_bind_wp, wp_modify. apply twp_bind_wp.
  assert (dev (hw_store b greeting (hw_lib s3)) = with_held
    (<[b := (if cmb then Some (hw_ctrlr e) else None, greeting)]> h)
    (with_media m (with_qpairs ({[q]} ∪ qpairs (dev_of s)) (dev_of s)))) as Hst.
  { erewrite store_law; [|rewrite Hd3; simpl; by rewrite lookup_insert_eq].
    rewrite Hd3. simpl. by rewrite insert_insert_eq. }
  destruct (submit_law q (hw_write (hw_ns e) (Some b) 0 1) (hw_store b greeting (hw_lib s3)))
    as (w4&E4&Hw4); [rewrite Hst; simpl; set_solver|by rewrite Hst|]. rewrite Hst in Hw4.
  eapply wp_hw_call; [exact E4|]. simpl. apply twp_bind. eapply twp_weaken.
  { apply (greeting_loop_spec q e' h
      (with_media m (with_qpairs ({[q]} ∪ qpairs (dev_of s)) (dev_of s))) s3);
      [done|simpl; set_solver|done|].
    split; [|done]. eapply (gp_write _ _ _ _ _ _ b cmb); simpl; try done.
    by rewrite Hsq3, Hsq2. }
  intros _ s5 (Hs5&Hp5&Hd5). apply twp_wp. apply wp_seq, wp_modify, wp_ret.
  split_and!; [done| | |exists h; split; [done|]].
  - destruct Hs2, Hs3, Hs5. split; simpl in *; congruence.
  - simpl. by rewrite Hp5, Hp3, Hp2.
  - simpl. rewrite free_qpair_law; [|rewrite Hd5; simpl; set_solver|by rewrite Hd5].
    rewrite Hd5. simpl. rewrite Hm. destruct (dev_of s) as [p md hd qs at_]. simpl in *.
    unfold with_media, with_held, with_qpairs. simpl. f_equal. set_solver.
Qed.

(** The first blocks after the greeting of the namespaces of a list. *)
Definition greeted (l : list hw_entry) (m : gmap Z string) : gmap Z string :=
  foldl (λ m e, <[hw_ns e := greeting]> m) m l.

Lemma hello_all_spec cs l s : (∀ e, e ∈ l → hw_ctrlr e ∈ cs) → pending (dev_of s) = None →
  small_cmb (held (dev_of s)) →
  twp (λ n, hello_all n l) (λ _ s', same_queues s s' ∧
    printed s' = printed s ++ replicate (length l) greeting ∧
    ∃ h, leaves cs (held (dev_of s)) h ∧
    dev_of s' = with_held h (with_media (greeted l (media (dev_of s))) (dev_of s))) never s.
Proof.
  revert s. induction l as [|e l IH]; intros s Hcs Hp Hsm; simpl.
  - apply twp_wp, wp_skip. split_and!; [done|by rewrite app_nil_r|]. exists (held (dev_of s)).
    split; [done|by destruct (dev_of s)].
  - apply (twp_bind (λ n, hello_one n e)).
    eapply twp_weaken; [by apply (hello_one_spec cs); [apply Hcs; left|..]|].
    intros ok s1 (->&Hs&Hpr&h&Hl&Hd).
    eapply twp_weaken; [apply IH; [intros; apply Hcs; by right|by rewrite Hd|]|].
    { rewrite Hd. simpl. by eapply leaves_small. }
    intros _ s2 (Hs'&Hpr'&h'&Hl'&Hd'). split_and!.
    + destruct Hs, Hs'. split; congruence.
    + rewrite Hpr', Hpr. by rewrite <-app_assoc.
    + exists h'. rewrite Hd in Hl'. simpl in Hl'. split; [by etrans|].
      rewrite Hd', Hd. by destruct (dev_of s).
Qed.

Lemma greeted_lookup l m ns : greeted l m !! ns =
  if bool_decide (ns ∈ hw_ns <$> l) then Some greeting else m !! ns.
Proof.
  revert m. induction l as [|e l IH]; intros m; [done|]. simpl. rewrite IH.
  destruct (decide (ns ∈ hw_ns <$> l)).
  - rewrite !bool_decide_true; [done|by right|done].
  - rewrite (bool_decide_false (ns ∈ hw_ns <$> l)) by done.
    destruct (decide (ns = hw_ns e)) as [->|].
    + rewrite bool_decide_true by left. by rewrite lookup_insert_eq.
    + rewrite bool_decide_false by (rewrite elem_of_cons; tauto). by rewrite lookup_insert_ne.
Qed.

(** ** Registration and clean-up *)
Definition namespace_at (c i : Z) : option hw_entry :=
  ns ← ns_at c i; if active ns then Some (HwEntry c ns None) else None.
Definition namespaces_of (c : Z) : list hw_entry :=
  omap (namespace_at c) (seqZ 1 (ns_count c)).

Lemma hw_register_ns_spec c ns s : wp (hw_register_ns c ns) (λ _ s', printed s' = printed s ∧
  hw_namespaces s' = hw_namespaces s ++ (if active ns then [HwEntry c ns None] else []) ∧
  hw_controllers s' = hw_controllers s ∧ dev_of s' = dev_of s) never s.
Proof.
  unfold hw_register_ns. apply wp_bind, wp_get. rewrite active_law.
  destruct (active ns); simpl.
  - destruct (malloc_law (hw_lib s)) as (w'&E&Hw). apply wp_bind.
    eapply wp_hw_call; [exact E|]. by apply wp_modify.
  - apply wp_skip. by rewrite app_nil_r.
Qed.

Lemma register_from_spec n c i s : wp (register_from n c i) (λ _ s', printed s' = printed s ∧
  hw_namespaces s' = hw_namespaces s ++ omap (namespace_at c) (seqZ i (Z.of_nat n)) ∧
  hw_controllers s' = hw_controllers s ∧ dev_of s' = dev_of s) never s.
Proof.
  revert i s. induction n as [|n IH]; intros i s.
  { apply wp_skip. simpl. by rewrite app_nil_r. }
  simpl register_from. apply wp_bind, wp_get. rewrite get_ns_law, seqZ_cons by lia.
  replace (Z.succ i) with (i + 1) by lia. replace (Z.pred (Z.of_nat (S n))) with (Z.of_nat n) by lia.
  apply wp_seq. simpl omap. unfold namespace_at at 1. destruct (ns_at c i) as [ns|]; simpl.
  - eapply wp_weaken; [apply hw_register_ns_spec|]. intros _ s1 (Hp&Hn&Hc&Hd).
    eapply wp_weaken; [apply IH|]. intros _ s2 (Hp'&Hn'&Hc'&Hd').
    split_and!; [congruence| |congruence|congruence]. rewrite Hn', Hn, <-app_assoc.
    by destruct (active ns).
  - apply wp_skip, IH.
Qed.

Lemma register_all_spec c s : wp (register_from (Z.to_nat (get_num_ns c (hw_lib s))) c 1)
  (λ _ s', printed s' = printed s ∧ hw_namespaces s' = hw_namespaces s ++ namespaces_of c ∧
  hw_controllers s' = hw_controllers s ∧ dev_of s' = dev_of s) never s.
Proof.
  eapply wp_weaken; [apply register_from_spec|]. simpl. rewrite get_num_ns_law.
  intros _ s' (?&Hn&?&Hd). split_and!; [done| |done|done]. rewrite Hn. f_equal.
  unfold namespaces_of. destruct (decide (0 ≤ ns_count c)); [by rewrite Z2Nat.id|].
  rewrite !seqZ_nil by lia. done.
Qed.

Lemma attach_spec c s : wp (attach_cb c) (λ _ s', printed s' = printed s ∧
  hw_namespaces s' = hw_namespaces s ++ namespaces_of c ∧
  hw_controllers s' = hw_controllers s ++ [c] ∧ dev_of s' = dev_of s) never s.
Proof.
  unfold attach_cb. destruct (malloc_law (hw_lib s)) as (w'&E&Hw). apply wp_bind.
  eapply wp_hw_call; [exact E|]. apply wp_seq, wp_modify, wp_bind, wp_get.
  eapply wp_weaken; [apply register_all_spec|]. simpl.
  intros _ s' (?&?&?&Hd). split_and!; [done..|congruence].
Qed.

Lemma attach_all_spec l s : wp (foreach l attach_cb) (λ _ s', printed s' = printed s ∧
  hw_namespaces s' = hw_namespaces s ++ (l ≫= namespaces_of) ∧
  hw_controllers s' = hw_controllers s ++ l ∧ dev_of s' = dev_of s) never s.
Proof.
  eapply (wp_foreach attach_cb (λ pre s', printed s' = printed s ∧
    hw_namespaces s' = hw_namespaces s ++ (pre ≫= namespaces_of) ∧
    hw_controllers s' = hw_controllers s ++ pre ∧ dev_of s' = dev_of s)).
  - intros pre c rest s' -> (Hp&Hn&Hc&Hd). eapply wp_weaken; [apply attach_spec|].
    intros _ s2 (Hp'&Hn'&Hc'&Hd'). split_and!; [congruence| | |congruence].
    + rewrite Hn', Hn, bind_app. simpl. by rewrite app_nil_r, <-app_assoc.
    + by rewrite Hc', Hc, <-app_assoc.
  - simpl. by rewrite !app_nil_r.
Qed.

Lemma hw_detach_all_spec l s : hw_controllers s = l → hw_namespaces s = [] →
  wp (foreach l (λ c, modify (λ s, set_hw_controllers (tail (hw_controllers s)) s);;
                      hw_effect (hw_detach_async c)))
    (λ _ s', printed s' = printed s ∧ hw_namespaces s' = [] ∧ hw_controllers s' = [] ∧
      dev_of s' = with_attached (attached (dev_of s) ∖ list_to_set l) (dev_of s)) never s.
Proof.
  revert s. induction l as [|c l IH]; intros s' Hl Hn; simpl.
  - apply wp_skip. split_and!; [done..|]. rewrite difference_empty_L. by destruct (dev_of s').
  - apply wp_seq, wp_seq, wp_modify, wp_modify. rewrite Hl. simpl.
    eapply wp_weaken; [by apply IH|]. simpl. intros _ s2 (?&?&?&Hd). split_and!; [done..|].
    rewrite Hd, detach_law. simpl. unfold with_attached. simpl. f_equal. set_solver.
Qed.

Lemma hw_cleanup_spec s : twp hw_cleanup (λ _ s', printed s' = printed s ∧ hw_namespaces s' = [] ∧
  hw_controllers s' = [] ∧ dev_of s' =
    with_attached (attached (dev_of s) ∖ list_to_set (hw_controllers s)) (dev_of s)) never s.
Proof.
  unfold hw_cleanup. apply twp_bind_wp, wp_modify, twp_bind_wp, wp_get, twp_bind_wp. simpl.
  eapply wp_weaken; [by apply (hw_detach_all_spec _ (set_hw_namespaces [] s))|]. simpl.
  intros _ s1 H1. apply twp_bind_wp, wp_get.
  destruct (hw_detaching (hw_lib s1)); [|by apply twp_wp, wp_skip].
  apply (twp_poll_while _ _ (λ s', detach_lag (hw_lib s'))); [|done].
  clear s1 H1. intros s1 (?&?&?&Hd). destruct (hw_detach_poll (hw_lib s1)) as [again w'] eqn:E.
  eapply wp_hw_call; [exact E|]. apply detach_poll_law in E as [Hw Hlt].
  split; [|exact Hlt]. simpl. split_and!; [done..|congruence].
Qed.

(** The common end of both programs. *)
Lemma hello_end_spec cs s : (∀ e, e ∈ hw_namespaces s → hw_ctrlr e ∈ cs) →
  pending (dev_of s) = None → small_cmb (held (dev_of s)) →
  twp (λ n, hello_world n;; hw_cleanup n;; mret 0) (λ rc s', rc = 0 ∧
    printed s' = printed s ++ replicate (length (hw_namespaces s)) greeting ∧
    hw_namespaces s' = [] ∧ hw_controllers s' = [] ∧
    ∃ h, leaves cs (held (dev_of s)) h ∧
    dev_of s' = with_attached (attached (dev_of s) ∖ list_to_set (hw_controllers s))
      (with_held h (with_media (greeted (hw_namespaces s) (media (dev_of s))) (dev_of s)))) never s.
Proof.
  intros Hcs Hp Hsm. unfold hello_world. apply twp_bind. apply twp_bind_wp, wp_get.
  eapply twp_weaken; [by apply (hello_all_spec cs)|]. intros _ s1 (Hs&Hpr&h&Hl&Hd).
  apply (twp_bind hw_cleanup (λ _ _, mret 0)).
  eapply twp_weaken; [apply hw_cleanup_spec|]. intros _ s2 (Hpr'&?&?&Hd').
  apply twp_wp, wp_ret. split_and!; [done|congruence|done|done|]. exists h. split; [done|].
  rewrite Hd', Hd. simpl. by rewrite (sq_controllers _ _ Hs).
Qed.
End sequence.
