(* ===== verification/HelloProps.v ===== *)
(** * Properties of the hello-world programs

    On a driver that works both programs end, print what they have read back
    once for every active namespace, and give back what they have taken; a
    connection that fails is used all the same. *)
From S2P Require Import Prelude Hello HelloSpec.
Local Open Scope Z_scope.

Section hello.
Context {W : Type} `{!HelloLib W} `{!HelloView W} `{!HelloLaws W}.
Implicit Types (w : W).

Lemma namespaces_of_ctrlr cs e : e ∈ cs ≫= namespaces_of → hw_ctrlr e ∈ cs.
Proof.
  intros (c&He&Hc)%list_elem_of_bind. unfold namespaces_of in He.
  apply list_elem_of_omap in He as (i&_&Hi). unfold namespace_at in Hi.
  destruct (ns_at c i) as [ns|]; simpl in Hi; [|done]. by destruct (active ns); simplify_eq.
Qed.

(** The outcome for the namespaces of the controllers [cs]: each is greeted, the other
    namespaces and the resources in use are as in [w], but for the memory of controllers
    that have less than the programs want: it stays mapped. *)
Definition says_hello (cs : list Z) w (rc : Z) (s : hello W) : Prop :=
  rc = 0 ∧ printed s = replicate (length (cs ≫= namespaces_of)) greeting ∧
  hw_namespaces s = [] ∧ hw_controllers s = [] ∧
  (∀ ns, media (dev (hw_lib s)) !! ns =
    if bool_decide (ns ∈ hw_ns <$> (cs ≫= namespaces_of)) then Some greeting
    else media (dev w) !! ns) ∧
  pending (dev (hw_lib s)) = None ∧ leaves cs (held (dev w)) (held (dev (hw_lib s))) ∧
  (Forall (λ c, 4096 ≤ cmb_size c) cs → held (dev (hw_lib s)) = held (dev w)) ∧
  qpairs (dev (hw_lib s)) = qpairs (dev w) ∧ attached (dev (hw_lib s)) = ∅.

(** From a set-up with the controllers [cs] attached. *)
Lemma says_hello_end cs w (s : hello W) : cs ≠ [] → pending (dev w) = None →
  small_cmb (held (dev w)) → attached (dev w) = ∅ → printed s = [] →
  hw_namespaces s = cs ≫= namespaces_of → hw_controllers s = cs →
  dev (hw_lib s) = with_attached (list_to_set cs ∪ attached (dev w)) (dev w) →
  twp (λ n, s ← get; if decide (hw_controllers s = []) then hw_cleanup n;; mret 1 else
    hello_world n;; hw_cleanup n;; mret 0) (says_hello cs w) (λ _ _, False) s.
Proof.
  intros Hne Hp Hh Ha Hpr Hn Hc Hd. apply twp_bind_wp, wp_get.
  destruct (decide (hw_controllers s = [])) as [|_]; [congruence|].
  eapply twp_weaken.
  { apply (hello_end_spec cs); rewrite ?Hd, ?Hn; [apply namespaces_of_ctrlr|done|done]. }
  rewrite Hd, Hpr, Hn, Hc, Ha. simpl. intros rc s' (->&Hpr'&?&?&h&Hl&Hd').
  split_and!; try done; rewrite Hd'; try done; simpl; [|intros Hb; by eapply leaves_nothing|set_solver].
  intros ns. by rewrite greeted_lookup.
Qed.

(** (C28) With a driver that works and at least one controller, [hello-world.cc] ends and
    returns 0, however many polls each command takes; it has printed the greeting, as read
    back from the device, once for every active namespace of its controllers; the first block
    of these namespaces, and of no other, holds it; every buffer, queue pair and controller
    has been given back, and so has every mapping of controller memory but those of
    controllers with less than 4096 bytes, which it forgets.  [remote-hello-world.cc] does
    the same for its one controller in an image of the program that has the bytes which it
    copies behind the literal with the host name, and is undefined in one that has not. *)
Theorem hello_says `{!Image} w : pending (dev w) = None → small_cmb (held (dev w)) →
  attached (dev w) = ∅ → present ≠ [] →
  twp hello_main (says_hello present w) (λ _ _, False) (hello_start w) ∧
  (remote_hostnqn_size ≤ literal_bytes remote_hostnqn →
    twp remote_hello_main (says_hello [target] w) (λ _ _, False) (hello_start w)) ∧
  (literal_bytes remote_hostnqn < remote_hostnqn_size →
    ∀ fuel, remote_hello_main fuel (hello_start w) = Undef).
Proof.
  intros Hp Hh Ha Hne. destruct (env_init_law w) as (w1&E1&Hw1). split_and!.
  - unfold hello_main. apply twp_bind_wp. eapply wp_hw_call; [exact E1|]. simpl.
    destruct (probe_law w1) as (w2&E2&Hw2). rewrite Hw1 in Hw2.
    apply twp_bind_wp. eapply wp_hw_call; [exact E2|]. simpl.
    apply twp_bind_wp. eapply wp_weaken; [apply attach_all_spec|]. simpl.
    intros _ s (Hpr&Hn&Hc&Hd). apply says_hello_end; try done. by rewrite Hd.
  - intros Hi. unfold remote_hello_main. apply twp_bind_wp. eapply wp_hw_call; [exact E1|]. simpl.
    unfold memcpy_literal. rewrite decide_True by done. apply twp_bind_wp, wp_skip.
    destruct (connect_law w1) as (w2&E2&Hw2). rewrite Hw1 in Hw2.
    apply twp_bind_wp. eapply wp_hw_call; [exact E2|].
    apply (twp_bind_wp (hw_call hw_malloc)). destruct (malloc_law w2) as (w3&E3&Hw3).
    eapply wp_hw_call; [exact E3|]. simpl.
    apply twp_bind_wp, wp_ret, twp_bind_wp, wp_modify, twp_bind_wp, wp_get, twp_bind_wp.
    eapply wp_weaken; [apply register_all_spec|]. simpl.
    intros _ s (Hpr&Hn&Hc&Hd). apply says_hello_end; try done; simpl.
    + by rewrite Hn, app_nil_r.
    + by rewrite Hd, Hw3, union_empty_r_L, Hw2.
  - intros Hi fuel. unfold remote_hello_main, mbind, M_bind, hw_call. simpl. rewrite E1. simpl.
    unfold memcpy_literal. by rewrite decide_False by lia.
Qed.
End hello.

(** A connection that fails is used: [remote-hello-world.cc] reads the data of a null
    controller, which the local program cannot do. *)
Theorem remote_unconnected {W} `{!HelloLib W} `{!Image} fuel (w w1 w2 w3 : W) :
  hw_env_init w = (0, w1) → hw_connect w1 = (None, w2) → hw_malloc w2 = (true, w3) →
  remote_hello_main fuel (hello_start w) = Undef.
Proof.
  intros E1 E2 E3. unfold remote_hello_main, mbind, M_bind, hw_call. simpl.
  rewrite E1. simpl. unfold memcpy_literal. case_decide; [|done]. simpl.
  rewrite E2. simpl. by rewrite E3.
Qed.

(** ** A simulated driver

    Every command is busy for one poll.  Controller 1 has memory of its own, two active
    namespaces of which the second is zoned, and an inactive one; controller 2 has too
    little memory, a hole, an active and an inactive namespace. *)
Record hello_sim := HelloSim { hs_dev : device; hs_busy : bool }.

#[local] Instance hello_sim_view : HelloView hello_sim := {|
  dev := hs_dev;
  lag w := if hs_busy w then 1%nat else 0%nat;
  max_lag := 1%nat;
  zoned ns := bool_decide (ns = 12);
  present := [1; 2];
  target := 1;
  ns_count _ := 3;
  ns_at c i := if decide (c = 2 ∧ i = 1) then None else Some (10 * c + i);
  active ns := bool_decide (ns ≠ 13 ∧ ns ≠ 23);
  cmb_size c := if decide (c = 1) then 8192 else 1024;
  detach_lag _ := O;
|}.

Definition sim_set (d : device) (w : hello_sim) : hello_sim := HelloSim d (hs_busy w).
Definition sim_buf (w : hello_sim) : Z := fresh (dom (held (hs_dev w)) : gset Z).
Definition sim_hold (o : option Z) (w : hello_sim) : hello_sim :=
  sim_set (with_held (<[sim_buf w := (o, ""%string)]> (held (hs_dev w))) (hs_dev w)) w.
Definition sim_poll (w : hello_sim) : option (hw_cmd * bool) * hello_sim :=
  match pending (hs_dev w) with
  | None => (None, w)
  | Some (_, c) =>
      if hs_busy w then (None, HelloSim (hs_dev w) false)
      else (Some (c, false), sim_set (with_pending None (perform c (hs_dev w))) w)
  end.

#[local] Instance hello_sim_lib : HelloLib hello_sim := {|
  hw_alloc_qpair _ w := let q := fresh (qpairs (hs_dev w)) in
    (Some q, sim_set (with_qpairs ({[q]} ∪ qpairs (hs_dev w)) (hs_dev w)) w);
  hw_free_qpair q w := sim_set (with_qpairs (qpairs (hs_dev w) ∖ {[q]}) (hs_dev w)) w;
  map_cmb c w :=
    let sz := if decide (c = 1) then 8192 else 1024 in
    match map_to_list (filter (λ p, p.2.1 = Some c) (held (hs_dev w))) with
    | (b, _) :: _ => (Some (b, sz), w)
    | [] => (Some (sim_buf w, sz), sim_hold (Some c) w)
    end;
  unmap_cmb c w :=
    sim_set (with_held (filter (λ p, p.2.1 ≠ Some c) (held (hs_dev w))) (hs_dev w)) w;
  hw_zmalloc _ w := (Some (sim_buf w), sim_hold None w);
  hw_free b w := match b with
    | Some b => sim_set (with_held (delete b (held (hs_dev w))) (hs_dev w)) w
    | None => w
    end;
  hw_store b t w :=
    sim_set (with_held (alter (λ p, (p.1, t)) b (held (hs_dev w))) (hs_dev w)) w;
  hw_string b w := snd <$> held (hs_dev w) !! b;
  hw_is_zns ns _ := bool_decide (ns = 12);
  hw_submit q c w := (0, HelloSim (with_pending (Some (q, c)) (hs_dev w)) true);
  hw_budget _ _ := 1%nat;
  hw_poll _ := sim_poll;
  hw_malloc w := (true, w);
  ns_is_active ns _ := bool_decide (ns ≠ 13 ∧ ns ≠ 23);
  get_num_ns _ _ := 3;
  hw_get_ns c i _ := if decide (c = 2 ∧ i = 1) then None else Some (10 * c + i);
  hw_env_init w := (0, w);
  hw_probe w := ((0, [1; 2]),
    sim_set (with_attached (list_to_set [1; 2] ∪ attached (hs_dev w)) (hs_dev w)) w);
  hw_connect w := (Some 1,
    sim_set (with_attached ({[1]} ∪ attached (hs_dev w)) (hs_dev w)) w);
  hw_detaching _ := true;
  hw_detach_poll w := (false, w);
  hw_detach_async c w := sim_set (with_attached (attached (hs_dev w) ∖ {[c]}) (hs_dev w)) w;
|}.

Lemma sim_buf_fresh (w : hello_sim) : held (hs_dev w) !! sim_buf w = None.
Proof. apply not_elem_of_dom. unfold sim_buf. apply is_fresh. Qed.

#[local] Instance hello_sim_laws : HelloLaws hello_sim.
Proof.
  split; simpl; try done; try (intros; by eexists).
  - intros c w. do 2 eexists. split; [done|]. split; [apply is_fresh|done].
  - intros c w. destruct (map_to_list _) as [|[b [o t]] l] eqn:Hl.
    + do 2 eexists. split; [done|]. split; [done|]. exists ""%string. left.
      split; [apply sim_buf_fresh|]. split; [|done].
      apply map_to_list_empty_iff in Hl. intros b p Hb Hc.
      by eapply (map_filter_empty_not_lookup _ _ b p) in Hl.
    + do 2 eexists. split; [done|]. split; [done|]. exists t. right. split; [|done].
      assert ((b, (o, t)) ∈ map_to_list (filter (λ p, p.2.1 = Some c) (held (hs_dev w)))) as Hin
        by (rewrite Hl; by left).
      apply elem_of_map_to_list, map_lookup_filter_Some in Hin as [? Hc]. simpl in Hc. congruence.
  - intros c b t h w Hh Hb Hc. unfold with_held. f_equal. rewrite Hh.
    rewrite map_filter_insert_False by (simpl; naive_solver). rewrite delete_id by done.
    apply map_filter_id. intros b' [o t'] Hl%Hc. simpl in *. congruence.
  - intros n w. do 2 eexists. split; [done|]. split; [apply sim_buf_fresh|done].
  - intros b t o t' w Hb. unfold with_held. f_equal. apply map_eq. intros b'.
    destruct (decide (b' = b)) as [->|].
    + by rewrite lookup_alter_eq, lookup_insert_eq, Hb.
    + by rewrite lookup_alter_ne, lookup_insert_ne.
  - lia.
  - intros [d []]; simpl; lia.
  - intros _ w Hp. exists w. unfold sim_poll. by rewrite Hp.
  - intros q c [d []] Hp _; simpl in *; unfold sim_poll; simpl; rewrite Hp.
    + left. eexists. split; [done|]. simpl. split; [done|lia].
    + right. by eexists.
  - by intros w again w' [= <- <-].
Qed.

Definition sim_blank : hello_sim := HelloSim (Device None ∅ ∅ ∅ ∅) false.

(** Memory of controller 2 stays mapped. *)
Lemma hello_says_witness :
  twp hello_main (says_hello present sim_blank) (λ _ _, False) (hello_start sim_blank) ∧
  (present ≫= namespaces_of) = [HwEntry 1 11 None; HwEntry 1 12 None; HwEntry 2 22 None] ∧
  ∀ fuel, remote_hello_main (H := strict_image) fuel (hello_start sim_blank) = Undef.
Proof.
  assert (small_cmb (held (dev sim_blank))) as Hsm by (intros b p Hb; discriminate Hb).
  pose proof (hello_says (H := strict_image) sim_blank) as Hs.
  destruct Hs as (H1&_&H2); [reflexivity|exact Hsm|reflexivity|discriminate|].
  split; [exact H1|]. split; [reflexivity|]. by apply H2.
Defined.

(** The program run on the simulated driver. *)
Example hello_runs : match hello_main 10 (hello_start sim_blank) with
  | Done rc s => rc = 0 ∧ printed s = [greeting; greeting; greeting] ∧
      (snd <$> map_to_list (held (dev (hw_lib s)))).*1 = [Some 2]
  | _ => False
  end.
Proof. by vm_compute. Qed.
