(* ===== verification/ObjectStore.v ===== *)
(** * The object store prototype

    [zstore.cc]: objects are appended to one data file and found again through
    an index in memory; the gateway map and the target log record where copies
    would go.  Strings are byte strings, so they may hold NUL characters. *)
From S2P Require Import Prelude.
Local Open Scope string_scope.
Local Open Scope Z_scope.

(** [zstore.h] is not part of the repository: the members are those that
    [zstore.cc] uses. *)
Record ObjectMetadata := ObjectMeta {
  om_key : string;
  om_size : Z;
  om_data_offset : Z;
  om_creation_date : Z;
  om_modification_date : Z;
}.

Record LogEntry := LogRow { le_key : string; le_seq : Z; le_chunk_seq : Z; le_lba : Z }.

(** The clock and [get_lba]; [app_tellp n] is where the C++ library says that a
    file of [n] bytes opened for appending stands before the first write. *)
Class ZstoreLib (W : Type) := {
  get_lba : W → Z * W;
  time_now : W → Z * W;
  app_tellp : Z → Z;
}.

Record Zstore (W : Type) := ZstoreState {
  zlib : W;
  gateway_map : gmap string (list (string * Z));
  target_log : list LogEntry;
  metadata_index : gmap string ObjectMetadata;
  data_store : string;
  metadata_store : list ObjectMetadata;
}.
Arguments ZstoreState {W} _ _ _ _ _ _.
Arguments zlib {W} _.
Arguments gateway_map {W} _.
Arguments target_log {W} _.
Arguments metadata_index {W} _.
Arguments data_store {W} _.
Arguments metadata_store {W} _.

(** Reading from a position up to the first NUL character, or to the end. *)
Fixpoint from_position (n : nat) (s : string) : string :=
  match n, s with
  | O, _ => s
  | S n', String _ s' => from_position n' s'
  | S _, EmptyString => EmptyString
  end.
Fixpoint getline_nul (s : string) : string :=
  match s with
  | EmptyString => EmptyString
  | String c s' => if decide (c = Ascii.zero) then EmptyString else String c (getline_nul s')
  end.

Section zstore.
Context {W : Type} `{!ZstoreLib W}.
Implicit Types (s : Zstore W).

Definition zcall {A} (f : W → A * W) : M (Zstore W) A := λ s,
  Done (f (zlib s)).1 (ZstoreState (f (zlib s)).2 (gateway_map s) (target_log s)
    (metadata_index s) (data_store s) (metadata_store s)).

(** The position before the write; then the bytes at the end of the file. *)
Definition writeData (data : string) : M (Zstore W) Z := λ s,
  Done (app_tellp (Z.of_nat (String.length (data_store s))))
    (ZstoreState (zlib s) (gateway_map s) (target_log s) (metadata_index s)
      (data_store s +:+ data) (metadata_store s)).

(** The bytes of the record go to the file; nobody uses the position. *)
Definition writeMetadata (m : ObjectMetadata) : M (Zstore W) () := modify (λ s,
  ZstoreState (zlib s) (gateway_map s) (target_log s) (metadata_index s) (data_store s)
    (metadata_store s ++ [m])%list).

Definition readData (offset : Z) : M (Zstore W) string := gets (λ s,
  getline_nul (from_position (Z.to_nat offset) (data_store s))).

Definition putObject (key data : string) : M (Zstore W) () :=
  now ← zcall time_now;
  lba1 ← zcall get_lba;
  lba2 ← zcall get_lba;
  lba3 ← zcall get_lba;
  modify (λ s, ZstoreState (zlib s)
    (<[key := [("tgt1", lba1); ("tgt2", lba2); ("tgt3", lba3)]]> (gateway_map s))
    (target_log s) (metadata_index s) (data_store s) (metadata_store s));;
  lba ← zcall get_lba;
  modify (λ s, ZstoreState (zlib s) (gateway_map s)
    (target_log s ++ [LogRow key 0 0 lba])%list (metadata_index s) (data_store s)
    (metadata_store s));;
  offset ← writeData data;
  let metadata := ObjectMeta key (Z.of_nat (String.length data)) offset now now in
  writeMetadata metadata;;
  modify (λ s, ZstoreState (zlib s) (gateway_map s) (target_log s)
    (<[key := metadata]> (metadata_index s)) (data_store s) (metadata_store s)).

(** [inl]: the exception that is thrown. *)
Definition getObject (key : string) : M (Zstore W) (string + string) :=
  s ← get;
  match metadata_index s !! key with
  | None => mret (inl "Object not found")
  | Some metadata => data ← readData (om_data_offset metadata); mret (inr data)
  end.

Definition deleteObject (key : string) : M (Zstore W) (string + ()) :=
  s ← get;
  match metadata_index s !! key with
  | None => mret (inl "Object not found")
  | Some _ =>
      modify (λ s, ZstoreState (zlib s) (gateway_map s) (target_log s)
        (delete key (metadata_index s)) (data_store s) (metadata_store s));;
      mret (inr tt)
  end.

(** A store on an empty directory. *)
Definition empty_store (w : W) : Zstore W := ZstoreState w ∅ [] ∅ "" [].
End zstore.
