(* ===== verification/ObjectStoreProps.v ===== *)
(** * Properties of the object store prototype

    What [getObject] returns after any history of [putObject] and
    [deleteObject]. *)
From S2P Require Import Prelude ObjectStore.

(** ** Histories *)
Inductive request := Put (key data : string) | Delete (key : string).

Section history.
Context {W : Type} `{!ZstoreLib W}.
Implicit Types (s : Zstore W) (l : list request).

Definition serve (r : request) : M (Zstore W) () :=
  match r with
  | Put key data => putObject key data
  | Delete key => _ ← deleteObject key; skip
  end.

(** The bytes that the puts of [l] leave in the data file. *)
Fixpoint written l : string :=
  match l with
  | [] => EmptyString
  | Put _ data :: l' => data +:+ written l'
  | Delete _ :: l' => written l'
  end.

Definition key_of (r : request) : string :=
  match r with Put key _ => key | Delete key => key end.

Fixpoint nul_free (s : string) : Prop :=
  match s with EmptyString => True | String c s' => c ≠ Ascii.zero ∧ nul_free s' end.

#[local] Arguments String.append !_ _ : simpl nomatch.

Lemma append_nil_r_s (a : string) : a +:+ EmptyString = a.
Proof. induction a as [|c a IH]; simpl; congruence. Qed.
Lemma append_assoc_s (a b c : string) : (a +:+ b) +:+ c = a +:+ (b +:+ c).
Proof. induction a as [|x a IH]; simpl; congruence. Qed.
Lemma from_position_app a b : from_position (String.length a) (a +:+ b) = b.
Proof. by induction a. Qed.
Lemma getline_nul_free a : nul_free a → getline_nul a = a.
Proof.
  induction a as [|c a IH]; [done|]. intros [Hc Ha]. simpl.
  rewrite decide_False by done. by rewrite IH.
Qed.
Lemma nul_free_app a b : nul_free (a +:+ b) ↔ nul_free a ∧ nul_free b.
Proof. induction a as [|c a IH]; simpl; [tauto|]. rewrite IH. tauto. Qed.

Context (tellp_end : ∀ n, app_tellp (W := W) n = n).

(** What one request does to the index and the file. *)
Lemma put_spec key data s : ∃ w g t m meta,
  putObject key data s = Done tt (ZstoreState w g t (<[key := meta]> (metadata_index s))
    (data_store s +:+ data) m) ∧
  om_data_offset meta = Z.of_nat (String.length (data_store s)).
Proof.
  unfold putObject, mbind, M_bind, zcall, modify, writeData, writeMetadata. simpl.
  do 5 eexists. split; [reflexivity|]. apply tellp_end.
Qed.

Lemma serve_spec r s : ∃ s', serve r s = Done tt s' ∧
  data_store s' = data_store s +:+ written [r] ∧
  (∀ key, key ≠ key_of r → metadata_index s' !! key = metadata_index s !! key).
Proof.
  destruct r as [key data|key]; simpl.
  - destruct (put_spec key data s) as (w&g&t&m&meta&->&_). eexists. split; [done|].
    simpl. rewrite append_nil_r_s. split; [done|]. intros key' ?. by rewrite lookup_insert_ne.
  - unfold deleteObject, mbind, M_bind, get. simpl.
    destruct (metadata_index s !! key); (eexists; split; [reflexivity|]); simpl;
      rewrite append_nil_r_s; (split; [done|]); intros key' ?; [|done].
    by rewrite lookup_delete_ne.
Qed.

Lemma serve_all_spec l s : ∃ s', foreach l serve s = Done tt s' ∧
  data_store s' = data_store s +:+ written l ∧
  (∀ key, key ∉ key_of <$> l → metadata_index s' !! key = metadata_index s !! key).
Proof.
  revert s. induction l as [|r l IH]; intros s; simpl.
  { exists s. by rewrite append_nil_r_s. }
  destruct (serve_spec r s) as (s1&Hr&Hd1&Hi1). destruct (IH s1) as (s2&Hl&Hd2&Hi2).
  exists s2. unfold mbind, M_bind. rewrite Hr. split; [done|]. split.
  - rewrite Hd2, Hd1, append_assoc_s. f_equal. destruct r; simpl; [|done].
    by rewrite append_nil_r_s.
  - intros key Hkey. rewrite not_elem_of_cons in Hkey. rewrite Hi2, Hi1; tauto.
Qed.

(** (C33) What [getObject] of [zstore.cc] returns after the requests [l1], a put of [key] and
    requests [l2] for other keys: not the object but everything that was written from then
    on, as long as the data holds no NUL character.  So an object is read back intact exactly
    while nothing has been written after it; and after a delete the key is not found. *)
Theorem get_returns_rest (w : W) l1 key data l2 :
  nul_free data → nul_free (written l2) → key ∉ key_of <$> l2 → ∃ s,
  foreach (l1 ++ Put key data :: l2) serve (empty_store w) = Done tt s ∧
  getObject key s = Done (inr (data +:+ written l2)) s ∧
  (data +:+ written l2 = data ↔ written l2 = EmptyString) ∧
  ∃ s', deleteObject key s = Done (inr tt) s' ∧
    getObject key s' = Done (inl "Object not found"%string) s'.
Proof.
  intros Hd Hw Hkey. destruct (serve_all_spec l1 (empty_store w)) as (s1&Hs1&Hd1&_).
  destruct (put_spec key data s1) as (w2&g&t&m&meta&Hs2&Hoff). set (s2 := ZstoreState _ _ _ _ _ _) in Hs2.
  destruct (serve_all_spec l2 s2) as (s3&Hs3&Hd3&Hi3). exists s3.
  assert (metadata_index s3 !! key = Some meta) as Hm
    by (rewrite Hi3 by done; apply lookup_insert_eq).
  split_and!.
  - clear -Hs1 Hs2 Hs3. revert Hs1. generalize (empty_store w) as s0.
    induction l1 as [|r l1 IH]; intros s0; simpl; unfold mbind, M_bind.
    + intros [= ->]. by rewrite Hs2.
    + destruct (serve r s0) as [[] s'| | |]; try done. apply IH.
  - unfold getObject, mbind, M_bind, get. simpl. rewrite Hm. simpl. unfold readData, gets.
    rewrite Hoff, Nat2Z.id, Hd3. simpl. rewrite append_assoc_s, from_position_app.
    rewrite getline_nul_free; [done|]. by apply nul_free_app.
  - split; [|intros ->; by rewrite append_nil_r_s]. intros Heq.
    rewrite <-(append_nil_r_s data) in Heq at 2. clear -Heq.
    induction data as [|c d IH]; [done|]. simpl in Heq. injection Heq. exact IH.
  - eexists. split.
    + unfold deleteObject, mbind, M_bind, get. simpl. by rewrite Hm.
    + unfold getObject, mbind, M_bind, get. simpl. by rewrite lookup_delete_eq.
Qed.
End history.

(** ** A run *)
#[local] Instance demo_zlib : ZstoreLib Z := {|
  get_lba w := (w, w + 1);
  time_now w := (1000, w);
  app_tellp n := n;
|}.

Lemma get_returns_rest_witness : ∃ s,
  foreach [Put "a" "hello"; Put "b" "world"] serve (empty_store 0) = Done tt s ∧
  getObject "a" s = Done (inr "helloworld"%string) s.
Proof.
  assert (∀ n, app_tellp (W := Z) n = n) as Ht by done.
  destruct (get_returns_rest Ht 0 [] "a" "hello" [Put "b" "world"]) as (s&H1&H2&_).
  - vm_compute. repeat split; discriminate.
  - vm_compute. repeat split; discriminate.
  - intros H. apply list_elem_of_singleton in H. discriminate.
  - exists s. split; [exact H1|exact H2].
Defined.
