(* ===== verification/ZkLock.v ===== *)
(** * The ZooKeeper lock and the leader election

    [zookeeper/zklock.cc] and [zookeeper/zkleader.cc]: every client makes an
    ephemeral sequential node; the smallest one has the lock, the others watch
    the node before theirs.  The callbacks are run by the client library; what
    they ask of it is recorded in order. *)
From S2P Require Import Prelude.
Local Open Scope string_scope.
Local Open Scope Z_scope.

(** The client library: its constants, and what it answers when it is asked to
    list the children. *)
Class ZkLib := {
  ZOO_DELETED_EVENT : Z;
  ZOO_SESSION_EVENT : Z;
  ZOO_EXPIRED_SESSION_STATE : Z;
  ZOO_CONNECTED_STATE : Z;
  ZOO_NOTCONNECTED_STATE : Z;
  aget_children_rc : Z;
}.

(** ** [sscanf] with [%d] *)
Fixpoint scan_digits (acc : option Z) (s : string) : option Z :=
  match s with
  | EmptyString => acc
  | String c s' =>
      match digit c with Some d => scan_digits (Some (10 * default 0 acc + d)) s' | None => acc end
  end.

Definition is_space (c : ascii) : bool :=
  let n := nat_of_ascii c in bool_decide (n = 32 ∨ 9 ≤ n ≤ 13)%nat.

Fixpoint scan_d (s : string) : option Z :=
  match s with
  | EmptyString => None
  | String c s' =>
      if is_space c then scan_d s'
      else if decide (c = "-"%char) then Z.opp <$> scan_digits None s'
      else if decide (c = "+"%char) then scan_digits None s'
      else scan_digits None s
  end.

(** The text after a literal prefix of a format. *)
Fixpoint after_prefix (p s : string) : option string :=
  match p, s with
  | EmptyString, _ => Some s
  | String a p', String b s' => if decide (a = b) then after_prefix p' s' else None
  | _, _ => None
  end.

(** ** The lock *)
Inductive zk_request :=
  | zoo_aget_children (path : string)
  | zoo_adelete (path : string)
  | zoo_aexists (path : string).

Record zk_lock := ZkState {
  seq_me : Z;
  seq_watch : Z;
  watch : string;
  quit : bool;
  requests : list zk_request;
}.

(** [zmt] and [quit] when the program starts. *)
Definition zk_start : zk_lock := ZkState 0 0 "" false [].

Section lock.
Context `{!ZkLib}.

Definition lock_dir : string := "/lock/res1/".

Definition request (r : zk_request) : M zk_lock () := modify (λ s,
  ZkState (seq_me s) (seq_watch s) (watch s) (quit s) (requests s ++ [r])%list).

(** [sprintf] to a buffer of 64 characters; a null string is undefined. *)
Definition sprintf_path (name : option string) : M zk_lock string :=
  n ← of_option name;
  if decide (String.length (lock_dir +:+ n) < 64)%nat then mret (lock_dir +:+ n) else undef.

(** The loop over the children: the last number read (none before the first), how
    many candidates were taken, the names of the best one and of the own node. *)
Record scan_state := ScanState {
  sc_v : option Z;
  sc_n : Z;
  sc_other : option string;
  sc_self : option string;
}.

Definition scan_child (name : string) (c : scan_state) : M zk_lock scan_state :=
  let v := match scan_d name with Some v => Some v | None => sc_v c end in
  n ← of_option v;
  s ← get;
  if decide (n < seq_me s) then
    if decide (sc_n c = 0 ∨ sc_n c > 0 ∧ n > seq_watch s) then
      modify (λ s, ZkState (seq_me s) n (watch s) (quit s) (requests s));;
      mret (ScanState v (sc_n c + 1) (Some name) (sc_self c))
    else mret (ScanState v (sc_n c) (sc_other c) (sc_self c))
  else if decide (n = seq_me s) then mret (ScanState v (sc_n c) (sc_other c) (Some name))
  else mret (ScanState v (sc_n c) (sc_other c) (sc_self c)).

Fixpoint scan_children (names : list string) (c : scan_state) : M zk_lock scan_state :=
  match names with
  | [] => mret c
  | name :: names' => c' ← scan_child name c; scan_children names' c'
  end.

Definition zk_get_children_lock_res1 (rc : Z) (strings : list string) : M zk_lock () :=
  if decide (rc = 0) then
    c ← scan_children strings (ScanState None 0 None None);
    if decide (sc_n c = 0) then
      temp ← sprintf_path (sc_self c);
      request (zoo_adelete temp)
    else if decide (sc_n c > 0) then
      w ← sprintf_path (sc_other c);
      modify (λ s, ZkState (seq_me s) (seq_watch s) w (quit s) (requests s));;
      request (zoo_aexists w)
    else skip
  else skip.

Definition list_children : M zk_lock () :=
  request (zoo_aget_children "/lock/res1");;
  if decide (aget_children_rc ≠ 0) then exit 1 else skip.

Definition zk_create_lock_res1_es (rc : Z) (value : string) : M zk_lock () :=
  if decide (rc = 0) then
    seq ← of_option (after_prefix lock_dir value ≫= scan_d);
    modify (λ s, ZkState seq (seq_watch s) (watch s) (quit s) (requests s));;
    if decide (seq > 0) then list_children else request (zoo_adelete value)
  else skip.

Definition zk_delete_lock_res1_children (rc : Z) : M zk_lock () := modify (λ s,
  ZkState (seq_me s) (seq_watch s) (watch s) true (requests s)).

(** The completion of [zoo_aexists] only prints. *)
Definition zk_watch_children (rc : Z) : M zk_lock () := skip.

(** The watcher of the session and of the watched node; the type of the event is
    not looked at. *)
Definition zk_watcher_disconnect (path : string) : M zk_lock () :=
  s ← get;
  if decide (watch s = path) then list_children else skip.
End lock.

(** ** The leader election *)
Record zk_leader := LeaderState {
  current_node : string;
  predecessor_node : string;
  watched : list string;
  leader : bool;
}.

(** [std::string::operator<], the order of the bytes. *)
Fixpoint string_lt (a b : string) : bool :=
  match a, b with
  | EmptyString, String _ _ => true
  | String x a', String y b' =>
      bool_decide (nat_of_ascii x < nat_of_ascii y)%nat ||
      bool_decide (x = y) && string_lt a' b'
  | _, EmptyString => false
  end.

Fixpoint insert_sorted (x : string) (l : list string) : list string :=
  match l with
  | [] => [x]
  | y :: l' => if string_lt y x then y :: insert_sorted x l' else x :: l
  end.
Definition sort_nodes (l : list string) : list string := foldr insert_sorted [] l.

(** The element before the first occurrence of [x]; before the end when there is
    none: [Some None] is the first position. *)
Fixpoint before (prev : option string) (x : string) (l : list string) : option string :=
  match l with
  | [] => prev
  | y :: l' => if decide (y = x) then prev else before (Some y) x l'
  end.

Section election.
Context `{!ZkLib}.

Definition election_path : string := "/election".

(** [substr] throws (and ends the process) when the name is too short. *)
Definition own_name (node : string) : M zk_leader string :=
  let n := S (String.length election_path) in
  if decide (n ≤ String.length node)%nat
  then mret (String.substring n (String.length node - n) node) else exit 134.

(** [rc] and [children] are what [zoo_get_children] answers. *)
Definition check_leadership (rc : Z) (children : list string) : M zk_leader () :=
  if decide (rc ≠ 0) then skip else
  s ← get;
  name ← own_name (current_node s);
  match before None name (sort_nodes children) with
  | None => modify (λ s, LeaderState (current_node s) (predecessor_node s) (watched s) true)
  | Some p =>
      let path := election_path +:+ "/" +:+ p in
      modify (λ s, LeaderState (current_node s) path (watched s ++ [path])%list (leader s))
  end.

Definition watcher_callback (type : Z) (path : string) (rc : Z) (children : list string)
    : M zk_leader () :=
  s ← get;
  if decide (type = ZOO_DELETED_EVENT ∧ path = predecessor_node s)
  then check_leadership rc children else skip.

(** [buffer] is the name that [zoo_create] returns. *)
Definition create_ephemeral_sequential_node (create_rc : Z) (buffer : string) (rc : Z)
    (children : list string) : M zk_leader () :=
  if decide (create_rc ≠ 0) then exit 1 else
  modify (λ s, LeaderState buffer (predecessor_node s) (watched s) (leader s));;
  check_leadership rc children.
End election.

(** ** The connection state of [zookeeper/zkclient.cc] *)
Record zk_client := ClientState { connected : Z; expired : Z; closed : bool }.

Definition watcher `{!ZkLib} (type state : Z) (c : zk_client) : zk_client :=
  if decide (type = ZOO_SESSION_EVENT) then
    if decide (state = ZOO_CONNECTED_STATE) then ClientState 1 (expired c) (closed c)
    else if decide (state = ZOO_NOTCONNECTED_STATE) then ClientState 0 (expired c) (closed c)
    else if decide (state = ZOO_EXPIRED_SESSION_STATE) then ClientState 0 1 true
    else c
  else c.
