(* ===== verification/ZkLockProps.v ===== *)
(** * Properties of the ZooKeeper lock

    Who takes the lock and whom the others watch, and what a session event does
    before the client has a node. *)
From S2P Require Import Prelude ZkLock.

Section lock.
Context `{!ZkLib}.
Implicit Types (s : zk_lock) (names : list string).

(** The candidate and the own node after the names [pre]. *)
Definition scanned s0 (pre : list string) (c : scan_state) s : Prop :=
  seq_me s = seq_me s0 ∧ watch s = watch s0 ∧ quit s = quit s0 ∧ requests s = requests s0 ∧
  (sc_n c = 0 ∧ (∀ x v, x ∈ pre → scan_d x = Some v → seq_me s0 ≤ v) ∨
   0 < sc_n c ∧ ∃ o, sc_other c = Some o ∧ o ∈ pre ∧ scan_d o = Some (seq_watch s) ∧
     seq_watch s < seq_me s0 ∧
     ∀ x v, x ∈ pre → scan_d x = Some v → v < seq_me s0 → v ≤ seq_watch s) ∧
  match sc_self c with
  | Some x => x ∈ pre ∧ scan_d x = Some (seq_me s0)
  | None => ∀ x, x ∈ pre → scan_d x ≠ Some (seq_me s0)
  end.

Lemma scanned_nil s : scanned s [] (ScanState None 0 None None) s.
Proof.
  split_and!; try done; [|by intros x ?%elem_of_nil].
  left. split; [done|]. by intros x v ?%elem_of_nil.
Qed.

Lemma scan_child_spec s0 pre c s name v : scanned s0 pre c s → scan_d name = Some v →
  wp (scan_child name c) (λ c', scanned s0 (pre ++ [name]) c') (λ _ _, False) s.
Proof.
  intros (Hme&Hw&Hq&Hr&Hbest&Hself) Hv. unfold scan_child. rewrite Hv.
  apply wp_bind, wp_ret, wp_bind, wp_get. rewrite Hme.
  assert (∀ y, y ∈ pre ++ [name] ↔ y ∈ pre ∨ y = name) as Hin
    by (intros y; rewrite elem_of_app, list_elem_of_singleton; done).
  case_decide as Hlt; [case_decide as Hn|case_decide as Heq].
  - apply wp_bind, wp_modify, wp_ret. split_and!; try done.
    + right. destruct Hbest as [[H0 Hall]|(Hpos&o&Ho&Hopre&Hod&Hol&Hmax)]; simpl.
      * split; [lia|]. exists name. split_and!; [done|apply Hin; by right|done|done|].
        intros x w [Hx| ->]%Hin Hxw Hlt'; [|naive_solver lia].
        specialize (Hall x w Hx Hxw). lia.
      * split; [lia|]. exists name. split_and!; [done|apply Hin; by right|done|done|].
        intros x w [Hx| ->]%Hin Hxw Hlt'; [|naive_solver lia].
        specialize (Hmax x w Hx Hxw Hlt'). lia.
    + simpl. destruct (sc_self c) as [y|]; [split; [apply Hin; left|]; apply Hself|].
      intros x [Hx| ->]%Hin; [by apply Hself|]. rewrite Hv. intros [= ->]. lia.
  - apply wp_ret. split_and!; try done.
    + right. destruct Hbest as [[H0 _]|(Hpos&o&Ho&Hopre&Hod&Hol&Hmax)]; [simpl in *; lia|].
      simpl. split; [done|]. exists o. split_and!; [done|apply Hin; by left|done|done|].
      intros x w [Hx| ->]%Hin Hxw Hlt'; [by eapply Hmax|]. simplify_eq; lia.
    + simpl. destruct (sc_self c) as [y|]; [split; [apply Hin; left|]; apply Hself|].
      intros x [Hx| ->]%Hin; [by apply Hself|]. rewrite Hv. intros [= ->]. lia.
  - apply wp_ret. split_and!; try done.
    + simpl. destruct Hbest as [[H0 Hall]|(Hpos&o&Ho&Hopre&Hod&Hol&Hmax)].
      * left. split; [done|]. intros x w [Hx| ->]%Hin Hxw; [by eapply Hall|]. simplify_eq; lia.
      * right. split; [done|]. exists o. split_and!; [done|apply Hin; by left|done|done|].
        intros x w [Hx| ->]%Hin Hxw Hlt'; [by eapply Hmax|]. simplify_eq; lia.
    + simpl. split; [apply Hin; by right|congruence].
  - apply wp_ret. split_and!; try done.
    + simpl. destruct Hbest as [[H0 Hall]|(Hpos&o&Ho&Hopre&Hod&Hol&Hmax)].
      * left. split; [done|]. intros x w [Hx| ->]%Hin Hxw; [by eapply Hall|]. simplify_eq; lia.
      * right. split; [done|]. exists o. split_and!; [done|apply Hin; by left|done|done|].
        intros x w [Hx| ->]%Hin Hxw Hlt'; [by eapply Hmax|]. simplify_eq; lia.
    + simpl. destruct (sc_self c) as [y|]; [split; [apply Hin; left|]; apply Hself|].
      intros x [Hx| ->]%Hin; [by apply Hself|]. rewrite Hv. intros [= ->]. lia.
Qed.

Lemma scan_children_spec s0 names pre c s : scanned s0 pre c s →
  (∀ x, x ∈ names → is_Some (scan_d x)) →
  wp (scan_children names c) (λ c', scanned s0 (pre ++ names) c') (λ _ _, False) s.
Proof.
  revert pre c s. induction names as [|x names IH]; intros pre c s Hs Hn; simpl.
  { apply wp_ret. by rewrite app_nil_r. }
  destruct (Hn x) as [v Hv]; [set_solver|]. apply wp_bind.
  eapply wp_weaken; [by eapply scan_child_spec|]. intros c' s' Hs'.
  eapply wp_weaken; [apply IH; [exact Hs'|set_solver]|]. intros c'' s''.
  by rewrite <-app_assoc.
Qed.

(** (C34) What a client of [zklock.cc] does with the list of the waiting nodes, in any order:
    when its own number is the smallest it takes (and releases) the lock, by the path of its
    own node; otherwise it watches the node with the greatest number below its own.  So of
    the clients that see the same nodes exactly one takes the lock, and no two watch the
    same node. *)
Theorem lock_order names self s :
  (∀ x, x ∈ names → is_Some (scan_d x) ∧ (String.length x < 53)%nat) →
  self ∈ names → scan_d self = Some (seq_me s) →
  (∀ x, x ∈ names → scan_d x = Some (seq_me s) → x = self) →
  wp (zk_get_children_lock_res1 0 names) (λ _ s',
    (∀ x v, x ∈ names → scan_d x = Some v → seq_me s ≤ v) ∧
      requests s' = requests s ++ [zoo_adelete (lock_dir +:+ self)] ∨
    ∃ x v, x ∈ names ∧ scan_d x = Some v ∧ v < seq_me s ∧
      (∀ y w, y ∈ names → scan_d y = Some w → w < seq_me s → w ≤ v) ∧
      requests s' = requests s ++ [zoo_aexists (lock_dir +:+ x)] ∧
      watch s' = lock_dir +:+ x) (λ _ _, False) s.
Proof.
  intros Hn Hself Hme Huniq. unfold zk_get_children_lock_res1. rewrite decide_True by done.
  apply wp_bind. eapply wp_weaken; [apply (scan_children_spec s names [])|].
  - by apply scanned_nil.
  - intros x Hx. by apply Hn.
  - simpl. intros c s1 (Hme1&_&_&Hr1&Hbest&Hs).
    assert (∀ x, x ∈ names → (String.length (lock_dir +:+ x) < 64)%nat) as Hlen.
    { intros x Hx. destruct (Hn x Hx) as [_ Hl]. change (S (S (S (S (S (S (S (S (S (S (S
        (String.length x))))))))))) < 64)%nat. lia. }
    destruct Hbest as [[H0 Hall]|(Hpos&o&Ho&Hoin&Hod&Hol&Hmax)].
    + rewrite decide_True by done. destruct (sc_self c) as [x|]; [|by destruct (Hs self)].
      destruct Hs as [Hx Hxme]. rewrite (Huniq x Hx Hxme).
      apply wp_bind, wp_bind, wp_ret. rewrite decide_True by (by apply Hlen).
      apply wp_ret, wp_modify. left. split; [done|]. simpl. by rewrite Hr1.
    + rewrite decide_False by lia. rewrite decide_True by lia. rewrite Ho.
      apply wp_bind, wp_bind, wp_ret. rewrite decide_True by (by apply Hlen).
      apply wp_ret, wp_bind, wp_modify, wp_modify. right. exists o, (seq_watch s1).
      split_and!; try done. simpl. by rewrite Hr1.
Qed.

(** (C35) A session event has no path, and no node is watched yet: the watcher of
    [zklock.cc] lists the children before the client has a node of its own.  If another
    client then holds the node number 0, the answer makes this one believe that it is its
    own, and asks to delete the lock of the other client. *)
Theorem session_event_steals other names :
  aget_children_rc = 0 → (String.length other < 53)%nat → scan_d other = Some 0 →
  (∀ x, x ∈ names → ∃ v, scan_d x = Some v ∧ 0 < v) →
  wp (zk_watcher_disconnect "";; zk_get_children_lock_res1 0 (other :: names)) (λ _ s',
    requests s' = [zoo_aget_children "/lock/res1"; zoo_adelete (lock_dir +:+ other)])
    (λ _ _, False) zk_start.
Proof.
  intros Hrc Hlen Hother Hn. apply wp_bind, wp_bind, wp_get. rewrite decide_True by done.
  apply wp_bind, wp_modify. rewrite decide_False by (intros Hne; by apply Hne). apply wp_skip.
  unfold zk_get_children_lock_res1. rewrite decide_True by done. set (s := ZkState _ _ _ _ _).
  apply wp_bind. eapply wp_weaken; [apply (scan_children_spec s (other :: names) [])|].
  - by apply scanned_nil.
  - intros x [->|Hx]%elem_of_cons; [by eexists|]. destruct (Hn x Hx) as (v&?&_). by eexists.
  - simpl. intros c s1 (Hme1&_&_&Hr1&Hbest&Hs). simpl in *.
    assert (∀ x v, x ∈ other :: names → scan_d x = Some v → 0 ≤ v ∧ (v = 0 → x = other)) as Hge.
    { intros x v [->|Hx]%elem_of_cons Hv; [simplify_eq; split; [lia|done]|].
      destruct (Hn x Hx) as (w&Hw&?). simplify_eq. split; [lia|]. intros ->. lia. }
    destruct Hbest as [[H0 _]|(Hpos&o&Ho&Hoin&Hod&Hol&_)]; last first.
    { destruct (Hge o _ Hoin Hod). lia. }
    rewrite decide_True by done. destruct (sc_self c) as [x|]; last first.
    { destruct (Hs other); [by left|done]. }
    destruct Hs as [Hx Hx0]. destruct (Hge x 0 Hx Hx0) as [_ ->]; [|done].
    apply wp_bind, wp_bind, wp_ret. rewrite decide_True.
    + apply wp_ret, wp_modify. simpl. by rewrite Hr1.
    + change (S (S (S (S (S (S (S (S (S (S (S (String.length other))))))))))) < 64)%nat. lia.
Qed.
End lock.

(** ** Runs *)
#[local] Instance demo_zk : ZkLib := {|
  ZOO_DELETED_EVENT := 2; ZOO_SESSION_EVENT := -1; ZOO_EXPIRED_SESSION_STATE := -112;
  ZOO_CONNECTED_STATE := 3; ZOO_NOTCONNECTED_STATE := 999; aget_children_rc := 0;
|}.

Local Open Scope string_scope.
Local Open Scope Z_scope.

Definition demo_waiting : zk_lock := ZkState 7 0 "" false [].
Definition demo_watching : zk_lock :=
  ZkState 7 5 "/lock/res1/0000000005" false [zoo_aexists "/lock/res1/0000000005"].

Lemma demo_watching_run : zk_get_children_lock_res1 0 ["0000000003"; "0000000007"; "0000000005"]
  demo_waiting = Done tt demo_watching.
Proof. vm_compute. reflexivity. Qed.

Lemma lock_order_witness : ∃ x v, scan_d x = Some v ∧ v < 7 ∧
  requests demo_watching = [zoo_aexists (lock_dir +:+ x)].
Proof.
  destruct (wp_done _ _ _ _ _ _
    (lock_order ["0000000003"; "0000000007"; "0000000005"] "0000000007" demo_waiting
       ltac:(intros x Hx; rewrite !elem_of_cons in Hx; destruct Hx as [->|[->|[->|Hx]]];
         [split; [eexists; vm_compute; reflexivity|vm_compute; lia]..|by apply elem_of_nil in Hx])
       ltac:(right; left) ltac:(vm_compute; reflexivity)
       ltac:(intros x Hx Hs; rewrite !elem_of_cons in Hx; destruct Hx as [->|[->|[->|Hx]]];
         [vm_compute in Hs; discriminate|reflexivity|vm_compute in Hs; discriminate|
          by apply elem_of_nil in Hx]))
    demo_watching_run) as [[_ H]|(x&v&_&Hv&Hlt&_&Hr&_)].
  - vm_compute in H. discriminate.
  - exists x, v. split; [exact Hv|]. split; [exact Hlt|exact Hr].
Defined.

Lemma session_event_steals_witness :
  wp (zk_watcher_disconnect "";; zk_get_children_lock_res1 0 ["0000000000"; "0000000004"])
    (λ _ s', requests s' = [zoo_aget_children "/lock/res1"; zoo_adelete "/lock/res1/0000000000"])
    (λ _ _, False) zk_start.
Proof.
  apply (session_event_steals "0000000000" ["0000000004"]).
  - reflexivity.
  - vm_compute. lia.
  - vm_compute. reflexivity.
  - intros x Hx. apply list_elem_of_singleton in Hx as ->. exists 4. split; [|lia].
    vm_compute. reflexivity.
Defined.
