(* ===== verification/ZkTest.v ===== *)
(** * The ZooKeeper command-line client

    [zookeeper/zktest.cc]: one option names a node and what to do with it, one call of the
    ZooKeeper library does it.  The library is a class of operations on an environment:
    what a call returns and what it leaves.  [delete] of the array [buf] is taken for the
    release that every allocator makes of it (the C++ standard asks for [delete[]]). *)
From S2P Require Import Prelude.
Local Open Scope string_scope.
Local Open Scope Z_scope.

(** [zoo_get path n] fills at most [n] bytes: the status, the length it reports in
    [buf_len], and the bytes it has written. *)
Class ZooKeeper (W : Type) := {
  ZOK : Z;
  zookeeper_init : string → W → bool * W;
  zookeeper_close : W → W;
  zoo_create : string → string → W → Z * W;
  zoo_delete : string → W → Z * W;
  zoo_get : string → Z → W → (Z * Z * string) * W;
  zoo_get_children : string → W → (Z * list string) * W;
  zoo_set : string → string → W → Z * W;
}.

Definition BUF_LEN : Z := 1 * 1024 * 1024.
Definition EXIT_FAILURE : Z := 1.

(** The globals, what has been printed on the standard output, and the environment.  The
    null character stands for a command that has not been given. *)
Record zktest_state (W : Type) := ZkClient {
  zk_env : W;
  g_brokers : string;
  g_cmd : ascii;
  g_path : string;
  g_data : string;
  printed : list string;
}.
Arguments ZkClient {W} _ _ _ _ _ _.
Arguments zk_env {W} _.
Arguments g_brokers {W} _.
Arguments g_cmd {W} _.
Arguments g_path {W} _.
Arguments g_data {W} _.
Arguments printed {W} _.

(** The text that [%s] prints from a buffer that ends with the given bytes: up to the first
    NUL.  Without one the read goes on behind the buffer. *)
Fixpoint c_text (s : string) : option string :=
  match s with
  | EmptyString => None
  | String c s' => if decide (c = zero) then Some "" else String c <$> c_text s'
  end.

Section zktest_state.
Context {W : Type} `{!ZooKeeper W}.
Implicit Types (s : zktest_state W).

Definition set_zk_env w s : zktest_state W :=
  ZkClient w (g_brokers s) (g_cmd s) (g_path s) (g_data s) (printed s).
Definition set_brokers b s : zktest_state W :=
  ZkClient (zk_env s) b (g_cmd s) (g_path s) (g_data s) (printed s).
Definition set_cmd (c : ascii) p s : zktest_state W :=
  ZkClient (zk_env s) (g_brokers s) c p (g_data s) (printed s).
Definition set_data d s : zktest_state W :=
  ZkClient (zk_env s) (g_brokers s) (g_cmd s) (g_path s) d (printed s).
Definition print (t : string) : M (zktest_state W) () := modify (λ s,
  ZkClient (zk_env s) (g_brokers s) (g_cmd s) (g_path s) (g_data s) (printed s ++ [t])%list).
Definition zk_call {A} (f : W → A * W) : M (zktest_state W) A := λ s,
  let '(a, w) := f (zk_env s) in Done a (set_zk_env w s).

Definition Create : M (zktest_state W) Z :=
  s ← get;
  ret ← zk_call (zoo_create (g_path s) (g_data s));
  mret (if decide (ret ≠ ZOK) then -1 else 0).

Definition Delete : M (zktest_state W) Z :=
  s ← get;
  ret ← zk_call (zoo_delete (g_path s));
  mret (if decide (ret ≠ ZOK) then -1 else 0).

(** The buffer is all NUL before the call. *)
Definition Get : M (zktest_state W) Z :=
  s ← get;
  r ← zk_call (zoo_get (g_path s) BUF_LEN);
  let '(ret, buf_len, bytes) := r in
  if decide (buf_len > BUF_LEN) then mret (-1) else
  if decide (ret ≠ ZOK) then mret (-1) else
  text ← of_option (if decide (Z.of_nat (String.length bytes) < BUF_LEN)
                    then c_text (bytes ++ String zero "") else c_text bytes);
  print text;;
  mret 0.

Definition List : M (zktest_state W) Z :=
  s ← get;
  r ← zk_call (zoo_get_children (g_path s));
  let '(ret, children) := r in
  if decide (ret ≠ ZOK) then mret (-1) else
  foreach children print;;
  mret 0.

Definition Set_ : M (zktest_state W) Z :=
  s ← get;
  ret ← zk_call (zoo_set (g_path s) (g_data s));
  mret (if decide (ret ≠ ZOK) then -1 else 0).

Definition command : M (zktest_state W) Z :=
  s ← get;
  if decide (g_cmd s = "c"%char) then Create else
  if decide (g_cmd s = "d"%char) then Delete else
  if decide (g_cmd s = "g"%char) then Get else
  if decide (g_cmd s = "l"%char) then List else
  if decide (g_cmd s = "s"%char) then Set_ else mret (-1).

Definition Execute : M (zktest_state W) Z :=
  ok ← zk_call (zookeeper_init "localhost:2181");
  if negb ok then mret (-1) else
  ret ← command;
  modify (λ s, set_zk_env (zookeeper_close (zk_env s)) s);;
  mret ret.

(** ** The command line

    What [getopt] returns with the option string ["b:c:d:g:l:s:h"]: the option, its
    argument, and [argv[optind]] at that time. *)
Definition takes_argument (c : ascii) : bool :=
  bool_decide (c ∈ ["b"; "c"; "d"; "g"; "l"; "s"]%char).

Fixpoint zk_cluster (s : string) (rest : list string)
    : list (ascii * string * option string) * bool :=
  match s with
  | EmptyString => ([], false)
  | String c s' =>
      if takes_argument c then
        match s', rest with
        | EmptyString, [] => ([("?"%char, "", None)], false)
        | EmptyString, a :: rest' => ([(c, a, head rest')], true)
        | _, _ => ([(c, s', head rest)], false)
        end
      else let '(l, b) := zk_cluster s' rest in
        ((if decide (c = "h"%char) then c else "?"%char, "", None) :: l, b)
  end.

Fixpoint zk_getopt (argv : list string) : list (ascii * string * option string) :=
  match argv with
  | [] => []
  | a :: rest =>
      match a with
      | String "-" (String _ _ as cluster) =>
          if decide (cluster = "-") then [] else
          let '(l, used) := zk_cluster cluster rest in
          if used then match rest with [] => l | _ :: rest' => (l ++ zk_getopt rest')%list end
          else (l ++ zk_getopt rest)%list
      | _ => zk_getopt rest
      end
  end.

(** [Some rc]: [main] returns.  Building a [std::string] of [argv[argc]], which is null, is
    undefined. *)
Definition zk_option (o : ascii * string * option string) : M (zktest_state W) (option Z) :=
  let '(opt, optarg, next) := o in
  if decide (opt = "b"%char) then modify (set_brokers optarg);; mret None else
  if decide (opt = "c"%char ∨ opt = "s"%char) then
    modify (set_cmd opt optarg);;
    d ← of_option next;
    modify (set_data d);;
    mret None else
  if decide (opt = "d"%char ∨ opt = "g"%char ∨ opt = "l"%char) then
    modify (set_cmd opt optarg);; mret None else
  if decide (opt = "h"%char) then mret (Some 0) else mret None.

Fixpoint zk_options (l : list (ascii * string * option string)) : M (zktest_state W) (option Z) :=
  match l with
  | [] => mret None
  | o :: l' =>
      r ← zk_option o;
      match r with Some rc => mret (Some rc) | None => zk_options l' end
  end.

Definition zk_main (args : list string) : M (zktest_state W) Z :=
  r ← zk_options (zk_getopt args);
  match r with
  | Some rc => mret rc
  | None =>
      s ← get;
      if decide (g_brokers s = "" ∨ g_cmd s = zero) then exit EXIT_FAILURE else Execute
  end.

Definition zktest_start (w : W) : zktest_state W := ZkClient w "" zero "" "" [].
End zktest_state.
