(* ===== verification/ZkTestProps.v ===== *)
(** * Properties of the ZooKeeper command-line client *)
From S2P Require Import Prelude ZkTest.
Local Open Scope string_scope.
Local Open Scope Z_scope.

(** ** The command line *)
Section arguments.
Context {W : Type} `{!ZooKeeper W}.
Implicit Types (s : zktest_state W).

(** An argument that [getopt] does not take for an option. *)
Definition operand (a : string) : Prop :=
  match a with String "-" (String _ _) => False | _ => True end.

Lemma getopt_operand a : operand a → zk_getopt [a] = [].
Proof. destruct a as [|c [|]]; try done; destruct c as [[] [] [] [] [] [] [] []]; done. Qed.

Lemma getopt_create b p d : operand d →
  zk_getopt ["-b"; b; "-c"; p; d] = [("b"%char, b, Some "-c"); ("c"%char, p, Some d)].
Proof. intros Hd. pose proof (getopt_operand d Hd) as Hg. simpl in *. by rewrite Hg. Qed.

(** What a command does when its arguments are right. *)
Lemma main_executes l b c p d w : b ≠ "" → c ≠ zero →
  zk_options l (zktest_start w) = Done None (ZkClient w b c p d []) →
  ∀ args, zk_getopt args = l →
  zk_main args (zktest_start w) = Execute (ZkClient w b c p d []).
Proof.
  intros Hb Hc Hl args Ha. unfold zk_main, mbind, M_bind. rewrite Ha, Hl. simpl.
  destruct (decide _) as [[?|?]|]; done.
Qed.

(** Code that never reads the text of [-b]. *)
Definition relabel {A} b (o : outcome (zktest_state W) A) : outcome (zktest_state W) A :=
  match o with
  | Done r s => Done r (set_brokers b s)
  | Exited c s => Exited c (set_brokers b s)
  | Undef => Undef
  | Spin => Spin
  end.
Definition blind {A} (m : M (zktest_state W) A) : Prop := ∀ b s,
  m (set_brokers b s) = relabel b (m s).

Lemma blind_ret {A} (a : A) : blind (mret a).
Proof. done. Qed.
Lemma blind_option {A} (o : option A) : blind (of_option o).
Proof. by destruct o. Qed.
Lemma blind_print t : blind (print t).
Proof. done. Qed.
Lemma blind_call {A} (f : W → A * W) : blind (zk_call f).
Proof. intros b s. unfold zk_call. simpl. by destruct (f (zk_env s)). Qed.
Lemma blind_modify f : (∀ b s, f (set_brokers b s) = set_brokers b (f s)) → blind (modify f).
Proof. intros Hf b s. unfold modify. simpl. by rewrite Hf. Qed.
Lemma blind_bind {A B} (m : M (zktest_state W) A) (k : A → M (zktest_state W) B) :
  blind m → (∀ a, blind (k a)) → blind (m ≫= k).
Proof.
  intros Hm Hk b s. unfold mbind, M_bind. rewrite Hm. destruct (m s); [apply Hk|done..].
Qed.
Lemma blind_get {A} (k : zktest_state W → M (zktest_state W) A) :
  (∀ b s, k (set_brokers b s) = k s) → (∀ s, blind (k s)) → blind (s ← get; k s).
Proof.
  intros Hk Hb b s. change (k (set_brokers b s) (set_brokers b s) = relabel b (k s s)).
  by rewrite Hk, Hb.
Qed.
Lemma blind_foreach {A} (l : list A) (f : A → M (zktest_state W) ()) :
  (∀ a, blind (f a)) → blind (foreach l f).
Proof. intros Hf. induction l as [|a l IH]; simpl; [done|]. by apply blind_bind. Qed.
Hint Resolve blind_ret blind_option blind_print blind_call blind_modify : core.

Ltac blind :=
  repeat match goal with
  | |- blind (get ≫= _) => apply blind_get; [by intros ? []|intros ?]
  | |- blind (_ ≫= _) => apply blind_bind; [|intros ?]
  | |- blind (foreach _ _) => apply blind_foreach; intros ?
  | |- blind (if decide ?P then _ else _) => destruct (decide P)
  | |- blind (match ?x with _ => _ end) => destruct x
  | |- blind _ => by auto
  end.

Lemma Execute_brokers : blind Execute.
Proof. unfold Execute, command, Create, Delete, Get, List, Set_. blind. Qed.
End arguments.

(** ** What ZooKeeper promises

    [node w p] is the content of the node [p].  Nobody else changes it meanwhile, and a node
    that is not ephemeral outlives the session. *)
Class ZkNodes (W : Type) `{!ZooKeeper W} := {
  node : W → string → option string;
  create_node p d w w' : zoo_create p d w = (ZOK, w') → node w' p = Some d;
  get_node p d n w ret len bytes w' : node w p = Some d →
    zoo_get p n w = ((ret, len, bytes), w') → ret = ZOK →
    Z.of_nat (String.length d) ≤ n → len = Z.of_nat (String.length d) ∧ bytes = d;
  init_node h w b w' p : zookeeper_init h w = (b, w') → node w' p = node w p;
  close_node w p : node (zookeeper_close w) p = node w p;
}.

Section runs.
Context {W : Type} `{!ZooKeeper W} `{!ZkNodes W}.
Implicit Types (s : zktest_state W).

(** A C string. *)
Fixpoint no_nul (s : string) : Prop :=
  match s with EmptyString => True | String c s' => c ≠ zero ∧ no_nul s' end.

Lemma c_text_nul d : no_nul d → c_text (d ++ String zero "") = Some d.
Proof.
  induction d as [|c d IH]; [done|]. intros [Hc Hd]. simpl.
  rewrite decide_False by done. by rewrite (IH Hd).
Qed.

Lemma c_text_none d : no_nul d → c_text d = None.
Proof.
  induction d as [|c d IH]; [done|]. intros [Hc Hd]. simpl.
  rewrite decide_False by done. by rewrite (IH Hd).
Qed.

Lemma create_leaves_node b p d w s : operand d → b ≠ "" →
  zk_main ["-b"; b; "-c"; p; d] (zktest_start w) = Done 0 s → node (zk_env s) p = Some d.
Proof.
  intros Hd Hb. rewrite (main_executes [("b"%char, b, Some "-c"); ("c"%char, p, Some d)]
    b "c" p d w); [|done|done|done|by apply getopt_create].
  unfold Execute, command, Create, zk_call, modify, mbind, M_bind, get. simpl.
  destruct (zookeeper_init _ w) as [[] w1]; simpl; [|done].
  destruct (zoo_create p d w1) as [ret w2] eqn:Hc. simpl. case_decide as Hr; [done|].
  intros [= <-]. simpl. rewrite close_node. assert (ret = ZOK) as -> by (by destruct (decide (ret = ZOK))).
  by eapply create_node.
Qed.

Lemma get_run b p w d w1 : b ≠ "" → node w p = Some d → no_nul d →
  Z.of_nat (String.length d) ≤ BUF_LEN → zookeeper_init "localhost:2181" w = (true, w1) →
  ((zoo_get p BUF_LEN w1).1.1.1 = ZOK) →
  zk_main ["-b"; b; "-g"; p] (zktest_start w) =
  if decide (Z.of_nat (String.length d) < BUF_LEN)
  then Done 0 (ZkClient (zookeeper_close (zoo_get p BUF_LEN w1).2) b "g" p "" [d])
  else Undef.
Proof.
  intros Hb Hn Hd Hlen Hi Hr.
  rewrite (main_executes [("b"%char, b, Some "-g"); ("g"%char, p, None)] b "g" p "" w) by done.
  unfold Execute, command, Get, zk_call, print, modify, mbind, M_bind, get. simpl.
  rewrite Hi. simpl. rewrite <-(init_node _ _ _ _ p Hi) in Hn.
  destruct (zoo_get p BUF_LEN w1) as [[[ret len] bytes] w2] eqn:Hg. simpl in *. subst ret.
  destruct (get_node _ _ _ _ _ _ _ _ Hn Hg eq_refl Hlen) as [-> ->].
  rewrite decide_False by lia. rewrite decide_False by tauto.
  destruct (decide (Z.of_nat (String.length d) < BUF_LEN)); simpl;
    [by rewrite c_text_nul|by rewrite c_text_none].
Qed.
End runs.

(** (C36) What [zktest -c] has stored [zktest -g] prints: after a run that created the node,
    a second run that reaches the server and the node ends with status 0 and has printed
    exactly the data, for every path and all data below 1 MiB. *)
Theorem create_then_get {W} `{!ZooKeeper W} `{!ZkNodes W} b b' p d (w w1 : W) s :
  operand d → no_nul d → b ≠ "" → b' ≠ "" → Z.of_nat (String.length d) < BUF_LEN →
  zk_main ["-b"; b; "-c"; p; d] (zktest_start w) = Done 0 s →
  zookeeper_init "localhost:2181" (zk_env s) = (true, w1) →
  (zoo_get p BUF_LEN w1).1.1.1 = ZOK →
  ∃ s', zk_main ["-b"; b'; "-g"; p] (zktest_start (zk_env s)) = Done 0 s' ∧ printed s' = [d].
Proof.
  intros Hop Hnul Hb Hb' Hlen Hm Hi Hr.
  rewrite (get_run b' p (zk_env s) d w1); try done; [|by apply (create_leaves_node b p d w)|lia].
  rewrite decide_True by done. by eexists.
Qed.

(** A node of exactly 1 MiB fills the buffer: the text is printed past its end. *)
Lemma full_node_undefined {W} `{!ZooKeeper W} `{!ZkNodes W} b p d (w w1 : W) :
  b ≠ "" → node w p = Some d → no_nul d → Z.of_nat (String.length d) = BUF_LEN →
  zookeeper_init "localhost:2181" w = (true, w1) → (zoo_get p BUF_LEN w1).1.1.1 = ZOK →
  zk_main ["-b"; b; "-g"; p] (zktest_start w) = Undef.
Proof.
  intros Hb Hn Hd Hlen Hi Hr. rewrite (get_run b p w d w1) by (done || lia).
  by rewrite decide_False by lia.
Qed.

(** The option [-b] is required and its argument ignored: the command goes to the server on
    the local machine. *)
Lemma brokers_ignored {W} `{!ZooKeeper W} b b' s (r : Z) (s' : zktest_state W) :
  Execute (set_brokers b s) = Done r s' →
  Execute (set_brokers b' s) = Done r (set_brokers b' s').
Proof.
  rewrite !(Execute_brokers _ s). destruct (Execute s) as [r0 s0| | |]; try done.
  intros [= <- <-]. by destruct s0.
Qed.

(** ** A server of one process *)
#[export] Instance map_zookeeper : ZooKeeper (gmap string string) := {
  ZOK := 0;
  zookeeper_init h w := (true, w);
  zookeeper_close w := w;
  zoo_create p d w := if decide (w !! p = None) then (0, <[p := d]> w) else (-110, w);
  zoo_delete p w := if decide (w !! p = None) then (-101, w) else (0, delete p w);
  zoo_get p n w := match w !! p with
    | None => ((-101, n, ""), w)
    | Some d => ((0, Z.of_nat (String.length d), d), w) end;
  zoo_get_children p w := ((0, (map_to_list w).*1), w);
  zoo_set p d w := if decide (w !! p = None) then (-101, w) else (0, <[p := d]> w);
}.

#[export] Program Instance map_zknodes : ZkNodes (gmap string string) :=
  {| node w p := w !! p |}.
Next Obligation.
  intros p d w w'. simpl. case_decide; intros [= <-]. apply lookup_insert_eq.
Qed.
Next Obligation. intros p d n w ret len bytes w' Hd. simpl in *. rewrite Hd. by intros [= <- <- <- <-]. Qed.
Next Obligation. by intros h w b w' p [= _ <-]. Qed.
Next Obligation. done. Qed.

Lemma create_then_get_witness : ∃ s',
  zk_main ["-b"; "other:2181"; "-g"; "/a"] (zktest_start (<["/a" := "hello"]> ∅ : gmap string string)) =
    Done 0 s' ∧ printed s' = ["hello"].
Proof.
  apply (create_then_get "host:2181" "other:2181" "/a" "hello" (∅ : gmap string string)
    (<["/a" := "hello"]> ∅) (ZkClient (<["/a" := "hello"]> ∅) "host:2181" "c" "/a" "hello" []));
    try done.
Defined.
