(* ===== verification/SimpleAppend.v ===== *)
(** * The simple append benchmark

    [simple_append.cc]: fills two zones with the same numbers, one append of a block at a
    time, reads both back and counts the blocks that differ.  The class [ZNSDevice] and its
    queues are in a header that is not in the repository: they are operations on an
    environment, which also holds the memory ([word_at], [store]).  A queue serves its
    commands when it likes.  The times and averages that are printed are left out, the
    divisions are not. *)
From S2P Require Import Prelude ZkLock.
Local Open Scope Z_scope.

(** [word_at] is [None] where nothing has been written yet: such a word must not be read. *)
Class ZnsDevice (W : Type) := {
  open_device : string → Z → W → Z * W;
  lba_bytes : Z → Z;
  zone_cap : Z → Z → W → Z;
  create_queue : Z → Z → W → Z * W;
  dev_alloc : Z → Z → W → Z * W;
  enq_append : Z → Z → Z → Z → W → Z * W;
  enq_read : Z → Z → Z → Z → W → Z * W;
  queue_drain : Z → W → W;
  total_us : Z → W → Z;
  num_completed : Z → W → Z;
  finish_zone : Z → Z → W → W;
  new_chars : Z → W → Z * W;
  delete_chars : Z → W → W;
  word_at : Z → W → option Z;
  store : Z → Z → W → W;
}.

Definition zone_dist_sa : Z := 0x80000.
Definition data_off : Z := 0xdeadbeef.
Definition num_appends : Z := 128000.

(** [std::stoull]: [None] is an exception, which nothing catches. *)
Definition stoull (s : string) : option Z :=
  v ← scan_d s;
  if decide (Z.abs v < 2 ^ 64) then Some (u64 v) else None.

Section simple_append.
Context {W : Type} `{!ZnsDevice W}.

Definition lib {A} (f : W → A * W) : M W A := λ w, let '(a, w') := f w in Done a w'.

(** A buffer: its address and its size. *)
Definition buffer : Type := Z * Z.

(** The address of block [i] of a buffer: undefined when the block is not inside. *)
Definition block_at (b : buffer) (i : Z) : M W Z :=
  if decide (0 ≤ i ∧ (i + 1) * 4096 ≤ b.2) then mret (b.1 + i * 4096) else undef.

(** The assertion on [bytes] holds at the only size the program uses. *)
Definition memset64 (dest val bytes : Z) : M W () :=
  foreach (seqZ 0 (bytes / 8)) (λ i, modify (store (dest + 8 * i) val)).

Definition fill_buffers (buf1 buf2 : buffer) (zcap : Z) : M W () :=
  foreach (seqZ 0 zcap) (λ i,
    a1 ← block_at buf1 i; memset64 a1 (u64 (i + data_off)) 4096;;
    a2 ← block_at buf2 i; memset64 a2 (u64 (i + data_off)) 4096).

(** The loop stops at the first append that a queue does not take. *)
Fixpoint append_all (wq1 wq2 zslba : Z) (buf1 buf2 : buffer) (l : list Z) : M W () :=
  match l with
  | [] => skip
  | i :: l' =>
      a1 ← block_at buf1 i;
      r1 ← lib (enq_append wq1 zslba 4096 a1);
      a2 ← block_at buf2 i;
      r2 ← lib (enq_append wq2 zslba 4096 a2);
      if decide (r1 < 0 ∨ r2 < 0) then skip else append_all wq1 wq2 zslba buf1 buf2 l'
  end.

(** The average that is printed after each phase; the counts are integers. *)
Definition average (q1 q2 : Z) : M W Z :=
  w ← get;
  let total := total_us q1 w + total_us q2 w in
  let num := num_completed q1 w + num_completed q2 w in
  if decide (num = 0) then undef else mret (Z.quot total num).

Definition read_word (a : Z) : M W Z := w ← get; of_option (word_at a w).

(** The reads are enqueued and never awaited; what is kept is the first word of the
    buffers, whatever the block that has been asked for. *)
Fixpoint read_all (rq1 rq2 zslba rbuf1 rbuf2 : Z) (l : list Z) (data1 data2 : list Z)
    : M W (list Z * list Z) :=
  match l with
  | [] => mret (data1, data2)
  | i :: l' =>
      lib (enq_read rq1 (u64 (zslba + i)) 4096 (rbuf1 + i * 4096));;
      lib (enq_read rq2 (u64 (zslba + i)) 4096 (rbuf2 + i * 4096));;
      d1 ← read_word rbuf1;
      d2 ← read_word rbuf2;
      read_all rq1 rq2 zslba rbuf1 rbuf2 l' (data1 ++ [d1]) (data2 ++ [d2])
  end.

Fixpoint count_mismatches (data1 data2 : list Z) : Z :=
  match data1, data2 with
  | d1 :: l1, d2 :: l2 => (if decide (d1 ≠ d2) then 1 else 0) + count_mismatches l1 l2
  | _, _ => 0
  end.

(** From the creation of the read queues to the count. *)
Definition read_back (dev1 dev2 qd zslba : Z) : M W (Z * list Z * list Z) :=
  rbuf1 ← lib (new_chars (4096 * num_appends));
  rbuf2 ← lib (new_chars (4096 * num_appends));
  rq1 ← lib (create_queue dev1 qd);
  rq2 ← lib (create_queue dev2 qd);
  data ← read_all rq1 rq2 zslba rbuf1 rbuf2 (seqZ 0 num_appends) [] [];
  modify (delete_chars rbuf2);;
  modify (delete_chars rbuf1);;
  average rq1 rq2;;
  mret (count_mismatches data.1 data.2, data.1, data.2).

(** The result is what is returned, the number of mismatches, and the numbers in
    [data1.txt] and [data2.txt]. *)
Definition simple_append_main (args : list string) : M W (Z * option (Z * list Z * list Z)) :=
  match args with
  | arg1 :: arg2 :: _ =>
      match stoull arg1, stoull arg2 with
      | Some zone_num, Some q =>
          let qd := u16 q in
          dev1 ← lib (open_device "192.168.1.121:4420" 1);
          dev2 ← lib (open_device "192.168.1.121:4420" 2);
          let zslba := u64 (zone_num * zone_dist_sa) in
          w ← get;
          let zcap1 := zone_cap dev1 zslba w in
          let bytes := u64 (zcap1 * lba_bytes dev1) in
          wq1 ← lib (create_queue dev1 qd);
          buf1 ← lib (dev_alloc dev1 bytes);
          w ← get;
          let zcap2 := zone_cap dev2 zslba w in
          wq2 ← lib (create_queue dev2 qd);
          buf2 ← lib (dev_alloc dev2 bytes);
          fill_buffers (buf1, bytes) (buf2, bytes) (Z.min zcap1 zcap2);;
          append_all wq1 wq2 zslba (buf1, bytes) (buf2, bytes) (seqZ 0 num_appends);;
          modify (queue_drain wq1);;
          modify (queue_drain wq2);;
          modify (finish_zone dev1 zslba);;
          modify (finish_zone dev2 zslba);;
          average wq1 wq2;;
          r ← read_back dev1 dev2 qd zslba;
          let '(mismatches, data1, data2) := r in
          mret (0, Some (mismatches, (λ d, u64 (d - data_off)) <$> data1,
            (λ d, u64 (d - data_off)) <$> data2))
      | _, _ => exit SIGABRT_status
      end
  | _ => mret (1, None)
  end.
End simple_append.
