(* ===== verification/SimpleAppendProps.v ===== *)
(** * Properties of the simple append benchmark *)
From S2P Require Import Prelude ZkLock SimpleAppend.
Local Open Scope Z_scope.

(** ** What the device does

    [reading w]: the reads that have not been served yet, each with its queue, its block,
    its length and its target.  A read is served during any later call, in any order: its
    target then starts with [zone_word], the first word of its block, and no other memory
    changes.  Opening a queue or a buffer serves nothing. *)
Definition read_cmd : Type := Z * Z * Z * Z.

Class ZnsReads (W : Type) `{!ZnsDevice W} := {
  zone_word : Z → Z → W → Z;
  queue_device : Z → Z;
  reading : W → list read_cmd;
  create_queue_law d n w q w' : create_queue d n w = (q, w') →
    queue_device q = d ∧ (∀ d' l, zone_word d' l w' = zone_word d' l w) ∧
    reading w' = reading w ∧ ∀ b, word_at b w' = word_at b w;
  enq_read_law q lba n a w r w' : enq_read q lba n a w = (r, w') →
    let cmds := (q, lba, n, a) :: reading w in
    (∀ d l, zone_word d l w' = zone_word d l w) ∧ reading w' ⊆ cmds ∧
    ∀ b, word_at b w' = word_at b w ∨
      ∃ q0 l0 n0 a0, (q0, l0, n0, a0) ∈ cmds ∧ a0 - 8 < b < a0 + n0 ∧
        (b = a0 → word_at b w' = Some (zone_word (queue_device q0) l0 w));
  new_chars_law n w a w' : 0 < n → new_chars n w = (a, w') →
    (∀ d l, zone_word d l w' = zone_word d l w) ∧ reading w' = reading w ∧
    word_at a w' = None ∧ ∀ b, b + 8 ≤ a ∨ a + n ≤ b → word_at b w' = word_at b w;
  new_chars_disjoint n m w a w1 b w2 : new_chars n w = (a, w1) → new_chars m w1 = (b, w2) →
    a + n ≤ b ∨ b + m ≤ a;
  delete_chars_completed a q w : num_completed q (delete_chars a w) = num_completed q w;
  num_completed_nonneg q w : 0 ≤ num_completed q w;
}.

(** A device that serves every read at once. *)
Definition prompt (W : Type) `{!ZnsDevice W} : Prop :=
  ∀ q lba n a (w : W) r w', 0 < n → enq_read q lba n a w = (r, w') →
    is_Some (word_at a w') ∧ 0 < num_completed q w'.

Lemma block_pos : 0 < 4096. Proof. done. Qed.
Lemma buffer_pos : 0 < 4096 * num_appends. Proof. done. Qed.

Lemma count_replicate n x y :
  count_mismatches (replicate n x) (replicate n y) = if decide (x = y) then 0 else Z.of_nat n.
Proof.
  induction n as [|n IH]; simpl; [by case_decide|]. rewrite IH.
  case_decide; case_decide; congruence || lia.
Qed.

Section reads.
Context {W : Type} `{!ZnsDevice W} `{!ZnsReads W}.
Implicit Types (w : W).

(** The outcome of [m]: a result that satisfies [Q], or undefined behaviour, which a prompt
    device excludes. *)
Definition mostly {A} (Q : A → W → Prop) (m : M W A) w : Prop :=
  match m w with Done a w' => Q a w' | Undef => ¬ prompt W | _ => False end.

Lemma mostly_bind {A B} (m : M W A) (k : A → M W B) Q w :
  mostly (λ a, mostly Q (k a)) m w → mostly Q (m ≫= k) w.
Proof. unfold mostly, mbind, M_bind. by destruct (m w). Qed.

Lemma mostly_lib {A B} (f : W → A * W) (k : A → M W B) Q w :
  (∀ a w', f w = (a, w') → mostly Q (k a) w') → mostly Q (lib f ≫= k) w.
Proof. unfold mostly, lib, mbind, M_bind. intros Hf. by destruct (f w); apply Hf. Qed.

Lemma mostly_weaken {A} (m : M W A) (Q R : A → W → Prop) w :
  mostly Q m w → (∀ a w', Q a w' → R a w') → mostly R m w.
Proof. unfold mostly. destruct (m w); naive_solver. Qed.

Lemma mostly_read_word {B} a v (k : Z → M W B) Q w :
  word_at a w = None ∨ word_at a w = Some v → (prompt W → is_Some (word_at a w)) →
  (word_at a w = Some v → mostly Q (k v) w) → mostly Q (read_word a ≫= k) w.
Proof.
  unfold mostly, read_word, mbind, M_bind, get. intros [Hn|Hv] Hp Hk.
  - rewrite Hn in *. simpl. intros Hw. by destruct (Hp Hw).
  - rewrite Hv in *. by apply Hk.
Qed.

Lemma mostly_modify {B} f (k : M W B) Q w : mostly Q k (f w) → mostly Q (modify f;; k) w.
Proof. done. Qed.

Lemma mostly_average {B} q1 q2 (k : M W B) Q w :
  (prompt W → 0 < num_completed q2 w) → mostly Q k w → mostly Q (average q1 q2;; k) w.
Proof.
  unfold mostly, average, mbind, M_bind, get. intros Hp Hk. case_decide; [|done].
  simpl. intros Hw. specialize (Hp Hw). pose proof (num_completed_nonneg q1 w). lia.
Qed.

(** *** The loop over the blocks *)
Section loop.
Context (rq1 rq2 zslba rb1 rb2 x y : Z).
Context (Hz : 0 ≤ zslba < 2 ^ 64).
Context (Hdisj : rb1 + 4096 * num_appends ≤ rb2 ∨ rb2 + 4096 * num_appends ≤ rb1).

(** The reads of the program. *)
Definition asked (c : read_cmd) : Prop := ∃ i, 0 ≤ i < num_appends ∧
  (c = (rq1, u64 (zslba + i), 4096, rb1 + i * 4096) ∨
   c = (rq2, u64 (zslba + i), 4096, rb2 + i * 4096)).

Lemma asked_1 i : 0 ≤ i < num_appends →
  asked (rq1, u64 (zslba + i), 4096, rb1 + i * 4096).
Proof. intros. exists i. auto. Qed.
Lemma asked_2 i : 0 ≤ i < num_appends →
  asked (rq2, u64 (zslba + i), 4096, rb2 + i * 4096).
Proof. intros. exists i. auto. Qed.

(** The start of a buffer holds nothing yet or the first word of the zone. *)
Record reads_inv w : Prop := {
  ri_asked c : c ∈ reading w → asked c;
  ri_word1 : word_at rb1 w = None ∨ word_at rb1 w = Some x;
  ri_word2 : word_at rb2 w = None ∨ word_at rb2 w = Some y;
  ri_zone1 : zone_word (queue_device rq1) zslba w = x;
  ri_zone2 : zone_word (queue_device rq2) zslba w = y;
}.

Definition first_landed w : Prop := is_Some (word_at rb1 w) ∧ is_Some (word_at rb2 w).

(** Only the read of the first block reaches the start of a buffer. *)
Lemma asked_first1 q l n a : asked (q, l, n, a) → a - 8 < rb1 < a + n →
  a = rb1 ∧ q = rq1 ∧ l = zslba.
Proof.
  assert (num_appends = 128000) as Hn by done.
  intros (i&Hi&[Hc|Hc]) Ha; injection Hc as -> -> -> ->; [|lia].
  assert (i = 0) as -> by lia. rewrite Z.mul_0_l, !Z.add_0_r, u64_small by done. done.
Qed.

Lemma asked_first2 q l n a : asked (q, l, n, a) → a - 8 < rb2 < a + n →
  a = rb2 ∧ q = rq2 ∧ l = zslba.
Proof.
  assert (num_appends = 128000) as Hn by done.
  intros (i&Hi&[Hc|Hc]) Ha; injection Hc as -> -> -> ->; [lia|].
  assert (i = 0) as -> by lia. rewrite Z.mul_0_l, !Z.add_0_r, u64_small by done. done.
Qed.

Lemma enq_read_inv q lba n a w r w' :
  asked (q, lba, n, a) → reads_inv w → enq_read q lba n a w = (r, w') →
  reads_inv w' ∧ (is_Some (word_at rb1 w) → is_Some (word_at rb1 w')) ∧
    (is_Some (word_at rb2 w) → is_Some (word_at rb2 w')).
Proof.
  intros Ha [Hr H1 H2 Hz1 Hz2] Hq. destruct (enq_read_law _ _ _ _ _ _ _ Hq) as (Hzw&Hs&Hw).
  assert (∀ c, c ∈ (q, lba, n, a) :: reading w → asked c) as Hc.
  { intros c [->|?]%elem_of_cons; auto. }
  assert (word_at rb1 w' = word_at rb1 w ∨ word_at rb1 w' = Some x) as Hw1.
  { destruct (Hw rb1) as [?|(q0&l0&n0&a0&Hin&Hb&Heq)]; [by left|right].
    destruct (asked_first1 _ _ _ _ (Hc _ Hin) Hb) as (->&->&->). by rewrite Heq, Hz1. }
  assert (word_at rb2 w' = word_at rb2 w ∨ word_at rb2 w' = Some y) as Hw2.
  { destruct (Hw rb2) as [?|(q0&l0&n0&a0&Hin&Hb&Heq)]; [by left|right].
    destruct (asked_first2 _ _ _ _ (Hc _ Hin) Hb) as (->&->&->). by rewrite Heq, Hz2. }
  split.
  - split; [by intros c ?%Hs; apply Hc|..]; rewrite ?Hzw; [| |done..].
    + destruct Hw1 as [-> | ->]; auto.
    + destruct Hw2 as [-> | ->]; auto.
  - destruct Hw1 as [-> | ->], Hw2 as [-> | ->]; eauto.
Qed.

Lemma read_all_spec l d1 d2 w : reads_inv w → (∀ i, i ∈ l → 0 ≤ i < num_appends) →
  (prompt W → first_landed w ∨ head l = Some 0) →
  mostly (λ r w', r = (d1 ++ replicate (length l) x, d2 ++ replicate (length l) y) ∧
      (prompt W → 0 < num_completed rq2 w ∨ l ≠ [] → 0 < num_completed rq2 w'))
    (read_all rq1 rq2 zslba rb1 rb2 l d1 d2) w.
Proof.
  revert d1 d2 w. induction l as [|i l IH]; intros d1 d2 w Hi Hl Hp; simpl.
  { unfold mostly. simpl. rewrite !app_nil_r. naive_solver. }
  assert (0 ≤ i < num_appends) as Hb by (apply Hl; by left).
  apply mostly_lib. intros r1 w1 H1. apply mostly_lib. intros r2 w2 H2.
  destruct (enq_read_inv _ _ _ _ _ _ _ (asked_1 i Hb) Hi H1) as (Hi1&Hs11&Hs12).
  destruct (enq_read_inv _ _ _ _ _ _ _ (asked_2 i Hb) Hi1 H2) as (Hi2&Hs21&Hs22).
  assert (prompt W → first_landed w2) as Hf.
  { intros Hpr. destruct (Hpr _ _ _ _ _ _ _ block_pos H1) as [Ha1 _], (Hpr _ _ _ _ _ _ _ block_pos H2) as [Ha2 _].
    destruct (Hp Hpr) as [Hd|Hd]; [by split; destruct Hd; auto|injection Hd as ->].
    rewrite Z.mul_0_l, Z.add_0_r in Ha1, Ha2. split; auto. }
  apply (mostly_read_word _ x); [apply Hi2|apply Hf|]. intros Hx.
  apply (mostly_read_word _ y); [apply Hi2|apply Hf|]. intros Hy.
  eapply mostly_weaken; [apply IH; [done|set_solver|by left; apply Hf]|].
  intros r w3 [-> Hn]. rewrite <-!app_assoc. split; [done|]. intros Hpr _.
  apply Hn; [done|left]. by apply (Hpr _ _ _ _ _ _ _ block_pos H2).
Qed.
End loop.
End reads.

(** (C27) The count of [simple_append.cc] is about one block only.  Whenever a device
    serves the reads, which the program never awaits, a run of the second half of [main]
    reads a buffer into which nothing has been written, divides by zero (both only with a
    device that does not serve every read at once), or finds in both lists
    only the first word of the zone: the count is then 0 when the first words of the two
    zones agree and 128000 otherwise, whatever is in the other 127999 blocks. *)
Theorem only_first_block {W} `{!ZnsDevice W} `{!ZnsReads W} dev1 dev2 qd zslba (w : W) :
  0 ≤ zslba < 2 ^ 64 → reading w = [] →
  match read_back dev1 dev2 qd zslba w with
  | Done r _ =>
      let x := zone_word dev1 zslba w in let y := zone_word dev2 zslba w in
      r = ((if decide (x = y) then 0 else num_appends),
           replicate (Z.to_nat num_appends) x, replicate (Z.to_nat num_appends) y)
  | Undef => ¬ prompt W
  | _ => False
  end.
Proof.
  intros Hz Hr. change (mostly (λ r _, let x := zone_word dev1 zslba w in
    let y := zone_word dev2 zslba w in
    r = ((if decide (x = y) then 0 else num_appends),
         replicate (Z.to_nat num_appends) x, replicate (Z.to_nat num_appends) y))
    (read_back dev1 dev2 qd zslba) w). unfold read_back.
  apply mostly_lib. intros rb1 w1 Hb1. apply mostly_lib. intros rb2 w2 Hb2.
  pose proof (new_chars_disjoint _ _ _ _ _ _ _ Hb1 Hb2) as Hdisj.
  apply mostly_lib. intros rq1 w3 Hq1. apply mostly_lib. intros rq2 w4 Hq2.
  destruct (new_chars_law _ _ _ _ buffer_pos Hb1) as (Hz1&Hr1&Hu1&_).
  destruct (new_chars_law _ _ _ _ buffer_pos Hb2) as (Hz2&Hr2&Hu2&Hk2).
  destruct (create_queue_law _ _ _ _ _ Hq1) as (Hd1&Hz3&Hr3&Hk3).
  destruct (create_queue_law _ _ _ _ _ Hq2) as (Hd2&Hz4&Hr4&Hk4).
  assert (num_appends = 128000) as Hna by done.
  assert (∀ d, zone_word d zslba w4 = zone_word d zslba w) as Hzw
    by (intros d; by rewrite Hz4, Hz3, Hz2, Hz1).
  apply mostly_bind. eapply mostly_weaken.
  { apply (read_all_spec rq1 rq2 zslba rb1 rb2 (zone_word dev1 zslba w)
      (zone_word dev2 zslba w) Hz Hdisj).
    - split; rewrite ?Hd1, ?Hd2; [|left|left|apply Hzw..].
      + rewrite Hr4, Hr3, Hr2, Hr1, Hr. by intros c ?%elem_of_nil.
      + rewrite Hk4, Hk3, Hk2 by lia. done.
      + by rewrite Hk4, Hk3.
    - intros i Hi%elem_of_seqZ. lia.
    - intros _. right. by rewrite seqZ_cons. }
  intros r w5 [-> Hn]. rewrite length_seqZ in *. apply mostly_modify, mostly_modify.
  apply mostly_average.
  - intros Hp. rewrite !delete_chars_completed. apply Hn; [done|right]. by rewrite seqZ_cons.
  - cbn [fst snd app]. unfold mostly, mret, M_ret.
    rewrite count_replicate, Hna. reflexivity.
Qed.

(** ** The buffers *)

(** The buffers hold as many blocks as the zone: when that is fewer than 128000, and the
    queues take every append, the program reads behind them. *)
Lemma append_all_overrun {W} `{!ZnsDevice W} wq1 wq2 zslba b1 b2 n m (w : W) :
  (∀ q z k a (w w' : W) r, enq_append q z k a w = (r, w') → 0 ≤ r) →
  b1.2 = n * 4096 → b2.2 = n * 4096 → 0 ≤ m ≤ n → n < num_appends →
  append_all wq1 wq2 zslba b1 b2 (seqZ m (num_appends - m)) w = Undef.
Proof.
  intros Hq H1 H2 Hm Hn. remember (Z.to_nat (n - m)) as k eqn:Hk.
  revert m Hm Hk w. induction k as [|k IH]; intros m Hm Hk w; rewrite seqZ_cons by lia;
    cbn [append_all]; unfold mbind, M_bind, block_at; rewrite H1, H2.
  - by rewrite decide_False by lia.
  - rewrite !decide_True by lia. unfold lib, mret, M_ret. cbn beta iota.
    destruct (enq_append wq1 _ _ _ w) as [r1 w1] eqn:Hr1. cbn beta iota.
    destruct (enq_append wq2 _ _ _ w1) as [r2 w2] eqn:Hr2. cbn beta iota.
    apply Hq in Hr1, Hr2. rewrite decide_False by lia.
    replace (Z.pred (num_appends - m)) with (num_appends - Z.succ m) by lia. apply IH; lia.
Qed.

(** ** A device whose two zones agree in the first block only *)
Record sim_zns := SimZns { sz_next : Z; sz_done : nat; sz_mem : gmap Z Z }.

Definition sz_word (d l : Z) : Z := if decide (l = 0) then 7 else 100 * d + l.

#[export] Instance sim_zns_device : ZnsDevice sim_zns := {
  open_device host n w := (n, w);
  lba_bytes d := 4096;
  zone_cap d z w := 275712;
  create_queue d n w := (d, w);
  dev_alloc d n w := (sz_next w, SimZns (sz_next w + Z.max 0 n) (sz_done w) (sz_mem w));
  enq_append q z n a w := (0, w);
  enq_read q l n a w := (0,
    if decide (0 < n) then SimZns (sz_next w) (S (sz_done w)) (<[a := sz_word q l]> (sz_mem w)) else w);
  queue_drain q w := w;
  total_us q w := 10 * Z.of_nat (sz_done w);
  num_completed q w := Z.of_nat (sz_done w);
  finish_zone d z w := w;
  new_chars n w :=
    (sz_next w, SimZns (sz_next w + Z.max 0 n) (sz_done w) (delete (sz_next w) (sz_mem w)));
  delete_chars a w := w;
  word_at a w := sz_mem w !! a;
  store a v w := SimZns (sz_next w) (sz_done w) (<[a := v]> (sz_mem w));
}.

#[export] Program Instance sim_zns_reads : ZnsReads sim_zns := {|
  zone_word d l w := sz_word d l; queue_device q := q; reading w := [] |}.
Next Obligation. by intros d n w q w' [= -> ->]. Qed.
Next Obligation.
  intros q l n a w r w' [= <- <-]. simpl. split; [done|]. split; [set_solver|]. intros b.
  destruct (decide (0 < n)); [|by left].
  destruct (decide (b = a)) as [->|]; [right|left; simpl; by rewrite lookup_insert_ne].
  exists q, l, n, a. split; [by left|]. split; [lia|]. intros _. simpl.
  by rewrite lookup_insert_eq.
Qed.
Next Obligation.
  intros n w a w' Hn [= <- <-]. simpl. rewrite lookup_delete_eq. split_and!; [done..|].
  intros b Hb. rewrite lookup_delete_ne; [done|lia].
Qed.
Next Obligation. intros n m w a w1 b w2 [= <- <-] [= <- <-]. simpl. lia. Qed.
Next Obligation. done. Qed.
Next Obligation. intros q w. simpl. lia. Qed.

Lemma sim_zns_prompt : prompt sim_zns.
Proof.
  intros q l n a w r w' Hn [= <- <-]. simpl. rewrite decide_True by done. simpl.
  rewrite lookup_insert_eq. by split; [eexists|].
Qed.

(** The zones differ in the second block; what is counted depends on the first. *)
Lemma only_first_block_witness : let w := SimZns 0 0 ∅ in
  zone_word 1 0 w = zone_word 2 0 w ∧ zone_word 1 1 w ≠ zone_word 2 1 w ∧
  ∃ w', read_back 1 2 64 0 w = Done (0, replicate (Z.to_nat num_appends) 7,
    replicate (Z.to_nat num_appends) 7) w'.
Proof.
  intros w. split; [reflexivity|]. split; [discriminate|].
  assert (0 ≤ 0 < 2 ^ 64) as Hz by lia.
  pose proof (only_first_block 1 2 64 0 w Hz eq_refl) as H1.
  destruct (read_back 1 2 64 0 w) as [r w'| | |]; [|done|by destruct (H1 sim_zns_prompt)|done].
  exists w'. by rewrite H1.
Defined.
