(* ===== verification/Http.v ===== *)
(** * HTTP front ends

    [boost/http_server_async.cpp], [http_server_awaitable.cc], [http_server_awaitable2.cc],
    [http_server_awaitable_test.cc] and [http_server_small.cpp].  Boost.Beast parses the
    requests and Boost.Asio runs the callbacks; the programs decide what to answer
    ([handle_request], [create_response]) and what comes next on a connection: a session
    of callbacks in [http_server_async.cpp], a coroutine in the awaitable servers. *)
From S2P Require Import Prelude.
Open Scope string_scope.
Open Scope Z_scope.

(** ** Strings of the standard library and of Beast *)

(** [c_str]: the bytes before the first NUL. *)
Fixpoint c_str (s : string) : string :=
  match s with
  | "" => ""
  | String c s' => if decide (c = zero) then "" else String c (c_str s')
  end.

(** [path.substr(path.rfind("."))], empty when there is no dot. *)
Fixpoint from_last_dot (s : string) : option string :=
  match s with
  | "" => None
  | String c s' =>
      match from_last_dot s' with
      | Some e => Some e
      | None => if decide (c = "."%char) then Some s else None
      end
  end.

Definition ascii_tolower (c : ascii) : ascii :=
  let n := nat_of_ascii c in
  if decide (65 ≤ n ≤ 90)%nat then ascii_of_nat (n + 32) else c.

(** [beast::iequals]. *)
Fixpoint iequals (a b : string) : bool :=
  match a, b with
  | "", "" => true
  | String x a', String y b' =>
      bool_decide (ascii_tolower x = ascii_tolower y) && iequals a' b'
  | _, _ => false
  end.

(** [back() == '/'], [find("..") != npos]. *)
Fixpoint ends_with_slash (s : string) : bool :=
  match s with
  | "" => false
  | String c "" => bool_decide (c = "/"%char)
  | String _ s' => ends_with_slash s'
  end.
Definition is_dot (c : ascii) : bool := bool_decide (c = "."%char).
Fixpoint has_dots (s : string) : bool :=
  match s with
  | String a (String b _ as s') => is_dot a && is_dot b || has_dots s'
  | _ => false
  end.

(** [resize(size() - 1)] when the last character is a slash. *)
Fixpoint drop_last_slash (s : string) : string :=
  match s with
  | "" => ""
  | String c "" => if decide (c = "/"%char) then "" else String c ""
  | String c s' => String c (drop_last_slash s')
  end.

(** ** Media types and paths *)
Definition mime_types : list (string * string) :=
  [(".htm", "text/html"); (".html", "text/html"); (".php", "text/html");
   (".css", "text/css"); (".txt", "text/plain"); (".js", "application/javascript");
   (".json", "application/json"); (".xml", "application/xml");
   (".swf", "application/x-shockwave-flash"); (".flv", "video/x-flv");
   (".png", "image/png"); (".jpe", "image/jpeg"); (".jpeg", "image/jpeg");
   (".jpg", "image/jpeg"); (".gif", "image/gif"); (".bmp", "image/bmp");
   (".ico", "image/vnd.microsoft.icon"); (".tiff", "image/tiff");
   (".tif", "image/tiff"); (".svg", "image/svg+xml"); (".svgz", "image/svg+xml")].

Definition mime_type (path : string) : string :=
  let ext := default "" (from_last_dot path) in
  match List.find (λ p, iequals ext p.1) mime_types with
  | Some p => p.2
  | None => "application/text"
  end.

Definition path_cat (base path : string) : string :=
  match base with
  | "" => path
  | _ => drop_last_slash base ++ path
  end.

(** ** Messages *)
Inductive verb := http_get | http_head | http_post | http_put | http_other (name : string).
#[global] Instance verb_eq_dec : EqDecision verb.
Proof. solve_decision. Defined.

Record request := Request {
  method : verb; target : string; version : Z; keep_alive : bool }.

(** The content of a file is sent by [file_body]. *)
Inductive body := string_body (s : string) | empty_body | file_body (content : string).

Record response := Response {
  status : Z;
  rs_version : Z;
  server_field : string;
  content_type : string;
  content_length : Z;
  rs_keep_alive : bool;
  rs_body : body;
}.

Definition text_length (s : string) : Z := Z.of_nat (String.length s).

(** What opening a file gives. *)
Inductive open_result :=
  | opened (content : string) | no_such_file | open_error (message : string).

Section handle_request.
(** The version of the library. *)
Context (BOOST_BEAST_VERSION_STRING : string).

(** The lambdas that build a response with a text. *)
Definition text_response (code : Z) (req : request) (text : string) : response :=
  Response code (version req) BOOST_BEAST_VERSION_STRING "text/html" (text_length text)
    (keep_alive req) (string_body text).
Definition dummy (req : request) (target : string) : response :=
  text_response 200 req "The resource was dummy.".
Definition bad_request (req : request) (why : string) : response :=
  text_response 400 req why.
Definition not_found (req : request) (target : string) : response :=
  text_response 404 req ("The resource '" ++ target ++ "' was not found.").
Definition server_error (req : request) (what : string) : response :=
  text_response 500 req ("An error occurred: '" ++ what ++ "'").

Definition known_method (v : verb) : bool :=
  match v with http_other _ => false | _ => true end.
Definition legal_target (t : string) : bool :=
  match t with
  | String "/" _ => negb (has_dots t)
  | _ => false
  end.

(** [handle_request] of [http_server_async.cpp]; [fs] opens a file for reading. *)
Definition handle_request (fs : string → open_result) (doc_root : string) (req : request)
    : response :=
  if negb (known_method (method req)) then bad_request req "Unknown HTTP-method" else
  if negb (legal_target (target req)) then bad_request req "Illegal request-target" else
  let path := path_cat doc_root (target req) in
  let path := if ends_with_slash (target req) then path ++ "index.html" else path in
  match fs (c_str path) with
  | no_such_file => dummy req (target req)
  | open_error message => server_error req message
  | opened content =>
      Response 200 (version req) BOOST_BEAST_VERSION_STRING (mime_type path)
        (text_length content) (keep_alive req)
        (if decide (method req = http_head) then empty_body else file_body content)
  end.

(** The awaitable servers answer every request alike; in [http_server_awaitable_test.cc]
    the code after the return is never reached. *)
Definition handle_request_awaitable (req : request) : response := dummy req (target req).
Definition handle_request_awaitable2 (req : request) : response := not_found req (target req).
Definition handle_request_test (doc_root : string) (req : request) : response :=
  dummy req (target req).
End handle_request.

(** ** A connection *)
Inductive read_result := read_request (req : request) | end_of_stream | read_failed.
Inductive event := was_read (r : read_result) | was_written (ok : bool).

(** The asynchronous operation that is under way; without one the session object is
    destroyed and its socket closed. *)
Inductive operation := reading | writing (keep : bool) | nothing.

Record session := Session {
  pending : operation;
  sent : list response;
  shut_down : bool;
}.

Section session.
Context (h : request → response).

Definition do_read (s : session) : session := Session reading (sent s) (shut_down s).
Definition do_close (s : session) : session := Session nothing (sent s) true.
Definition fail (s : session) : session := Session nothing (sent s) (shut_down s).
Definition send_response (msg : response) (s : session) : session :=
  Session (writing (rs_keep_alive msg)) (sent s ++ [msg])%list (shut_down s).

Definition on_read (r : read_result) (s : session) : session :=
  match r with
  | end_of_stream => do_close s
  | read_failed => fail s
  | read_request req => send_response (h req) s
  end.
Definition on_write (keep ok : bool) (s : session) : session :=
  if ok then if keep then do_read s else do_close s else fail s.

(** [run]; then Asio completes the operation that is pending: an event of another kind
    does not occur, and nothing happens once none is pending. *)
Definition session_run : session := do_read (Session nothing [] false).

Fixpoint callbacks (es : list event) (s : session) : option session :=
  match es with
  | [] => Some s
  | e :: es' =>
      match pending s, e with
      | reading, was_read r => callbacks es' (on_read r s)
      | writing keep, was_written ok => callbacks es' (on_write keep ok s)
      | _, _ => None
      end
  end.

(** The coroutine is over: nothing else happens. *)
Definition ended (es : list event) (s : session) : option session :=
  match es with [] => Some s | _ => None end.

(** [do_session] of [http_server_awaitable_test.cc]: the loop of the coroutine, with the
    handler that lets only [end_of_stream] through to the shutdown.  A failed read or
    write is an exception that leaves the coroutine. *)
Fixpoint do_session_test (es : list event) (out : list response) : option session :=
  match es with
  | [] => Some (Session reading out false)
  | was_read end_of_stream :: es' =>
      ended es' (Session nothing out true)
  | was_read read_failed :: es' => ended es' (Session nothing out false)
  | was_read (read_request req) :: es' =>
      let msg := h req in
      let out' := (out ++ [msg])%list in
      match es' with
      | [] => Some (Session (writing (rs_keep_alive msg)) out' false)
      | was_written false :: es'' => ended es'' (Session nothing out' false)
      | was_written true :: es'' =>
          if negb (rs_keep_alive msg)
          then ended es'' (Session nothing out' true)
          else do_session_test es'' out'
      | _ => None
      end
  | _ => None
  end.

(** [do_session] of the other awaitable servers: no handler, so the end of the stream
    leaves the coroutine without a shutdown. *)
Fixpoint do_session (es : list event) (out : list response) : option session :=
  match es with
  | [] => Some (Session reading out false)
  | was_read (read_request req) :: es' =>
      let msg := h req in
      let out' := (out ++ [msg])%list in
      match es' with
      | [] => Some (Session (writing (rs_keep_alive msg)) out' false)
      | was_written false :: es'' => ended es'' (Session nothing out' false)
      | was_written true :: es'' =>
          if negb (rs_keep_alive msg)
          then ended es'' (Session nothing out' true)
          else do_session es'' out'
      | _ => None
      end
  | was_read _ :: es' => ended es' (Session nothing out false)
  | _ => None
  end.
End session.

(** ** The listener of [http_server_async.cpp] *)

(** One completion: of the pending accept, or of an operation of session [i]. *)
Inductive server_event := accepted (ok : bool) | on_session (i : nat) (e : event).

Record listener := Listener { accepting : bool; sessions : list session }.

Definition on_accept (ok : bool) (s : listener) : listener :=
  if ok then Listener true (sessions s ++ [session_run])%list
  else Listener false (sessions s).

Definition server_step (h : request → response) (e : server_event) (s : listener)
    : option listener :=
  match e with
  | accepted ok => if accepting s then Some (on_accept ok s) else None
  | on_session i e =>
      x ← sessions s !! i;
      x' ← callbacks h [e] x;
      Some (Listener (accepting s) (<[i := x']> (sessions s)))
  end.

Fixpoint server_run (h : request → response) (es : list server_event) (s : listener)
    : option listener :=
  match es with
  | [] => Some s
  | e :: es' => s' ← server_step h e s; server_run h es' s'
  end.

Definition listener_start : listener := Listener true [].

(** ** [http_server_small.cpp] *)

(** The number of [request_count()] calls so far is the state of the program. *)
Definition request_count (count : Z) : Z * Z := let count' := u64 (count + 1) in (count', count').

Definition text_lines (l : list string) : string :=
  foldr (λ x rest, x ++ String "010" rest) "" l.

Definition page (title heading text : string) : string :=
  text_lines ["<html>"; "<head><title>" ++ title ++ "</title></head>"; "<body>";
    "<h1>" ++ heading ++ "</h1>"; "<p>" ++ text ++ "</p>"; "</body>"; "</html>"].

Definition create_response (now count : Z) (target : string) : string * Z :=
  if String.eqb target "/count" then
    let '(n, count') := request_count count in
    (page "Request count" "Request count"
      ("There have been " ++ digits 20 n "" ++ " requests so far."), count')
  else if String.eqb target "/time" then
    (page "Current time" "Current time"
      ("The current time is " ++ digits 20 now "" ++ " seconds since the epoch."), count)
  else
    (page "Request count" "Request count" "There have been 42 requests so far.", count).

Definition verb_string (v : verb) : string :=
  match v with
  | http_get => "GET" | http_head => "HEAD" | http_post => "POST" | http_put => "PUT"
  | http_other name => name
  end.

(** The connection is closed after every response. *)
Definition process_request (now count : Z) (req : request) : response * Z :=
  match method req with
  | http_get =>
      let '(text, count') := create_response now count (target req) in
      (Response 200 (version req) "Beast" "text/html" (text_length text) false
        (string_body text), count')
  | v =>
      let text := "Invalid request-method '" ++ verb_string v ++ "'" in
      (Response 400 (version req) "" "text/plain" (text_length text) false
        (string_body text), count)
  end.

(** The connections of a run of the server, each with the time of its request. *)
Fixpoint process_all (reqs : list (Z * request)) (count : Z) : list response * Z :=
  match reqs with
  | [] => ([], count)
  | (now, req) :: reqs' =>
      let '(r, count1) := process_request now count req in
      let '(rs, count2) := process_all reqs' count1 in
      (r :: rs, count2)
  end.
