(* ===== verification/HttpProps.v ===== *)
(** * Properties of the HTTP front ends

    What a request can reach, what it is answered, and that a session of callbacks and a
    coroutine are the same protocol. *)
From S2P Require Import Prelude Http.
Open Scope string_scope.
Open Scope Z_scope.

(** ** Paths *)

(** The names between the slashes. *)
Fixpoint components (s : string) : list string :=
  match s with
  | "" => [""]
  | String c s' =>
      if decide (c = "/"%char) then "" :: components s'
      else match components s' with
           | x :: l => String c x :: l
           | [] => [String c ""]
           end
  end.

(** A path in the tree of [root]: it goes through [root], and no name after it leads
    upwards. *)
Definition below (root path : string) : Prop := ∃ rest,
  path = drop_last_slash root ++ String "/" rest ∧ ".." ∉ components rest.

Lemma components_cons s : ∃ y l, components s = y :: l.
Proof.
  destruct s as [|c s]; simpl; [by eexists _, _|]. case_decide; [by eexists _, _|].
  destruct (components s); by eexists _, _.
Qed.

Lemma has_dots_cons c s : has_dots s = true → has_dots (String c s) = true.
Proof. intros Hs. destruct s as [|c' s]; [done|]. simpl in *. by rewrite Hs, orb_true_r. Qed.

Lemma components_dots s x : x ∈ components s → has_dots x = true → has_dots s = true.
Proof.
  revert x. induction s as [|c s IH]; intros x.
  { by intros ->%list_elem_of_singleton. }
  simpl components. case_decide as Hc.
  - intros [->|Hx]%elem_of_cons Hd; [done|]. by eapply has_dots_cons, IH.
  - destruct (components_cons s) as (y&l&Hy). rewrite Hy in *.
    intros [->|Hx]%elem_of_cons Hd; [|by eapply has_dots_cons, IH; [right|]].
    destruct y as [|c' y]; [done|]. simpl in Hd.
    apply orb_true_iff in Hd as [Hp|Hd]; [|by eapply has_dots_cons, (IH (String c' y)); [left|]].
    destruct s as [|c'' s]; [done|]. simpl in Hy. case_decide; [done|].
    destruct (components s); simplify_eq/=; by rewrite Hp.
Qed.

Lemma has_dots_c_str s : has_dots (c_str s) = true → has_dots s = true.
Proof.
  induction s as [|c s IH]; [done|]. simpl c_str. case_decide; [done|].
  destruct s as [|c' s]; [done|]. simpl c_str in *. case_decide; [done|].
  simpl. intros [->|Hd]%orb_true_iff; [done|].
  rewrite orb_true_iff. right. by apply IH.
Qed.

Lemma has_dots_app s u : ends_with_slash s = true → has_dots (s ++ u) = true →
  has_dots s = true ∨ has_dots u = true.
Proof.
  induction s as [|c s IH]; [done|]. destruct s as [|c' s].
  - simpl. intros ->%bool_decide_eq_true. destruct u; [done|]. simpl. by right.
  - intros He. change (is_dot c && is_dot c' || has_dots (String c' s ++ u) = true →
      is_dot c && is_dot c' || has_dots (String c' s) = true ∨ has_dots u = true).
    intros [->|Hd]%orb_true_iff; [by left|].
    destruct (IH He Hd) as [->|?]; [left; apply orb_true_r|by right].
Qed.

Lemma c_str_app s u : c_str s = s → c_str (s ++ u) = s ++ c_str u.
Proof.
  induction s as [|c s IH]; [done|]. simpl. case_decide; [done|].
  intros [= Hs]. by rewrite IH.
Qed.

Lemma c_str_drop_last s : c_str s = s → c_str (drop_last_slash s) = drop_last_slash s.
Proof.
  induction s as [|c s IH]; [done|]. simpl. case_decide as Hc; [done|]. intros [= Hs].
  destruct s as [|c' s].
  - case_decide; simpl; [done|]. by rewrite decide_False.
  - change (c_str (String c (drop_last_slash (String c' s))) =
      String c (drop_last_slash (String c' s))).
    simpl c_str at 1. rewrite decide_False by done. f_equal. by apply IH.
Qed.

(** The path that is opened for a legal target. *)
Lemma opened_below root t : c_str root = root → legal_target t = true →
  let path := path_cat root t in
  below root (c_str (if ends_with_slash t then path ++ "index.html" else path)).
Proof.
  intros Hroot Ht. simpl.
  set (u := if ends_with_slash t then t ++ "index.html" else t).
  assert (has_dots u = false) as Hu.
  { unfold legal_target in Ht. destruct t as [|c t]; [done|].
    assert (has_dots (String c t) = false) as Hd.
    { destruct c as [[] [] [] [] [] [] [] []]; try done. by apply negb_true_iff in Ht. }
    unfold u. destruct (ends_with_slash (String c t)) eqn:He; [|done].
    apply not_true_iff_false. intros Hh.
    destruct (has_dots_app _ _ He Hh); [congruence|done]. }
  assert (∃ r, u = String "/" r) as [r Hr].
  { unfold legal_target in Ht. unfold u. destruct t as [|c t]; [done|].
    destruct c as [[] [] [] [] [] [] [] []]; try done.
    destruct (ends_with_slash _); by eexists. }
  assert ((if ends_with_slash t then path_cat root t ++ "index.html" else path_cat root t) =
    drop_last_slash root ++ u) as ->.
  { unfold u, path_cat. destruct root as [|c root], (ends_with_slash t); try done.
    clear. generalize (drop_last_slash (String c root)). intros x.
    induction x as [|a x IH]; [done|]. exact (f_equal (String a) IH). }
  rewrite c_str_app by (by apply c_str_drop_last). rewrite Hr. simpl. exists (c_str r).
  split; [done|]. intros Hin.
  assert (has_dots (c_str r) = true) as Hd by (by eapply components_dots).
  apply has_dots_c_str, (has_dots_cons "/") in Hd. congruence.
Qed.

(** (C37) A request cannot leave the document root: the answer of [http_server_async.cpp]
    depends only on the files below the root, whatever the method and the target are.  On
    two file systems that agree on the paths through the root whose later names are never
    [..], the answers are the same. *)
Theorem handle_request_confined v (fs fs' : string → open_result) root req :
  c_str root = root → (∀ p, below root p → fs p = fs' p) →
  handle_request v fs root req = handle_request v fs' root req.
Proof.
  intros Hroot Hfs. unfold handle_request.
  destruct (known_method _); simpl; [|done]. destruct (legal_target _) eqn:Ht; simpl; [|done].
  by rewrite (Hfs _ (opened_below root (target req) Hroot Ht)).
Qed.

(** Every answer repeats the version and the connection of its request; it is 200, 400 or
    500, never 404, and its length is that of its text or of the file. *)
Lemma handle_request_answers v fs root req : let r := handle_request v fs root req in
  rs_version r = version req ∧ rs_keep_alive r = keep_alive req ∧
  (status r = 200 ∨ status r = 400 ∨ status r = 500) ∧
  match rs_body r with
  | string_body s | file_body s => content_length r = text_length s
  | empty_body => method req = http_head
  end.
Proof.
  simpl. unfold handle_request.
  destruct (known_method _); simpl; [|by auto 6]. destruct (legal_target _); simpl; [|by auto 6].
  destruct (fs _); simpl; [case_decide; by auto 6|by auto 6..].
Qed.

(** ** Sessions *)

Lemma callbacks_nothing h es s : pending s = nothing → callbacks h es s = ended es s.
Proof. destruct es as [|e es]; [done|]. simpl. by intros ->. Qed.

Lemma callbacks_coroutine_from h n (es : list event) out : (length es ≤ n)%nat →
  callbacks h es (Session reading out false) = do_session_test h es out.
Proof.
  revert es out. induction n as [|n IH]; intros es out Hn.
  { by destruct es; simpl in *; [|lia]. }
  destruct es as [|[[req| |]|] es]; simpl; [done|..|done];
    [|by rewrite callbacks_nothing..].
  destruct es as [|[|[]] es]; simpl in *; [done..| |by rewrite callbacks_nothing].
  unfold on_write. destruct (rs_keep_alive (h req)); simpl; [apply IH; lia|].
  by rewrite callbacks_nothing.
Qed.

(** (C38) The session of callbacks of [http_server_async.cpp] and the coroutine of
    [http_server_awaitable_test.cc] are the same protocol: for every way to answer a
    request and every sequence of completions, possible or not, they accept the same
    sequences, have sent the same responses, wait for the same operation and have shut the
    connection down or not. *)
Theorem callbacks_are_coroutine h es :
  callbacks h es session_run = do_session_test h es [].
Proof. by apply (callbacks_coroutine_from h (length es) es []). Qed.

Definition requests (es : list event) : list request :=
  omap (λ e, match e with was_read (read_request req) => Some req | _ => None end) es.

(** Responses after which the connection stays open. *)
Definition kept_open (l : list response) : Prop := Forall (λ r, rs_keep_alive r = true) l.

(** What holds while a session runs: before a read every answer has left the connection
    open; during a write every answer before the last has. *)
Definition answering (s : session) : Prop :=
  match pending s with
  | reading => kept_open (sent s)
  | writing keep => ∃ l r, sent s = (l ++ [r])%list ∧ kept_open l ∧ keep = rs_keep_alive r
  | nothing => True
  end.

Lemma callbacks_answer h (es : list event) s s' : answering s → callbacks h es s = Some s' →
  answering s' ∧ sent s' = (sent s ++ (h <$> requests es))%list ∧
  ∀ es1 req es2, es = (es1 ++ was_read (read_request req) :: es2)%list →
    kept_open (sent s ++ (h <$> requests es1))%list.
Proof.
  revert s. induction es as [|e es IH]; intros s Ha; simpl.
  { intros [= <-]. rewrite app_nil_r. split_and!; [done|done|]. by intros []. }
  destruct (pending s) eqn:Hp; [destruct e as [r|]|destruct e as [|ok]|]; try done; intros Hc.
  - unfold answering in Ha. rewrite Hp in Ha.
    apply IH in Hc as (?&->&Hall); [|destruct r; simpl; [|done..]; by eexists _, _].
    split; [done|]. split; [destruct r; simpl; by rewrite <-?app_assoc|].
    intros [|e1 es1] req es2 He; simpl in He; [by rewrite app_nil_r|].
    injection He as <- He. specialize (Hall _ _ _ He).
    destruct r; simpl in *; by rewrite <-?app_assoc in Hall.
  - unfold answering in Ha. rewrite Hp in Ha. destruct Ha as (l&r&Hl&Hk&->).
    assert (sent (on_write (rs_keep_alive r) ok s) = sent s) as Hs
      by (by destruct ok, (rs_keep_alive r)).
    apply IH in Hc as (?&->&Hall).
    + rewrite Hs in *. split_and!; [done|done|]. intros [|e1 es1] req es2 He; [done|].
      simpl in He. injection He as <- He. exact (Hall _ _ _ He).
    + destruct ok; [|done]. destruct (rs_keep_alive r) eqn:Hr; [|done]. simpl.
      unfold answering. simpl. rewrite Hl. apply Forall_app. split; [done|]. by apply Forall_singleton.
Qed.

(** (C39) On a connection of [http_server_async.cpp] every request that has been read is
    answered once, in order, by the answer of [handle_request] (any [h]); and whenever a
    request is read, all answers before have left the connection open. *)
Theorem sessions_answer_in_order h (es : list event) s : callbacks h es session_run = Some s →
  sent s = h <$> requests es ∧
  ∀ es1 req es2, es = (es1 ++ was_read (read_request req) :: es2)%list →
    kept_open (h <$> requests es1).
Proof.
  intros Hc. assert (answering session_run) as Ha by constructor.
  destruct (callbacks_answer _ _ _ _ Ha Hc) as (_&?&?). done.
Qed.

(** ** The counter *)
Definition counts (req : request) : bool :=
  bool_decide (method req = http_get) && String.eqb (target req) "/count".

(** How many requests for the counter there are. *)
Fixpoint counted (reqs : list (Z * request)) : Z :=
  match reqs with
  | [] => 0
  | (_, req) :: reqs' => (if counts req then 1 else 0) + counted reqs'
  end.

Lemma counted_pos reqs : 0 ≤ counted reqs.
Proof. induction reqs as [|[? req] reqs IH]; simpl; [lia|]. destruct (counts req); lia. Qed.

Definition count_page (n : Z) : string :=
  page "Request count" "Request count"
    ("There have been " ++ digits 20 n "" ++ " requests so far.").

Lemma process_request_count now c req : 0 ≤ c → (counts req = true → c + 1 < 2 ^ 64) →
  (process_request now c req).2 = (if counts req then c + 1 else c) ∧
  (counts req = true → rs_body (process_request now c req).1 = string_body (count_page (c + 1))).
Proof.
  intros Hc. unfold process_request, counts. destruct (method req); simpl; try done.
  unfold create_response, request_count, count_page.
  destruct (String.eqb (target req) "/count"); intros Hlt.
  - rewrite u64_small by (specialize (Hlt eq_refl); lia). split; [|intros _]; reflexivity.
  - destruct (String.eqb (target req) "/time"); (split; [reflexivity|discriminate]).
Qed.

Lemma process_all_count reqs c : 0 ≤ c → c + counted reqs < 2 ^ 64 →
  (process_all reqs c).2 = c + counted reqs ∧
  ∀ i now req, reqs !! i = Some (now, req) → counts req = true →
    ∃ r, (process_all reqs c).1 !! i = Some r ∧
      rs_body r = string_body (count_page (c + counted (take (S i) reqs))).
Proof.
  revert c. induction reqs as [|[now0 req0] reqs IH]; intros c Hc Hlt; [split; [simpl; lia|done]|].
  pose proof (counted_pos reqs). cbn [counted] in Hlt.
  destruct (process_request_count now0 c req0) as [H2 H1]; [done|intros Hq; rewrite Hq in Hlt; lia|].
  simpl. destruct (process_request now0 c req0) as [r1 c1]. simpl in H2, H1.
  destruct (IH c1) as [Hn Hi]; [destruct (counts req0); lia|destruct (counts req0); lia|].
  destruct (process_all reqs c1) as [rs c2]. simpl in Hn, Hi |- *.
  split; [rewrite Hn, H2; destruct (counts req0); lia|].
  intros [|i] now req Hr Hq; simpl in Hr; simplify_eq.
  - exists r1. split; [done|]. rewrite (H1 Hq). f_equal. f_equal. simpl.
    rewrite Hq. lia.
  - destruct (Hi i now req Hr Hq) as (r&Hl&Hb). exists r. split; [done|]. rewrite Hb.
    f_equal. f_equal. cbn [take counted]. destruct (counts req0); lia.
Qed.

(** The counter of [http_server_small.cpp] is exact: whatever requests come in
    between, the answer to a GET of [/count] holds the number of such requests so far,
    itself included (and not, as its text says, of all requests). *)
Theorem count_is_exact reqs i now req : counted reqs < 2 ^ 64 →
  reqs !! i = Some (now, req) → counts req = true →
  ∃ r, (process_all reqs 0).1 !! i = Some r ∧
    rs_body r = string_body (count_page (counted (take (S i) reqs))).
Proof.
  intros Hlt Hi Hq. destruct (process_all_count reqs 0) as [_ Hall]; [done|done|].
  by eapply Hall.
Qed.

(** ** The listener *)

(** After a failed accept no connection is accepted any more. *)
Lemma accept_failure_stops h (es : list server_event) s s' : accepting s = false →
  server_run h es s = Some s' →
  accepting s' = false ∧ length (sessions s') = length (sessions s).
Proof.
  revert s. induction es as [|e es IH]; intros s Ha Hr; [by simplify_eq/=|]. simpl in Hr.
  destruct (server_step h e s) as [s1|] eqn:Hs; [|done]. simpl in Hr.
  assert (accepting s1 = false ∧ length (sessions s1) = length (sessions s)) as [Ha1 Hl1].
  { destruct e as [ok|i e]; simpl in Hs; [by rewrite Ha in Hs|].
    destruct (sessions s !! i) as [x|]; [|done]. simpl in Hs.
    destruct (match pending x with reading => _ | _ => _ end) as [x'|]; [|done].
    injection Hs as <-. simpl. by rewrite length_insert. }
  destruct (IH s1 Ha1 Hr) as [??]. split; [done|congruence].
Qed.

(** ** Witnesses *)
Definition get (t : string) : request := Request http_get t 11 true.

Lemma handle_request_confined_witness :
  handle_request "v" (λ p, if String.eqb p "./a.html" then opened "A" else no_such_file) "."
    (get "/a.html") =
  handle_request "v" (λ p, if String.eqb p "./a.html" then opened "A"
    else if String.eqb p "../secret" then opened "S" else no_such_file) "." (get "/a.html").
Proof.
  apply (handle_request_confined "v" _ _ "." (get "/a.html")); [reflexivity|].
  intros p (rest&->&Hrest).
  change (drop_last_slash "." ++ String "/" rest) with (String "." (String "/" rest)).
  destruct (String.eqb _ "./a.html"); [done|].
  destruct (String.eqb _ "../secret") eqn:He; [|done]. by apply String.eqb_eq in He.
Defined.

Lemma sessions_answer_in_order_witness :
  sent (Session nothing [not_found "v" (get "/a") "/a"; not_found "v" (get "/b") "/b"] true) =
  handle_request_awaitable2 "v" <$> [get "/a"; get "/b"].
Proof.
  apply (sessions_answer_in_order (handle_request_awaitable2 "v")
    [was_read (read_request (get "/a")); was_written true; was_read (read_request (get "/b"));
     was_written true; was_read end_of_stream]).
  reflexivity.
Defined.

Lemma count_is_exact_witness : ∃ r,
  (process_all [(5, get "/count"); (6, get "/time"); (7, get "/count")] 0).1 !! 2%nat = Some r ∧
  rs_body r = string_body (count_page 2).
Proof. by apply (count_is_exact [(5, get "/count"); (6, get "/time"); (7, get "/count")] 2 7 (get "/count")). Defined.
