(* ===== verification/NvmeTest.v ===== *)
(** * The zone test on an NVMe driver

    [zns_nvme_test.cc]: appends one block to each of two zones, reads the blocks back and
    compares, all on one queue pair that the callbacks release.  The completion of the
    last append starts the reads and polls for them from inside the callback.  The
    context and what fills it before the test are in a header that is not in the
    repository: its counters are numbers here, and [test_start] begins at the buffers. *)
From S2P Require Import Prelude.

Inductive nv_cmd := nv_append (slba : Z) | nv_read (lba : Z) | nv_reset (slba : Z).

(** The driver: one completion of the queue pair with its error bit, the contents of the
    two buffers ([memset], [memcmp]), memory, the zone size. *)
Class NvLib (W : Type) := {
  zone_size : Z;
  nv_submit : nv_cmd → W → Z * W;
  nv_budget : W → nat;
  nv_poll : W → option (nv_cmd * bool) * W;
  nv_free_qpair : W → W;
  nv_detach : W → W;
  nv_zmalloc : W → option Z * W;
  memset_buffer : Z → Z → W → W;
  memcmp_buffers : Z → Z → W → bool;
}.

Record zctx (W : Type) := ZCtx {
  nv : W;
  qpair_open : bool;
  write_buff : option Z;
  read_buff : option Z;
  zcount : Z;
  num_queued : Z;
  num_completed : Z;
  num_success : Z;
  num_fail : Z;
  app_stopped : list Z;
}.
Arguments ZCtx {W} _ _ _ _ _ _ _ _ _ _.
Arguments nv {W} _.
Arguments qpair_open {W} _.
Arguments write_buff {W} _.
Arguments read_buff {W} _.
Arguments zcount {W} _.
Arguments num_queued {W} _.
Arguments num_completed {W} _.
Arguments num_success {W} _.
Arguments num_fail {W} _.
Arguments app_stopped {W} _.

Section test.
Context {W : Type} `{!NvLib W}.
Implicit Types (s : zctx W).
Local Abbreviation M := (M (zctx W)).

Definition set_nv (f : W → W) s : zctx W := ZCtx (f (nv s)) (qpair_open s) (write_buff s) (read_buff s)
  (zcount s) (num_queued s) (num_completed s) (num_success s) (num_fail s) (app_stopped s).
Definition set_open b s : zctx W := ZCtx (nv s) b (write_buff s) (read_buff s)
  (zcount s) (num_queued s) (num_completed s) (num_success s) (num_fail s) (app_stopped s).
Definition set_buffers b b' s : zctx W := ZCtx (nv s) (qpair_open s) b b'
  (zcount s) (num_queued s) (num_completed s) (num_success s) (num_fail s) (app_stopped s).
Definition set_zcount f s : zctx W := ZCtx (nv s) (qpair_open s) (write_buff s) (read_buff s)
  (f (zcount s)) (num_queued s) (num_completed s) (num_success s) (num_fail s) (app_stopped s).
Definition set_queued f s : zctx W := ZCtx (nv s) (qpair_open s) (write_buff s) (read_buff s)
  (zcount s) (f (num_queued s)) (num_completed s) (num_success s) (num_fail s) (app_stopped s).
Definition set_completed f s : zctx W := ZCtx (nv s) (qpair_open s) (write_buff s) (read_buff s)
  (zcount s) (num_queued s) (f (num_completed s)) (num_success s) (num_fail s) (app_stopped s).
Definition set_success f s : zctx W := ZCtx (nv s) (qpair_open s) (write_buff s) (read_buff s)
  (zcount s) (num_queued s) (num_completed s) (f (num_success s)) (num_fail s) (app_stopped s).
Definition set_fail f s : zctx W := ZCtx (nv s) (qpair_open s) (write_buff s) (read_buff s)
  (zcount s) (num_queued s) (num_completed s) (num_success s) (f (num_fail s)) (app_stopped s).
Definition set_stopped rc s : zctx W := ZCtx (nv s) (qpair_open s) (write_buff s) (read_buff s)
  (zcount s) (num_queued s) (num_completed s) (num_success s) (num_fail s)
  (app_stopped s ++ [rc]).

(** A call of the driver on the queue pair: it must not have been released. *)
Definition on_qpair {A} (f : W → A * W) : M A :=
  s ← get;
  if qpair_open s then
    let '(a, w) := f (nv s) in
    modify (set_nv (λ _, w));; mret a
  else undef.

Definition free_qpair : M () :=
  on_qpair (λ w, (tt, nv_free_qpair w));; modify (set_open false).
Definition app_stop (rc : Z) : M () := modify (set_stopped rc).

(** The queue pair is released, the application stopped. *)
Definition abort_test : M () := free_qpair;; app_stop (-1).

(** [spdk_nvme_qpair_process_completions]: one call.  A queue pair that a callback
    releases is not polled further by the same call. *)
Fixpoint deliver (callback : nv_cmd → bool → M ()) (n : nat) : M () :=
  match n with
  | O => skip
  | S n' =>
      r ← on_qpair nv_poll;
      match r with
      | None => skip
      | Some (c, err) =>
          callback c err;;
          s ← get;
          if qpair_open s then deliver callback n' else skip
      end
  end.
Definition process_completions (callback : nv_cmd → bool → M ()) : M () :=
  s ← get; if qpair_open s then deliver callback (nv_budget (nv s)) else undef.

Definition buffers : M (Z * Z) :=
  s ← get; b ← of_option (write_buff s); b' ← of_option (read_buff s); mret (b, b').

Definition read_complete (err : bool) : M () :=
  modify (set_completed (Z.add 1));;
  if err then
    modify (set_fail (Z.add 1));;
    modify (set_queued (λ n, n - 1));;
    abort_test
  else
    b ← buffers;
    s ← get;
    if memcmp_buffers b.1 b.2 (nv s) then
      modify (set_zcount (Z.add 1));;
      modify (set_success (Z.add 1));;
      modify (set_queued (λ n, n - 1));;
      s ← get;
      if decide (zcount s = 2) then free_qpair;; app_stop 0 else skip
    else abort_test.

(** The two loops over zones and appends: one block in each of two zones. *)
Definition zone_num : Z := 2.
Definition slbas : list Z :=
  if decide (0 < zone_size) then (λ i, i * zone_size) <$> seqZ 0 zone_num else [].

(** The submissions stop at the first that the driver refuses. *)
Fixpoint submit_each (mk : Z → nv_cmd) (l : list Z) : M bool :=
  match l with
  | [] => mret true
  | slba :: l' =>
      modify (set_queued (Z.add 1));;
      rc ← on_qpair (nv_submit (mk slba));
      if decide (rc ≠ 0) then abort_test;; mret false else submit_each mk l'
  end.

(** [loop] is [while (ctx->num_queued) process_completions]. *)
Definition read_zone (loop : M ()) : M () :=
  modify (set_zcount (λ _, 0));;
  modify (set_queued (Z.add 1));;
  b ← buffers;
  modify (set_nv (memset_buffer b.2 0x34));;
  ok ← submit_each nv_read slbas;
  if ok : bool then loop else skip.

Definition write_zone_complete (loop : M ()) (err : bool) : M () :=
  modify (set_completed (Z.add 1));;
  if err then
    modify (set_fail (Z.add 1));;
    modify (set_queued (λ n, n - 1));;
    abort_test
  else
    modify (set_zcount (λ n, n - 1));;
    modify (set_success (Z.add 1));;
    modify (set_queued (λ n, n - 1));;
    s ← get;
    if decide (zcount s = 0) then read_zone loop else skip.

Definition write_zone (loop : M ()) : M () :=
  modify (set_zcount (λ _, zone_num * 1));;
  b ← buffers;
  modify (set_nv (memset_buffer b.1 0x12));;
  ok ← submit_each nv_append slbas;
  if ok : bool then loop else skip.

Definition reset_zone_complete (loop : M ()) (err : bool) : M () :=
  modify (set_completed (Z.add 1));;
  if err then
    modify (set_fail (Z.add 1));;
    modify (set_queued (λ n, n - 1));;
    abort_test
  else
    modify (set_success (Z.add 1));;
    modify (set_queued (λ n, n - 1));;
    modify (set_zcount (λ n, n - 1));;
    s ← get;
    if decide (zcount s = 2) then write_zone loop else skip.

Definition callback (loop : M ()) (c : nv_cmd) (err : bool) : M () :=
  match c with
  | nv_read _ => read_complete err
  | nv_append _ => write_zone_complete loop err
  | nv_reset _ => reset_zone_complete loop err
  end.

Fixpoint poll_loop (fuel : nat) : M () :=
  match fuel with
  | O => λ _, Spin
  | S fuel' =>
      s ← get;
      if decide (num_queued s = 0) then skip else
      process_completions (callback (poll_loop fuel'));;
      poll_loop fuel'
  end.

(** [-ENOMEM] is only logged; each zone is reset one zone too far. *)
Fixpoint reset_each (l : list Z) : M bool :=
  match l with
  | [] => mret true
  | slba :: l' =>
      rc ← on_qpair (nv_submit (nv_reset (slba + zone_size)));
      if decide (rc ≠ 0 ∧ rc ≠ - 12) then abort_test;; mret false else reset_each l'
  end.
Definition reset_zone (loop : M ()) : M () :=
  modify (set_zcount (λ _, zone_num));;
  modify (set_queued (Z.add 1));;
  ok ← reset_each slbas;
  if ok : bool then loop else skip.

(** [test_start] once the context is set up. *)
Definition no_memory : M () :=
  free_qpair;; modify (set_nv nv_detach);; app_stop (-1).
Definition nv_alloc : M (option Z) :=
  s ← get; let '(b, w) := nv_zmalloc (nv s) in modify (set_nv (λ _, w));; mret b.
Definition test_start (fuel : nat) : M () :=
  b ← nv_alloc;
  modify (set_buffers b None);;
  match b with
  | None => no_memory
  | Some _ =>
      b' ← nv_alloc;
      modify (set_buffers b b');;
      match b' with
      | None => no_memory
      | Some _ => write_zone (poll_loop fuel)
      end
  end.
End test.
