(* ===== verification/NvmeTestProps.v ===== *)
(** * What becomes of the zone test on an NVMe driver

    [read_zone] adds one to [num_queued] that no completion takes away.  When everything
    goes well the last read releases the queue pair while the loop that waits for
    [num_queued] is still polling it. *)
From S2P Require Import Prelude NvmeTest.

(** What is outstanding on the queue pair, and a bound on the polls it may still need. *)
Class NvView (W : Type) := {
  nv_pending : W → list nv_cmd;
  nv_lag : W → nat;
}.

Class NvLaws (W : Type) `{!NvLib W} `{!NvView W} : Prop := {
  nv_submit_ok c w w' : nv_submit c w = (0, w') → nv_pending w' = nv_pending w ++ [c];
  nv_budget_pos w : (0 < nv_budget w)%nat;
  nv_poll_some w c e w' : nv_poll w = (Some (c, e), w') → nv_pending w ≡ₚ c :: nv_pending w';
  nv_poll_none w w' : nv_poll w = (None, w') → nv_pending w' = nv_pending w;
  nv_poll_progress w r w' : nv_poll w = (r, w') → nv_pending w ≠ [] →
    (nv_lag w' < nv_lag w)%nat;
  memset_pending b x w : nv_pending (memset_buffer b x w) = nv_pending w;
}.

Section props.
Context {W : Type} `{!NvLib W} `{!NvView W} `{!NvLaws W}.
Implicit Types (s : zctx W).
Local Abbreviation pending s := (nv_pending (nv s)).
Local Abbreviation lag s := (nv_lag (nv s)).

(** The driver takes every command; appends do not fail. *)
Definition takes : Prop := ∀ c (w w' : W) rc, nv_submit c w = (rc, w') → rc = 0.
Definition appends_succeed : Prop := ∀ slba e (w w' : W),
  nv_poll w = (Some (nv_append slba, e), w') → e = false.

Definition crashes (m : nat → M (zctx W) ()) s : Prop :=
  ∃ n, ∀ fuel, (n ≤ fuel)%nat → m fuel s = Undef.

Definition is_read (c : nv_cmd) : Prop := match c with nv_read _ => True | _ => False end.
Definition is_append (c : nv_cmd) : Prop := match c with nv_append _ => True | _ => False end.

Record allocated s : Prop := {
  al_write : is_Some (write_buff s);
  al_read : is_Some (read_buff s);
}.

(** The queue pair is gone, but the loop still waits. *)
Definition stuck s : Prop := qpair_open s = false ∧ num_queued s ≠ 0.

Record reads s : Prop := {
  rd_open : qpair_open s = true;
  rd_alloc : allocated s;
  rd_pending : Forall is_read (pending s) ∧ pending s ≠ [];
  rd_queued : num_queued s = Z.of_nat (length (pending s)) + 1;
  rd_count : zcount s + Z.of_nat (length (pending s)) = 2;
}.

Record appends s : Prop := {
  ap_open : qpair_open s = true;
  ap_alloc : allocated s;
  ap_pending : Forall is_append (pending s) ∧ pending s ≠ [];
  ap_queued : num_queued s = Z.of_nat (length (pending s));
  ap_count : zcount s = Z.of_nat (length (pending s));
}.

Lemma stuck_crashes s : stuck s → crashes poll_loop s.
Proof.
  intros [Ho Hq]. exists 1%nat. intros [|fuel] Hf; [lia|]. simpl.
  unfold mbind, M_bind. simpl. rewrite decide_False by done.
  unfold process_completions, mbind, M_bind. simpl. by rewrite Ho.
Qed.

(** One completed read: the loop keeps waiting, on a queue pair that is there or not. *)
Lemma nv_read_complete_spec lba e s w : reads s → nv_poll (nv s) = (Some (nv_read lba, e), w) →
  ∃ s', read_complete e (set_nv (λ _, w) s) = Done tt s' ∧ nv s' = (if qpair_open s' then w else nv s') ∧
    (reads s' ∨ stuck s').
Proof.
  intros [Ho [[b Hb] [b' Hb']] [Hr _] Hq Hc] Hp.
  pose proof (nv_poll_some _ _ _ _ Hp) as Hperm.
  assert (Forall is_read (nv_pending w)) as Hr'.
  { rewrite Hperm in Hr. by apply Forall_cons in Hr as [_ ?]. }
  pose proof (Permutation_length Hperm) as Hlen. simpl in Hlen. rewrite Hlen in Hq, Hc.
  destruct s as [w0 op wb rb zc nq ncp ns nf st]. simpl in *. subst op wb rb.
  unfold read_complete, abort_test, free_qpair, app_stop, on_qpair, buffers, mbind, M_bind. simpl.
  destruct e; simpl.
  { eexists. split; [done|]. simpl. split; [done|]. right. split; simpl; [done|lia]. }
  destruct (memcmp_buffers b b' w); simpl.
  - case_decide as H2; simpl.
    + eexists. split; [done|]. simpl. split; [done|]. right. split; simpl; [done|lia].
    + eexists. split; [done|]. simpl. split; [done|]. left. split; simpl; try done; try lia.
      split; [done|]. intros Hn. rewrite Hn in Hc. simpl in Hc. lia.
  - eexists. split; [done|]. simpl. split; [done|]. right. split; simpl; [done|lia].
Qed.

Lemma poll_step s r w : qpair_open s = true → nv_poll (nv s) = (r, w) →
  on_qpair nv_poll s = Done r (set_nv (λ _, w) s).
Proof. intros Ho Hp. unfold on_qpair, mbind, M_bind. simpl. by rewrite Ho, Hp. Qed.

Lemma reads_poll s r w : reads s → nv_poll (nv s) = (r, w) → (nv_lag w < lag s)%nat ∧
  match r with
  | Some (c, _) => is_read c
  | None => reads (set_nv (λ _, w) s)
  end.
Proof.
  intros Hs Hp. pose proof (nv_poll_progress _ _ _ Hp (proj2 (rd_pending _ Hs))) as Hlt.
  split; [done|]. destruct r as [[c e]|].
  - destruct (rd_pending _ Hs) as [Hr _]. rewrite (nv_poll_some _ _ _ _ Hp) in Hr.
    by apply Forall_cons in Hr as [? _].
  - destruct Hs as [Ho Ha Hpd Hq Hc]. rewrite <-(nv_poll_none _ _ Hp) in Hpd, Hq, Hc.
    by split; [|destruct Ha|..].
Qed.

(** One call of the polling function, whatever the loop inside would do. *)
Lemma deliver_reads n s : reads s → ∃ s',
  (∀ loop, deliver (callback loop) n s = Done tt s') ∧
  (reads s' ∧ (lag s' ≤ lag s)%nat ∧ ((0 < n)%nat → (lag s' < lag s)%nat) ∨ stuck s').
Proof.
  revert s. induction n as [|n IH]; intros s Hs.
  { exists s. split; [done|]. left. split_and!; [done|lia|lia]. }
  destruct (nv_poll (nv s)) as [r w] eqn:Hp.
  destruct (reads_poll _ _ _ Hs Hp) as [Hlt Hr].
  assert (∀ loop, deliver (callback loop) (S n) s =
    match r with
    | None => Done tt (set_nv (λ _, w) s)
    | Some (c, err) => (callback loop c err;; s ← get;
        if qpair_open s then deliver (callback loop) n else skip) (set_nv (λ _, w) s)
    end) as Hstep.
  { intros loop. simpl. unfold mbind at 1, M_bind at 1.
    rewrite (poll_step s r w); [by destruct r as [[]|]|apply Hs|done]. }
  destruct r as [[c e]|].
  - destruct c as [|lba|]; try done.
    destruct (nv_read_complete_spec lba e s w Hs Hp) as (s1&Hd&Hnv&Hcase).
    destruct Hcase as [Hr1|Hst1].
    + rewrite (rd_open _ Hr1) in Hnv. destruct (IH s1 Hr1) as (s2&Hd2&Hcase). exists s2. split.
      * intros loop. rewrite Hstep. simpl. unfold mbind, M_bind. rewrite Hd. simpl.
        by rewrite (rd_open _ Hr1).
      * rewrite Hnv in Hcase. destruct Hcase as [(?&?&_)|?]; [left|by right].
        split_and!; [done|lia|lia].
    + exists s1. split; [|by right]. intros loop. rewrite Hstep. simpl.
      unfold mbind, M_bind. rewrite Hd. simpl. by destruct Hst1 as [-> _].
  - exists (set_nv (λ _, w) s). split; [done|]. left. simpl. split_and!; [done|lia|lia].
Qed.

Lemma poll_loop_step fuel s s' : num_queued s ≠ 0 → qpair_open s = true →
  deliver (callback (poll_loop fuel)) (nv_budget (nv s)) s = Done tt s' →
  poll_loop (S fuel) s = poll_loop fuel s'.
Proof.
  intros Hq Ho Hd. simpl. unfold mbind, M_bind. simpl. rewrite decide_False by done.
  unfold process_completions, mbind, M_bind. simpl. by rewrite Ho, Hd.
Qed.

(** The loop over the reads cannot end. *)
Lemma reads_crash s : reads s → crashes poll_loop s.
Proof.
  remember (lag s) as k eqn:Hk. revert s Hk. induction (lt_wf k) as [k _ IH]. intros s -> Hs.
  destruct (deliver_reads (nv_budget (nv s)) s Hs) as (s'&Hd&Hcase).
  assert (crashes poll_loop s') as [n Hn].
  { destruct Hcase as [(Hr&_&Hlt)|Hst]; [|by apply stuck_crashes].
    eapply IH; [apply Hlt, nv_budget_pos|done|done]. }
  exists (S n). intros [|fuel] Hf; [lia|].
  rewrite (poll_loop_step _ s s'); [apply Hn; lia| |apply Hs|done].
  pose proof (rd_queued _ Hs). lia.
Qed.

(** ** The appends *)
Context (Htakes : takes) (Happ : appends_succeed) (Hzone : 0 < zone_size).

Lemma submit_each_spec mk l s : qpair_open s = true → ∃ w,
  submit_each mk l s = Done true (set_queued (λ n, n + Z.of_nat (length l)) (set_nv (λ _, w) s)) ∧
  nv_pending w = pending s ++ (mk <$> l).
Proof.
  revert s. induction l as [|x l IH]; intros s Ho.
  { exists (nv s). destruct s. simpl. rewrite app_nil_r. split; [|done].
    unfold set_queued, set_nv. simpl. by rewrite Z.add_0_r. }
  destruct (nv_submit (mk x) (nv s)) as [rc w1] eqn:Hs.
  pose proof (Htakes _ _ _ _ Hs) as ->. pose proof (nv_submit_ok _ _ _ Hs) as Hp1.
  destruct (IH (set_nv (λ _, w1) (set_queued (Z.add 1) s)) Ho) as (w&Hw&Hp).
  exists w. simpl in Hp. rewrite Hp, Hp1. split; [|by rewrite <-app_assoc].
  simpl. unfold on_qpair, mbind, M_bind. simpl. rewrite Ho, Hs. simpl.
  rewrite Hw. f_equal. destruct s. unfold set_queued, set_nv. simpl. f_equal. lia.
Qed.

Lemma slbas_two : slbas = [0; zone_size].
Proof. unfold slbas. rewrite decide_True by done. simpl. f_equal. f_equal. lia. Qed.

(** The reads are started on an idle queue pair. *)
Lemma read_zone_crashes s : qpair_open s = true → allocated s → pending s = [] →
  num_queued s = 0 → crashes (λ fuel, read_zone (poll_loop fuel)) s.
Proof.
  intros Ho [[b Hb] [b' Hb']] Hp Hq.
  set (s0 := set_nv (memset_buffer b' 0x34) (set_queued (Z.add 1) (set_zcount (λ _, 0) s))).
  destruct (submit_each_spec nv_read slbas s0 Ho) as (w&Hw&Hpw).
  destruct (reads_crash (set_queued (λ n, n + Z.of_nat (length slbas)) (set_nv (λ _, w) s0)))
    as [n Hn].
  - simpl in Hpw. rewrite memset_pending, Hp, slbas_two in Hpw.
    split; simpl; rewrite ?Hpw, ?slbas_two; try done; simpl; [|lia].
    split; [|done]. by repeat constructor.
  - exists n. intros fuel Hf. unfold read_zone, buffers, mbind, M_bind.
    cbn -[submit_each poll_loop slbas]. rewrite Hb, Hb'.
    cbn -[submit_each poll_loop slbas]. fold s0. rewrite Hw. by apply Hn.
Qed.

(** One completed append: the next one is awaited, or the reads begin. *)
Lemma append_complete_spec slba s w : appends s →
  nv_poll (nv s) = (Some (nv_append slba, false), w) →
  (∃ s', (∀ loop, write_zone_complete loop false (set_nv (λ _, w) s) = Done tt s') ∧
    appends s' ∧ nv s' = w) ∨
  crashes (λ fuel, write_zone_complete (poll_loop fuel) false) (set_nv (λ _, w) s).
Proof.
  intros [Ho Ha [Hr _] Hq Hc] Hp. pose proof (nv_poll_some _ _ _ _ Hp) as Hperm.
  assert (Forall is_append (nv_pending w)) as Hr'.
  { rewrite Hperm in Hr. by apply Forall_cons in Hr as [_ ?]. }
  pose proof (Permutation_length Hperm) as Hlen. simpl in Hlen. rewrite Hlen in Hq, Hc.
  set (s1 := set_queued (λ n, n - 1) (set_success (Z.add 1) (set_zcount (λ n, n - 1)
    (set_completed (Z.add 1) (set_nv (λ _, w) s))))).
  assert (∀ loop, write_zone_complete loop false (set_nv (λ _, w) s) =
    (if decide (zcount s1 = 0) then read_zone loop else skip) s1) as Heq by done.
  destruct (nv_pending w) as [|c l] eqn:Hw.
  - right. destruct (read_zone_crashes s1) as [n Hn]; [done|by destruct Ha|done|..].
    { simpl. simpl in Hq. lia. }
    exists n. intros fuel Hf. rewrite Heq, decide_True; [by apply Hn|]. simpl. simpl in Hc. lia.
  - left. exists s1. split.
    + intros loop. rewrite Heq, decide_False; [done|]. simpl. simpl in Hc. lia.
    + split; [|done]. split; simpl; rewrite ?Hw; simpl in *; try done; [by destruct Ha|lia|lia].
Qed.

Lemma deliver_appends n s : appends s →
  (∃ s', (∀ loop, deliver (callback loop) n s = Done tt s') ∧ appends s' ∧
     (lag s' ≤ lag s)%nat ∧ ((0 < n)%nat → (lag s' < lag s)%nat)) ∨
  crashes (λ fuel, deliver (callback (poll_loop fuel)) n) s.
Proof.
  revert s. induction n as [|n IH]; intros s Hs.
  { left. exists s. split_and!; [done|done|lia|lia]. }
  destruct (nv_poll (nv s)) as [r w] eqn:Hp.
  pose proof (nv_poll_progress _ _ _ Hp (proj2 (ap_pending _ Hs))) as Hlt.
  assert (∀ loop, deliver (callback loop) (S n) s =
    match r with
    | None => Done tt (set_nv (λ _, w) s)
    | Some (c, err) => (callback loop c err;; s ← get;
        if qpair_open s then deliver (callback loop) n else skip) (set_nv (λ _, w) s)
    end) as Hstep.
  { intros loop. simpl. unfold mbind at 1, M_bind at 1.
    rewrite (poll_step s r w); [by destruct r as [[]|]|apply Hs|done]. }
  destruct r as [[c e]|].
  - assert (is_append c) as Hc.
    { destruct (ap_pending _ Hs) as [Hr _]. rewrite (nv_poll_some _ _ _ _ Hp) in Hr.
      by apply Forall_cons in Hr as [? _]. }
    destruct c as [slba| |]; try done. pose proof (Happ _ _ _ _ Hp) as ->.
    destruct (append_complete_spec slba s w Hs Hp) as [(s1&Hd&Hs1&Hnv)|[m Hm]].
    + destruct (IH s1 Hs1) as [(s2&Hd2&?&?&_)|[m Hm]]; [left|right].
      * exists s2. rewrite Hnv in *. split_and!; [|done|lia|lia]. intros loop.
        rewrite Hstep. simpl. unfold mbind, M_bind. rewrite Hd. simpl.
        by rewrite (ap_open _ Hs1).
      * exists m. intros fuel Hf. rewrite Hstep. simpl. unfold mbind, M_bind. rewrite Hd.
        simpl. rewrite (ap_open _ Hs1). by apply Hm.
    + right. exists m. intros fuel Hf. rewrite Hstep. simpl. unfold mbind, M_bind.
      by rewrite Hm.
  - left. exists (set_nv (λ _, w) s). simpl. split_and!; [done| |lia|lia].
    destruct Hs as [Ho Ha Hpd Hq Hc]. rewrite <-(nv_poll_none _ _ Hp) in Hpd, Hq, Hc.
    by split; [|destruct Ha|..].
Qed.

Lemma appends_crash s : appends s → crashes poll_loop s.
Proof.
  remember (lag s) as k eqn:Hk. revert s Hk. induction (lt_wf k) as [k _ IH]. intros s -> Hs.
  assert (num_queued s ≠ 0) as Hq.
  { rewrite (ap_queued _ Hs). destruct (ap_pending _ Hs) as [_ Hn].
    destruct (pending s); simpl; [done|lia]. }
  destruct (deliver_appends (nv_budget (nv s)) s Hs) as [(s'&Hd&Hs'&_&Hlt)|[n Hn]].
  - destruct (IH (lag s') (Hlt (nv_budget_pos _)) s' eq_refl Hs') as [n Hn].
    exists (S n). intros [|fuel] Hf; [lia|].
    rewrite (poll_loop_step _ s s'); [apply Hn; lia|done|apply Hs|done].
  - exists (S n). intros [|fuel] Hf; [lia|]. simpl. unfold mbind, M_bind. simpl.
    rewrite decide_False by done. unfold process_completions, mbind, M_bind. simpl.
    rewrite (ap_open _ Hs). by rewrite Hn by lia.
Qed.
End props.

(** (C26) When everything goes well, [zns_nvme_test.cc] polls a queue pair that it has
    released: on every driver that takes its commands and completes both appends, in any
    order and whatever the reads return, the test neither ends nor waits for ever but calls
    [spdk_nvme_qpair_process_completions] on the freed queue pair.  The increment of
    [num_queued] at the start of [read_zone] has no counterpart. *)
Theorem test_polls_freed_qpair {W} `{!NvLib W} `{!NvView W} `{!NvLaws W} (s : zctx W) :
  takes (W := W) → appends_succeed (W := W) → 0 < zone_size →
  qpair_open s = true → is_Some (write_buff s) → is_Some (read_buff s) →
  nv_pending (nv s) = [] → num_queued s = 0 →
  ∃ n, ∀ fuel, (n ≤ fuel)%nat → write_zone (poll_loop fuel) s = Undef.
Proof.
  intros Ht Ha Hz Ho [b Hb] [b' Hb'] Hp Hq.
  set (s0 := set_nv (memset_buffer b 0x12) (set_zcount (λ _, zone_num * 1) s)).
  destruct (submit_each_spec Ht nv_append slbas s0 Ho) as (w&Hw&Hpw).
  destruct (appends_crash Ht Ha Hz
    (set_queued (λ n, n + Z.of_nat (length slbas)) (set_nv (λ _, w) s0))) as [n Hn].
  - simpl in Hpw. rewrite memset_pending, Hp, slbas_two in Hpw by done.
    split; simpl; rewrite ?Hpw, ?slbas_two by done; try done; simpl; [|by rewrite Hq].
    split; [|done]. by repeat constructor.
  - exists n. intros fuel Hf. unfold write_zone, buffers, mbind, M_bind.
    cbn -[submit_each poll_loop slbas]. rewrite Hb, Hb'.
    cbn -[submit_each poll_loop slbas]. fold s0. rewrite Hw. by apply Hn.
Qed.

(** ** A simulated driver: commands complete in order, the contents are the block's byte *)
Record nv_sim := NvSim { sv_pending : list nv_cmd; sv_bytes : Z * Z }.

#[export] Instance nv_sim_lib : NvLib nv_sim := {
  zone_size := 0x80000;
  nv_submit c w := (0, NvSim (sv_pending w ++ [c]) (sv_bytes w));
  nv_budget w := 4%nat;
  nv_poll w := match sv_pending w with
    | [] => (None, w)
    | c :: l => (Some (c, false), NvSim l (match c with
        | nv_read _ => ((sv_bytes w).1, (sv_bytes w).1) | _ => sv_bytes w end))
    end;
  nv_free_qpair w := w;
  nv_detach w := w;
  nv_zmalloc w := (Some 1, w);
  memset_buffer b x w := NvSim (sv_pending w)
    (if decide (b = 1) then (x, (sv_bytes w).2) else ((sv_bytes w).1, x));
  memcmp_buffers b b' w := bool_decide ((sv_bytes w).1 = (sv_bytes w).2);
}.
#[export] Instance nv_sim_view : NvView nv_sim := {
  nv_pending := sv_pending; nv_lag w := length (sv_pending w) }.
#[export] Instance nv_sim_laws : NvLaws nv_sim.
Proof.
  split; simpl; try done; try lia.
  - by intros c w w' [= <-].
  - intros [[|c0 l] ?] c e w'; simpl; [done|]. by intros [= <- <- <-].
  - intros [[|c0 l] ?] w'; simpl; [by intros [= <-]|done].
  - intros [[|c0 l] ?] r w'; simpl; [done|]. intros [= <- <-] _. simpl. lia.
Qed.

Definition nv_demo : zctx nv_sim :=
  ZCtx (NvSim [] (0, 0)) true (Some 1) (Some 2) 0 0 0 0 0 [].

Lemma test_polls_freed_qpair_witness : ∃ n, ∀ fuel, (n ≤ fuel)%nat →
  write_zone (poll_loop fuel) nv_demo = Undef.
Proof.
  apply test_polls_freed_qpair; try reflexivity; try (by eexists).
  - by intros c w w' rc [= <- _].
  - intros slba e [[|c l] ?] w'; simpl; [done|]. by intros [= _ <- _].
Defined.
