(* ===== verification/Civet.v ===== *)
(** * The embedded web server

    [embedded_cpp.cpp]: handlers on Civetweb.  Three of them are registered; the others,
    [FooHandler] with its copies of request bodies among them, are not, and the web socket
    is not compiled.  Civetweb and the file system are a class of operations on an
    environment: what they return and what they leave. *)
From S2P Require Import Prelude.
Local Open Scope string_scope.
Local Open Scope Z_scope.

(** [mg_print] is [mg_printf], whose result is ignored.  [mg_read n] and [mg_write] return a
    number of bytes, the first also the bytes.  [mg_route] is the choice of a handler among
    the registered paths. *)
Class CivetLib (W : Type) := {
  mg_print : string → W → W;
  mg_read : Z → W → (Z * list ascii) * W;
  mg_write : list ascii → W → Z * W;
  mg_route : list string → string → option nat;
  file_open : string → W → bool * W;
  file_write : list ascii → W → Z * W;
  file_close : W → W;
}.

(** [mg_request_info], and the parameter [param] of the query. *)
Record request_info := RequestInfo {
  request_method : string;
  request_uri : string;
  http_version : string;
  local_uri : string;
  remote_user : option string;
  content_length : Z;
  param : option string;
}.

Definition DOCUMENT_ROOT : string := ".".
Definition PORT : string := "2000".
Definition EXAMPLE_URI : string := "/example".
Definition EXIT_URI : string := "/exit".

(** The texts of the program: an apostrophe stands for a quotation mark. *)
Fixpoint quoted (s : string) : string :=
  match s with
  | EmptyString => ""
  | String c s' => String (if decide (c = "'"%char) then "034"%char else c) (quoted s')
  end.
Definition newline : string := String "010" "".
Definition crlf : string := String "013" newline.
Definition head_200 (content_type : string) : string :=
  "HTTP/1.1 200 OK" ++ crlf ++ "Content-Type: " ++ content_type ++ crlf ++
  "Connection: close" ++ crlf ++ crlf.
Definition head_plain (status : string) : string :=
  "HTTP/1.1 " ++ status ++ crlf ++ "Content-Type: text/plain" ++ crlf ++
  "Connection: close" ++ crlf ++ crlf.

(** ** What the handlers print *)
Definition example_page : list string := [head_200 "text/html";
  "<html><body>" ++ crlf;
  "<h2>This is an example text from a C++ handler</h2>" ++ crlf;
  quoted "<p>To see a page from the A handler <a href='a'>click here</a></p>" ++ crlf;
  quoted ("<form action='a' method='get'>To see a page from the A handler with a parameter "
    ++ "<input type='submit' value='click here' name='param' \> (GET)</form>") ++ crlf;
  quoted ("<form action='a' method='post'>To see a page from the A handler with a parameter "
    ++ "<input type='submit' value='click here' name='param' \> (POST)</form>") ++ crlf;
  quoted "<p>To see a page from the A/B handler <a href='a/b'>click here</a></p>" ++ crlf;
  quoted "<p>To see a page from the *.foo handler <a href='xy.foo'>click here</a></p>"
    ++ crlf;
  quoted "<p>To see a page from the WebSocket handler <a href='ws'>click here</a></p>"
    ++ crlf;
  quoted "<p>To exit <a href='" ++ EXIT_URI ++ quoted "'>click here</a></p>" ++ crlf;
  "</body></html>" ++ crlf].

Definition exit_page : list string := [head_200 "text/plain"; "Bye!" ++ newline].

Definition a_page_head (method : string) : list string :=
  [head_200 "text/html"; "<html><body>";
   quoted "<h2>This is the A handler for '" ++ method ++ quoted "' !</h2>"].
Definition a_page_param (x : string) : string := "<p>param set to " ++ x ++ "</p>".
Definition a_page_no_param : string := "<p>param not set</p>".
Definition a_page_tail : string := "</body></html>" ++ newline.

(** The exit flag and the environment. *)
Record civet (W : Type) := CivetState { cv : W; exitNow : bool }.
Arguments CivetState {W} _ _.
Arguments cv {W} _.
Arguments exitNow {W} _.

(** The size of [buf]. *)
Definition buf_size : Z := 1024.

Section civet.
Context {W : Type} `{!CivetLib W}.
Implicit Types (s : civet W).
Local Abbreviation M := (M (civet W)).

Definition cv_call {A} (f : W → A * W) : M A := λ s,
  let '(a, w) := f (cv s) in Done a (CivetState w (exitNow s)).
Definition cv_effect (f : W → W) : M () := modify (λ s, CivetState (f (cv s)) (exitNow s)).
Definition say (t : string) : M () := cv_effect (mg_print t).
Definition says (l : list string) : M () := foreach l say.

(** ** The handlers: the result tells whether the request has been handled *)
Definition ExampleHandler_handleGet (req : request_info) : M bool := says example_page;; mret true.

Definition ExitHandler_handleGet (req : request_info) : M bool :=
  says exit_page;;
  modify (λ s, CivetState (cv s) true);;
  mret true.

Definition Handler_handleAll (method : string) (req : request_info) : M bool :=
  says (a_page_head method);;
  say (match param req with Some x => a_page_param x | None => a_page_no_param end);;
  say a_page_tail;;
  mret true.

(** [AHandler] repeats [Handler]. *)
Definition AHandler_handleAll (method : string) (req : request_info) : M bool :=
  Handler_handleAll method req.

Definition ABHandler_handleGet (req : request_info) : M bool :=
  says [head_200 "text/html"; "<html><body>"; "<h2>This is the AB handler!!!</h2>";
    "</body></html>" ++ newline];;
  mret true.

Definition request_line (req : request_info) : string :=
  "<p>The request was:<br><pre>" ++ request_method req ++ " " ++ request_uri req ++ " HTTP/"
    ++ http_version req ++ "</pre></p>" ++ newline.

Definition FooHandler_handleGet (req : request_info) : M bool :=
  says [head_200 "text/html"; "<html><body>" ++ newline;
    "<h2>This is the Foo GET handler!!!</h2>" ++ newline; request_line req;
    "</body></html>" ++ newline];;
  mret true.

(** The loop that copies the body to [out], [buf_size] bytes at a time: whether it has
    reached the end. *)
Fixpoint copy_body (out : list ascii → W → Z * W) (fuel : nat) (tlen nlen : Z) : M bool :=
  if decide (nlen < tlen) then
    match fuel with
    | O => λ _, Spin
    | S fuel' =>
        let rlen := tlen - nlen in
        let rlen := if decide (rlen > buf_size) then buf_size else rlen in
        r ← cv_call (mg_read rlen);
        if decide (r.1 ≤ 0) then mret false else
        wlen ← cv_call (out r.2);
        if decide (wlen ≠ r.1) then mret false else copy_body out fuel' tlen (nlen + wlen)
    end
  else mret true.

Definition FooHandler_handlePost (fuel : nat) (req : request_info) : M bool :=
  let tlen := content_length req in
  says [head_200 "text/html"; "<html><body>" ++ newline;
    "<h2>This is the Foo POST handler!!!</h2>" ++ newline; request_line req;
    "<p>Content Length: " ++ (if decide (tlen < 0) then "-" else "") ++
      digits 20 (Z.abs tlen) "" ++ "</p>" ++ newline;
    "<pre>" ++ newline];;
  _ ← copy_body mg_write fuel tlen 0;
  says [newline ++ "</pre>" ++ newline; "</body></html>" ++ newline];;
  mret true.

(** [snprintf] into [buf]: a null user is undefined, a long path is cut. *)
Definition put_path (user local : string) : string :=
  String.substring 0 1023 ("~/somewhere/" ++ user ++ "/" ++ local).

Definition FooHandler_handlePut (fuel : nat) (req : request_info) : M bool :=
  let tlen := content_length req in
  user ← of_option (remote_user req);
  let buf := put_path user (local_uri req) in
  opened ← (if decide (1020 < Z.of_nat (String.length buf)) then mret false
            else cv_call (file_open buf));
  ok ← (if opened : bool then
          ok ← copy_body file_write fuel tlen 0; cv_effect file_close;; mret ok
        else mret false);
  say (if ok : bool then head_plain "201 Created" else head_plain "409 Conflict");;
  mret true.

Definition WsStartHandler_handleGet (req : request_info) : M bool :=
  says [head_200 "text/html"; "<!DOCTYPE html>" ++ newline;
    "<html>" ++ newline ++ "<head>" ++ newline;
    quoted "<meta charset='UTF-8'>" ++ newline;
    "<title>Embedded websocket example</title>" ++ newline;
    "</head>" ++ newline ++ "<body>" ++ newline;
    "Example not compiled with USE_WEBSOCKET" ++ newline;
    "</body>" ++ newline ++ "</html>" ++ newline];;
  mret true.

(** ** [main]

    The registered paths with their handlers for GET and POST; other methods have the
    default handler of Civetweb, which does nothing.  The loop of [main] ends with the
    flag. *)
Definition handlers : list (string * (request_info → M bool) * option (request_info → M bool)) :=
  [(EXAMPLE_URI, ExampleHandler_handleGet, None);
   (EXIT_URI, ExitHandler_handleGet, None);
   ("", Handler_handleAll "GET", Some (Handler_handleAll "POST"))].

Definition registered : list string := (λ h, h.1.1) <$> handlers.

Definition serve_request (req : request_info) : M bool :=
  match mg_route registered (request_uri req) ≫= λ i, handlers !! i with
  | None => mret false
  | Some (_, get, post) =>
      if decide (request_method req = "GET") then get req else
      if decide (request_method req = "POST")
      then match post with Some post => post req | None => mret false end
      else mret false
  end.

Fixpoint serve_all (l : list request_info) : M () :=
  match l with [] => skip | req :: l' => serve_request req;; serve_all l' end.

Definition civet_start (w : W) : civet W := CivetState w false.
End civet.
