(* ===== verification/CivetProps.v ===== *)
(** * Properties of the embedded web server *)
From S2P Require Import Prelude Civet.
Local Open Scope string_scope.
Local Open Scope Z_scope.

(** ** Civetweb and a file

    [unread w] is what is left of the body of the request, [accepted w] the bytes that
    [fwrite] has accepted since the last [fopen] (what becomes of them when the file is
    closed is not said, and the program does not ask), [answered w] what has been printed to
    the client. *)
Class CivetLaws (W : Type) `{!CivetLib W} := {
  unread : W → list ascii;
  accepted : W → list ascii;
  answered : W → list string;
  print_law t w : unread (mg_print t w) = unread w ∧ accepted (mg_print t w) = accepted w ∧
    answered (mg_print t w) = (answered w ++ [t])%list;
  read_law n w r data w' : mg_read n w = ((r, data), w') →
    (0 ≤ n → r ≤ n) ∧ accepted w' = accepted w ∧ answered w' = answered w ∧
    (0 < r → Z.of_nat (length data) = r ∧ unread w = (data ++ unread w')%list);
  open_law p w b w' : file_open p w = (b, w') → unread w' = unread w ∧
    answered w' = answered w ∧ (b = true → accepted w' = []);
  write_law data w n w' : file_write data w = (n, w') → unread w' = unread w ∧
    answered w' = answered w ∧
    (n = Z.of_nat (length data) → accepted w' = (accepted w ++ data)%list);
  close_law w : unread (file_close w) = unread w ∧ answered (file_close w) = answered w ∧
    accepted (file_close w) = accepted w;
}.

Section put.
Context {W : Type} `{!CivetLib W} `{!CivetLaws W}.
Implicit Types (s : civet W).

Lemma wp_cv_call {A} (f : W → A * W) Q E s :
  (∀ a w, f (cv s) = (a, w) → Q a (CivetState w (exitNow s))) → wp (cv_call f) Q E s.
Proof. intros Hf. unfold wp, cv_call. destruct (f (cv s)) eqn:Hw. by apply Hf. Qed.

(** [data] has gone from the body of the request to the file. *)
Definition moved (data : list ascii) (s s' : civet W) : Prop :=
  unread (cv s) = (data ++ unread (cv s'))%list ∧
  accepted (cv s') = (accepted (cv s) ++ data)%list ∧
  answered (cv s') = answered (cv s) ∧ exitNow s' = exitNow s.

(** The loop ends; it has reached the end only if all of the body has been accepted. *)
Lemma copy_body_spec fuel tlen nlen s : (Z.to_nat (tlen - nlen) ≤ fuel)%nat →
  wp (copy_body file_write fuel tlen nlen) (λ ok s',
    answered (cv s') = answered (cv s) ∧
    (ok = true → ∃ data, Z.of_nat (length data) = Z.max 0 (tlen - nlen) ∧ moved data s s'))
    (λ _ _, False) s.
Proof.
  revert nlen s. induction fuel as [|fuel IH]; intros nlen s Hf; cbn [copy_body];
    case_decide as Hlt; try lia.
  1,3: apply wp_ret; split; [done|]; intros _; exists []; split; [simpl; lia|];
    unfold moved; by rewrite app_nil_r.
  set (rlen := if decide (tlen - nlen > buf_size) then buf_size else tlen - nlen).
  assert (0 < rlen ≤ tlen - nlen) as Hr by (unfold rlen, buf_size; case_decide; lia).
  apply wp_bind, wp_cv_call. intros [r data] w1 Hread. simpl.
  destruct (read_law _ _ _ _ _ Hread) as (Hle&Hst1&Han1&Hdata).
  case_decide as Hz; [by apply wp_ret|].
  destruct Hdata as [Hlen Hun]; [lia|]. apply wp_bind, wp_cv_call. intros n w2 Hwr. simpl in *.
  destruct (write_law _ _ _ _ Hwr) as (Hun2&Han2&Hst2).
  case_decide as Hne; [apply wp_ret; simpl; split; [congruence|done]|].
  assert (n = r) as -> by lia.
  eapply wp_weaken; [apply IH; lia|]. simpl. intros ok s' [Han Hok]. split; [congruence|].
  intros (data'&Hlen'&Hu&Hs&Ha&He)%Hok. simpl in *. exists (data ++ data')%list.
  rewrite length_app. split; [lia|]. unfold moved.
  rewrite Hun, <-Hun2, Hu, Hs, Hst2, Hst1, <-!app_assoc by lia. split_and!; congruence.
Qed.

(** The path is used only when nothing has been cut off. *)
Lemma put_path_whole user local : Z.of_nat (String.length (put_path user local)) ≤ 1020 →
  put_path user local = "~/somewhere/" ++ user ++ "/" ++ local.
Proof.
  unfold put_path. generalize ("~/somewhere/" ++ user ++ "/" ++ local). intros t Ht.
  assert (∀ n t, (String.length (String.substring 0 n t) < n)%nat → String.substring 0 n t = t)
    as Hcut.
  { clear. induction n as [|n IH]; intros t; [lia|]. destruct t as [|c t]; [done|]. simpl.
    intros Hl. f_equal. apply IH. lia. }
  apply Hcut. lia.
Qed.
End put.

(** [FooHandler], which is not registered, would acknowledge a PUT only when [fwrite] has
    accepted exactly the bytes that the request announced. *)
Lemma put_acknowledges_accepted {W} `{!CivetLib W} `{!CivetLaws W} req user (s : civet W) :
  remote_user req = Some user →
  ∃ n, ∀ fuel, (n ≤ fuel)%nat → wp (FooHandler_handlePut fuel req) (λ handled s',
    handled = true ∧
    (answered (cv s') = (answered (cv s) ++ [head_plain "409 Conflict"])%list ∨
     answered (cv s') = (answered (cv s) ++ [head_plain "201 Created"])%list ∧
     ∃ rest, unread (cv s) = (accepted (cv s') ++ rest)%list ∧
       Z.of_nat (length (accepted (cv s'))) = Z.max 0 (content_length req)))
    (λ _ _, False) s.
Proof.
  intros Hu. exists (Z.to_nat (content_length req)). intros fuel Hf.
  unfold FooHandler_handlePut. apply wp_bind. eapply wp_of_option; [done|].
  apply wp_bind.
  apply (wp_weaken _ (λ opened s', unread (cv s') = unread (cv s) ∧
    answered (cv s') = answered (cv s) ∧ (opened = true → accepted (cv s') = []))).
  { case_decide; [by apply wp_ret|]. apply wp_cv_call. intros b w Ho. simpl.
    by eapply open_law. }
  intros opened s1 (Hun1&Han1&Hst1). apply wp_bind.
  apply (wp_weaken _ (λ ok s', answered (cv s') = answered (cv s) ∧ (ok = true →
    ∃ rest, unread (cv s) = (accepted (cv s') ++ rest)%list ∧
      Z.of_nat (length (accepted (cv s'))) = Z.max 0 (content_length req)))).
  - destruct opened; [|by apply wp_ret]. apply wp_bind.
    eapply wp_weaken; [apply copy_body_spec; lia|]. intros ok s2 [Han2 Hok].
    apply wp_seq, wp_modify, wp_ret. simpl.
    destruct (close_law (cv s2)) as (_&->&->). split; [congruence|].
    intros (data&Hlen&Hun&Hst&_)%Hok. rewrite Hst1 in Hst by done.
    exists (unread (cv s2)). rewrite <-Hun1, Hun, Hst. split; [done|]. simpl. lia.
  - intros ok s2 [Han2 Hok]. apply wp_seq, wp_modify, wp_ret. split; [done|]. simpl.
    destruct (print_law (if ok then head_plain "201 Created" else head_plain "409 Conflict")
      (cv s2)) as (_&->&->). rewrite Han2. destruct ok; [right|by left].
    split; [done|]. by apply Hok.
Qed.

(** Without authentication Civetweb gives no user: the path is built from a null pointer. *)
Lemma put_without_user_undefined {W} `{!CivetLib W} fuel req (s : civet W) :
  remote_user req = None → FooHandler_handlePut fuel req s = Undef.
Proof. intros Hu. unfold FooHandler_handlePut, mbind, M_bind. by rewrite Hu. Qed.

(** ** The exit flag *)
Section flag.
Context {W : Type} `{!CivetLib W}.
Implicit Types (s : civet W).






End flag.



(** ** A connection with one request and one file *)
Record sim_conn := SimConn {
  sc_body : list ascii; sc_file : list ascii; sc_out : list string }.

#[export] Instance sim_civet : CivetLib sim_conn := {
  mg_print t w := SimConn (sc_body w) (sc_file w) (sc_out w ++ [t]);
  mg_read n w := ((Z.of_nat (length (take (Z.to_nat n) (sc_body w))),
    take (Z.to_nat n) (sc_body w)), SimConn (drop (Z.to_nat n) (sc_body w)) (sc_file w) (sc_out w));
  mg_write d w := (Z.of_nat (length d), w);
  mg_route l u := fst <$> list_find (λ p, p = u ∨ p = "") l;
  file_open p w := (true, SimConn (sc_body w) [] (sc_out w));
  file_write d w := (Z.of_nat (length d), SimConn (sc_body w) (sc_file w ++ d) (sc_out w));
  file_close w := w;
}.

#[export] Program Instance sim_civet_laws : CivetLaws sim_conn :=
  {| unread := sc_body; accepted := sc_file; answered := sc_out |}.
Next Obligation. done. Qed.
Next Obligation.
  intros n w r d w' [= <- <- <-]. simpl. split_and!; [|done|done|].
  - rewrite length_take. lia.
  - intros _. by rewrite take_drop.
Qed.
Next Obligation. by intros p w b w' [= <- <-]. Qed.
Next Obligation. by intros d w n w' [= <- <-]. Qed.
Next Obligation. done. Qed.

Definition demo_put : request_info :=
  RequestInfo "PUT" "/f" "1.1" "f" (Some "user") 3 None.

Definition demo_conn : civet sim_conn :=
  civet_start (SimConn ["a"; "b"; "c"; "d"]%char [] []).

Lemma put_acknowledges_accepted_witness : ∃ n, ∀ fuel, (n ≤ fuel)%nat →
  wp (FooHandler_handlePut fuel demo_put) (λ handled s',
    handled = true ∧
    (answered (cv s') = (answered (cv demo_conn) ++ [head_plain "409 Conflict"])%list ∨
     answered (cv s') = (answered (cv demo_conn) ++ [head_plain "201 Created"])%list ∧
     ∃ rest, unread (cv demo_conn) = (accepted (cv s') ++ rest)%list ∧
       Z.of_nat (length (accepted (cv s'))) = Z.max 0 (content_length demo_put)))
    (λ _ _, False) demo_conn.
Proof. apply (put_acknowledges_accepted demo_put "user" demo_conn). reflexivity. Defined.

(** The file that the witness speaks about. *)
Example demo_put_stores :
  match FooHandler_handlePut 5 demo_put demo_conn with
  | Done _ s => sc_file (cv s) = ["a"; "b"; "c"]%char ∧ sc_out (cv s) = [head_plain "201 Created"]
  | _ => False
  end.
Proof. split; reflexivity. Qed.
