(* ===== verification/RingBuffer.v ===== *)
(** * The ring buffer test

    [rdma/circular_buffer_server.cc] and [rdma/circular_buffer_client.cc]: the server offers
    a "magic" buffer, whose second half is mapped to the same memory as the first, and the
    client writes into it, last across the end of the first half.  Endpoints and buffers are
    those of the kym library, which is not in the repository: operations on an environment,
    with [false] or [None] for a status that is not ok. *)
From S2P Require Import Prelude.
Local Open Scope string_scope.
Local Open Scope Z_scope.

(** What the server tells the client when they connect. *)
Record cinfo := Cinfo { magic_key : Z; magic_addr : Z }.

(** [reg_mr addr len remote] registers a region for local, or local and remote writes, and
    gives its handle and its key; without memory it gives a null handle. *)
Class Kym (W : Type) := {
  kym_listen : string → Z → W → bool * W;
  kym_dial : string → Z → W → bool * W;
  magic_buffer : Z → W → option Z * W;
  free_magic_buffer : Z → Z → W → W;
  kym_malloc : Z → W → Z * W;
  kym_free : Z → W → W;
  reg_mr : Z → Z → bool → W → option (Z * Z) * W;
  dereg_mr : Z → W → W;
  kym_accept : cinfo → W → bool * W;
  connection_info : W → cinfo;
  post_recv : Z → Z → Z → Z → W → bool * W;
  poll_recv : W → bool * W;
  post_write : Z → Z → Z → Z → Z → Z → W → bool * W;
  poll_send : W → bool * W;
  post_immediate : Z → Z → W → bool * W;
  close_endpoint : W → bool * W;
  close_listener : W → bool * W;
}.

Definition ring_ip : string := "12.12.12.1".
Definition server_port : Z := 8987.
Definition client_port : Z := 8982.
Definition ring_size : Z := 4 * 1024 * 1024.

(** ** The server *)
Section server.
Context {W : Type} `{!Kym W}.

Definition kcall {A} (f : W → A * W) : M W A := λ w, let '(a, w') := f w in Done a w'.

(** From the listener to the connection information: with it come the buffer and the
    handle of its region. *)
Definition server_offer : M W (option (cinfo * Z * Z)) :=
  ok ← kcall (kym_listen ring_ip server_port);
  if negb ok then mret None else
  magic ← kcall (magic_buffer ring_size);
  match magic with
  | None => mret None
  | Some magic =>
      mr ← kcall (reg_mr magic (2 * ring_size) true);
      mr ← of_option mr;
      mret (Some (Cinfo mr.2 (u64 magic), magic, mr.1))
  end.

(** A failed poll for the last message is not noticed: the test looks at the status of the
    receive once more. *)
Definition ring_server_main : M W Z :=
  o ← server_offer;
  match o with
  | None => mret 1
  | Some (ci, magic, mr) =>
      ok ← kcall (kym_accept ci);
      if negb ok then mret 1 else
      wait ← kcall (kym_malloc 4);
      wait_mr ← kcall (reg_mr wait 4 false);
      wait_mr ← of_option wait_mr;
      ok ← kcall (post_recv 1 wait_mr.2 wait 4);
      if negb ok then mret 1 else
      _ ← kcall poll_recv;
      modify (dereg_mr wait_mr.1);;
      modify (kym_free wait);;
      modify (dereg_mr mr);;
      modify (free_magic_buffer magic ring_size);;
      ok ← kcall close_endpoint;
      if negb ok then mret 1 else
      ok ← kcall close_listener;
      if negb ok then mret 1 else mret 0
  end.
End server.

(** ** The client

    The remote writes it has posted are recorded: address, length and key. *)
Record ring_client (W : Type) := RingClient { rc_env : W; posted : list (Z * Z * Z) }.
Arguments RingClient {W} _ _.
Arguments rc_env {W} _.
Arguments posted {W} _.

Section client.
Context {W : Type} `{!Kym W}.
Implicit Types (s : ring_client W).

Definition rcall {A} (f : W → A * W) : M (ring_client W) A := λ s,
  let '(a, w) := f (rc_env s) in Done a (RingClient w (posted s)).

Definition msg_size : Z := 64.
Definition rounds : Z := 1000000.

(** One loop of [n] writes to the same place: [false] when a write cannot be posted.  A
    completion that cannot be polled is only reported. *)
Fixpoint write_loop (n : nat) (i lkey send raddr rkey : Z) : M (ring_client W) bool :=
  match n with
  | O => mret true
  | S n' =>
      ok ← rcall (post_write i lkey send msg_size raddr rkey);
      modify (λ s, RingClient (rc_env s) (posted s ++ [(raddr, msg_size, rkey)])%list);;
      if negb ok then mret false else
      _ ← rcall poll_send;
      write_loop n' (i + 1) lkey send raddr rkey
  end.

Definition ring_client_main : M (ring_client W) Z :=
  ok ← rcall (kym_dial ring_ip client_port);
  if negb ok then mret 1 else
  s ← get;
  let ci := connection_info (rc_env s) in
  send ← rcall (kym_malloc msg_size);
  send_mr ← rcall (reg_mr send msg_size false);
  send_mr ← of_option send_mr;
  ok ← write_loop (Z.to_nat rounds) 0 send_mr.2 send
         (u64 (magic_addr ci + 2 * 1024 * 1024)) (magic_key ci);
  if negb ok then mret 1 else
  ok ← write_loop (Z.to_nat rounds) 0 send_mr.2 send
         (u64 (magic_addr ci + 4 * 1024 * 1024 - 32)) (magic_key ci);
  if negb ok then mret 1 else
  ok ← rcall (post_immediate 1 4);
  if negb ok then mret 1 else
  _ ← rcall poll_send;
  ok ← rcall close_endpoint;
  if negb ok then mret 1 else mret 0.
End client.
