(* ===== verification/RingBufferProps.v ===== *)
(** * Properties of the ring buffer test *)
From S2P Require Import Prelude RingBuffer.
Local Open Scope Z_scope.

Section ring.
Context {W : Type} `{!Kym W}.

Lemma wp_kcall {A} (f : W → A * W) Q E w :
  (∀ a w', f w = (a, w') → Q a w') → wp (kcall f) Q E w.
Proof. intros Hf. unfold wp, kcall. destruct (f w) eqn:Hw. by apply Hf. Qed.

Lemma wp_rcall {A} (f : W → A * W) Q E s :
  (∀ a w', f (rc_env s) = (a, w') → Q a (RingClient w' (posted s))) → wp (rcall f) Q E s.
Proof. intros Hf. unfold wp, rcall. destruct (f (rc_env s)) eqn:Hw. by apply Hf. Qed.

(** A loop posts the same write every time, and all of them unless one is refused. *)
Lemma write_loop_posts n i lkey send raddr rkey s E :
  wp (write_loop n i lkey send raddr rkey) (λ b s', ∃ m,
    posted s' = (posted s ++ replicate m (raddr, msg_size, rkey))%list ∧
    (b = true → m = n)) E s.
Proof.
  revert i s. induction n as [|n IH]; intros i s; simpl.
  { apply wp_ret. exists O. by rewrite app_nil_r. }
  apply wp_bind, wp_rcall. intros ok w1 _. apply wp_seq, wp_modify. simpl.
  destruct ok; simpl; [|apply wp_ret; by exists 1%nat].
  apply wp_bind, wp_rcall. intros b w2 _. eapply wp_weaken; [apply IH|]. simpl.
  intros b' s' (m & -> & Hm). exists (S m). rewrite <-app_assoc. split; [done|].
  intros Hb. by rewrite (Hm Hb).
Qed.

(** The two writes of the client, from what it has been told: their addresses are computed
    in 64 bits. *)
Definition mid_write (ci : cinfo) : Z * Z * Z :=
  (u64 (magic_addr ci + ring_size / 2), msg_size, magic_key ci).

Definition edge_write (ci : cinfo) : Z * Z * Z :=
  (u64 (magic_addr ci + ring_size - msg_size / 2), msg_size, magic_key ci).

(** Where the writes are when the ring, mapped twice, fits the address space. *)
Lemma writes_inside ci : 0 ≤ magic_addr ci → magic_addr ci + 2 * ring_size ≤ 2 ^ 64 →
  let start := magic_addr ci in
  (start ≤ (mid_write ci).1.1 ∧ (mid_write ci).1.1 + msg_size ≤ start + ring_size) ∧
  (start ≤ (edge_write ci).1.1 < start + ring_size ∧
   start + ring_size < (edge_write ci).1.1 + msg_size ≤ start + 2 * ring_size).
Proof.
  unfold mid_write, edge_write. change (ring_size / 2) with 2097152.
  change (msg_size / 2) with 32. change ring_size with 4194304. change msg_size with 64.
  intros Ha Hb. cbn [fst snd]. rewrite !u64_small by lia. lia.
Qed.

(** Every run of the client returns 0 or 1; what it posts is a number of writes of the
    first kind and then a number of the second, as many as there are rounds when
    it returns 0. *)
Lemma client_posts w ci :
  connection_info (kym_dial ring_ip client_port w).2 = ci →
  (∀ a w', is_Some (reg_mr a msg_size false w').1) →
  wp ring_client_main (λ r s', (r = 0 ∨ r = 1) ∧ ∃ m n,
      posted s' = (replicate m (mid_write ci) ++ replicate n (edge_write ci))%list ∧
      (n = O ∨ m = Z.to_nat rounds) ∧
      (r = 0 → m = Z.to_nat rounds ∧ n = Z.to_nat rounds))
    (λ _ _, False) (RingClient w []).
Proof.
  intros Hci Hmr. unfold ring_client_main. generalize (Z.to_nat rounds). intros N.
  apply wp_bind, wp_rcall. simpl. intros ok w1 Hd.
  assert (connection_info w1 = ci) as Hw1 by (by rewrite Hd in Hci).
  destruct ok; [|apply wp_ret; split; [by right|]; exists O, O; naive_solver]. simpl.
  apply wp_bind, wp_get. cbv zeta. simpl. rewrite Hw1.
  apply wp_bind, wp_rcall. intros send w2 _.
  apply wp_bind, wp_rcall. intros mr w3 Hr. simpl in Hr.
  destruct (Hmr send w2) as [[h k] Hk]. rewrite Hr in Hk. simpl in Hk. subst mr.
  apply wp_bind. eapply wp_of_option; [done|]. simpl.
  change (u64 (magic_addr ci + 2 * 1024 * 1024)) with (mid_write ci).1.1.
  change (u64 (magic_addr ci + 4 * 1024 * 1024 - 32)) with (edge_write ci).1.1.
  apply wp_bind. eapply wp_weaken; [apply write_loop_posts|]. simpl.
  intros b s3 (m & Hm & Hmb).
  destruct b; [|apply wp_ret; split; [by right|]; exists m, O; rewrite app_nil_r; naive_solver].
  simpl. specialize (Hmb eq_refl) as ->.
  apply wp_bind. eapply wp_weaken; [apply write_loop_posts|]. simpl.
  intros b s4 (n & Hn & Hnb). rewrite Hm in Hn.
  destruct b; [|apply wp_ret; split; [by right|]; exists N, n; naive_solver]. simpl.
  apply wp_bind, wp_rcall. intros ok w5 _.
  destruct ok; [|apply wp_ret; split; [by right|]; exists N, n; naive_solver]. simpl.
  apply wp_bind, wp_rcall. intros b w6 _. apply wp_bind, wp_rcall. intros c w7 _.
  destruct c; apply wp_ret; (split; [by (left + right)|]; exists N, n; naive_solver).
Qed.

(** (C32) The client of the ring buffer test, whatever it is told when it connects: if it
    can register its message it ends with 0 or 1, and all it has asked to be posted, at
    whatever point it stops, is a number of writes to the middle of the ring followed by a number
    across the ring's end, none of the second before all of the first, and a million of both
    when it returns 0.  Every one of them uses the key it has been told; and when the ring,
    mapped twice, fits the address space, none leaves the two mappings, those that cross
    the end of the first included. *)
Theorem ring_client_posts (w : W) :
  (∀ a w', is_Some (reg_mr a msg_size false w').1) →
  let ci := connection_info (kym_dial ring_ip client_port w).2 in
  wp ring_client_main (λ r s', (r = 0 ∨ r = 1) ∧
      (∃ m n, posted s' = (replicate m (mid_write ci) ++ replicate n (edge_write ci))%list ∧
        (n = O ∨ m = Z.to_nat rounds) ∧
        (r = 0 → m = Z.to_nat rounds ∧ n = Z.to_nat rounds)) ∧
      (0 ≤ magic_addr ci → magic_addr ci + 2 * ring_size ≤ 2 ^ 64 →
       ∀ a len k, (a, len, k) ∈ posted s' → k = magic_key ci ∧
         magic_addr ci ≤ a ∧ a + len ≤ magic_addr ci + 2 * ring_size))
    (λ _ _, False) (RingClient w []).
Proof.
  intros Hmr ci. eapply wp_weaken; [by apply (client_posts w ci eq_refl)|].
  clearbody ci. assert (0 < ring_size) as Hpos by done.
  intros r s' (Hr & m & n & Hp & Hn & H0). split; [exact Hr|]. split; [by exists m, n|].
  intros Ha Hb a len k. rewrite Hp. destruct (writes_inside ci Ha Hb) as [Hm He].
  intros [[Hx _]%elem_of_replicate|[Hx _]%elem_of_replicate]%elem_of_app;
    injection Hx as -> -> ->; cbn [mid_write edge_write fst snd] in *; (split; [done|lia]).
Qed.
End ring.

(** ** A library in memory *)
Module RingDemo.

(** The next free address. *)
Record env := Env { brk : Z }.

Definition demo_ci : cinfo := Cinfo 7 4096.

#[global] Instance demo_kym : Kym env := {
  kym_listen _ _ w := (true, w);
  kym_dial _ _ w := (true, w);
  magic_buffer n w := (Some (brk w), Env (brk w + 2 * n));
  free_magic_buffer _ _ w := w;
  kym_malloc n w := (brk w, Env (brk w + n));
  kym_free _ w := w;
  reg_mr a n _ w := (Some (a, a), w);
  dereg_mr _ w := w;
  kym_accept _ w := (true, w);
  connection_info _ := demo_ci;
  post_recv _ _ _ _ w := (true, w);
  poll_recv w := (true, w);
  post_write _ _ _ _ _ _ w := (true, w);
  poll_send w := (true, w);
  post_immediate _ _ w := (true, w);
  close_endpoint w := (true, w);
  close_listener w := (true, w);
}.

Definition demo_env : env := Env 4096.
End RingDemo.

(** A client that is told of a ring at 4096. *)
Lemma ring_client_posts_witness :
  wp ring_client_main (λ r s', (r = 0 ∨ r = 1) ∧
      (∃ m n, posted s' = (replicate m (2101248, 64, 7) ++ replicate n (4198368, 64, 7))%list ∧
        (n = O ∨ m = Z.to_nat rounds) ∧
        (r = 0 → m = Z.to_nat rounds ∧ n = Z.to_nat rounds)) ∧
      ∀ a len k, (a, len, k) ∈ posted s' → k = 7 ∧ 4096 ≤ a ∧ a + len ≤ 4096 + 2 * ring_size)
    (λ _ _, False) (RingClient RingDemo.demo_env []).
Proof.
  eapply wp_weaken.
  - apply (ring_client_posts RingDemo.demo_env). intros a w'. by eexists.
  - intros r s' (Hr & Hp & Hin). split; [exact Hr|]. split; [exact Hp|].
    apply Hin; discriminate.
Defined.

(** The client dials a port that the server does not listen on. *)
Lemma ring_ports_differ : client_port ≠ server_port.
Proof. done. Qed.
